(** * A buddy page allocator beneath a slab allocator, behind kmalloc/kfree

    Shallow embedding of the combined buddy + slab allocator (the C program
    with [struct page], [MEM_MAP], [buddy_free_area], [slab_caches],
    [kmalloc] and [kfree]) and the properties of its specification.

    Modelling conventions.
    - C integers are [Z]. [unsigned long] and [size_t] are 64 bits wide and
      pointers are 8 bytes (LP64, as the program's [1UL], [%lu] and
      [memset(obj, 0, 8)] assume); wrap-around is written out where the
      program can reach it.
    - A [struct page *] is [option Z]: [None] is NULL and [Some pfn] is
      [&MEM_MAP[pfn]]. A [kmem_cache_t *] is likewise the index of the cache
      in [slab_caches]. A [void *] is an absolute address in [Z], 0 for NULL.
    - [MEM_MAP], [buddy_free_area], [slab_caches] and the arena are total
      functions on [Z]. The C arrays have 32768, 16, 7 and [MEM_SIZE]
      cells; an index outside them has no meaning in C, and the theorems
      below that need it carry the range as a hypothesis or derive it.
    - The anonymous union of [struct page] is modelled by separate fields.
      In C [order] shares its storage with [slab_cache], so that writing
      the slab fields destroys [order]. The model and the program agree as
      long as [order] is read from a descriptor on which it was written
      after the slab fields: the program reads [order] under
      [PG_free]/[PG_buddy] and the slab fields under [PG_slab], and a page
      changes sides in [cache_grow] and in the release of an emptied slab
      page. The one descriptor that says [PG_buddy] over slab fields is
      that of a released slab page absorbed by its buddy; only a [kfree] of
      an address in that page, a free of memory that is not held, reads its
      [order]. No property below reads [order] there. A page whose flags
      say [PG_slab] always has a cache recorded; [kmem_cache_free] returns
      [None] on a NULL cache, which the C program would dereference.
    - The arena is byte addressed; a pointer stored in it occupies 8 bytes,
      least significant first.
    - A loop whose trip count the program bounds is a structural recursion
      on that count. The two list scans (the [while] loops that follow [next]
      pointers up to a given page) have no bound in the program and take a [fuel]; [None] means the scan did
      not finish. The order search of [kmalloc] returns [None] where the C
      shift count reaches the width of [unsigned long]. *)

From Stdlib Require Import ZArith List Bool Lia.
Import ListNotations.
Open Scope Z_scope.

(** ** 1. Configuration *)

Definition MEM_SIZE : Z := 128 * 1024 * 1024.
Definition PAGE_SHIFT : Z := 12.
Definition PAGE_SIZE : Z := Z.shiftl 1 PAGE_SHIFT.
Definition MAX_ORDER : Z := 16.
Definition total_pages : Z := MEM_SIZE / PAGE_SIZE.

Definition PG_free : Z := 1.
Definition PG_buddy : Z := 2.
Definition PG_slab : Z := 4.

Definition SLAB_INDEX_COUNT : Z := 7.
Definition slab_sizes : list Z := [32; 64; 128; 256; 512; 1024; 2048].

(** Width of [unsigned long], [size_t] and of a pointer. *)
Definition WORD : Z := 2 ^ 64.

(** ** 2. Data structures *)

Record page := mkPage {
  flags : Z;
  next : option Z;
  order : Z;
  slab_cache : option Z;
  freelist : Z;
  active_objects : Z
}.

Record kmem_cache_t := mkCache {
  obj_size : Z;
  partial : option Z
}.

(** What the program prints, as far as the properties need it. *)
Inductive event :=
| BuddyInitMsg (pages : Z)
| SlabInitMsg
| NullFreelistMsg
| InvalidAddressMsg (ptr : Z)
| DoubleFreeMsg (ptr : Z) (fl : Z).

Record state := mkState {
  PHYS_MEM_START : Z;
  arena : Z -> Z;
  MEM_MAP : Z -> page;
  buddy_free_area : Z -> option Z;
  slab_caches : Z -> kmem_cache_t;
  console : list event
}.

Definition upd {A : Type} (f : Z -> A) (i : Z) (v : A) : Z -> A :=
  fun j => if j =? i then v else f j.

Definition set_page (s : state) (pfn : Z) (p : page) : state :=
  mkState (PHYS_MEM_START s) (arena s) (upd (MEM_MAP s) pfn p)
          (buddy_free_area s) (slab_caches s) (console s).

Definition set_area (s : state) (o : Z) (h : option Z) : state :=
  mkState (PHYS_MEM_START s) (arena s) (MEM_MAP s)
          (upd (buddy_free_area s) o h) (slab_caches s) (console s).

Definition set_cache (s : state) (c : Z) (k : kmem_cache_t) : state :=
  mkState (PHYS_MEM_START s) (arena s) (MEM_MAP s)
          (buddy_free_area s) (upd (slab_caches s) c k) (console s).

Definition set_arena (s : state) (m : Z -> Z) : state :=
  mkState (PHYS_MEM_START s) m (MEM_MAP s)
          (buddy_free_area s) (slab_caches s) (console s).

Definition printf (s : state) (e : event) : state :=
  mkState (PHYS_MEM_START s) (arena s) (MEM_MAP s)
          (buddy_free_area s) (slab_caches s) (console s ++ [e]).

(** Field assignments [page->f = v]. *)
Definition with_flags (p : page) (v : Z) : page :=
  mkPage v (next p) (order p) (slab_cache p) (freelist p) (active_objects p).
Definition with_next (p : page) (v : option Z) : page :=
  mkPage (flags p) v (order p) (slab_cache p) (freelist p) (active_objects p).
Definition with_order (p : page) (v : Z) : page :=
  mkPage (flags p) (next p) v (slab_cache p) (freelist p) (active_objects p).
Definition with_slab_cache (p : page) (v : option Z) : page :=
  mkPage (flags p) (next p) (order p) v (freelist p) (active_objects p).
Definition with_freelist (p : page) (v : Z) : page :=
  mkPage (flags p) (next p) (order p) (slab_cache p) v (active_objects p).
Definition with_active_objects (p : page) (v : Z) : page :=
  mkPage (flags p) (next p) (order p) (slab_cache p) (freelist p) v.

Definition with_partial (k : kmem_cache_t) (v : option Z) : kmem_cache_t :=
  mkCache (obj_size k) v.

(** [memset(MEM_MAP, 0, ...)]: every field of every descriptor is zero. *)
Definition zero_page : page := mkPage 0 None 0 None 0 0.

(** A [struct page **]: the address of a list head or of a [next] field. *)
Inductive pagepp :=
| AreaHead (o : Z)
| PartialHead (c : Z)
| NextOf (pfn : Z).

Definition load_pp (s : state) (pp : pagepp) : option Z :=
  match pp with
  | AreaHead o => buddy_free_area s o
  | PartialHead c => partial (slab_caches s c)
  | NextOf q => next (MEM_MAP s q)
  end.

Definition store_pp (s : state) (pp : pagepp) (v : option Z) : state :=
  match pp with
  | AreaHead o => set_area s o v
  | PartialHead c => set_cache s c (with_partial (slab_caches s c) v)
  | NextOf q => set_page s q (with_next (MEM_MAP s q) v)
  end.

(** The scan [while] the cell [prev] points to is neither NULL nor the
    target: [prev] moves to the [next] field of the page it points to. *)
Fixpoint seek (fuel : nat) (s : state) (prev : pagepp) (target : Z)
  : option pagepp :=
  match fuel with
  | O => None
  | S f =>
      match load_pp s prev with
      | Some q => if q =? target then Some prev
                  else seek f s (NextOf q) target
      | None => Some prev
      end
  end.

(** The scan, then the cell found, unless it holds NULL, receives
    [target->next]. *)
Definition unlink (fuel : nat) (s : state) (start : pagepp) (target : Z)
  : option state :=
  match seek fuel s start target with
  | None => None
  | Some prev =>
      match load_pp s prev with
      | Some _ => Some (store_pp s prev (next (MEM_MAP s target)))
      | None => Some s
      end
  end.

(** ** 3. Address translation *)

Definition virt_to_page (s : state) (addr : Z) : option Z :=
  if (addr <? PHYS_MEM_START s) || (PHYS_MEM_START s + MEM_SIZE <=? addr)
  then None
  else Some (Z.shiftr (addr - PHYS_MEM_START s) PAGE_SHIFT).

Definition page_address (s : state) (pfn : Z) : Z :=
  PHYS_MEM_START s + Z.shiftl pfn PAGE_SHIFT.

(** ** 4. Arena accesses *)

(** Reading the pointer stored at address [a]. *)
Definition load_ptr (m : Z -> Z) (a : Z) : Z :=
  m a + 256 * (m (a + 1) + 256 * (m (a + 2) + 256 * (m (a + 3)
      + 256 * (m (a + 4) + 256 * (m (a + 5) + 256 * (m (a + 6)
      + 256 * m (a + 7))))))).

(** Storing the pointer [v] at address [a]. *)
Definition store_ptr (m : Z -> Z) (a v : Z) : Z -> Z :=
  fun x => if (a <=? x) && (x <? a + 8)
           then (v / 256 ^ (x - a)) mod 256
           else m x.

Definition memset (m : Z -> Z) (a c n : Z) : Z -> Z :=
  fun x => if (a <=? x) && (x <? a + n) then c else m x.

(** ** 5. Buddy system *)

Definition clear_areas (s : state) : state :=
  mkState (PHYS_MEM_START s) (arena s) (MEM_MAP s)
          (fun i => if (0 <=? i) && (i <? MAX_ORDER) then None
                    else buddy_free_area s i)
          (slab_caches s) (console s).

Definition buddy_init (s : state) : state :=
  let s := clear_areas s in
  let base_page :=
    with_next (with_order (with_flags (MEM_MAP s 0) PG_free) (MAX_ORDER - 1))
              None in
  let s := set_page s 0 base_page in
  let s := set_area s (MAX_ORDER - 1) (Some 0) in
  printf s (BuddyInitMsg total_pages).

(** The inner loop of [alloc_pages]: [while (cur_order > order)], run
    [n = cur_order - order] times. *)
Fixpoint split (n : nat) (s : state) (pg : Z) (cur_order : Z) : state :=
  match n with
  | O => s
  | S n' =>
      let cur_order := cur_order - 1 in
      let buddy_pfn := pg + Z.shiftl 1 cur_order in
      let buddy :=
        with_next (with_order (with_flags (MEM_MAP s buddy_pfn) PG_free)
                              cur_order)
                  (buddy_free_area s cur_order) in
      let s := set_page s buddy_pfn buddy in
      let s := set_area s cur_order (Some buddy_pfn) in
      split n' s pg cur_order
  end.

(** The outer loop of [alloc_pages]: [while (cur_order < MAX_ORDER)], which
    runs at most [n = MAX_ORDER - order] times. *)
Fixpoint alloc_scan (n : nat) (s : state) (order0 cur_order : Z)
  : state * option Z :=
  match n with
  | O => (s, None)
  | S n' =>
      if cur_order <? MAX_ORDER then
        match buddy_free_area s cur_order with
        | Some pg =>
            let s := set_area s cur_order (next (MEM_MAP s pg)) in
            let s := split (Z.to_nat (cur_order - order0)) s pg cur_order in
            let p :=
              with_next (with_order (with_flags (MEM_MAP s pg) PG_buddy)
                                    order0)
                        None in
            (set_page s pg p, Some pg)
        | None => alloc_scan n' s order0 (cur_order + 1)
        end
      else (s, None)
  end.

Definition alloc_pages (s : state) (order0 : Z) : state * option Z :=
  alloc_scan (Z.to_nat (MAX_ORDER - order0)) s order0 order0.

(** The loop of [__free_pages]: [while (order < MAX_ORDER - 1)], which runs
    at most [n = MAX_ORDER - 1 - order] times. It returns the state, the
    PFN and the order at which the loop was left. *)
Fixpoint coalesce_loop (n : nat) (fuel : nat) (s : state) (pfn order0 : Z)
  : option (state * Z * Z) :=
  match n with
  | O => Some (s, pfn, order0)
  | S n' =>
      if order0 <? MAX_ORDER - 1 then
        let buddy_pfn := Z.lxor pfn (Z.shiftl 1 order0) in
        let buddy := MEM_MAP s buddy_pfn in
        if (Z.land (flags buddy) PG_free =? 0)
           || negb (order buddy =? order0)
        then Some (s, pfn, order0)
        else
          match unlink fuel s (AreaHead order0) buddy_pfn with
          | None => None
          | Some s =>
              let combined_pfn := Z.land pfn buddy_pfn in
              coalesce_loop n' fuel s combined_pfn (order0 + 1)
          end
      else Some (s, pfn, order0)
  end.

Definition __free_pages (fuel : nat) (s : state) (pfn order0 : Z)
  : option state :=
  match coalesce_loop (Z.to_nat (MAX_ORDER - 1 - order0)) fuel s pfn order0
  with
  | None => None
  | Some (s, pfn, order0) =>
      let p :=
        with_next (with_order (with_flags (MEM_MAP s pfn) PG_free) order0)
                  (buddy_free_area s order0) in
      let s := set_page s pfn p in
      Some (set_area s order0 (Some pfn))
  end.

(** ** 6. Slab allocator *)

Definition upd_page (s : state) (pfn : Z) (f : page -> page) : state :=
  set_page s pfn (f (MEM_MAP s pfn)).

Fixpoint slab_init_loop (sizes : list Z) (i : Z) (s : state) : state :=
  match sizes with
  | [] => s
  | sz :: rest => slab_init_loop rest (i + 1) (set_cache s i (mkCache sz None))
  end.

Definition slab_init (s : state) : state :=
  printf (slab_init_loop slab_sizes 0 s) SlabInitMsg.

(** The loop of [cache_grow]: [for (i = count - 1; i >= 0; i--)], with
    [n = i + 1] slots still to link. It returns the arena and the last
    [prev_obj_ptr]. *)
Fixpoint build_freelist (n : nat) (m : Z -> Z) (addr size prev_obj_ptr : Z)
  : (Z -> Z) * Z :=
  match n with
  | O => (m, prev_obj_ptr)
  | S i =>
      let obj := addr + Z.of_nat i * size in
      build_freelist i (store_ptr m obj prev_obj_ptr) addr size obj
  end.

(** [count] is [PAGE_SIZE / obj_size]; an [obj_size] of 0, which no
    configured cache has, would divide by zero in C and gives 0 slots
    here. *)
Definition cache_grow (s : state) (c : Z) : state * Z :=
  match alloc_pages s 0 with
  | (s, None) => (s, 0)
  | (s, Some pg) =>
      let s := upd_page s pg (fun p => with_flags p PG_slab) in
      let s := upd_page s pg (fun p => with_slab_cache p (Some c)) in
      let s := upd_page s pg (fun p => with_active_objects p 0) in
      let addr := page_address s pg in
      let count := PAGE_SIZE / obj_size (slab_caches s c) in
      let '(m, prev_obj_ptr) :=
        build_freelist (Z.to_nat count) (arena s) addr
                       (obj_size (slab_caches s c)) 0 in
      let s := set_arena s m in
      let s := upd_page s pg (fun p => with_freelist p prev_obj_ptr) in
      let s := upd_page s pg
                 (fun p => with_next p (partial (slab_caches s c))) in
      let s := set_cache s c (with_partial (slab_caches s c) (Some pg)) in
      (s, 1)
  end.

(** [kmem_cache_alloc] from its second statement on: the front page of the
    partial list serves the object. The list is not empty there, since
    [cache_grow] returned 1; an empty list would make the C program read
    through NULL, and the model returns NULL then. *)
Definition alloc_from_partial (s : state) (c : Z) : state * Z :=
  match partial (slab_caches s c) with
  | None => (s, 0)
  | Some pg =>
      if freelist (MEM_MAP s pg) =? 0
      then (printf s NullFreelistMsg, 0)
      else
        let obj := freelist (MEM_MAP s pg) in
        let s := upd_page s pg
                   (fun p => with_freelist p (load_ptr (arena s) obj)) in
        let s := upd_page s pg
                   (fun p => with_active_objects p (active_objects p + 1)) in
        let s :=
          if freelist (MEM_MAP s pg) =? 0 then
            let s := set_cache s c
                       (with_partial (slab_caches s c)
                                     (next (MEM_MAP s pg))) in
            upd_page s pg (fun p => with_next p None)
          else s in
        let s := set_arena s (memset (arena s) obj 0 8) in
        (s, obj)
  end.

Definition kmem_cache_alloc (s : state) (c : Z) : state * Z :=
  match partial (slab_caches s c) with
  | None =>
      let '(s, ok) := cache_grow s c in
      if ok =? 0 then (s, 0) else alloc_from_partial s c
  | Some _ => alloc_from_partial s c
  end.

Definition ptr_eqb (a b : option Z) : bool :=
  match a, b with
  | Some x, Some y => x =? y
  | None, None => true
  | _, _ => false
  end.

(** The last block of [kmem_cache_free]: the page has no active object
    left and goes back to the buddy system. *)
Definition release_slab_page (fuel : nat) (s : state) (c pg : Z)
  : option state :=
  let removed :=
    if ptr_eqb (partial (slab_caches s c)) (Some pg)
    then Some (set_cache s c (with_partial (slab_caches s c)
                                           (next (MEM_MAP s pg))))
    else unlink fuel s (PartialHead c) pg in
  match removed with
  | None => None
  | Some s =>
      let s := upd_page s pg (fun p => with_flags p PG_buddy) in
      __free_pages fuel s pg 0
  end.

(** The first three statements of [kmem_cache_free] after its guard: the
    object is linked in front of the free list of its page. *)
Definition slab_push (s : state) (pg obj : Z) : state :=
  let s := set_arena s (store_ptr (arena s) obj (freelist (MEM_MAP s pg))) in
  let s := upd_page s pg (fun p => with_freelist p obj) in
  upd_page s pg (fun p => with_active_objects p (active_objects p - 1)).

(** [if (page->active_objects == max_objs - 1)]: a page that was full goes
    back to the front of the partial list. *)
Definition slab_reinsert (s : state) (c pg : Z) : state :=
  let max_objs := PAGE_SIZE / obj_size (slab_caches s c) in
  if active_objects (MEM_MAP s pg) =? max_objs - 1 then
    let s := upd_page s pg
               (fun p => with_next p (partial (slab_caches s c))) in
    set_cache s c (with_partial (slab_caches s c) (Some pg))
  else s.

Definition kmem_cache_free (fuel : nat) (s : state) (obj : Z)
  : option state :=
  match virt_to_page s obj with
  | None => Some s
  | Some pg =>
      if Z.land (flags (MEM_MAP s pg)) PG_slab =? 0 then Some s
      else
        match slab_cache (MEM_MAP s pg) with
        | None => None
        | Some c =>
            let s := slab_push s pg obj in
            let s := slab_reinsert s c pg in
            if active_objects (MEM_MAP s pg) =? 0
            then release_slab_page fuel s c pg
            else Some s
        end
  end.

(** ** 7. Wrapper *)

(** The state [kmalloc_init] builds in an arena [malloc] placed at [base]
    with contents [m0]; the globals start zeroed, [MEM_MAP] is zeroed by
    [memset]. *)
Definition kmalloc_init (base : Z) (m0 : Z -> Z) : state :=
  let s := mkState base m0 (fun _ => zero_page) (fun _ => None)
                   (fun _ => mkCache 0 None) [] in
  slab_init (buddy_init s).

(** The loop over [slab_sizes] in [kmalloc]: the index of the first class
    that holds [size]. *)
Fixpoint size_class (sizes : list Z) (i : Z) (size : Z) : option Z :=
  match sizes with
  | [] => None
  | sz :: rest => if size <=? sz then Some i else size_class rest (i + 1) size
  end.

(** [while ((PAGE_SIZE << order) < size) order++;] with [n = 64 - order]:
    the shift is taken modulo [2^64], and a shift count of 64 has no
    defined result. *)
Fixpoint order_search (n : nat) (order0 size : Z) : option Z :=
  match n with
  | O => None
  | S n' =>
      if (Z.shiftl PAGE_SIZE order0) mod WORD <? size
      then order_search n' (order0 + 1) size
      else Some order0
  end.

Definition kmalloc (s : state) (size : Z) : option (state * Z) :=
  match size_class slab_sizes 0 size with
  | Some i => Some (kmem_cache_alloc s i)
  | None =>
      match order_search 64 0 size with
      | None => None
      | Some order0 =>
          match alloc_pages s order0 with
          | (s, None) => Some (s, 0)
          | (s, Some pg) => Some (s, page_address s pg)
          end
      end
  end.

Definition kfree (fuel : nat) (s : state) (ptr : Z) : option state :=
  if ptr =? 0 then Some s
  else
    match virt_to_page s ptr with
    | None => Some (printf s (InvalidAddressMsg ptr))
    | Some pg =>
        if negb (Z.land (flags (MEM_MAP s pg)) PG_slab =? 0)
        then kmem_cache_free fuel s ptr
        else if negb (Z.land (flags (MEM_MAP s pg)) PG_buddy =? 0)
        then __free_pages fuel s pg (order (MEM_MAP s pg))
        else Some (printf s (DoubleFreeMsg ptr (flags (MEM_MAP s pg))))
    end.

(** ** 8. Linked lists through [next]

    A free list or a partial list is the sequence of pages met from its
    head by following [next] up to NULL. *)

Definition nexts (s : state) : Z -> option Z :=
  fun q => next (MEM_MAP s q).

Fixpoint chain (nx : Z -> option Z) (h : option Z) (l : list Z) : Prop :=
  match l with
  | [] => h = None
  | p :: l' => h = Some p /\ chain nx (nx p) l'
  end.

(** The pages of the free list of order [o]. *)
Definition free_list (s : state) (o : Z) (l : list Z) : Prop :=
  chain (nexts s) (buddy_free_area s o) l.

(** The pages of the partial list of cache [c]. *)
Definition partial_list (s : state) (c : Z) (l : list Z) : Prop :=
  chain (nexts s) (partial (slab_caches s c)) l.

(** What a scan-and-unlink leaves alone. *)
Definition unlink_frame (s s' : state) (pp : pagepp) (l : list Z) : Prop :=
  PHYS_MEM_START s' = PHYS_MEM_START s /\
  arena s' = arena s /\
  console s' = console s /\
  (forall q, with_next (MEM_MAP s' q) None = with_next (MEM_MAP s q) None) /\
  (forall q, ~ In q l -> pp <> NextOf q -> MEM_MAP s' q = MEM_MAP s q) /\
  (forall o, pp <> AreaHead o -> buddy_free_area s' o = buddy_free_area s o) /\
  (forall c, pp <> PartialHead c -> slab_caches s' c = slab_caches s c) /\
  (forall c, obj_size (slab_caches s' c) = obj_size (slab_caches s c)).

(** ** 9. The coalescing loop in the words of the specification *)

(** [buddy_pfn = pfn XOR (1 << order)]. *)
Definition buddy_of (pfn o : Z) : Z := Z.lxor pfn (Z.shiftl 1 o).

(** A descriptor is Free when its [PG_free] bit is set. *)
Definition page_is_free (p : page) : Prop := Z.land (flags p) PG_free <> 0.

(** The values the program ever stores in [flags]. *)
Definition flags_known (p : page) : Prop :=
  flags p = 0 \/ flags p = PG_free \/ flags p = PG_buddy \/ flags p = PG_slab.

(** [s1] is [s] with page [b] taken out of the free list of order [o]. *)
Definition removed_from_free_list (s s1 : state) (o b : Z) : Prop :=
  exists l, free_list s o l /\
            free_list s1 o (remove Z.eq_dec b l) /\
            unlink_frame s s1 (AreaHead o) l.

(** Written from the specification: while the order is below
    [MAX_ORDER - 1] and the buddy is Free with the same recorded order, the
    buddy leaves its free list, the block becomes the one starting at the
    smaller of the two PFNs and the order grows by one; otherwise the loop
    stops. [coalesces s pfn o s' pfn' o'] relates the start of the loop to
    its end. *)
Inductive coalesces : state -> Z -> Z -> state -> Z -> Z -> Prop :=
| coalesce_stop s pfn o :
    ~ (o < MAX_ORDER - 1 /\
       page_is_free (MEM_MAP s (buddy_of pfn o)) /\
       order (MEM_MAP s (buddy_of pfn o)) = o) ->
    coalesces s pfn o s pfn o
| coalesce_merge s s1 s' pfn o pfn' o' :
    o < MAX_ORDER - 1 ->
    page_is_free (MEM_MAP s (buddy_of pfn o)) ->
    order (MEM_MAP s (buddy_of pfn o)) = o ->
    removed_from_free_list s s1 o (buddy_of pfn o) ->
    coalesces s1 (Z.min pfn (buddy_of pfn o)) (o + 1) s' pfn' o' ->
    coalesces s pfn o s' pfn' o'.

(** Every free list ends in NULL after fewer than [fuel] pages. *)
Definition lists_terminate (fuel : nat) (s : state) : Prop :=
  forall k, 0 <= k < MAX_ORDER ->
            exists l, free_list s k l /\ (length l < fuel)%nat.

(** ** 10. The order of a large request in the words of the specification *)

(** [o] is [ceil(log2(size / page_size))], and 0 when [size] is below a
    page: the least order whose block of [PAGE_SIZE * 2^o] bytes holds
    [size]. *)
Definition ceil_log2_pages (size o : Z) : Prop :=
  0 <= o /\ size <= PAGE_SIZE * 2 ^ o /\
  forall j, 0 <= j < o -> PAGE_SIZE * 2 ^ j < size.

(** [i] is the index of the smallest size class that holds [size]. *)
Definition smallest_class (size i : Z) : Prop :=
  0 <= i < SLAB_INDEX_COUNT /\
  size <= nth (Z.to_nat i) slab_sizes 0 /\
  forall j, 0 <= j < i -> nth (Z.to_nat j) slab_sizes 0 < size.

(** ** 11. A state to try the operations on *)

(** The state after [kmalloc_init], with the arena at address 65536 and
    filled with zeros. *)
Definition fresh_state : state := kmalloc_init 65536 (fun _ => 0).

(** ** 12. Blocks and the invariant of the buddy system *)

(** A block: the PFN of its first page and its order. *)
Definition block : Type := (Z * Z)%type.

Definition block_eq_dec (b1 b2 : block) : {b1 = b2} + {b1 <> b2}.
Proof. decide equality; apply Z.eq_dec. Defined.

(** Page [x] lies in block [b]. *)
Definition covers (b : block) (x : Z) : Prop :=
  fst b <= x < fst b + 2 ^ snd b.

(** A block of a legal order that starts at a multiple of its size and
    fits in the page frame table. *)
Definition aligned (b : block) : Prop :=
  0 <= snd b < MAX_ORDER /\ 0 <= fst b /\ fst b mod 2 ^ snd b = 0 /\
  fst b + 2 ^ snd b <= total_pages.

(** The blocks [Bs] tile the page frames: every page lies in exactly one. *)
Definition partition (Bs : block -> Prop) : Prop :=
  (forall b, Bs b -> aligned b) /\
  (forall b1 b2 x, Bs b1 -> Bs b2 -> covers b1 x -> covers b2 x -> b1 = b2) /\
  (forall x, 0 <= x < total_pages -> exists b, Bs b /\ covers b x).

(** The blocks of a state: those handed out ([A]), those on the free lists
    ([L o] lists the pages of the free list of order [o]) and the block an
    operation under way holds ([cur]). *)
Definition is_block (A : list block) (L : Z -> list Z) (cur : list block)
  (b : block) : Prop :=
  In b A \/ In b cur \/ (0 <= snd b < MAX_ORDER /\ In (fst b) (L (snd b))).

Record buddy_inv (s : state) (A : list block) (L : Z -> list Z)
  (cur : list block) : Prop := mk_buddy_inv {
  inv_chain : forall o, 0 <= o < MAX_ORDER -> free_list s o (L o);
  inv_free : forall o p, 0 <= o < MAX_ORDER -> In p (L o) ->
             flags (MEM_MAP s p) = PG_free /\ order (MEM_MAP s p) = o;
  inv_alloc : forall b, In b A ->
              Z.land (flags (MEM_MAP s (fst b))) PG_free = 0;
  inv_cur : forall b, In b cur -> ~ In b A /\ ~ In (fst b) (L (snd b));
  inv_part : partition (is_block A L cur);
  inv_nopair : forall o p, 0 <= o < MAX_ORDER - 1 -> In p (L o) ->
               ~ In (buddy_of p o) (L o)
}.

(** ** 13. Valid use of the buddy system *)

(** What the holder of allocated blocks (the slab layer, the caller) may
    do between two buddy operations: anything to the arena, the caches and
    the console, and to the descriptor of the first page of a block it
    holds as long as the descriptor is not marked Free. *)
Definition owner_step (A : list block) (s s' : state) : Prop :=
  (forall k, buddy_free_area s' k = buddy_free_area s k) /\
  (forall q, MEM_MAP s' q = MEM_MAP s q \/
             ((exists o, In (q, o) A) /\
              Z.land (flags (MEM_MAP s' q)) PG_free = 0)).

(** The states met from initialisation by allocations and by frees of
    blocks that are allocated at that moment, with the blocks handed out
    and not yet freed. *)
Inductive reachable : state -> list block -> Prop :=
| reach_init base m0 :
    reachable (kmalloc_init base m0) []
| reach_alloc s A o pg :
    reachable s A -> 0 <= o ->
    snd (alloc_pages s o) = Some pg ->
    reachable (fst (alloc_pages s o)) ((pg, o) :: A)
| reach_free s A fuel pg o s' :
    reachable s A -> In (pg, o) A ->
    __free_pages fuel s pg o = Some s' ->
    reachable s' (remove block_eq_dec (pg, o) A)
| reach_owner s A s' :
    reachable s A -> owner_step A s s' ->
    reachable s' A.

(** Page [p] is met from the list head [h] by following [next]. *)
Inductive reaches (nx : Z -> option Z) : option Z -> Z -> Prop :=
| reaches_here p : reaches nx (Some p) p
| reaches_next q p : reaches nx (nx q) p -> reaches nx (Some q) p.

(** Page [p] is present in the free list of order [o]. *)
Definition in_free_list (s : state) (o p : Z) : Prop :=
  reaches (nexts s) (buddy_free_area s o) p.

(** The state after page [T] is marked Free at order [j] and put at the
    front of the free list of order [j], as the inner loop of [alloc_pages]
    and the end of [__free_pages] do. *)
Definition pushed (s : state) (T j : Z) : state :=
  set_area
    (set_page s T
       (with_next (with_order (with_flags (MEM_MAP s T) PG_free) j)
                  (buddy_free_area s j)))
    j (Some T).

(** No two buddies of an order below [MAX_ORDER - 1] are both present in
    the free list of that order. *)
Definition no_buddy_pair (s : state) : Prop :=
  forall o p, 0 <= o < MAX_ORDER - 1 ->
    ~ (in_free_list s o p /\ in_free_list s o (buddy_of p o)).

(** The state after one page of order 0 was taken from [fresh_state]. *)
Definition one_page_state : state := fst (alloc_pages fresh_state 0).

(** No two buddies of an order below [MAX_ORDER - 1] are both marked Free
    with that order, whether they are on a list or not. *)
Definition no_free_buddies (s : state) : Prop :=
  forall o p, 0 <= o < MAX_ORDER - 1 ->
    ~ (page_is_free (MEM_MAP s p) /\ order (MEM_MAP s p) = o /\
       page_is_free (MEM_MAP s (buddy_of p o)) /\
       order (MEM_MAP s (buddy_of p o)) = o).

(** ** 14. Any sequence of calls *)

(** The states met from initialisation by calls of [kmalloc] and [kfree]
    with any arguments, valid or not. *)
Inductive call_reachable : state -> Prop :=
| calls_init base m0 :
    call_reachable (kmalloc_init base m0)
| calls_kmalloc s size s' ptr :
    call_reachable s -> 0 <= size < WORD ->
    kmalloc s size = Some (s', ptr) ->
    call_reachable s'
| calls_kfree s fuel ptr s' :
    call_reachable s ->
    kfree fuel s ptr = Some s' ->
    call_reachable s'.

(** One call, for building a run: the state is kept when the call has no
    result. *)
Definition do_kmalloc (s : state) (size : Z) : state * Z :=
  match kmalloc s size with
  | Some r => r
  | None => (s, 0)
  end.

Definition do_kfree (s : state) (ptr : Z) : state :=
  match kfree 64 s ptr with
  | Some s' => s'
  | None => s
  end.

(** A run with one block freed twice:
    [p = kmalloc(4096); q = kmalloc(8192); kfree(p); kfree(q); kfree(q);
     r = kmalloc(4096); t = kmalloc(4096); kfree(r); u = kmalloc(8192)]. *)
Definition double_free_run : state :=
  let '(s, p) := do_kmalloc fresh_state 4096 in
  let '(s, q) := do_kmalloc s 8192 in
  let s := do_kfree s p in
  let s := do_kfree s q in
  let s := do_kfree s q in
  let '(s, r) := do_kmalloc s 4096 in
  let '(s, t) := do_kmalloc s 4096 in
  let s := do_kfree s r in
  let '(s, u) := do_kmalloc s 8192 in
  s.



(** ** 15. The scenario of the program's [main] *)

(** [small = kmalloc(10); mid = kmalloc(200); large = kmalloc(10 MiB);
     kfree(mid); kfree(large); kfree(small)], with the three addresses. *)
Definition main_run : state * (Z * Z * Z) :=
  let '(s, small) := do_kmalloc fresh_state 10 in
  let '(s, mid) := do_kmalloc s 200 in
  let '(s, large) := do_kmalloc s (10 * 1024 * 1024) in
  let s := do_kfree s mid in
  let s := do_kfree s large in
  let s := do_kfree s small in
  (s, (small, mid, large)).

(** ** 16. Slab pages and valid use of the wrapper *)

(** The object size of cache [c] as [slab_sizes] configures it, and the
    number of slots of a page of that cache. *)
Definition csize (c : Z) : Z := nth (Z.to_nat c) slab_sizes 0.

Definition cap (c : Z) : Z := PAGE_SIZE / csize c.

(** The address of slot [i] of page [pg], for a cache of class [c]. *)
Definition slot (s : state) (pg c i : Z) : Z :=
  page_address s pg + i * csize c.

(** The in-band free list of a page: from the pointer [h] the objects at
    the addresses [l], each holding the address of the next one in its
    first 8 bytes, the last one holding NULL. *)
Fixpoint fl_chain (m : Z -> Z) (h : Z) (l : list Z) : Prop :=
  match l with
  | [] => h = 0
  | a :: l' => h = a /\ a <> 0 /\ fl_chain m (load_ptr m a) l'
  end.

(** The objects handed out and not yet given back, each with the size that
    was asked for. *)
Definition live_table : Type := list (Z * Z).

(** A slab page in order: its free list runs through distinct slots of the
    page, none of which is handed out, the other slots are handed out, and
    the count of active objects is their number. *)
Definition slab_page_ok (s : state) (Lv : live_table) (pg : Z) : Prop :=
  exists c fl,
    0 <= c < SLAB_INDEX_COUNT /\
    slab_cache (MEM_MAP s pg) = Some c /\
    NoDup fl /\ (forall i, In i fl -> 0 <= i < cap c) /\
    fl_chain (arena s) (freelist (MEM_MAP s pg)) (map (slot s pg c) fl) /\
    active_objects (MEM_MAP s pg) = cap c - Z.of_nat (length fl) /\
    (forall i size, In i fl -> ~ In (slot s pg c i, size) Lv) /\
    (forall i, 0 <= i < cap c -> ~ In i fl ->
       exists size, In (slot s pg c i, size) Lv).

(** An object handed out is the start of an allocated block marked
    [PG_buddy] that holds the size asked for, or a slot of an allocated
    page marked [PG_slab] whose cache holds the size asked for. *)
Definition live_ok (s : state) (A : list block) (ptr size : Z) : Prop :=
  (exists pg o, In (pg, o) A /\ flags (MEM_MAP s pg) = PG_buddy /\
      order (MEM_MAP s pg) = o /\ ptr = page_address s pg /\
      0 <= size <= PAGE_SIZE * 2 ^ o) \/
  (exists pg c i, In (pg, 0) A /\ flags (MEM_MAP s pg) = PG_slab /\
      slab_cache (MEM_MAP s pg) = Some c /\ 0 <= c < SLAB_INDEX_COUNT /\
      0 <= i < cap c /\ ptr = slot s pg c i /\ 0 <= size <= csize c).

(** The pages the partial list of cache [c] holds: the allocated pages of
    the cache that have a free slot. *)
Definition servable (s : state) (A : list block) (c pg : Z) : Prop :=
  In (pg, 0) A /\ flags (MEM_MAP s pg) = PG_slab /\
  slab_cache (MEM_MAP s pg) = Some c /\ freelist (MEM_MAP s pg) <> 0.

(** The invariant of the two layers together, with the allocated blocks [A]
    of the buddy system and the objects [Lv] handed out by the wrapper. *)
Record slab_inv (s : state) (A : list block) (Lv : live_table) : Prop :=
  mk_slab_inv {
  si_base : 0 < PHYS_MEM_START s /\ PHYS_MEM_START s + MEM_SIZE <= WORD;
  si_sizes : forall c, 0 <= c < SLAB_INDEX_COUNT ->
             obj_size (slab_caches s c) = csize c;
  si_reach : reachable s A;
  si_slab : forall pg o, In (pg, o) A -> flags (MEM_MAP s pg) = PG_slab ->
            o = 0 /\ slab_page_ok s Lv pg;
  si_live : forall ptr size, In (ptr, size) Lv -> live_ok s A ptr size;
  si_nodup : NoDup (map fst Lv);
  si_partial : forall c, 0 <= c < SLAB_INDEX_COUNT ->
     exists pl, partial_list s c pl /\
                forall pg, In pg pl <-> servable s A c pg;
  si_console : console s = [BuddyInitMsg total_pages; SlabInitMsg]
}.

(** An allocated block serves the caller: a page of a cache has an active
    object, any other block is an object the caller holds. Between two
    calls of the wrapper every allocated block does. *)
Definition used (s : state) (Lv : live_table) (b : block) : Prop :=
  (flags (MEM_MAP s (fst b)) = PG_slab /\
   active_objects (MEM_MAP s (fst b)) <> 0) \/
  (flags (MEM_MAP s (fst b)) = PG_buddy /\
   order (MEM_MAP s (fst b)) = snd b /\
   exists z, In (page_address s (fst b), z) Lv).

Definition in_use (s : state) (A : list block) (Lv : live_table) : Prop :=
  forall b, In b A -> used s Lv b.

(** The table without the object at [ptr]. *)
Definition drop_ptr (ptr : Z) (Lv : live_table) : live_table :=
  filter (fun e => negb (fst e =? ptr)) Lv.

(** Valid use of the wrapper: after [kmalloc_init] in an arena that
    [malloc] placed at a non-NULL address of the 64-bit address space, any
    [kmalloc]; [kfree] of NULL or of an address that [kmalloc] returned and
    that was not given back since; and writes of the caller within the
    bytes it asked for. The table lists the objects the caller holds. *)
Inductive valid_run : state -> live_table -> Prop :=
| run_init base m0 :
    0 < base -> base + MEM_SIZE <= WORD ->
    valid_run (kmalloc_init base m0) []
| run_kmalloc s Lv size s' ptr :
    valid_run s Lv -> 0 <= size < WORD ->
    kmalloc s size = Some (s', ptr) ->
    valid_run s' (if ptr =? 0 then Lv else (ptr, size) :: Lv)
| run_kfree s Lv fuel ptr size s' :
    valid_run s Lv -> In (ptr, size) Lv ->
    kfree fuel s ptr = Some s' ->
    valid_run s' (drop_ptr ptr Lv)
| run_kfree_null s Lv fuel s' :
    valid_run s Lv ->
    kfree fuel s 0 = Some s' ->
    valid_run s' Lv
| run_write s Lv ptr size x v :
    valid_run s Lv -> In (ptr, size) Lv -> ptr <= x < ptr + size ->
    valid_run (set_arena s (upd (arena s) x v)) Lv.

(** The slot numbers [0 .. n-1]. *)
Definition upto (n : nat) : list Z := map Z.of_nat (seq 0 n).

(** A state with two objects handed out: [kmalloc(100)], then
    [kmalloc(8192)], from [fresh_state]. *)
Definition busy_state : state :=
  fst (do_kmalloc (fst (do_kmalloc fresh_state 100)) 8192).

Definition busy_table : live_table := [(73728, 8192); (65536, 100)].

(** The state after two more small objects were asked for:
    [t = kmalloc(100); u = kmalloc(100)]. *)
Definition crowded_state : state :=
  fst (do_kmalloc (fst (do_kmalloc busy_state 100)) 100).
Definition crowded_table : live_table :=
  [(65792, 100); (65664, 100); (73728, 8192); (65536, 100)].

(** The state after one object took the whole arena:
    [r = kmalloc(MEM_SIZE)]. *)
Definition full_state : state := fst (do_kmalloc fresh_state MEM_SIZE).
Definition full_table : live_table := [(65536, MEM_SIZE)].

(** The state after both were given back:
    [kfree(p); kfree(q)]. *)
Definition idle_state : state :=
  do_kfree (do_kfree busy_state 65536) 73728.

(** * Properties *)

(** ** Function update *)

Lemma upd_same {A : Type} (f : Z -> A) i v : upd f i v i = v.
Proof. unfold upd. now rewrite Z.eqb_refl. Qed.

Lemma upd_other {A : Type} (f : Z -> A) i j v : j <> i -> upd f i v j = f j.
Proof. intro H. unfold upd. apply Z.eqb_neq in H. now rewrite H. Qed.

(** ** Chains *)

Lemma chain_unique nx : forall l l' h, chain nx h l -> chain nx h l' -> l = l'.
Proof.
  induction l as [|p l IH]; intros [|p' l'] h H H'; simpl in *; try congruence.
  - destruct H' as [H' _]. congruence.
  - destruct H as [H _]. congruence.
  - destruct H as [H1 H2], H' as [H1' H2'].
    assert (p = p') by congruence. subst p'. f_equal. eauto.
Qed.

Lemma chain_suffix nx : forall l1 h p l2,
  chain nx h (l1 ++ p :: l2) -> chain nx (Some p) (p :: l2).
Proof.
  induction l1 as [|q l1 IH]; intros h p l2 H; simpl in *.
  - destruct H as [_ H]. split; auto.
  - destruct H as [_ H]. eauto.
Qed.

Lemma chain_NoDup nx : forall l h, chain nx h l -> NoDup l.
Proof.
  induction l as [|p l IH]; intros h H; simpl in *.
  - constructor.
  - destruct H as [Hh Hl]. constructor; eauto.
    intro Hin. apply in_split in Hin. destruct Hin as (l1 & l2 & ->).
    pose proof (chain_suffix _ _ _ _ _ Hl) as Hs. simpl in Hs.
    destruct Hs as [_ Hs].
    pose proof (chain_unique _ _ _ _ Hl Hs) as E.
    apply (f_equal (@length Z)) in E. rewrite length_app in E. simpl in E. lia.
Qed.

Lemma chain_ext nx nx' : forall l h,
  (forall x, In x l -> nx' x = nx x) -> chain nx h l -> chain nx' h l.
Proof.
  induction l as [|p l IH]; intros h E H; simpl in *; auto.
  destruct H as [Hh Hl]. split; auto.
  rewrite E by auto. apply IH; auto.
Qed.

Lemma remove_notin : forall (l : list Z) x, ~ In x l -> remove Z.eq_dec x l = l.
Proof.
  induction l as [|y l IH]; intros x H; simpl; auto.
  destruct (Z.eq_dec x y) as [->|N].
  - exfalso. apply H. now left.
  - f_equal. apply IH. intro. apply H. now right.
Qed.

Lemma remove_length_le : forall (l : list Z) x,
  (length (remove Z.eq_dec x l) <= length l)%nat.
Proof.
  induction l as [|y l IH]; intros x; simpl; auto.
  destruct (Z.eq_dec x y); simpl; specialize (IH x); lia.
Qed.

Lemma in_remove_iff : forall (l : list Z) x y,
  In y (remove Z.eq_dec x l) <-> In y l /\ y <> x.
Proof.
  intros l x y. split.
  - intro H. apply in_remove in H. tauto.
  - intros [H N]. apply in_in_remove; auto.
Qed.

(** ** Scan and unlink *)

Lemma unlink_step fuel s pp target :
  unlink (S fuel) s pp target =
  match load_pp s pp with
  | Some q => if q =? target
              then Some (store_pp s pp (next (MEM_MAP s target)))
              else unlink fuel s (NextOf q) target
  | None => Some s
  end.
Proof.
  unfold unlink. simpl. destruct (load_pp s pp) as [q|] eqn:E.
  - destruct (q =? target) eqn:Eq.
    + now rewrite E.
    + reflexivity.
  - now rewrite E.
Qed.

Lemma load_store_pp s pp v : load_pp (store_pp s pp v) pp = v.
Proof.
  destruct pp; simpl; unfold upd; now rewrite Z.eqb_refl.
Qed.

Lemma store_pp_frame s pp v l :
  unlink_frame s (store_pp s pp v) pp l.
Proof.
  unfold unlink_frame.
  destruct pp as [o|c|q0]; simpl; repeat split; auto; intros.
  - rewrite upd_other; auto. congruence.
  - rewrite upd_other; auto. congruence.
  - unfold upd. destruct (c0 =? c) eqn:E; auto.
    apply Z.eqb_eq in E. subst. reflexivity.
  - unfold upd. destruct (q =? q0) eqn:E; auto.
    apply Z.eqb_eq in E. subst. reflexivity.
  - rewrite upd_other; auto. congruence.
Qed.

(** On a NULL-terminated list the scan finishes within the length of the
    list and the unlink leaves the list without the target. *)
Lemma unlink_chain : forall l fuel s pp target,
  chain (nexts s) (load_pp s pp) l ->
  (forall q, pp = NextOf q -> ~ In q l) ->
  (length l < fuel)%nat ->
  exists s', unlink fuel s pp target = Some s' /\
             chain (nexts s') (load_pp s' pp) (remove Z.eq_dec target l) /\
             unlink_frame s s' pp l.
Proof.
  induction l as [|q l IH]; intros fuel s pp target Hc Hpp Hf.
  - destruct fuel as [|fuel]; [simpl in Hf; lia|].
    simpl in Hc. exists s. rewrite unlink_step, Hc. simpl.
    repeat split; auto.
  - destruct fuel as [|fuel]; [simpl in Hf; lia|].
    pose proof (chain_NoDup _ _ _ Hc) as Hnd. inversion Hnd as [|? ? Hq Hnd']; subst.
    simpl in Hc. destruct Hc as [Hh Hl].
    rewrite unlink_step, Hh.
    destruct (q =? target) eqn:E.
    + apply Z.eqb_eq in E. subst target.
      exists (store_pp s pp (nexts s q)). split; [reflexivity|]. split.
      * rewrite load_store_pp. simpl.
        destruct (Z.eq_dec q q) as [_|N]; [|congruence].
        rewrite remove_notin by auto.
        eapply chain_ext; [|exact Hl].
        intros x Hx. unfold nexts.
        destruct pp as [o|c|q0]; simpl; auto.
        rewrite upd_other; auto.
        intro. subst x. apply (Hpp q0 eq_refl). now right.
      * apply store_pp_frame.
    + apply Z.eqb_neq in E.
      destruct (IH fuel s (NextOf q) target) as (s' & Hu & Hc' & Hfr).
      * exact Hl.
      * intros q' Eq. assert (q' = q) by congruence. subst q'. exact Hq.
      * simpl in Hf. lia.
      * exists s'. split; [exact Hu|].
        destruct Hfr as (F1 & F2 & F3 & F4 & F5 & F6 & F7 & F8).
        split.
        -- simpl. destruct (Z.eq_dec target q) as [->|_]; [congruence|].
           simpl. split; [|exact Hc'].
           destruct pp as [o|c|q0]; simpl.
           ++ rewrite F6; [exact Hh|congruence].
           ++ rewrite F7; [exact Hh|congruence].
           ++ rewrite F5; [exact Hh| |].
              ** intro Hin. apply (Hpp q0 eq_refl). now right.
              ** intro Eq. apply (Hpp q0 eq_refl). left. congruence.
        -- unfold unlink_frame. repeat split; auto.
           ++ intros x Hx Hn. apply F5.
              ** intro. apply Hx. now right.
              ** intro Eq. apply Hx. left. congruence.
           ++ intros o Ho. apply F6. congruence.
           ++ intros c Hc0. apply F7. congruence.
Qed.

(** What a completed scan-and-unlink did: nothing, or one store of
    [target->next] into a cell that held the target. *)
Lemma unlink_shape : forall fuel s pp target s',
  unlink fuel s pp target = Some s' ->
  s' = s \/
  exists pv, load_pp s pv = Some target /\
             s' = store_pp s pv (nexts s target).
Proof.
  induction fuel as [|fuel IH]; intros s pp target s' H.
  - discriminate.
  - rewrite unlink_step in H. destruct (load_pp s pp) as [q|] eqn:E.
    + destruct (q =? target) eqn:Eq.
      * apply Z.eqb_eq in Eq. subst q. inversion H; subst.
        right. exists pp. auto.
      * eauto.
    + inversion H. auto.
Qed.

Lemma chain_shrink nx X b : nx X = Some b ->
  forall n l h, (length l <= n)%nat -> chain nx h l ->
  exists l', chain (upd nx X (nx b)) h l' /\ (length l' <= length l)%nat.
Proof.
  intros HX. induction n as [|n IH]; intros l h Hn Hc.
  - destruct l; [|simpl in Hn; lia]. exists []. split; auto.
  - destruct l as [|p l0]; [exists []; split; auto|].
    simpl in Hc. destruct Hc as [Hh Hl]. simpl in Hn.
    destruct (Z.eq_dec p X) as [->|N].
    + rewrite HX in Hl. destruct l0 as [|b' l00]; [discriminate|].
      simpl in Hl. destruct Hl as [Hb Hl]. inversion Hb; subst b'.
      destruct (IH l00 (nx b)) as (l' & Hc' & Hlen); [simpl in Hn; lia|auto|].
      exists (X :: l'). split.
      * simpl. split; auto. now rewrite upd_same.
      * simpl. lia.
    + destruct (IH l0 (nx p)) as (l' & Hc' & Hlen); [lia|auto|].
      exists (p :: l'). split.
      * simpl. split; auto. now rewrite upd_other.
      * simpl. lia.
Qed.

Lemma unlink_lists_terminate fuel fuel' s pp target s' :
  lists_terminate fuel s ->
  unlink fuel' s pp target = Some s' ->
  lists_terminate fuel s'.
Proof.
  intros HT H k Hk. destruct (HT k Hk) as (l & Hc & Hlen).
  apply unlink_shape in H. destruct H as [->|(pv & Hpv & ->)]; [eauto|].
  unfold free_list in *.
  destruct pv as [o|c|X]; simpl in *.
  - destruct (Z.eq_dec k o) as [->|N].
    + rewrite upd_same. rewrite Hpv in Hc.
      destruct l as [|t l0]; [discriminate|]. simpl in Hc.
      destruct Hc as [Ht Hc]. inversion Ht; subst t.
      exists l0. split; [exact Hc|simpl in Hlen; lia].
    + rewrite upd_other by auto. eauto.
  - eauto.
  - destruct (chain_shrink (nexts s) X target Hpv (length l) l _ (le_n _) Hc)
      as (l' & Hc' & Hlen').
    exists l'. split; [|lia].
    eapply chain_ext; [|exact Hc'].
    intros x _. unfold nexts, upd. simpl. unfold upd.
    destruct (x =? X); reflexivity.
Qed.

(** ** Buddy arithmetic *)

Lemma shiftl_1 o : 0 <= o -> Z.shiftl 1 o = 2 ^ o.
Proof. intro. rewrite Z.shiftl_mul_pow2 by auto. lia. Qed.

Lemma land_pow2_clear p o :
  0 <= o -> Z.testbit p o = false -> Z.land p (2 ^ o) = 0.
Proof.
  intros Ho Hb. apply Z.bits_inj'. intros i Hi.
  rewrite Z.land_spec, Z.bits_0, Z.pow2_bits_eqb by auto.
  destruct (Z.eqb_spec o i) as [->|N];
    [now rewrite Hb | now rewrite andb_false_r].
Qed.

Lemma lxor_pow2_bit p o :
  0 <= o -> Z.testbit (Z.lxor p (2 ^ o)) o = negb (Z.testbit p o).
Proof.
  intros Ho. rewrite Z.lxor_spec, Z.pow2_bits_true by auto.
  now rewrite xorb_true_r.
Qed.

(** The buddy lies [2^o] above when bit [o] of the PFN is clear and [2^o]
    below when it is set; the bitwise AND of the two is the lower one. *)
Lemma buddy_cases p o : 0 <= o ->
  (Z.testbit p o = false /\ Z.lxor p (2 ^ o) = p + 2 ^ o /\
   Z.land p (Z.lxor p (2 ^ o)) = p) \/
  (Z.testbit p o = true /\ Z.lxor p (2 ^ o) = p - 2 ^ o /\
   Z.land p (Z.lxor p (2 ^ o)) = p - 2 ^ o).
Proof.
  intros Ho.
  assert (Hland : forall q, Z.testbit q o = false ->
                            Z.lxor q (2 ^ o) = q + 2 ^ o).
  { intros q Hq. symmetry. apply Z.add_nocarry_lxor.
    now apply land_pow2_clear. }
  assert (Hand : Z.land p (Z.lxor p (2 ^ o)) = Z.ldiff p (2 ^ o)).
  { apply Z.bits_inj'. intros i Hi.
    rewrite Z.land_spec, Z.lxor_spec, Z.ldiff_spec, Z.pow2_bits_eqb by auto.
    destruct (Z.testbit p i), (o =? i); reflexivity. }
  destruct (Z.testbit p o) eqn:Hb.
  - right. split; auto.
    set (q := Z.lxor p (2 ^ o)).
    assert (Hq : Z.testbit q o = false).
    { unfold q. rewrite lxor_pow2_bit by auto. now rewrite Hb. }
    assert (E : Z.lxor q (2 ^ o) = p).
    { unfold q. rewrite Z.lxor_assoc, Z.lxor_nilpotent, Z.lxor_0_r.
      reflexivity. }
    rewrite (Hland q Hq) in E.
    assert (Eq : q = p - 2 ^ o) by lia.
    split; [exact Eq|].
    rewrite <- Eq. unfold q. rewrite Hand. apply Z.bits_inj'. intros i Hi.
    rewrite Z.ldiff_spec, Z.lxor_spec, Z.pow2_bits_eqb by auto.
    destruct (Z.eqb_spec o i) as [->|N]; [now rewrite Hb|].
    now rewrite andb_true_r, xorb_false_r.
  - left. split; auto. split; [now apply Hland|].
    rewrite Hand. apply Z.bits_inj'. intros i Hi.
    rewrite Z.ldiff_spec, Z.pow2_bits_eqb by auto.
    destruct (Z.eqb_spec o i) as [->|N];
      [now rewrite Hb | now rewrite andb_true_r].
Qed.

Lemma land_buddy_min p o :
  0 <= o -> Z.land p (buddy_of p o) = Z.min p (buddy_of p o).
Proof.
  intro Ho. unfold buddy_of. rewrite shiftl_1 by auto.
  assert (0 < 2 ^ o) by (apply Z.pow_pos_nonneg; lia).
  destruct (buddy_cases p o Ho) as [(_ & E1 & E2)|(_ & E1 & E2)];
    rewrite E2, E1; lia.
Qed.

(** Among the values the program stores in [flags], only [PG_free] has
    the [PG_free] bit. *)
Lemma page_is_free_iff p : flags_known p -> (page_is_free p <-> flags p = PG_free).
Proof.
  unfold flags_known, page_is_free.
  intros [E|[E|[E|E]]]; rewrite E; unfold PG_free, PG_buddy, PG_slab;
    simpl; split; intro H; try congruence; try lia.
Qed.

(** ** The loop of [__free_pages] *)

Lemma coalesce_loop_spec : forall n fuel s pfn o,
  n = Z.to_nat (MAX_ORDER - 1 - o) ->
  0 <= o ->
  lists_terminate fuel s ->
  exists s1 pfn' o',
    coalesce_loop n fuel s pfn o = Some (s1, pfn', o') /\
    coalesces s pfn o s1 pfn' o' /\
    o <= o' /\ (o' < MAX_ORDER \/ o' = o) /\
    lists_terminate fuel s1.
Proof.
  induction n as [|n IH]; intros fuel s pfn o Hn Ho HT.
  - exists s, pfn, o. cbn [coalesce_loop]. repeat split; auto; try lia.
    apply coalesce_stop. intros (Hlt & _). unfold MAX_ORDER in *. lia.
  - cbn [coalesce_loop]. destruct (o <? MAX_ORDER - 1) eqn:Hlt.
    2:{ apply Z.ltb_ge in Hlt. unfold MAX_ORDER in *. lia. }
    apply Z.ltb_lt in Hlt.
    fold (buddy_of pfn o).
    destruct ((Z.land (flags (MEM_MAP s (buddy_of pfn o))) PG_free =? 0)
              || negb (order (MEM_MAP s (buddy_of pfn o)) =? o)) eqn:Hc.
    + exists s, pfn, o. repeat split; auto; try lia.
      apply coalesce_stop. intros (_ & Hf & Hord).
      apply orb_true_iff in Hc. destruct Hc as [Hc|Hc].
      * apply Z.eqb_eq in Hc. apply Hf. exact Hc.
      * apply negb_true_iff, Z.eqb_neq in Hc. auto.
    + apply orb_false_iff in Hc. destruct Hc as [Hf Hord].
      apply Z.eqb_neq in Hf. apply negb_false_iff, Z.eqb_eq in Hord.
      assert (Hk : 0 <= o < MAX_ORDER) by (unfold MAX_ORDER in *; lia).
      destruct (HT o Hk) as (l & Hl & Hlen).
      destruct (unlink_chain l fuel s (AreaHead o) (buddy_of pfn o))
        as (s1 & Hu & Hc1 & Hfr); auto.
      { intros q Eq. discriminate. }
      rewrite Hu.
      destruct (IH fuel s1 (Z.land pfn (buddy_of pfn o)) (o + 1))
        as (s2 & pfn' & o' & Hloop & Hco & Hle & Hlt' & HT2).
      { unfold MAX_ORDER in *. lia. }
      { lia. }
      { eapply unlink_lists_terminate; eauto. }
      exists s2, pfn', o'. split; [exact Hloop|].
      split.
      * eapply coalesce_merge; eauto.
        -- exists l. split; [exact Hl|]. split; [exact Hc1|exact Hfr].
        -- rewrite <- land_buddy_min by auto. exact Hco.
      * repeat split; auto; try lia.
Qed.

(** C1. Freeing the block headed by [pfn] at order [o], with
    [0 <= o < MAX_ORDER], on free lists that end in NULL: the loop of
    [__free_pages] runs as the specification words it ([coalesces]: while
    the order is below [MAX_ORDER - 1], the buddy is [pfn XOR (1 << order)];
    a buddy that is Free with the same recorded order leaves its free list,
    the block continues at the smaller PFN and one order higher; otherwise
    the loop stops), and the block it ends on is marked [PG_free] with the
    final order and put at the front of the free list of that order. *)
Theorem free_pages_coalesces fuel s pfn o :
  0 <= o < MAX_ORDER ->
  lists_terminate fuel s ->
  exists s1 pfn' o' s',
    coalesces s pfn o s1 pfn' o' /\
    __free_pages fuel s pfn o = Some s' /\
    o <= o' < MAX_ORDER /\
    flags (MEM_MAP s' pfn') = PG_free /\
    order (MEM_MAP s' pfn') = o' /\
    buddy_free_area s' o' = Some pfn' /\
    next (MEM_MAP s' pfn') = buddy_free_area s1 o' /\
    (forall q, q <> pfn' -> MEM_MAP s' q = MEM_MAP s1 q) /\
    (forall k, k <> o' -> buddy_free_area s' k = buddy_free_area s1 k) /\
    arena s' = arena s1 /\ slab_caches s' = slab_caches s1 /\
    console s' = console s1.
Proof.
  intros Ho HT.
  destruct (coalesce_loop_spec (Z.to_nat (MAX_ORDER - 1 - o)) fuel s pfn o)
    as (s1 & pfn' & o' & Hloop & Hco & Hle & Hlt & _); auto; try lia.
  exists s1, pfn', o'. eexists. split; [exact Hco|].
  unfold __free_pages. rewrite Hloop. split; [reflexivity|].
  simpl. rewrite !upd_same. simpl.
  repeat split; auto; try lia.
  intros q Hq. now rewrite upd_other.
  intros k Hk. now rewrite upd_other.
Qed.

Lemma init_lists_terminate base m0 :
  lists_terminate 2 (kmalloc_init base m0).
Proof.
  intros k Hk. unfold free_list.
  destruct (Z.eq_dec k 15) as [->|N].
  - exists [0]. split; [|simpl; lia]. simpl. auto.
  - exists []. split; [|simpl; lia]. cbn.
    unfold upd. apply Z.eqb_neq in N. rewrite N.
    destruct ((0 <=? k) && (k <? MAX_ORDER)); reflexivity.
Qed.

(** In the state after one page was taken every free list below the top
    order holds one block, the half split off at that order. *)
Lemma one_page_lists_terminate : lists_terminate 2 one_page_state.
Proof.
  intros k Hk.
  destruct (Z.eq_dec k 15) as [->|N].
  - exists []. split; [|simpl; lia]. vm_compute. reflexivity.
  - exists [2 ^ k]. split; [|simpl; lia].
    assert (E : k = 0 \/ k = 1 \/ k = 2 \/ k = 3 \/ k = 4 \/ k = 5 \/ k = 6 \/
                k = 7 \/ k = 8 \/ k = 9 \/ k = 10 \/ k = 11 \/ k = 12 \/
                k = 13 \/ k = 14) by (unfold MAX_ORDER in Hk; lia).
    repeat (destruct E as [->|E]; [vm_compute; split; reflexivity|]).
    subst k. vm_compute. split; reflexivity.
Qed.

(** Freeing that page merges all the way up: the one free block left is
    the whole arena. *)
Lemma one_page_free_result s' k p :
  __free_pages 2 one_page_state 0 0 = Some s' ->
  0 <= k < MAX_ORDER -> buddy_free_area s' k = Some p -> k = 15 /\ p = 0.
Proof.
  intros Hf Hk Hp.
  assert (E : match __free_pages 2 one_page_state 0 0 with
              | Some s =>
                  forallb (fun j => match buddy_free_area s j with
                                    | None => true
                                    | Some _ => false
                                    end) (map Z.of_nat (seq 0 15))
                  && match buddy_free_area s 15 with
                     | Some q => q =? 0
                     | None => false
                     end
              | None => false
              end = true)
    by (vm_compute; reflexivity).
  rewrite Hf in E. apply andb_prop in E. destruct E as [E1 E2].
  destruct (Z.eq_dec k 15) as [->|N].
  - split; auto. rewrite Hp in E2. now apply Z.eqb_eq in E2.
  - exfalso. rewrite forallb_forall in E1.
    specialize (E1 k). rewrite Hp in E1.
    assert (Hin : In k (map Z.of_nat (seq 0 15))).
    { apply in_map_iff. exists (Z.to_nat k). unfold MAX_ORDER in Hk.
      split; [lia|]. apply in_seq. lia. }
    specialize (E1 Hin). discriminate.
Qed.

Lemma free_pages_coalesces_witness :
  page_is_free (MEM_MAP one_page_state (buddy_of 0 0)) /\
  order (MEM_MAP one_page_state (buddy_of 0 0)) = 0 /\
  exists s1 s',
    coalesces one_page_state 0 0 s1 0 15 /\
    __free_pages 2 one_page_state 0 0 = Some s' /\
    0 <= 15 < MAX_ORDER /\
    flags (MEM_MAP s' 0) = PG_free /\
    order (MEM_MAP s' 0) = 15 /\
    buddy_free_area s' 15 = Some 0 /\
    next (MEM_MAP s' 0) = buddy_free_area s1 15 /\
    (forall q, q <> 0 -> MEM_MAP s' q = MEM_MAP s1 q) /\
    (forall k, k <> 15 -> buddy_free_area s' k = buddy_free_area s1 k) /\
    arena s' = arena s1 /\ slab_caches s' = slab_caches s1 /\
    console s' = console s1.
Proof.
  split; [vm_compute; discriminate|]. split; [vm_compute; reflexivity|].
  destruct (free_pages_coalesces 2 one_page_state 0 0)
    as (s1 & pfn' & o' & s' & H).
  - unfold MAX_ORDER. lia.
  - apply one_page_lists_terminate.
  - destruct H as (H1 & H2 & H3 & H4).
    destruct (one_page_free_result s' o' pfn' H2) as [-> ->].
    + unfold MAX_ORDER in *. lia.
    + apply H4.
    + exists s1, s'. split; [exact H1|]. split; [exact H2|].
      split; [exact H3|]. exact H4.
Defined.

(** ** [alloc_pages] *)

(** The descriptor of a half pushed on the free list of order [j]. *)
Lemma pow2_lt_inj j j' : 0 <= j -> 0 <= j' -> 2 ^ j = 2 ^ j' -> j = j'.
Proof.
  intros Hj Hj' E.
  destruct (Z.lt_trichotomy j j') as [L|[L|L]]; auto.
  - assert (2 ^ j < 2 ^ j') by (apply Z.pow_lt_mono_r; lia). lia.
  - assert (2 ^ j' < 2 ^ j) by (apply Z.pow_lt_mono_r; lia). lia.
Qed.

Lemma split_spec : forall n s pg cur,
  0 <= cur - Z.of_nat n ->
  let s' := split n s pg cur in
  (forall j, cur - Z.of_nat n <= j < cur ->
     MEM_MAP s' (pg + 2 ^ j) =
       with_next (with_order (with_flags (MEM_MAP s (pg + 2 ^ j)) PG_free) j)
                 (buddy_free_area s j) /\
     buddy_free_area s' j = Some (pg + 2 ^ j)) /\
  (forall q, (forall j, cur - Z.of_nat n <= j < cur -> q <> pg + 2 ^ j) ->
     MEM_MAP s' q = MEM_MAP s q) /\
  (forall k, ~ (cur - Z.of_nat n <= k < cur) ->
     buddy_free_area s' k = buddy_free_area s k) /\
  arena s' = arena s /\ slab_caches s' = slab_caches s /\
  console s' = console s /\ PHYS_MEM_START s' = PHYS_MEM_START s.
Proof.
  induction n as [|n IH]; intros s pg cur Hlo.
  - simpl. repeat split; auto; intros; lia.
  - cbn [split]. cbv zeta.
    set (s2 := set_area (set_page s (pg + Z.shiftl 1 (cur - 1)) _)
                        (cur - 1) _).
    assert (Hlo' : 0 <= cur - 1 - Z.of_nat n) by lia.
    assert (Elo : cur - 1 - Z.of_nat n = cur - Z.of_nat (S n)) by lia.
    destruct (IH s2 pg (cur - 1) Hlo')
      as (H1 & H2 & H3 & H4 & H5 & H6 & H7).
    rewrite Elo in *.
    assert (Hsh : Z.shiftl 1 (cur - 1) = 2 ^ (cur - 1))
      by (apply shiftl_1; lia).
    split; [|split; [|split; [|split; [|split; [|split]]]]].
    + intros j Hj. split.
      * destruct (Z.eq_dec j (cur - 1)) as [->|N].
        -- rewrite H2.
           ++ unfold s2. simpl. rewrite Hsh, upd_same. reflexivity.
           ++ intros j' Hj' E.
              assert (E2 : 2 ^ (cur - 1) = 2 ^ j') by lia.
              apply pow2_lt_inj in E2; lia.
        -- destruct (H1 j) as [E _]; [lia|]. rewrite E.
           unfold s2. simpl. rewrite Hsh.
           rewrite !upd_other; auto; try lia.
           intro E'. assert (E2 : 2 ^ j = 2 ^ (cur - 1)) by lia.
           apply pow2_lt_inj in E2; lia.
      * destruct (Z.eq_dec j (cur - 1)) as [->|N].
        -- rewrite H3 by lia. unfold s2. simpl. rewrite upd_same, Hsh.
           reflexivity.
        -- destruct (H1 j) as [_ E]; [lia|]. exact E.
    + intros q Hq. rewrite H2.
      * unfold s2. simpl. rewrite upd_other; auto.
        rewrite Hsh. apply Hq. lia.
      * intros j Hj. apply Hq. lia.
    + intros k Hk. rewrite H3 by lia. unfold s2. simpl.
      rewrite upd_other; auto. lia.
    + rewrite H4. reflexivity.
    + rewrite H5. reflexivity.
    + rewrite H6. reflexivity.
    + rewrite H7. reflexivity.
Qed.

(** The scan stops at the first non-empty list of order [cur] or above. *)
Lemma alloc_scan_found : forall n s o cur k pg,
  (Z.to_nat (MAX_ORDER - cur) <= n)%nat ->
  cur <= k < MAX_ORDER ->
  (forall j, cur <= j < k -> buddy_free_area s j = None) ->
  buddy_free_area s k = Some pg ->
  alloc_scan n s o cur =
    (let s1 := set_area s k (next (MEM_MAP s pg)) in
     let s2 := split (Z.to_nat (k - o)) s1 pg k in
     set_page s2 pg
       (with_next (with_order (with_flags (MEM_MAP s2 pg) PG_buddy) o) None),
     Some pg).
Proof.
  induction n as [|n IH]; intros s o cur k pg Hn Hk Hempty Hpg.
  - unfold MAX_ORDER in *. lia.
  - cbn [alloc_scan].
    assert (Hlt : (cur <? MAX_ORDER) = true) by (apply Z.ltb_lt; lia).
    rewrite Hlt.
    destruct (Z.eq_dec cur k) as [->|N].
    + rewrite Hpg. reflexivity.
    + rewrite (Hempty cur) by lia.
      apply IH; auto; try lia.
      intros j Hj. apply Hempty. lia.
Qed.

Lemma alloc_scan_none : forall n s o cur,
  (forall k, cur <= k < MAX_ORDER -> buddy_free_area s k = None) ->
  alloc_scan n s o cur = (s, None).
Proof.
  induction n as [|n IH]; intros s o cur Hempty; cbn [alloc_scan]; auto.
  destruct (cur <? MAX_ORDER) eqn:Hlt; auto.
  apply Z.ltb_lt in Hlt.
  rewrite (Hempty cur) by lia. apply IH. intros k Hk. apply Hempty. lia.
Qed.

(** Some list at or above [cur] is non-empty, or all of them are empty. *)
Lemma first_nonempty : forall n s cur,
  n = Z.to_nat (MAX_ORDER - cur) ->
  (forall k, cur <= k < MAX_ORDER -> buddy_free_area s k = None) \/
  (exists k pg, cur <= k < MAX_ORDER /\
                (forall j, cur <= j < k -> buddy_free_area s j = None) /\
                buddy_free_area s k = Some pg).
Proof.
  induction n as [|n IH]; intros s cur Hn.
  - left. intros k Hk. lia.
  - destruct (buddy_free_area s cur) as [pg|] eqn:E.
    + right. exists cur, pg. repeat split; auto; try lia.
    + destruct (IH s (cur + 1)) as [H|(k & pg & Hk & He & Hp)]; [lia| |].
      * left. intros k Hk. destruct (Z.eq_dec k cur) as [->|N]; auto.
        apply H. lia.
      * right. exists k, pg. repeat split; auto; try lia.
        intros j Hj. destruct (Z.eq_dec j cur) as [->|N]; auto.
        apply He. lia.
Qed.

(** C2. [alloc_pages] at a requested order [o]: it fails exactly when every
    free list of order [o .. MAX_ORDER-1] is empty or [o >= MAX_ORDER], and
    then changes nothing; otherwise it takes the head [pg] of the first
    non-empty list, of order [k], and halves it down to [o]: for every
    order [j] from [k-1] down to [o] the page [pg + (1 << j)] is marked
    [PG_free] with order [j] and is the head of the free list of order [j];
    the page [pg] itself is marked [PG_buddy] with order [o], and the free
    list of order [k] continues at what followed [pg]. *)
Theorem alloc_pages_first_fit s o :
  0 <= o ->
  (snd (alloc_pages s o) = None <->
     (forall k, o <= k < MAX_ORDER -> buddy_free_area s k = None) \/
     MAX_ORDER <= o) /\
  (snd (alloc_pages s o) = None -> fst (alloc_pages s o) = s) /\
  (forall k pg,
     o <= k < MAX_ORDER ->
     (forall j, o <= j < k -> buddy_free_area s j = None) ->
     buddy_free_area s k = Some pg ->
     let s' := fst (alloc_pages s o) in
     snd (alloc_pages s o) = Some pg /\
     (forall j, o <= j < k ->
        MEM_MAP s' (pg + Z.shiftl 1 j) =
          with_next (with_order
                       (with_flags (MEM_MAP s (pg + Z.shiftl 1 j)) PG_free) j)
                    None /\
        buddy_free_area s' j = Some (pg + Z.shiftl 1 j)) /\
     MEM_MAP s' pg =
       with_next (with_order (with_flags (MEM_MAP s pg) PG_buddy) o) None /\
     buddy_free_area s' k = next (MEM_MAP s pg) /\
     (forall q, q <> pg -> (forall j, o <= j < k -> q <> pg + Z.shiftl 1 j) ->
        MEM_MAP s' q = MEM_MAP s q) /\
     (forall i, ~ (o <= i <= k) -> buddy_free_area s' i = buddy_free_area s i)).
Proof.
  intros Ho.
  destruct (first_nonempty (Z.to_nat (MAX_ORDER - o)) s o eq_refl)
    as [Hnone|(k0 & pg0 & Hk0 & He0 & Hp0)].
  - pose proof (alloc_scan_none (Z.to_nat (MAX_ORDER - o)) s o o Hnone) as E.
    unfold alloc_pages. rewrite E. cbn [fst snd]. split; [|split].
    + split; [intros _; now left | reflexivity].
    + reflexivity.
    + intros k pg Hk He Hp. rewrite Hnone in Hp by lia. discriminate.
  - pose proof (alloc_scan_found (Z.to_nat (MAX_ORDER - o)) s o o k0 pg0
                  (le_n _) Hk0 He0 Hp0) as E.
    unfold alloc_pages. rewrite E. cbv zeta. cbn [fst snd].
    split; [|split].
    + split; [discriminate|]. intros [H|H]; [|lia].
      rewrite H in Hp0 by lia. discriminate.
    + discriminate.
    + intros k pg Hk He Hp.
      assert (k = k0).
      { destruct (Z.lt_trichotomy k k0) as [L|[L|L]]; auto.
        - rewrite He0 in Hp by lia. discriminate.
        - rewrite He in Hp0 by lia. discriminate. }
      subst k0. assert (pg0 = pg) by congruence. subst pg0.
      set (s1 := set_area s k (next (MEM_MAP s pg))).
      assert (Hlo : k - Z.of_nat (Z.to_nat (k - o)) = o) by lia.
      destruct (split_spec (Z.to_nat (k - o)) s1 pg k)
        as (H1 & H2 & H3 & H4 & H5 & H6 & H7); [lia|].
      rewrite Hlo in *.
      assert (Hpow : forall j, 0 <= j -> 0 < 2 ^ j)
        by (intros; apply Z.pow_pos_nonneg; lia).
      assert (Hpg : MEM_MAP (split (Z.to_nat (k - o)) s1 pg k) pg
                    = MEM_MAP s pg).
      { rewrite H2; [reflexivity|].
        intros j Hj. specialize (Hpow j). lia. }
      split; [reflexivity|]. split; [|split; [|split; [|split]]].
      * intros j Hj. rewrite shiftl_1 by lia. simpl.
        specialize (Hpow j ltac:(lia)).
        rewrite upd_other by lia.
        destruct (H1 j Hj) as [E1 E2]. rewrite E1, E2.
        split; [|reflexivity].
        unfold s1. simpl. rewrite upd_other by lia.
        rewrite (He j) by lia. reflexivity.
      * simpl. rewrite upd_same, Hpg. reflexivity.
      * simpl. rewrite H3 by lia. unfold s1. simpl. now rewrite upd_same.
      * intros q Hq Hqj. simpl. rewrite upd_other by auto.
        rewrite H2; [reflexivity|].
        intros j Hj. specialize (Hqj j Hj). rewrite shiftl_1 in Hqj by lia.
        exact Hqj.
      * intros i Hi. simpl. rewrite H3 by lia. unfold s1. simpl.
        rewrite upd_other; auto. lia.
Qed.

Lemma init_area base m0 k :
  buddy_free_area (kmalloc_init base m0) k =
  if k =? MAX_ORDER - 1 then Some 0 else None.
Proof.
  cbn. unfold upd. destruct (k =? 15) eqn:E; [reflexivity|].
  destruct ((0 <=? k) && (k <? MAX_ORDER)); reflexivity.
Qed.

Lemma alloc_pages_first_fit_witness :
  snd (alloc_pages (kmalloc_init 65536 (fun _ => 0)) 3) = Some 0 /\
  buddy_free_area (fst (alloc_pages (kmalloc_init 65536 (fun _ => 0)) 3)) 7
    = Some 128.
Proof.
  destruct (alloc_pages_first_fit (kmalloc_init 65536 (fun _ => 0)) 3
              ltac:(lia)) as (_ & _ & H).
  destruct (H 15 0) as (H1 & H2 & _).
  - unfold MAX_ORDER. lia.
  - intros j Hj. rewrite init_area.
    destruct (Z.eqb_spec j (MAX_ORDER - 1)) as [E|E]; [|reflexivity].
    unfold MAX_ORDER in E. lia.
  - reflexivity.
  - split; [exact H1|]. apply (H2 7). lia.
Defined.

(** ** [kmalloc] *)

Lemma size_class_spec : forall sizes i size idx,
  size_class sizes i size = Some idx ->
  i <= idx < i + Z.of_nat (length sizes) /\
  size <= nth (Z.to_nat (idx - i)) sizes 0 /\
  forall j, i <= j < idx -> nth (Z.to_nat (j - i)) sizes 0 < size.
Proof.
  induction sizes as [|sz rest IH]; intros i size idx H; simpl in H.
  - discriminate.
  - destruct (size <=? sz) eqn:E.
    + inversion H; subst idx. apply Z.leb_le in E.
      rewrite Z.sub_diag. simpl length. simpl nth.
      repeat split; try lia.
    + apply Z.leb_gt in E. apply IH in H. destruct H as (H1 & H2 & H3).
      simpl length.
      assert (En : forall j, i + 1 <= j ->
                 nth (Z.to_nat (j - i)) (sz :: rest) 0
                 = nth (Z.to_nat (j - (i + 1))) rest 0).
      { intros j Hj. replace (Z.to_nat (j - i))
          with (S (Z.to_nat (j - (i + 1)))) by lia. reflexivity. }
      repeat split; try lia.
      * rewrite En by lia. exact H2.
      * intros j Hj. destruct (Z.eq_dec j i) as [->|N].
        -- rewrite Z.sub_diag. simpl. lia.
        -- rewrite En by lia. apply H3. lia.
Qed.

Lemma size_class_none : forall sizes i size,
  size_class sizes i size = None -> forall sz, In sz sizes -> sz < size.
Proof.
  induction sizes as [|sz rest IH]; intros i size H x Hx; simpl in *.
  - contradiction.
  - destruct (size <=? sz) eqn:E; [discriminate|]. apply Z.leb_gt in E.
    destruct Hx as [<-|Hx]; eauto.
Qed.

Lemma order_search_spec : forall n o size,
  n = Z.to_nat (64 - o) ->
  0 <= o <= 51 ->
  size <= 2 ^ 63 ->
  (forall j, 0 <= j < o -> PAGE_SIZE * 2 ^ j < size) ->
  exists o', order_search n o size = Some o' /\ o <= o' <= 51 /\
             ceil_log2_pages size o'.
Proof.
  induction n as [|n IH]; intros o size Hn Ho Hsz Hlow.
  - lia.
  - cbn [order_search].
    assert (Hsh : Z.shiftl PAGE_SIZE o mod WORD = PAGE_SIZE * 2 ^ o).
    { rewrite Z.shiftl_mul_pow2 by lia. apply Z.mod_small.
      unfold PAGE_SIZE, PAGE_SHIFT, WORD. rewrite Z.shiftl_mul_pow2 by lia.
      rewrite Z.mul_1_l, <- Z.pow_add_r by lia. split.
      - apply Z.pow_nonneg. lia.
      - apply Z.pow_lt_mono_r; lia. }
    rewrite Hsh.
    destruct (PAGE_SIZE * 2 ^ o <? size) eqn:E.
    + apply Z.ltb_lt in E.
      assert (o < 51).
      { destruct (Z.eq_dec o 51) as [->|]; [|lia].
        change (PAGE_SIZE * 2 ^ 51) with (2 ^ 63) in E. lia. }
      assert (Hlow' : forall j, 0 <= j < o + 1 -> PAGE_SIZE * 2 ^ j < size).
      { intros j Hj. destruct (Z.eq_dec j o) as [->|]; auto.
        apply Hlow. lia. }
      destruct (IH (o + 1) size ltac:(lia) ltac:(lia) Hsz Hlow')
        as (o' & H1 & H2 & H3).
      exists o'. split; [exact H1|]. split; [lia|exact H3].
    + apply Z.ltb_ge in E. exists o. repeat split; auto; try lia.
Qed.

(** The part of claim C3 that holds: for a size of at most [2^63] bytes
    [kmalloc] delegates to the smallest class that holds it, or, above
    the largest class, asks the buddy system for the least order whose
    block holds the size and returns the address of the page, NULL when
    there is none or when that order is [MAX_ORDER] or more. *)
Lemma kmalloc_routes s size :
  0 < size <= 2 ^ 63 ->
  (forall i, size_class slab_sizes 0 size = Some i ->
     smallest_class size i /\ kmalloc s size = Some (kmem_cache_alloc s i)) /\
  (size_class slab_sizes 0 size = None ->
     2048 < size /\
     exists o, ceil_log2_pages size o /\
       kmalloc s size =
         Some (fst (alloc_pages s o),
               match snd (alloc_pages s o) with
               | Some pg => page_address (fst (alloc_pages s o)) pg
               | None => 0
               end) /\
       (MAX_ORDER <= o -> kmalloc s size = Some (s, 0))) /\
  (size <= 2048 -> exists i, size_class slab_sizes 0 size = Some i).
Proof.
  intros Hsz. split; [|split].
  - intros i Hi. split.
    + apply size_class_spec in Hi. destruct Hi as (H1 & H2 & H3).
      rewrite Z.sub_0_r in H2. unfold smallest_class, SLAB_INDEX_COUNT.
      simpl length in H1. repeat split; try lia.
      intros j Hj. specialize (H3 j Hj). now rewrite Z.sub_0_r in H3.
    + unfold kmalloc. now rewrite Hi.
  - intros Hn. split.
    + apply (size_class_none _ _ _ Hn 2048). simpl. tauto.
    + destruct (order_search_spec 64 0 size) as (o & Ho & Hr & Hc);
        auto; try lia.
      exists o. split; [exact Hc|]. unfold kmalloc. rewrite Hn, Ho.
      split.
      * destruct (alloc_pages s o) as [s' [pg|]]; reflexivity.
      * intros Hmax. unfold alloc_pages.
        rewrite alloc_scan_none; auto. intros k Hk. lia.
  - intros Hle. destruct (size_class slab_sizes 0 size) as [i|] eqn:E; eauto.
    pose proof (size_class_none _ _ _ E 2048) as H. simpl in H. lia.
Qed.

(** C3 does not hold at sizes above [2^63] (up to [2^63] it does, see
    [kmalloc_routes]). There the search for the order never meets its exit
    test: [PAGE_SIZE << order] stays below the size up to order 51, wraps
    to 0 from order 52 to 63, and at order 64 the shift has no defined
    result. [kmalloc] thus returns nothing, neither an address nor the
    NULL that a request too large should get. *)
Theorem kmalloc_above_2_63_undefined s :
  kmalloc s (2 ^ 63 + 1) = None.
Proof. reflexivity. Qed.

(** ** [kfree] *)

Lemma virt_to_page_spec s addr :
  (virt_to_page s addr = None <->
     addr < PHYS_MEM_START s \/ PHYS_MEM_START s + MEM_SIZE <= addr) /\
  (forall pg, virt_to_page s addr = Some pg ->
     PHYS_MEM_START s <= addr < PHYS_MEM_START s + MEM_SIZE /\
     pg = (addr - PHYS_MEM_START s) / PAGE_SIZE /\ 0 <= pg < total_pages).
Proof.
  unfold virt_to_page.
  destruct (addr <? PHYS_MEM_START s) eqn:E1;
    destruct (PHYS_MEM_START s + MEM_SIZE <=? addr) eqn:E2; simpl;
    try apply Z.ltb_lt in E1; try apply Z.ltb_ge in E1;
    try apply Z.leb_le in E2; try apply Z.leb_gt in E2;
    (split; [split; [intros; try discriminate; lia | intro; try reflexivity; lia]|]);
    intros pg H; try discriminate.
  inversion H; subst pg. clear H.
  rewrite Z.shiftr_div_pow2 by (unfold PAGE_SHIFT; lia).
  change (2 ^ PAGE_SHIFT) with 4096. change PAGE_SIZE with 4096.
  unfold total_pages. change (MEM_SIZE / PAGE_SIZE) with 32768.
  unfold MEM_SIZE in *.
  repeat split; try lia.
  - apply Z.div_pos; lia.
  - apply Z.div_lt_upper_bound; lia.
Qed.

(** C9. [kfree p]: a NULL pointer changes nothing; a pointer outside the
    arena is reported as an invalid address; otherwise the flags of the
    owning page decide: [PG_slab] leads to [kmem_cache_free], [PG_buddy] to
    [__free_pages] at the recorded order, and any other state, Free
    included, is reported as a double free. The two reports print a
    message and leave the arena, the descriptors, the free lists and the
    caches as they were. *)
Theorem kfree_dispatch fuel s ptr :
  (ptr = 0 -> kfree fuel s ptr = Some s) /\
  (ptr <> 0 ->
   (ptr < PHYS_MEM_START s \/ PHYS_MEM_START s + MEM_SIZE <= ptr) ->
   kfree fuel s ptr = Some (printf s (InvalidAddressMsg ptr))) /\
  (ptr <> 0 ->
   PHYS_MEM_START s <= ptr < PHYS_MEM_START s + MEM_SIZE ->
   let pg := (ptr - PHYS_MEM_START s) / PAGE_SIZE in
   virt_to_page s ptr = Some pg /\
   (flags (MEM_MAP s pg) = PG_slab ->
      kfree fuel s ptr = kmem_cache_free fuel s ptr) /\
   (flags (MEM_MAP s pg) = PG_buddy ->
      kfree fuel s ptr = __free_pages fuel s pg (order (MEM_MAP s pg))) /\
   (Z.land (flags (MEM_MAP s pg)) PG_slab = 0 ->
    Z.land (flags (MEM_MAP s pg)) PG_buddy = 0 ->
      kfree fuel s ptr =
        Some (printf s (DoubleFreeMsg ptr (flags (MEM_MAP s pg))))) /\
   (flags (MEM_MAP s pg) = PG_free \/ flags (MEM_MAP s pg) = 0 ->
      kfree fuel s ptr =
        Some (printf s (DoubleFreeMsg ptr (flags (MEM_MAP s pg)))))) /\
  (forall e, arena (printf s e) = arena s /\
             MEM_MAP (printf s e) = MEM_MAP s /\
             buddy_free_area (printf s e) = buddy_free_area s /\
             slab_caches (printf s e) = slab_caches s /\
             console (printf s e) = console s ++ [e]).
Proof.
  split; [|split; [|split]].
  - intros ->. reflexivity.
  - intros Hn Hout. unfold kfree.
    apply Z.eqb_neq in Hn. rewrite Hn.
    destruct (virt_to_page_spec s ptr) as [[_ H] _]. now rewrite H.
  - intros Hn Hin pg. unfold kfree. apply Z.eqb_neq in Hn. rewrite Hn.
    destruct (virt_to_page s ptr) as [pg'|] eqn:E.
    + destruct (virt_to_page_spec s ptr) as [_ H].
      destruct (H pg' E) as (_ & Epg & _). fold pg in Epg. subst pg'.
      split; [reflexivity|].
      split; [|split; [|split]].
      * intros ->. reflexivity.
      * intros ->. reflexivity.
      * intros -> ->. reflexivity.
      * intros [-> | ->]; reflexivity.
    + destruct (virt_to_page_spec s ptr) as [[H _] _]. specialize (H E). lia.
  - intros e. repeat split.
Qed.

Lemma kfree_dispatch_witness :
  kfree 1 (kmalloc_init 65536 (fun _ => 0)) 70000 =
  Some (printf (kmalloc_init 65536 (fun _ => 0)) (DoubleFreeMsg 70000 0)).
Proof.
  destruct (kfree_dispatch 1 (kmalloc_init 65536 (fun _ => 0)) 70000)
    as (_ & _ & H & _).
  destruct H as (_ & _ & _ & _ & H).
  - lia.
  - unfold MEM_SIZE. simpl. lia.
  - apply H. right. reflexivity.
Defined.

(** C10. [kmalloc] does not test for a size of 0: the request goes to the
    first size class, of 32 bytes, and is the very computation a request
    of size 1 is, so it returns what that one returns and leaves the state
    that one leaves; right after initialisation this is the first slot of
    page 0, a non-NULL object of the 32-byte cache. *)
Theorem kmalloc_zero_size s :
  nth 0 slab_sizes 0 = 32 /\
  size_class slab_sizes 0 0 = Some 0 /\
  kmalloc s 0 = Some (kmem_cache_alloc s 0) /\
  kmalloc s 0 = kmalloc s 1 /\
  match kmalloc (kmalloc_init 65536 (fun _ => 0)) 0 with
  | Some (s', obj) =>
      obj = 65536 /\
      slab_cache (MEM_MAP s' 0) = Some 0 /\
      obj_size (slab_caches s' 0) = 32 /\
      flags (MEM_MAP s' 0) = PG_slab /\
      active_objects (MEM_MAP s' 0) = 1
  | None => False
  end.
Proof.
  split; [reflexivity|]. split; [reflexivity|]. split; [reflexivity|].
  split; [reflexivity|]. vm_compute. repeat split.
Qed.

(** ** Pointers stored in the arena *)

Lemma store_ptr_in m a v i :
  0 <= i < 8 -> store_ptr m a v (a + i) = (v / 256 ^ i) mod 256.
Proof.
  intro Hi. unfold store_ptr.
  replace ((a <=? a + i) && (a + i <? a + 8)) with true.
  - f_equal. f_equal. f_equal. lia.
  - symmetry. apply andb_true_iff. split; [apply Z.leb_le|apply Z.ltb_lt]; lia.
Qed.

Lemma store_ptr_out m a v x :
  x < a \/ a + 8 <= x -> store_ptr m a v x = m x.
Proof.
  intro H. unfold store_ptr.
  replace ((a <=? x) && (x <? a + 8)) with false; auto.
  symmetry. apply andb_false_iff.
  destruct H; [left; apply Z.leb_gt|right; apply Z.ltb_ge]; lia.
Qed.

(** A value below [2^64] is the sum of its eight base-256 digits. *)
Lemma digits v :
  0 <= v < WORD ->
  v mod 256 + 256 * ((v / 256 ^ 1) mod 256 + 256 * ((v / 256 ^ 2) mod 256
   + 256 * ((v / 256 ^ 3) mod 256 + 256 * ((v / 256 ^ 4) mod 256
   + 256 * ((v / 256 ^ 5) mod 256 + 256 * ((v / 256 ^ 6) mod 256
   + 256 * ((v / 256 ^ 7) mod 256))))))) = v.
Proof.
  intros Hv.
  assert (M : forall x, x = x mod 256 + 256 * (x / 256)).
  { intro x. pose proof (Z.div_mod x 256). lia. }
  assert (D : forall i, 0 <= i -> v / 256 ^ (i + 1) = v / 256 ^ i / 256).
  { intros i Hi. rewrite Z.pow_add_r, Z.pow_1_r by lia.
    rewrite Z.div_div by (try apply Z.pow_pos_nonneg; lia). reflexivity. }
  pose proof (D 0 ltac:(lia)) as D0. pose proof (D 1 ltac:(lia)) as D1.
  pose proof (D 2 ltac:(lia)) as D2. pose proof (D 3 ltac:(lia)) as D3.
  pose proof (D 4 ltac:(lia)) as D4. pose proof (D 5 ltac:(lia)) as D5.
  pose proof (D 6 ltac:(lia)) as D6. pose proof (D 7 ltac:(lia)) as D7.
  change (0 + 1) with 1 in D0. change (1 + 1) with 2 in D1.
  change (2 + 1) with 3 in D2. change (3 + 1) with 4 in D3.
  change (4 + 1) with 5 in D4. change (5 + 1) with 6 in D5.
  change (6 + 1) with 7 in D6. change (7 + 1) with 8 in D7.
  change (256 ^ 0) with 1 in D0. rewrite Z.div_1_r in D0.
  assert (H8 : v / 256 ^ 8 = 0) by (apply Z.div_small; exact Hv).
  clear D Hv.
  set (q1 := v / 256 ^ 1) in *. set (q2 := v / 256 ^ 2) in *.
  set (q3 := v / 256 ^ 3) in *. set (q4 := v / 256 ^ 4) in *.
  set (q5 := v / 256 ^ 5) in *. set (q6 := v / 256 ^ 6) in *.
  set (q7 := v / 256 ^ 7) in *. set (q8 := v / 256 ^ 8) in *.
  pose proof (M v). pose proof (M q1). pose proof (M q2). pose proof (M q3).
  pose proof (M q4). pose proof (M q5). pose proof (M q6). pose proof (M q7).
  clearbody q1 q2 q3 q4 q5 q6 q7 q8. clear M.
  rewrite <- D0 in *. rewrite <- D1 in *. rewrite <- D2 in *.
  rewrite <- D3 in *. rewrite <- D4 in *. rewrite <- D5 in *.
  rewrite <- D6 in *. rewrite <- D7 in *.
  clear D0 D1 D2 D3 D4 D5 D6 D7.
  generalize dependent (v mod 256). generalize dependent (q1 mod 256).
  generalize dependent (q2 mod 256). generalize dependent (q3 mod 256).
  generalize dependent (q4 mod 256). generalize dependent (q5 mod 256).
  generalize dependent (q6 mod 256). generalize dependent (q7 mod 256).
  intros. lia.
Qed.

Lemma load_store_same m a v :
  0 <= v < WORD -> load_ptr (store_ptr m a v) a = v.
Proof.
  intros Hv. unfold load_ptr.
  pose proof (store_ptr_in m a v 0 ltac:(lia)) as S0.
  rewrite Z.add_0_r in S0. change (256 ^ 0) with 1 in S0.
  rewrite Z.div_1_r in S0. rewrite S0.
  rewrite !store_ptr_in by lia.
  apply digits. exact Hv.
Qed.

Lemma load_ptr_ext m m' a :
  (forall x, a <= x < a + 8 -> m' x = m x) -> load_ptr m' a = load_ptr m a.
Proof.
  intro H. unfold load_ptr.
  rewrite (H a), (H (a + 1)), (H (a + 2)), (H (a + 3)), (H (a + 4)),
          (H (a + 5)), (H (a + 6)), (H (a + 7)) by lia.
  reflexivity.
Qed.

Lemma load_store_other m a v b :
  b + 8 <= a \/ a + 8 <= b -> load_ptr (store_ptr m a v) b = load_ptr m b.
Proof.
  intro H. apply load_ptr_ext. intros x Hx. apply store_ptr_out. lia.
Qed.

Lemma memset_in m a c n x : a <= x < a + n -> memset m a c n x = c.
Proof.
  intro H. unfold memset.
  replace ((a <=? x) && (x <? a + n)) with true; auto.
  symmetry. apply andb_true_iff. split; [apply Z.leb_le|apply Z.ltb_lt]; lia.
Qed.

Lemma memset_out m a c n x : x < a \/ a + n <= x -> memset m a c n x = m x.
Proof.
  intro H. unfold memset.
  replace ((a <=? x) && (x <? a + n)) with false; auto.
  symmetry. apply andb_false_iff.
  destruct H; [left; apply Z.leb_gt|right; apply Z.ltb_ge]; lia.
Qed.

Lemma load_memset_zero m a : load_ptr (memset m a 0 8) a = 0.
Proof.
  unfold load_ptr. rewrite !memset_in by lia. reflexivity.
Qed.

(** ** The in-band free list built by [cache_grow] *)

Lemma build_freelist_spec : forall n m addr size prev,
  8 <= size -> 0 <= addr -> addr + Z.of_nat n * size <= WORD ->
  0 <= prev < WORD ->
  let r := build_freelist n m addr size prev in
  snd r = (if Nat.eqb n 0 then prev else addr) /\
  (forall i, 0 <= i < Z.of_nat n ->
     load_ptr (fst r) (addr + i * size) =
       if i =? Z.of_nat n - 1 then prev else addr + (i + 1) * size) /\
  (forall x, x < addr \/ addr + Z.of_nat n * size <= x -> fst r x = m x).
Proof.
  induction n as [|n IH]; intros m addr size prev Hs Ha Hw Hp.
  - simpl. repeat split; auto. intros i Hi. lia.
  - cbn [build_freelist]. cbv zeta.
    assert (Hn : 0 <= Z.of_nat n * size) by nia.
    destruct (IH (store_ptr m (addr + Z.of_nat n * size) prev) addr size
                 (addr + Z.of_nat n * size)) as (H1 & H2 & H3);
      auto; try nia.
    split; [|split].
    + rewrite H1. cbn [Nat.eqb]. destruct n; simpl; auto. lia.
    + intros i Hi. destruct (Z.eq_dec i (Z.of_nat n)) as [->|N].
      * replace (Z.of_nat n =? Z.of_nat (S n) - 1) with true
          by (symmetry; apply Z.eqb_eq; lia).
        rewrite (load_ptr_ext (store_ptr m (addr + Z.of_nat n * size) prev)).
        -- apply load_store_same. exact Hp.
        -- intros x Hx. apply H3. right. lia.
      * replace (i =? Z.of_nat (S n) - 1) with false
          by (symmetry; apply Z.eqb_neq; lia).
        rewrite H2 by lia.
        destruct (Z.eqb_spec i (Z.of_nat n - 1)) as [E|E]; [|reflexivity].
        f_equal. nia.
    + intros x Hx. rewrite H3 by nia. apply store_ptr_out. nia.
Qed.

(** ** What [alloc_pages] leaves alone *)

Lemma split_frame : forall n s pg cur,
  arena (split n s pg cur) = arena s /\
  slab_caches (split n s pg cur) = slab_caches s /\
  console (split n s pg cur) = console s /\
  PHYS_MEM_START (split n s pg cur) = PHYS_MEM_START s.
Proof.
  induction n as [|n IH]; intros s pg cur; cbn [split]; cbv zeta; auto.
  destruct (IH (set_area
                  (set_page s (pg + Z.shiftl 1 (cur - 1))
                     (with_next
                        (with_order
                           (with_flags (MEM_MAP s (pg + Z.shiftl 1 (cur - 1)))
                                       PG_free) (cur - 1))
                        (buddy_free_area s (cur - 1))))
                  (cur - 1) (Some (pg + Z.shiftl 1 (cur - 1)))) pg (cur - 1))
    as (H1 & H2 & H3 & H4).
  rewrite H1, H2, H3, H4. auto.
Qed.

Lemma alloc_scan_frame : forall n s o cur,
  arena (fst (alloc_scan n s o cur)) = arena s /\
  slab_caches (fst (alloc_scan n s o cur)) = slab_caches s /\
  console (fst (alloc_scan n s o cur)) = console s /\
  PHYS_MEM_START (fst (alloc_scan n s o cur)) = PHYS_MEM_START s /\
  (snd (alloc_scan n s o cur) = None -> fst (alloc_scan n s o cur) = s).
Proof.
  induction n as [|n IH]; intros s o cur; cbn [alloc_scan]; auto.
  destruct (cur <? MAX_ORDER); auto.
  destruct (buddy_free_area s cur) as [pg|]; auto.
  cbn [fst snd].
  destruct (split_frame (Z.to_nat (cur - o))
              (set_area s cur (next (MEM_MAP s pg))) pg cur)
    as (H1 & H2 & H3 & H4).
  cbn [arena slab_caches console PHYS_MEM_START set_page].
  rewrite H1, H2, H3, H4. repeat split; auto. discriminate.
Qed.

Lemma alloc_pages_frame s o :
  arena (fst (alloc_pages s o)) = arena s /\
  slab_caches (fst (alloc_pages s o)) = slab_caches s /\
  console (fst (alloc_pages s o)) = console s /\
  PHYS_MEM_START (fst (alloc_pages s o)) = PHYS_MEM_START s /\
  (snd (alloc_pages s o) = None -> fst (alloc_pages s o) = s).
Proof. apply alloc_scan_frame. Qed.

Lemma page_address_range s pg :
  0 <= pg < total_pages ->
  PHYS_MEM_START s <= page_address s pg /\
  page_address s pg + PAGE_SIZE <= PHYS_MEM_START s + MEM_SIZE /\
  page_address s pg = PHYS_MEM_START s + pg * PAGE_SIZE.
Proof.
  unfold page_address, total_pages.
  change (MEM_SIZE / PAGE_SIZE) with 32768.
  rewrite Z.shiftl_mul_pow2 by (unfold PAGE_SHIFT; lia).
  change (2 ^ PAGE_SHIFT) with 4096. change PAGE_SIZE with 4096.
  unfold MEM_SIZE. lia.
Qed.

(** C6. [cache_grow c] asks the buddy system for one page of order 0. When
    there is none it returns 0 and the state is the one it started from.
    Otherwise it returns 1 and, with [pg] the page obtained: [pg] is marked
    [PG_slab], records the cache [c] and has no active object; [pg] is the
    new head of the partial list of [c] and its [next] is the former head;
    the free lists and every other descriptor are as the one allocation
    left them; and for an object size from 8 bytes to a page, the page
    holds [PAGE_SIZE / obj_size] slots of [obj_size] bytes, the free list
    of the page starts at the first slot, the first 8 bytes of every slot
    hold the address of the next one and those of the last slot hold
    NULL. *)
Theorem cache_grow_spec s c :
  (snd (alloc_pages s 0) = None -> cache_grow s c = (s, 0)) /\
  (forall pg, snd (alloc_pages s 0) = Some pg ->
     let s1 := fst (alloc_pages s 0) in
     let s' := fst (cache_grow s c) in
     let size := obj_size (slab_caches s c) in
     let addr := page_address s pg in
     snd (cache_grow s c) = 1 /\
     flags (MEM_MAP s' pg) = PG_slab /\
     slab_cache (MEM_MAP s' pg) = Some c /\
     active_objects (MEM_MAP s' pg) = 0 /\
     next (MEM_MAP s' pg) = partial (slab_caches s c) /\
     partial (slab_caches s' c) = Some pg /\
     obj_size (slab_caches s' c) = size /\
     (forall k, buddy_free_area s' k = buddy_free_area s1 k) /\
     (forall q, q <> pg -> MEM_MAP s' q = MEM_MAP s1 q) /\
     (forall c', c' <> c -> slab_caches s' c' = slab_caches s c') /\
     (8 <= size <= PAGE_SIZE ->
      0 <= pg < total_pages ->
      0 < PHYS_MEM_START s ->
      PHYS_MEM_START s + MEM_SIZE <= WORD ->
      let count := PAGE_SIZE / size in
      freelist (MEM_MAP s' pg) = addr /\
      (forall i, 0 <= i < count ->
         load_ptr (arena s') (addr + i * size) =
           if i =? count - 1 then 0 else addr + (i + 1) * size) /\
      (forall x, x < addr \/ addr + PAGE_SIZE <= x ->
         arena s' x = arena s x))).
Proof.
  destruct (alloc_pages_frame s 0) as (Fa & Fc & _ & Fb & Ff).
  unfold cache_grow.
  destruct (alloc_pages s 0) as [s1 [pg'|]] eqn:E; cbn [fst snd] in *.
  - split; [discriminate|]. intros pg Hpg. inversion Hpg; subst pg'. clear Hpg.
    cbv zeta.
    assert (Epa : page_address
                    (upd_page
                       (upd_page (upd_page s1 pg (fun p => with_flags p PG_slab))
                          pg (fun p => with_slab_cache p (Some c)))
                       pg (fun p => with_active_objects p 0)) pg
                  = page_address s pg).
    { unfold page_address. cbn. now rewrite Fb. }
    rewrite Epa.
    cbn [upd_page set_page slab_caches arena].
    rewrite Fc, Fa.
    destruct (build_freelist (Z.to_nat (PAGE_SIZE / obj_size (slab_caches s c)))
                (arena s) (page_address s pg) (obj_size (slab_caches s c)) 0)
      as [m prev] eqn:B.
    cbn. rewrite !upd_same. cbn. rewrite ?Fc.
    do 8 (split; [reflexivity|]).
    split. { intros q Hq. rewrite !upd_other; auto. }
    split. { intros c' Hc'. rewrite upd_other; auto. }
    intros Hsz Hpg Hb Hw.
    pose proof (page_address_range s pg) as R. unfold total_pages in R.
    change (MEM_SIZE / PAGE_SIZE) with 32768 in R.
    change PAGE_SIZE with 4096 in R. change MEM_SIZE with 134217728 in R.
    destruct (R Hpg) as (R1 & R2 & R3). clear R.
    assert (Hcnt : 1 <= 4096 / obj_size (slab_caches s c)).
    { apply Z.div_le_lower_bound; lia. }
    assert (Hmul : obj_size (slab_caches s c)
                   * (4096 / obj_size (slab_caches s c)) <= 4096).
    { apply Z.mul_div_le. lia. }
    destruct (build_freelist_spec
                (Z.to_nat (4096 / obj_size (slab_caches s c)))
                (arena s) (page_address s pg)
                (obj_size (slab_caches s c)) 0)
      as (H1 & H2 & H3); try lia.
    { rewrite Z2Nat.id by lia. unfold WORD. nia. }
    { unfold WORD. lia. }
    change (4096 / obj_size (slab_caches s c))
      with (PAGE_SIZE / obj_size (slab_caches s c)) in H1, H2, H3.
    rewrite B in H1, H2, H3. cbn [fst snd] in H1, H2, H3.
    change (PAGE_SIZE / obj_size (slab_caches s c))
      with (4096 / obj_size (slab_caches s c)) in H1, H2, H3.
    rewrite Z2Nat.id in H2, H3 by lia.
    split; [|split].
    + rewrite H1.
      destruct (Z.to_nat (4096 / obj_size (slab_caches s c))) eqn:En;
        [lia|reflexivity].
    + exact H2.
    + intros x Hx. apply H3. nia.
  - split; [|discriminate]. intros _. rewrite (Ff eq_refl). reflexivity.
Qed.

Lemma cache_grow_spec_witness :
  load_ptr (arena (fst (cache_grow fresh_state 0)))
           (page_address fresh_state 0 + 126 * 32)
    = page_address fresh_state 0 + 127 * 32 /\
  load_ptr (arena (fst (cache_grow fresh_state 0)))
           (page_address fresh_state 0 + 127 * 32) = 0.
Proof.
  destruct (cache_grow_spec fresh_state 0) as [_ H].
  destruct (H 0 eq_refl) as (_ & _ & _ & _ & _ & _ & _ & _ & _ & _ & L).
  destruct L as (_ & L & _).
  - cbn. lia.
  - unfold total_pages. cbn. lia.
  - cbn. lia.
  - cbn. unfold WORD. lia.
  - split.
    + exact (L 126 ltac:(cbn; lia)).
    + exact (L 127 ltac:(cbn; lia)).
Defined.

Lemma cache_grow_result s c :
  (snd (alloc_pages s 0) = None -> cache_grow s c = (s, 0)) /\
  (forall pg, snd (alloc_pages s 0) = Some pg ->
     snd (cache_grow s c) = 1 /\
     partial (slab_caches (fst (cache_grow s c)) c) = Some pg).
Proof.
  destruct (alloc_pages_frame s 0) as (_ & _ & _ & _ & Ff).
  unfold cache_grow.
  destruct (alloc_pages s 0) as [s1 [pg'|]]; cbn [fst snd] in *.
  - split; [discriminate|]. intros pg Hpg. inversion Hpg; subst pg'.
    cbv zeta.
    destruct (build_freelist _ _ _ _ _) as [m prev].
    cbn. rewrite upd_same. auto.
  - split; [|discriminate]. intros _. now rewrite (Ff eq_refl).
Qed.

(** C7. [kmem_cache_alloc c]: with an empty partial list the cache grows
    first, and when no page can be had the call returns NULL and changes
    nothing. Otherwise, with [t] the state at that point (after the growth,
    or the state of the call) and [pg] the front page of the partial list:
    the object returned is the head of the free list of [pg]; the free
    list of [pg] moves on to the pointer stored in the object and the
    count of active objects grows by one; when the free list is thereby
    empty, [pg] leaves the partial list; and the first 8 bytes of the
    object returned are zero. A front page without a free object makes the
    call print a message and return NULL. *)
Theorem kmem_cache_alloc_spec s c :
  (partial (slab_caches s c) = None -> snd (alloc_pages s 0) = None ->
     kmem_cache_alloc s c = (s, 0)) /\
  (partial (slab_caches s c) = None ->
   forall pg, snd (alloc_pages s 0) = Some pg ->
     partial (slab_caches (fst (cache_grow s c)) c) = Some pg) /\
  (forall t pg,
     (partial (slab_caches s c) = None /\ snd (alloc_pages s 0) <> None /\
      t = fst (cache_grow s c)) \/
     (partial (slab_caches s c) <> None /\ t = s) ->
     partial (slab_caches t c) = Some pg ->
     let obj := freelist (MEM_MAP t pg) in
     (obj = 0 -> kmem_cache_alloc s c = (printf t NullFreelistMsg, 0)) /\
     (obj <> 0 ->
        let s' := fst (kmem_cache_alloc s c) in
        let rest := load_ptr (arena t) obj in
        snd (kmem_cache_alloc s c) = obj /\
        freelist (MEM_MAP s' pg) = rest /\
        active_objects (MEM_MAP s' pg) = active_objects (MEM_MAP t pg) + 1 /\
        (rest = 0 ->
           partial (slab_caches s' c) = next (MEM_MAP t pg) /\
           next (MEM_MAP s' pg) = None) /\
        (rest <> 0 ->
           partial (slab_caches s' c) = Some pg /\
           next (MEM_MAP s' pg) = next (MEM_MAP t pg)) /\
        (forall i, 0 <= i < 8 -> arena s' (obj + i) = 0) /\
        load_ptr (arena s') obj = 0 /\
        (forall x, x < obj \/ obj + 8 <= x -> arena s' x = arena t x) /\
        flags (MEM_MAP s' pg) = flags (MEM_MAP t pg) /\
        slab_cache (MEM_MAP s' pg) = slab_cache (MEM_MAP t pg) /\
        (forall q, q <> pg -> MEM_MAP s' q = MEM_MAP t q) /\
        (forall k, buddy_free_area s' k = buddy_free_area t k) /\
        (forall c', c' <> c -> slab_caches s' c' = slab_caches t c'))).
Proof.
  destruct (cache_grow_result s c) as [Gf Gs].
  split; [|split].
  - intros Hp Ha. unfold kmem_cache_alloc. rewrite Hp, (Gf Ha). reflexivity.
  - intros Hp pg Ha. apply (Gs pg Ha).
  - intros t pg Ht Hpg obj.
    assert (E : kmem_cache_alloc s c = alloc_from_partial t c).
    { unfold kmem_cache_alloc.
      destruct Ht as [(Hp & Ha & ->)|(Hp & ->)].
      - rewrite Hp. destruct (snd (alloc_pages s 0)) as [pg0|] eqn:Ea;
          [|congruence].
        destruct (Gs pg0 eq_refl) as [G1 _].
        destruct (cache_grow s c) as [t ok]. cbn [fst snd] in *.
        subst ok. reflexivity.
      - destruct (partial (slab_caches s c)); [reflexivity|congruence]. }
    rewrite E. unfold alloc_from_partial. rewrite Hpg. fold obj.
    split.
    + intros ->. reflexivity.
    + intros Hobj. apply Z.eqb_neq in Hobj. rewrite Hobj.
      cbv zeta. cbn [fst snd].
      cbn [upd_page set_page set_arena set_cache MEM_MAP arena slab_caches
           buddy_free_area].
      rewrite !upd_same.
      cbn [with_freelist with_active_objects freelist active_objects flags
           slab_cache next].
      destruct (load_ptr (arena t) obj =? 0) eqn:Er.
      * apply Z.eqb_eq in Er.
        cbn. rewrite !upd_same. cbn.
        split; [reflexivity|]. split; [reflexivity|]. split; [reflexivity|].
        split; [intros _; split; reflexivity|].
        split; [intros N; congruence|].
        split; [intros i Hi; apply memset_in; lia|].
        split; [apply load_memset_zero|].
        split; [intros x Hx; apply memset_out; lia|].
        split; [reflexivity|]. split; [reflexivity|].
        split; [intros q Hq; now rewrite !upd_other|].
        split; [reflexivity|].
        intros c' Hc'. now rewrite upd_other.
      * apply Z.eqb_neq in Er.
        cbn. rewrite !upd_same. cbn.
        split; [reflexivity|]. split; [reflexivity|]. split; [reflexivity|].
        split; [intros N; congruence|].
        split; [intros _; split; [exact Hpg|reflexivity]|].
        split; [intros i Hi; apply memset_in; lia|].
        split; [apply load_memset_zero|].
        split; [intros x Hx; apply memset_out; lia|].
        split; [reflexivity|]. split; [reflexivity|].
        split; [intros q Hq; now rewrite !upd_other|].
        split; [reflexivity|].
        intros c' Hc'. reflexivity.
Qed.

Lemma kmem_cache_alloc_spec_witness :
  snd (kmem_cache_alloc fresh_state 0)
    = freelist (MEM_MAP (fst (cache_grow fresh_state 0)) 0) /\
  load_ptr (arena (fst (kmem_cache_alloc fresh_state 0)))
           (freelist (MEM_MAP (fst (cache_grow fresh_state 0)) 0)) = 0.
Proof.
  destruct (kmem_cache_alloc_spec fresh_state 0) as (_ & _ & H).
  destruct (H (fst (cache_grow fresh_state 0)) 0) as [_ H2].
  - left. split; [reflexivity|]. split; [|reflexivity].
    intro E. vm_compute in E. discriminate.
  - vm_compute. reflexivity.
  - destruct H2 as (R1 & _ & _ & _ & _ & _ & R2 & _).
    + vm_compute. discriminate.
    + split; [exact R1|exact R2].
Defined.

(** ** [kmem_cache_free] *)

Lemma slab_reinsert_active s c pg :
  active_objects (MEM_MAP (slab_reinsert s c pg) pg)
    = active_objects (MEM_MAP s pg).
Proof.
  unfold slab_reinsert.
  destruct (active_objects (MEM_MAP s pg) =? _); [|reflexivity].
  cbn. now rewrite upd_same.
Qed.

Lemma kmem_cache_free_unfold fuel s obj pg c :
  virt_to_page s obj = Some pg ->
  flags (MEM_MAP s pg) = PG_slab ->
  slab_cache (MEM_MAP s pg) = Some c ->
  kmem_cache_free fuel s obj =
    if active_objects (MEM_MAP s pg) - 1 =? 0
    then release_slab_page fuel
           (slab_reinsert (slab_push s pg obj) c pg) c pg
    else Some (slab_reinsert (slab_push s pg obj) c pg).
Proof.
  intros Hv Hfl Hc. unfold kmem_cache_free. rewrite Hv, Hfl, Hc.
  change (Z.land PG_slab PG_slab =? 0) with false. cbv zeta.
  rewrite slab_reinsert_active.
  replace (active_objects (MEM_MAP (slab_push s pg obj) pg))
    with (active_objects (MEM_MAP s pg) - 1); [reflexivity|].
  unfold slab_push. cbn. now rewrite !upd_same.
Qed.

Lemma release_slab_page_spec fuel s c pg l :
  partial_list s c l ->
  (length l < fuel)%nat ->
  exists s3,
    partial_list s3 c (remove Z.eq_dec pg l) /\
    unlink_frame s s3 (PartialHead c) l /\
    release_slab_page fuel s c pg =
      __free_pages fuel (upd_page s3 pg (fun p => with_flags p PG_buddy)) pg 0.
Proof.
  intros Hl Hf. unfold release_slab_page, partial_list in *.
  destruct (ptr_eqb (partial (slab_caches s c)) (Some pg)) eqn:E.
  - destruct (partial (slab_caches s c)) as [q|] eqn:Ep; [|discriminate].
    simpl in E. apply Z.eqb_eq in E. subst q.
    pose proof (chain_NoDup _ _ _ Hl) as Hnd.
    destruct l as [|q l']; simpl in Hl; [discriminate|].
    destruct Hl as [Hq Hl]. inversion Hq; subst q.
    inversion Hnd; subst.
    eexists. split; [|split; [|reflexivity]].
    + simpl. destruct (Z.eq_dec pg pg) as [_|N]; [|congruence].
      rewrite remove_notin by auto. rewrite upd_same. simpl. exact Hl.
    + apply (store_pp_frame s (PartialHead c)).
  - destruct (unlink_chain l fuel s (PartialHead c) pg)
      as (s3 & Hu & Hc & Hfr); auto.
    { intros q Eq. discriminate. }
    exists s3. rewrite Hu. auto.
Qed.

(** C8. [kmem_cache_free obj] for an object whose page [pg] is marked
    [PG_slab] and belongs to cache [c]: the head of the free list of [pg]
    is stored in the first 8 bytes of [obj], [obj] becomes that head and
    the count of active objects drops by one. When the count is then one
    below the capacity of a page, so that the page was full, [pg] is put
    at the front of the partial list. When the count is then zero, [pg] is
    taken out of the partial list, marked [PG_buddy] and handed to
    [__free_pages] at order 0 in the same call; otherwise the call ends
    there. *)
Theorem kmem_cache_free_spec fuel s obj pg c :
  virt_to_page s obj = Some pg ->
  flags (MEM_MAP s pg) = PG_slab ->
  slab_cache (MEM_MAP s pg) = Some c ->
  0 <= freelist (MEM_MAP s pg) < WORD ->
  let s1 := slab_push s pg obj in
  let s2 := slab_reinsert s1 c pg in
  let max_objs := PAGE_SIZE / obj_size (slab_caches s c) in
  let n := active_objects (MEM_MAP s pg) - 1 in
  load_ptr (arena s1) obj = freelist (MEM_MAP s pg) /\
  freelist (MEM_MAP s1 pg) = obj /\
  active_objects (MEM_MAP s1 pg) = n /\
  flags (MEM_MAP s1 pg) = PG_slab /\
  next (MEM_MAP s1 pg) = next (MEM_MAP s pg) /\
  (forall q, q <> pg -> MEM_MAP s1 q = MEM_MAP s q) /\
  (forall x, x < obj \/ obj + 8 <= x -> arena s1 x = arena s x) /\
  slab_caches s1 = slab_caches s /\
  buddy_free_area s1 = buddy_free_area s /\
  (n = max_objs - 1 ->
     partial (slab_caches s2 c) = Some pg /\
     next (MEM_MAP s2 pg) = partial (slab_caches s c) /\
     freelist (MEM_MAP s2 pg) = obj /\
     active_objects (MEM_MAP s2 pg) = n /\
     (forall q, q <> pg -> MEM_MAP s2 q = MEM_MAP s q) /\
     buddy_free_area s2 = buddy_free_area s) /\
  (n <> max_objs - 1 -> s2 = s1) /\
  (n <> 0 -> kmem_cache_free fuel s obj = Some s2) /\
  (n = 0 ->
   forall l, partial_list s2 c l -> (length l < fuel)%nat ->
   exists s3,
     partial_list s3 c (remove Z.eq_dec pg l) /\
     unlink_frame s2 s3 (PartialHead c) l /\
     kmem_cache_free fuel s obj =
       __free_pages fuel (upd_page s3 pg (fun p => with_flags p PG_buddy))
                    pg 0).
Proof.
  intros Hv Hfl Hc Hw s1 s2 max_objs n.
  assert (A1 : active_objects (MEM_MAP s1 pg) = n).
  { unfold s1, slab_push. cbn. now rewrite !upd_same. }
  assert (A2 : active_objects (MEM_MAP s2 pg) = n).
  { unfold s2. now rewrite slab_reinsert_active. }
  assert (K : kmem_cache_free fuel s obj =
              if n =? 0 then release_slab_page fuel s2 c pg else Some s2).
  { apply kmem_cache_free_unfold; auto. }
  split. { unfold s1, slab_push. cbn. now apply load_store_same. }
  split. { unfold s1, slab_push. cbn. now rewrite !upd_same. }
  split. { exact A1. }
  split. { unfold s1, slab_push. cbn. now rewrite !upd_same. }
  split. { unfold s1, slab_push. cbn. now rewrite !upd_same. }
  split. { intros q Hq. unfold s1, slab_push. cbn. now rewrite !upd_other. }
  split. { intros x Hx. unfold s1, slab_push. cbn. now apply store_ptr_out. }
  split. { reflexivity. }
  split. { reflexivity. }
  split.
  { intros Hn. unfold s2, slab_reinsert.
    change (slab_caches s1) with (slab_caches s). fold max_objs.
    rewrite A1. apply Z.eqb_eq in Hn. rewrite Hn.
    cbn. rewrite !upd_same. cbn.
    repeat split; auto.
    intros q Hq. now rewrite !upd_other. }
  split.
  { intros Hn. unfold s2, slab_reinsert.
    change (slab_caches s1) with (slab_caches s). fold max_objs.
    rewrite A1. apply Z.eqb_neq in Hn. now rewrite Hn. }
  split.
  { intros Hn. rewrite K. apply Z.eqb_neq in Hn. now rewrite Hn. }
  intros Hn l Hl Hf. rewrite K. rewrite Hn. cbn [Z.eqb].
  apply release_slab_page_spec; auto.
Qed.

Lemma kmem_cache_free_spec_witness :
  freelist (MEM_MAP (slab_push (fst (kmem_cache_alloc fresh_state 0)) 0 65536)
                    0) = 65536 /\
  active_objects
    (MEM_MAP (slab_push (fst (kmem_cache_alloc fresh_state 0)) 0 65536) 0)
    = active_objects (MEM_MAP (fst (kmem_cache_alloc fresh_state 0)) 0) - 1.
Proof.
  destruct (kmem_cache_free_spec 3 (fst (kmem_cache_alloc fresh_state 0))
              65536 0 0) as (_ & H1 & H2 & _).
  - vm_compute. reflexivity.
  - vm_compute. reflexivity.
  - vm_compute. reflexivity.
  - assert (E : freelist (MEM_MAP (fst (kmem_cache_alloc fresh_state 0)) 0)
                = 65568) by (vm_compute; reflexivity).
    rewrite E. unfold WORD. lia.
  - split; [exact H1|exact H2].
Defined.

(** ** Aligned blocks *)

Lemma pow2_pos o : 0 <= o -> 0 < 2 ^ o.
Proof. intro. apply Z.pow_pos_nonneg; lia. Qed.

Lemma pow2_succ o : 0 <= o -> 2 ^ (o + 1) = 2 * 2 ^ o.
Proof. intro. rewrite Z.pow_add_r by lia. lia. Qed.

Lemma mod0_mul p d : 0 < d -> p mod d = 0 -> p = d * (p / d).
Proof. intros Hd H. pose proof (Z.div_mod p d). lia. Qed.

Lemma mul_mod0 d a : 0 < d -> (d * a) mod d = 0.
Proof. intros. rewrite Z.mul_comm. apply Z.mod_mul. lia. Qed.

(** Two aligned blocks that share a page are nested. *)
Lemma aligned_nest p o q m x :
  0 <= m <= o -> p mod 2 ^ o = 0 -> q mod 2 ^ m = 0 ->
  p <= x < p + 2 ^ o -> q <= x < q + 2 ^ m ->
  p <= q /\ q + 2 ^ m <= p + 2 ^ o.
Proof.
  intros Hm Hp Hq Hx1 Hx2.
  pose proof (pow2_pos m ltac:(lia)) as Pm.
  pose proof (pow2_pos (o - m) ltac:(lia)) as Pk.
  assert (E : 2 ^ o = 2 ^ m * 2 ^ (o - m)).
  { rewrite <- Z.pow_add_r by lia. f_equal. lia. }
  pose proof (pow2_pos o ltac:(lia)) as Po.
  apply mod0_mul in Hp; auto. apply mod0_mul in Hq; auto.
  set (a := p / 2 ^ o) in *. set (b := q / 2 ^ m) in *.
  set (k := 2 ^ (o - m)) in *. set (d := 2 ^ m) in *.
  rewrite E in *. clearbody a b k d. subst p q.
  assert (k * a < b + 1) by nia.
  assert (b < k * (a + 1)) by nia.
  nia.
Qed.

Lemma testbit_aligned p o :
  0 <= o -> p mod 2 ^ o = 0 ->
  (Z.testbit p o = false -> p mod 2 ^ (o + 1) = 0) /\
  (Z.testbit p o = true -> (p - 2 ^ o) mod 2 ^ (o + 1) = 0).
Proof.
  intros Ho Hp.
  pose proof (pow2_pos o Ho) as Po.
  pose proof (mod0_mul _ _ Po Hp) as E.
  set (a := p / 2 ^ o) in *.
  rewrite pow2_succ by auto.
  split; intro Hb.
  - apply Z.testbit_false in Hb; auto. fold a in Hb.
    pose proof (Z.div_mod a 2 ltac:(lia)) as Da.
    replace p with (2 * 2 ^ o * (a / 2)) by nia.
    apply mul_mod0. lia.
  - apply Z.testbit_true in Hb; auto. fold a in Hb.
    pose proof (Z.div_mod a 2 ltac:(lia)) as Da.
    replace (p - 2 ^ o) with (2 * 2 ^ o * (a / 2)) by nia.
    apply mul_mod0. lia.
Qed.

(** The buddy of an aligned block and the block the two merge into. *)
Lemma buddy_aligned p o :
  0 <= o -> 0 <= p -> p mod 2 ^ o = 0 ->
  let b := buddy_of p o in
  let m := Z.land p b in
  0 <= m /\ m mod 2 ^ (o + 1) = 0 /\
  ((p = m /\ b = m + 2 ^ o) \/ (b = m /\ p = m + 2 ^ o)).
Proof.
  intros Ho Hp0 Hp. unfold buddy_of. rewrite shiftl_1 by auto. cbv zeta.
  pose proof (pow2_pos o Ho) as Po.
  destruct (testbit_aligned p o Ho Hp) as [T0 T1].
  destruct (buddy_cases p o Ho) as [(Hb & E1 & E2)|(Hb & E1 & E2)];
    rewrite E2, E1.
  - split; [lia|]. split; [auto|]. left. lia.
  - assert (0 <= p - 2 ^ o).
    { pose proof (mod0_mul _ _ Po Hp) as E.
      apply Z.testbit_true in Hb; auto.
      assert (p / 2 ^ o <> 0) by (intro Z0; rewrite Z0 in Hb; discriminate).
      assert (0 <= p / 2 ^ o) by (apply Z.div_pos; lia).
      nia. }
    split; [lia|]. split; [auto|]. right. lia.
Qed.

Lemma aligned_fits m o :
  0 <= o -> o + 1 < MAX_ORDER -> 0 <= m -> m mod 2 ^ (o + 1) = 0 ->
  m < total_pages -> m + 2 ^ (o + 1) <= total_pages.
Proof.
  intros Ho Hlt Hm Hmod Hb.
  pose proof (pow2_pos (o + 1) ltac:(lia)) as Po.
  pose proof (pow2_pos (14 - o) ltac:(unfold MAX_ORDER in *; lia)) as Pk.
  assert (E : total_pages = 2 ^ (o + 1) * 2 ^ (14 - o)).
  { rewrite <- Z.pow_add_r by (unfold MAX_ORDER in *; lia).
    replace (o + 1 + (14 - o)) with 15 by lia. reflexivity. }
  apply mod0_mul in Hmod; auto.
  set (a := m / 2 ^ (o + 1)) in *. set (d := 2 ^ (o + 1)) in *.
  set (k := 2 ^ (14 - o)) in *. clearbody a d k. subst m. rewrite E in *.
  assert (a < k) by nia. nia.
Qed.

Lemma mod_pow2_weaken p j :
  0 <= j -> p mod 2 ^ (j + 1) = 0 -> p mod 2 ^ j = 0.
Proof.
  intros Hj H. pose proof (pow2_pos j Hj) as Pj.
  apply mod0_mul in H; [|apply pow2_pos; lia].
  rewrite pow2_succ in H by auto.
  replace p with (2 ^ j * (2 * (p / (2 * 2 ^ j)))) by lia.
  now apply mul_mod0.
Qed.

Lemma add_pow2_mod p j :
  0 <= j -> p mod 2 ^ j = 0 -> (p + 2 ^ j) mod 2 ^ j = 0.
Proof.
  intros Hj H. pose proof (pow2_pos j Hj) as Pj.
  apply mod0_mul in H; auto.
  replace (p + 2 ^ j) with (2 ^ j * (p / 2 ^ j + 1)) by lia.
  now apply mul_mod0.
Qed.

(** The page at the buddy's PFN heads a block of at most the same order. *)
Lemma buddy_is_head Bs p o :
  partition Bs -> Bs (p, o) -> o < MAX_ORDER - 1 ->
  exists m', Bs (buddy_of p o, m') /\ 0 <= m' <= o.
Proof.
  intros (Hal & Hdis & Hcov) Hb Ho.
  destruct (Hal _ Hb) as (Ho' & Hp0 & Hmod & Hfit). cbn [fst snd] in *.
  destruct (buddy_aligned p o ltac:(lia) Hp0 Hmod) as (Hm0 & Hmm & Hcase).
  set (B := buddy_of p o) in *. set (m := Z.land p B) in *.
  clearbody m. clearbody B.
  pose proof (pow2_pos o ltac:(lia)) as Po.
  pose proof (pow2_succ o ltac:(lia)) as Ps.
  assert (Hfit2 : m + 2 ^ (o + 1) <= total_pages).
  { apply aligned_fits; auto; try lia. }
  assert (HB : 0 <= B < total_pages) by lia.
  assert (HBmod : B mod 2 ^ o = 0).
  { destruct Hcase as [[E1 E2]|[E1 E2]]; rewrite E2 || rewrite E1.
    - apply add_pow2_mod; [lia|]. apply mod_pow2_weaken; auto; lia.
    - apply mod_pow2_weaken; auto; lia. }
  destruct (Hcov B HB) as ([q m'] & Hq & Hcq).
  destruct (Hal _ Hq) as (Hm' & Hq0 & Hqmod & Hqfit). unfold covers in *. cbn [fst snd] in *.
  destruct (Z_le_gt_dec m' o) as [Hle|Hgt].
  - exists m'. split; [|lia].
    destruct (aligned_nest B o q m' B ltac:(lia) HBmod Hqmod ltac:(lia) Hcq)
      as [N1 N2].
    assert (q = B) by lia. subst q. exact Hq.
  - exfalso.
    destruct (aligned_nest q m' m (o + 1) B ltac:(lia) Hqmod Hmm Hcq
                ltac:(lia)) as [N1 N2].
    assert (Hcp : covers (q, m') p) by (unfold covers; simpl; lia).
    assert (Hpp : covers (p, o) p) by (unfold covers; simpl; lia).
    pose proof (Hdis _ _ p Hq Hb Hcp Hpp) as E. inversion E. lia.
Qed.

Lemma partition_merge Bs p o :
  partition Bs -> Bs (p, o) -> Bs (buddy_of p o, o) -> o < MAX_ORDER - 1 ->
  partition (fun b => b = (Z.land p (buddy_of p o), o + 1) \/
                      (Bs b /\ b <> (p, o) /\ b <> (buddy_of p o, o))).
Proof.
  intros (Hal & Hdis & Hcov) Hb HB Ho.
  destruct (Hal _ Hb) as (Ho' & Hp0 & Hmod & Hfit). cbn [fst snd] in *.
  destruct (buddy_aligned p o ltac:(lia) Hp0 Hmod) as (Hm0 & Hmm & Hcase).
  set (B := buddy_of p o) in *. set (m := Z.land p B) in *.
  clearbody m. clearbody B.
  pose proof (pow2_pos o ltac:(lia)) as Po.
  pose proof (pow2_succ o ltac:(lia)) as Ps.
  assert (Hfit2 : m + 2 ^ (o + 1) <= total_pages).
  { apply aligned_fits; auto; try lia. }
  assert (Hsub : forall x, covers (m, o + 1) x <->
                           covers (p, o) x \/ covers (B, o) x).
  { intro x. unfold covers. simpl. lia. }
  split; [|split].
  - intros b [->|(Hb' & _)]; auto.
    unfold aligned. simpl. unfold MAX_ORDER in *. repeat split; auto; lia.
  - intros b1 b2 x [->|(H1 & N1 & N1')] [->|(H2 & N2 & N2')] C1 C2; auto.
    + exfalso. apply Hsub in C1. destruct C1 as [C1|C1].
      * apply N2. eapply Hdis; eauto.
      * apply N2'. eapply Hdis; eauto.
    + exfalso. apply Hsub in C2. destruct C2 as [C2|C2].
      * apply N1. eapply Hdis; eauto.
      * apply N1'. eapply Hdis; eauto.
    + eapply Hdis; eauto.
  - intros x Hx. destruct (Hcov x Hx) as (b & Hb' & Cb).
    destruct (block_eq_dec b (p, o)) as [->|N1].
    { exists (m, o + 1). split; [now left|]. apply Hsub. now left. }
    destruct (block_eq_dec b (B, o)) as [->|N2].
    { exists (m, o + 1). split; [now left|]. apply Hsub. now right. }
    exists b. split; auto.
Qed.

Lemma partition_split Bs P j :
  partition Bs -> Bs (P, j + 1) -> 0 <= j ->
  partition (fun b => b = (P, j) \/ b = (P + 2 ^ j, j) \/
                      (Bs b /\ b <> (P, j + 1))).
Proof.
  intros (Hal & Hdis & Hcov) Hb Hj.
  destruct (Hal _ Hb) as (Ho' & Hp0 & Hmod & Hfit). cbn [fst snd] in *.
  pose proof (pow2_pos j Hj) as Pj.
  pose proof (pow2_succ j Hj) as Ps.
  assert (Hsub : forall x, covers (P, j + 1) x <->
                           covers (P, j) x \/ covers (P + 2 ^ j, j) x).
  { intro x. unfold covers. simpl. lia. }
  assert (Hmj : P mod 2 ^ j = 0) by (apply mod_pow2_weaken; auto).
  split; [|split].
  - intros b [->|[->|(Hb' & _)]]; auto; unfold aligned; simpl.
    + repeat split; auto; lia.
    + repeat split; auto; try lia. now apply add_pow2_mod.
  - intros b1 b2 x H1 H2 C1 C2.
    assert (Hnew : forall b, b = (P, j) \/ b = (P + 2 ^ j, j) ->
                   forall b', Bs b' -> b' <> (P, j + 1) ->
                   covers b x -> covers b' x -> False).
    { intros b Hbn b' Hb' N Cb Cb'. apply N.
      apply (Hdis b' (P, j + 1) x); auto. apply Hsub.
      destruct Hbn as [->| ->]; auto. }
    destruct H1 as [->|[->|(H1 & N1)]]; destruct H2 as [->|[->|(H2 & N2)]];
      auto; try (exfalso; unfold covers in *; simpl in *; lia).
    + exfalso. eapply (Hnew (P, j)); eauto.
    + exfalso. eapply (Hnew (P + 2 ^ j, j)); eauto.
    + exfalso. eapply (Hnew (P, j)); eauto.
    + exfalso. eapply (Hnew (P + 2 ^ j, j)); eauto.
    + eapply Hdis; eauto.
  - intros x Hx. destruct (Hcov x Hx) as (b & Hb' & Cb).
    destruct (block_eq_dec b (P, j + 1)) as [->|N1].
    + apply Hsub in Cb. destruct Cb as [Cb|Cb].
      * exists (P, j). auto.
      * exists (P + 2 ^ j, j). auto.
    + exists b. auto.
Qed.

Lemma partition_ext (Bs Bs' : block -> Prop) :
  (forall b, Bs b <-> Bs' b) -> partition Bs -> partition Bs'.
Proof.
  intros E (Hal & Hdis & Hcov). split; [|split].
  - intros b Hb. apply Hal. now apply E.
  - intros b1 b2 x H1 H2. apply Hdis; now apply E.
  - intros x Hx. destruct (Hcov x Hx) as (b & Hb & Cb). exists b.
    split; auto. now apply E.
Qed.

(** ** The invariant: elementary consequences *)

Lemma reaches_chain nx : forall l h p,
  chain nx h l -> (reaches nx h p <-> In p l).
Proof.
  induction l as [|q l IH]; intros h p Hc; simpl in Hc.
  - subst h. split; [intro H; inversion H|intros []].
  - destruct Hc as [-> Hc]. split.
    + intro H. inversion H; subst; [now left|].
      right. now apply (IH (nx q)).
    + intros [->|H]; [constructor|].
      apply reaches_next. now apply (IH (nx q)).
Qed.

Lemma frame_fields a b :
  with_next a None = with_next b None ->
  flags a = flags b /\ order a = order b.
Proof. intro H. inversion H. auto. Qed.

Lemma covers_head b : aligned b -> covers b (fst b).
Proof.
  intros (Ho & _). unfold covers.
  pose proof (pow2_pos (snd b) ltac:(lia)). lia.
Qed.

Section InvFacts.
Variables (s : state) (A : list block) (L : Z -> list Z) (cur : list block).
Hypothesis Inv : buddy_inv s A L cur.

Lemma block_head_unique b1 b2 :
  is_block A L cur b1 -> is_block A L cur b2 -> covers b1 (fst b2) ->
  b1 = b2.
Proof.
  intros H1 H2 C. destruct (inv_part _ _ _ _ Inv) as (Hal & Hdis & _).
  apply (Hdis b1 b2 (fst b2)); auto. apply covers_head. auto.
Qed.

Lemma free_is_block o p :
  0 <= o < MAX_ORDER -> In p (L o) -> is_block A L cur (p, o).
Proof. intros Ho Hp. right. right. auto. Qed.

Lemma block_aligned b : is_block A L cur b -> aligned b.
Proof. intro H. destruct (inv_part _ _ _ _ Inv) as (Hal & _). auto. Qed.

Lemma alloc_not_free p o k :
  In (p, o) A -> 0 <= k < MAX_ORDER -> ~ In p (L k).
Proof.
  intros HA Hk HF.
  assert (E : (p, o) = (p, k)).
  { apply block_head_unique; [now left|now apply free_is_block|].
    apply (covers_head (p, o)). apply block_aligned. now left. }
  inversion E; subst k.
  pose proof (inv_alloc _ _ _ _ Inv _ HA) as Ha. simpl in Ha.
  destruct (inv_free _ _ _ _ Inv o p Hk HF) as [Hf _].
  rewrite Hf in Ha. discriminate.
Qed.

Lemma cur_not_free c x k :
  In c cur -> covers c x -> 0 <= k < MAX_ORDER -> ~ In x (L k).
Proof.
  intros Hc Cx Hk HF.
  assert (E : c = (x, k)).
  { apply block_head_unique; [right; now left|now apply free_is_block|].
    exact Cx. }
  subst c. destruct (inv_cur _ _ _ _ Inv _ Hc) as [_ N]. now apply N.
Qed.

Lemma cur_not_alloc c x o :
  In c cur -> covers c x -> ~ In (x, o) A.
Proof.
  intros Hc Cx HA.
  assert (E : c = (x, o)).
  { apply block_head_unique; [right; now left|now left|]. exact Cx. }
  subst c. destruct (inv_cur _ _ _ _ Inv _ Hc) as [N _]. now apply N.
Qed.

Lemma lists_disjoint k k' p :
  0 <= k < MAX_ORDER -> 0 <= k' < MAX_ORDER ->
  In p (L k) -> In p (L k') -> k = k'.
Proof.
  intros Hk Hk' H1 H2.
  destruct (inv_free _ _ _ _ Inv k p Hk H1) as [_ E1].
  destruct (inv_free _ _ _ _ Inv k' p Hk' H2) as [_ E2]. congruence.
Qed.
End InvFacts.

Lemma buddy_of_invol p o : buddy_of (buddy_of p o) o = p.
Proof.
  unfold buddy_of.
  rewrite Z.lxor_assoc, Z.lxor_nilpotent, Z.lxor_0_r. reflexivity.
Qed.

Lemma buddy_of_neq p o : 0 <= o -> buddy_of p o <> p.
Proof.
  intros Ho. unfold buddy_of. rewrite shiftl_1 by auto.
  pose proof (pow2_pos o Ho).
  destruct (buddy_cases p o Ho) as [(_ & E & _)|(_ & E & _)]; lia.
Qed.

Lemma buddy_of_split P j :
  0 <= j -> P mod 2 ^ (j + 1) = 0 ->
  buddy_of P j = P + 2 ^ j /\ buddy_of (P + 2 ^ j) j = P.
Proof.
  intros Hj Hmod.
  assert (E : buddy_of P j = P + 2 ^ j).
  { unfold buddy_of. rewrite shiftl_1 by auto.
    destruct (buddy_cases P j Hj) as [(_ & E & _)|(Hb & _ & _)]; auto.
    exfalso. apply Z.testbit_true in Hb; auto.
    pose proof (pow2_pos j Hj) as Pj.
    apply mod0_mul in Hmod; [|apply pow2_pos; lia].
    rewrite pow2_succ in Hmod by auto.
    set (a := P / (2 * 2 ^ j)) in *.
    assert (Ediv : P / 2 ^ j = 2 * a).
    { rewrite Hmod. replace (2 * 2 ^ j * a) with ((2 * a) * 2 ^ j) by lia.
      apply Z.div_mul. lia. }
    rewrite Ediv in Hb. rewrite Z.mul_comm, Z.mod_mul in Hb by lia.
    discriminate. }
  split; auto. rewrite <- E. apply buddy_of_invol.
Qed.

(** ** Pushing a block on a free list *)

Lemma pushed_lists s A L cur T j :
  buddy_inv s A L cur ->
  0 <= j < MAX_ORDER ->
  (forall k, 0 <= k < MAX_ORDER -> ~ In T (L k)) ->
  (forall o, 0 <= o < MAX_ORDER ->
     free_list (pushed s T j) o (upd L j (T :: L j) o)) /\
  (forall o p, 0 <= o < MAX_ORDER -> In p (upd L j (T :: L j) o) ->
     flags (MEM_MAP (pushed s T j) p) = PG_free /\
     order (MEM_MAP (pushed s T j) p) = o) /\
  (forall q, q <> T -> MEM_MAP (pushed s T j) q = MEM_MAP s q).
Proof.
  intros Inv Hj HT.
  assert (Hnx : forall k x, 0 <= k < MAX_ORDER -> In x (L k) ->
                nexts (pushed s T j) x = nexts s x).
  { intros k x Hk Hx. unfold nexts, pushed. simpl.
    rewrite upd_other; auto. intro E. subst x. now apply (HT k). }
  split; [|split].
  - intros o Ho. unfold free_list.
    destruct (Z.eq_dec o j) as [->|N].
    + rewrite upd_same. unfold pushed at 2. simpl. rewrite upd_same.
      split; [reflexivity|].
      replace (nexts (pushed s T j) T) with (buddy_free_area s j)
        by (unfold nexts, pushed; simpl; now rewrite upd_same).
      eapply chain_ext; [|apply (inv_chain _ _ _ _ Inv j Hj)].
      intros x Hx. now apply (Hnx j).
    + rewrite upd_other by auto. unfold pushed at 2. simpl.
      rewrite upd_other by auto.
      eapply chain_ext; [|apply (inv_chain _ _ _ _ Inv o Ho)].
      intros x Hx. now apply (Hnx o).
  - intros o p Ho Hp.
    assert (Hold : In p (L o) ->
                   flags (MEM_MAP (pushed s T j) p) = PG_free /\
                   order (MEM_MAP (pushed s T j) p) = o).
    { intro Hin. unfold pushed. simpl. rewrite upd_other.
      - now apply (inv_free _ _ _ _ Inv).
      - intro E. subst p. now apply (HT o). }
    destruct (Z.eq_dec o j) as [->|N].
    + rewrite upd_same in Hp. destruct Hp as [<-|Hp]; auto.
      unfold pushed. simpl. rewrite upd_same. simpl. auto.
    + rewrite upd_other in Hp by auto. auto.
  - intros q Hq. unfold pushed. simpl. now rewrite upd_other.
Qed.

Lemma inv_split_step s A L P j :
  buddy_inv s A L [(P, j + 1)] -> 0 <= j ->
  buddy_inv (pushed s (P + 2 ^ j) j) A
            (upd L j ((P + 2 ^ j) :: L j)) [(P, j)].
Proof.
  intros Inv Hj.
  set (T := P + 2 ^ j).
  assert (Hcur : In (P, j + 1) [(P, j + 1)]) by now left.
  assert (Hal : aligned (P, j + 1)).
  { apply (block_aligned _ _ _ _ Inv). right. now left. }
  destruct Hal as (Ho & HP0 & Hmod & Hfit). cbn [fst snd] in *.
  pose proof (pow2_pos j Hj) as Pj.
  pose proof (pow2_succ j Hj) as Ps.
  assert (Hj' : 0 <= j < MAX_ORDER) by lia.
  assert (CT : covers (P, j + 1) T) by (unfold covers, T; simpl; lia).
  assert (CP : covers (P, j + 1) P) by (unfold covers; simpl; lia).
  assert (HT : forall k, 0 <= k < MAX_ORDER -> ~ In T (L k)).
  { intros k Hk. exact (cur_not_free _ _ _ _ Inv _ T k Hcur CT Hk). }
  assert (HPn : forall k, 0 <= k < MAX_ORDER -> ~ In P (L k)).
  { intros k Hk. exact (cur_not_free _ _ _ _ Inv _ P k Hcur CP Hk). }
  destruct (pushed_lists s A L _ T j Inv Hj' HT) as (Hch & Hfl & Hfr).
  destruct (buddy_of_split P j Hj Hmod) as [EB1 EB2]. fold T in EB1, EB2.
  constructor.
  - exact Hch.
  - exact Hfl.
  - intros b Hb. rewrite Hfr; [now apply (inv_alloc _ _ _ _ Inv)|].
    intro E. destruct b as [q o]. simpl in E. subst q.
    exact (cur_not_alloc _ _ _ _ Inv (P, j + 1) T o Hcur CT Hb).
  - intros b [<-|[]]. cbn [fst snd]. split.
    + exact (cur_not_alloc _ _ _ _ Inv (P, j + 1) P j Hcur CP).
    + rewrite upd_same. intros [E|E]; [unfold T in E; lia|].
      now apply (HPn j).
  - eapply partition_ext;
      [|apply (partition_split _ P j (inv_part _ _ _ _ Inv)); auto;
        right; now left].
    intros [q o]. unfold is_block. cbn [fst snd]. fold T. split.
    + intros [E|[E|(Hb & N)]].
      * right. left. left. now symmetry.
      * inversion E; subst q o. right. right. split; [lia|].
        rewrite upd_same. now left.
      * destruct Hb as [Hb|[Hb|(Hr & Hb)]].
        -- now left.
        -- destruct Hb as [Hb|[]]. symmetry in Hb. contradiction.
        -- right. right. split; auto.
           destruct (Z.eq_dec o j) as [->|No].
           ++ rewrite upd_same. now right.
           ++ now rewrite upd_other.
    + intros [Hb|[Hb|(Hr & Hb)]].
      * right. right. split; [now left|].
        intro E. inversion E; subst q o.
        destruct (inv_cur _ _ _ _ Inv _ Hcur) as [N _]. now apply N.
      * destruct Hb as [<-|[]]. now left.
      * destruct (Z.eq_dec o j) as [->|No].
        -- rewrite upd_same in Hb. destruct Hb as [<-|Hb].
           ++ right. now left.
           ++ right. right. split; [right; right; auto|].
              intro E. inversion E. lia.
        -- rewrite upd_other in Hb by auto.
           right. right. split; [right; right; auto|].
           intro E. inversion E; subst q o. now apply (HPn (j + 1)).
  - intros o p Ho' Hp.
    destruct (Z.eq_dec o j) as [->|No].
    + rewrite upd_same in *. intros [E|Hin].
      * destruct Hp as [<-|Hp].
        -- now apply (buddy_of_neq T j).
        -- assert (Ep : p = P)
             by (rewrite <- (buddy_of_invol p j), <- E; exact EB2).
           rewrite Ep in Hp. now apply (HPn j).
      * destruct Hp as [<-|Hp].
        -- rewrite EB2 in Hin. now apply (HPn j).
        -- now apply (inv_nopair _ _ _ _ Inv j p).
    + rewrite upd_other in * by auto.
      now apply (inv_nopair _ _ _ _ Inv o p).
Qed.

Lemma inv_free_insert s A L pf od :
  buddy_inv s A L [(pf, od)] ->
  (MAX_ORDER - 1 <= od \/
   ~ (page_is_free (MEM_MAP s (buddy_of pf od)) /\
      order (MEM_MAP s (buddy_of pf od)) = od)) ->
  buddy_inv (pushed s pf od) A (upd L od (pf :: L od)) [].
Proof.
  intros Inv Hstop.
  assert (Hcur : In (pf, od) [(pf, od)]) by now left.
  assert (Hal : aligned (pf, od)).
  { apply (block_aligned _ _ _ _ Inv). right. now left. }
  pose proof (covers_head _ Hal) as CP.
  destruct Hal as (Ho & HP0 & Hmod & Hfit). cbn [fst snd] in *.
  assert (HPn : forall k, 0 <= k < MAX_ORDER -> ~ In pf (L k)).
  { intros k Hk. exact (cur_not_free _ _ _ _ Inv _ pf k Hcur CP Hk). }
  destruct (pushed_lists s A L _ pf od Inv Ho HPn) as (Hch & Hfl & Hfr).
  assert (Hbud : od < MAX_ORDER - 1 -> ~ In (buddy_of pf od) (L od)).
  { intros Hlt Hin. destruct Hstop as [Hs|Hs]; [lia|]. apply Hs.
    destruct (inv_free _ _ _ _ Inv od _ Ho Hin) as [Hf Ho'].
    split; auto. unfold page_is_free. rewrite Hf. discriminate. }
  constructor.
  - exact Hch.
  - exact Hfl.
  - intros b Hb. rewrite Hfr; [now apply (inv_alloc _ _ _ _ Inv)|].
    intro E. destruct b as [q o]. simpl in E. subst q.
    exact (cur_not_alloc _ _ _ _ Inv (pf, od) pf o Hcur CP Hb).
  - intros b [].
  - eapply partition_ext; [|apply (inv_part _ _ _ _ Inv)].
    intros [q o]. unfold is_block. cbn [fst snd]. split.
    + intros [Hb|[Hb|(Hr & Hb)]].
      * now left.
      * destruct Hb as [Hb|[]]. inversion Hb; subst q o.
        right. right. split; auto. rewrite upd_same. now left.
      * right. right. split; auto.
        destruct (Z.eq_dec o od) as [->|No].
        -- rewrite upd_same. now right.
        -- now rewrite upd_other.
    + intros [Hb|[[]|(Hr & Hb)]].
      * now left.
      * destruct (Z.eq_dec o od) as [->|No].
        -- rewrite upd_same in Hb. destruct Hb as [<-|Hb].
           ++ right. left. now left.
           ++ right. right. auto.
        -- rewrite upd_other in Hb by auto. right. right. auto.
  - intros o p Ho' Hp.
    destruct (Z.eq_dec o od) as [->|No].
    + rewrite upd_same in *. intros [E|Hin].
      * destruct Hp as [<-|Hp].
        -- now apply (buddy_of_neq pf od).
        -- apply Hbud; [lia|].
           rewrite E, buddy_of_invol. exact Hp.
      * destruct Hp as [<-|Hp].
        -- apply Hbud; [lia|exact Hin].
        -- now apply (inv_nopair _ _ _ _ Inv od p).
    + rewrite upd_other in * by auto.
      now apply (inv_nopair _ _ _ _ Inv o p).
Qed.

Lemma inv_pop s A L k pg :
  buddy_inv s A L [] -> 0 <= k < MAX_ORDER ->
  buddy_free_area s k = Some pg ->
  exists l', L k = pg :: l' /\
    buddy_inv (set_area s k (next (MEM_MAP s pg))) A (upd L k l') [(pg, k)].
Proof.
  intros Inv Hk Hpg.
  pose proof (inv_chain _ _ _ _ Inv k Hk) as Hc. unfold free_list in Hc.
  rewrite Hpg in Hc.
  destruct (L k) as [|q l'] eqn:EL; simpl in Hc; [discriminate|].
  destruct Hc as [Eq Hc]. inversion Eq; subst q. clear Eq.
  exists l'. split; [reflexivity|].
  assert (Hnd : NoDup (pg :: l')).
  { rewrite <- EL. eapply chain_NoDup. apply (inv_chain _ _ _ _ Inv k Hk). }
  inversion Hnd as [|? ? Hnot _]; subst.
  assert (Hsub : forall o p, In p (upd L k l' o) -> In p (L o)).
  { intros o p Hp. destruct (Z.eq_dec o k) as [->|N].
    - rewrite upd_same in Hp. rewrite EL. now right.
    - now rewrite upd_other in Hp. }
  constructor.
  - intros o Ho. unfold free_list. simpl.
    destruct (Z.eq_dec o k) as [->|N].
    + rewrite !upd_same. exact Hc.
    + rewrite !upd_other by auto. apply (inv_chain _ _ _ _ Inv o Ho).
  - intros o p Ho Hp. simpl. apply (inv_free _ _ _ _ Inv o p Ho); auto.
  - intros b Hb. simpl. now apply (inv_alloc _ _ _ _ Inv).
  - intros b [<-|[]]. cbn [fst snd]. rewrite upd_same. split; auto.
    intro HA. apply (alloc_not_free _ _ _ _ Inv pg k k HA Hk).
    rewrite EL. now left.
  - eapply partition_ext; [|apply (inv_part _ _ _ _ Inv)].
    intros [q o]. unfold is_block. cbn [fst snd]. split.
    + intros [Hb|[[]|(Hr & Hb)]].
      * now left.
      * destruct (Z.eq_dec o k) as [->|N].
        -- rewrite EL in Hb. destruct Hb as [<-|Hb].
           ++ right. left. now left.
           ++ right. right. split; auto. now rewrite upd_same.
        -- right. right. split; auto. now rewrite upd_other.
    + intros [Hb|[Hb|(Hr & Hb)]].
      * now left.
      * destruct Hb as [Hb|[]]. inversion Hb; subst q o.
        right. right. split; auto. rewrite EL. now left.
      * right. right. auto.
  - intros o p Ho Hp Hb.
    apply (inv_nopair _ _ _ _ Inv o p Ho); auto.
Qed.

Lemma inv_mark_allocated s A L pg o :
  buddy_inv s A L [(pg, o)] ->
  buddy_inv (set_page s pg
               (with_next (with_order (with_flags (MEM_MAP s pg) PG_buddy) o)
                          None))
            ((pg, o) :: A) L [].
Proof.
  intros Inv.
  assert (Hcur : In (pg, o) [(pg, o)]) by now left.
  assert (Hal : aligned (pg, o)).
  { apply (block_aligned _ _ _ _ Inv). right. now left. }
  pose proof (covers_head _ Hal) as CP. cbn [fst snd] in CP.
  assert (HPn : forall k, 0 <= k < MAX_ORDER -> ~ In pg (L k)).
  { intros k Hk. exact (cur_not_free _ _ _ _ Inv _ pg k Hcur CP Hk). }
  constructor.
  - intros k Hk. unfold free_list. simpl.
    eapply chain_ext; [|apply (inv_chain _ _ _ _ Inv k Hk)].
    intros x Hx. unfold nexts. simpl. rewrite upd_other; auto.
    intro E. subst x. now apply (HPn k).
  - intros k p Hk Hp. simpl. rewrite upd_other.
    + now apply (inv_free _ _ _ _ Inv).
    + intro E. subst p. now apply (HPn k).
  - intros b [<-|Hb]; simpl.
    + rewrite upd_same. reflexivity.
    + rewrite upd_other; [now apply (inv_alloc _ _ _ _ Inv)|].
      intro E. destruct b as [q o']. simpl in E. subst q.
      exact (cur_not_alloc _ _ _ _ Inv (pg, o) pg o' Hcur CP Hb).
  - intros b [].
  - eapply partition_ext; [|apply (inv_part _ _ _ _ Inv)].
    intros b. unfold is_block. simpl. tauto.
  - apply (inv_nopair _ _ _ _ Inv).
Qed.

Lemma inv_start_free s A L p o :
  buddy_inv s A L [] -> In (p, o) A ->
  buddy_inv s (remove block_eq_dec (p, o) A) L [(p, o)].
Proof.
  intros Inv HA.
  assert (Hal : aligned (p, o)).
  { apply (block_aligned _ _ _ _ Inv). now left. }
  destruct Hal as (Ho & _). cbn [fst snd] in Ho.
  constructor.
  - apply (inv_chain _ _ _ _ Inv).
  - apply (inv_free _ _ _ _ Inv).
  - intros b Hb. apply in_remove in Hb. destruct Hb as [Hb _].
    now apply (inv_alloc _ _ _ _ Inv).
  - intros b [<-|[]]. cbn [fst snd]. split.
    + apply remove_In.
    + apply (alloc_not_free _ _ _ _ Inv p o o HA Ho).
  - eapply partition_ext; [|apply (inv_part _ _ _ _ Inv)].
    intros b. unfold is_block. simpl. split.
    + intros [Hb|[[]|Hb]]; auto.
      destruct (block_eq_dec b (p, o)) as [->|N]; auto.
      left. apply in_in_remove; auto.
    + intros [Hb|[[<-|[]]|Hb]]; auto.
      apply in_remove in Hb. tauto.
  - apply (inv_nopair _ _ _ _ Inv).
Qed.

(** ** [alloc_pages] keeps the invariant *)

Lemma split_pushed n s pg cur :
  split (S n) s pg cur
  = split n (pushed s (pg + Z.shiftl 1 (cur - 1)) (cur - 1)) pg (cur - 1).
Proof. reflexivity. Qed.

Lemma inv_split_loop : forall n s A L pg j,
  buddy_inv s A L [(pg, j + Z.of_nat n)] -> 0 <= j ->
  exists L', buddy_inv (split n s pg (j + Z.of_nat n)) A L' [(pg, j)].
Proof.
  induction n as [|n IH]; intros s A L pg j Inv Hj.
  - exists L. simpl. now rewrite Z.add_0_r in Inv.
  - rewrite split_pushed.
    replace (j + Z.of_nat (S n) - 1) with (j + Z.of_nat n) by lia.
    rewrite shiftl_1 by lia.
    replace (j + Z.of_nat (S n)) with (j + Z.of_nat n + 1) in Inv by lia.
    apply inv_split_step in Inv; [|lia].
    apply (IH _ _ _ _ _ Inv Hj).
Qed.

Lemma inv_alloc_pages s A L o pg :
  buddy_inv s A L [] -> 0 <= o ->
  snd (alloc_pages s o) = Some pg ->
  exists L', buddy_inv (fst (alloc_pages s o)) ((pg, o) :: A) L' [].
Proof.
  intros Inv Ho Hpg. unfold alloc_pages in *.
  destruct (first_nonempty (Z.to_nat (MAX_ORDER - o)) s o eq_refl)
    as [Hnone|(k & pg0 & Hk & He & Hp)].
  - rewrite alloc_scan_none in Hpg by auto. discriminate.
  - rewrite (alloc_scan_found _ s o o k pg0 (le_n _) Hk He Hp) in *.
    cbv zeta in *. cbn [fst snd] in *. inversion Hpg; subst pg0.
    destruct (inv_pop s A L k pg Inv ltac:(lia) Hp) as (l' & _ & Inv1).
    assert (Ek : k = o + Z.of_nat (Z.to_nat (k - o))) by lia.
    assert (Hsp : exists L2,
              buddy_inv (split (Z.to_nat (k - o))
                           (set_area s k (next (MEM_MAP s pg))) pg k)
                        A L2 [(pg, o)]).
    { revert Inv1. generalize (Z.to_nat (k - o)) Ek. intros n -> Inv1.
      now apply (inv_split_loop n _ _ _ _ _ Inv1). }
    destruct Hsp as (L2 & Inv2).
    exists L2. now apply inv_mark_allocated.
Qed.

(** ** [__free_pages] keeps the invariant *)

Lemma unlink_det : forall fuel fuel' s pp target s1 s2,
  unlink fuel s pp target = Some s1 ->
  unlink fuel' s pp target = Some s2 -> s1 = s2.
Proof.
  induction fuel as [|fuel IH]; intros fuel' s pp target s1 s2 H1 H2.
  - discriminate.
  - destruct fuel' as [|fuel']; [discriminate|].
    rewrite unlink_step in H1, H2.
    destruct (load_pp s pp) as [q|]; [|congruence].
    destruct (q =? target); [congruence|]. eauto.
Qed.

Lemma inv_merge_step s A L p o fuel s1 :
  buddy_inv s A L [(p, o)] -> o < MAX_ORDER - 1 ->
  page_is_free (MEM_MAP s (buddy_of p o)) ->
  order (MEM_MAP s (buddy_of p o)) = o ->
  unlink fuel s (AreaHead o) (buddy_of p o) = Some s1 ->
  buddy_inv s1 A (upd L o (remove Z.eq_dec (buddy_of p o) (L o)))
            [(Z.land p (buddy_of p o), o + 1)].
Proof.
  intros Inv Hlt Hfree Hord Hu.
  assert (Hcur : In (p, o) [(p, o)]) by now left.
  assert (Hbp : is_block A L [(p, o)] (p, o)) by (right; now left).
  pose proof (block_aligned _ _ _ _ Inv _ Hbp) as Hal.
  pose proof (covers_head _ Hal) as CP. cbn [fst snd] in CP.
  destruct Hal as (Ho & HP0 & Hmod & Hfit). cbn [fst snd] in *.
  destruct (buddy_aligned p o ltac:(lia) HP0 Hmod) as (Hm0 & Hmm & Hcase).
  pose proof (pow2_pos o ltac:(lia)) as Po.
  pose proof (pow2_succ o ltac:(lia)) as Ps.
  set (B := buddy_of p o) in *. set (m := Z.land p B) in *.
  assert (HBL : In B (L o)).
  { destruct (buddy_is_head _ p o (inv_part _ _ _ _ Inv) Hbp Hlt)
      as (m' & Hb & Hm'). fold B in Hb.
    destruct Hb as [Hb|[Hb|(Hr & Hb)]]; cbn [fst snd] in *.
    - exfalso. apply Hfree. apply (inv_alloc _ _ _ _ Inv _ Hb).
    - exfalso. destruct Hb as [Hb|[]]. inversion Hb.
      apply (buddy_of_neq p o); [lia|]. fold B. congruence.
    - destruct (inv_free _ _ _ _ Inv m' B Hr Hb) as [_ E].
      rewrite Hord in E. now subst m'. }
  assert (HBb : is_block A L [(p, o)] (B, o)) by (right; right; auto).
  destruct (unlink_chain (L o) (S (length (L o))) s (AreaHead o) B)
    as (s1' & Hu' & Hc1 & Hfr); [apply (inv_chain _ _ _ _ Inv o Ho)| |lia|].
  { intros q Eq. discriminate. }
  assert (s1 = s1') by (eapply unlink_det; eauto). subst s1'. clear Hu'.
  destruct Hfr as (_ & _ & _ & F4 & F5 & F6 & _).
  assert (Hflags : forall q, flags (MEM_MAP s1 q) = flags (MEM_MAP s q) /\
                             order (MEM_MAP s1 q) = order (MEM_MAP s q)).
  { intro q. apply frame_fields. apply F4. }
  assert (Hsub : forall k x, In x (upd L o (remove Z.eq_dec B (L o)) k) ->
                             In x (L k)).
  { intros k x Hx. destruct (Z.eq_dec k o) as [->|N].
    - rewrite upd_same in Hx. apply in_remove in Hx. tauto.
    - now rewrite upd_other in Hx. }
  assert (Cm : covers (m, o + 1) p) by (unfold covers; simpl; lia).
  assert (Hnew : ~ is_block A L [(p, o)] (m, o + 1)).
  { intro Hb. destruct (inv_part _ _ _ _ Inv) as (_ & Hdis & _).
    pose proof (Hdis _ _ p Hb Hbp Cm CP) as E. inversion E. lia. }
  constructor.
  - intros k Hk. unfold free_list.
    destruct (Z.eq_dec k o) as [->|N].
    + rewrite upd_same. exact Hc1.
    + rewrite upd_other by auto. rewrite F6 by congruence.
      eapply chain_ext; [|apply (inv_chain _ _ _ _ Inv k Hk)].
      intros x Hx. unfold nexts. rewrite F5; auto; [|discriminate].
      intro Hxo. apply N.
      apply (lists_disjoint _ _ _ _ Inv k o x); auto.
  - intros k x Hk Hx. destruct (Hflags x) as [-> ->].
    apply (inv_free _ _ _ _ Inv k x Hk). now apply Hsub.
  - intros b Hb. destruct (Hflags (fst b)) as [-> _].
    now apply (inv_alloc _ _ _ _ Inv).
  - intros b [<-|[]]. cbn [fst snd]. split.
    + intro HA. apply Hnew. now left.
    + intro HF. apply Hsub in HF. apply Hnew. right. right. split; auto.
      cbn [snd]. lia.
  - eapply partition_ext;
      [|apply (partition_merge _ p o (inv_part _ _ _ _ Inv) Hbp HBb Hlt)].
    fold B. fold m. intros [q k]. unfold is_block. cbn [fst snd]. split.
    + intros [E|(Hb & N1 & N2)].
      * right. left. left. now symmetry.
      * destruct Hb as [Hb|[Hb|(Hr & Hb)]].
        -- now left.
        -- destruct Hb as [Hb|[]]. symmetry in Hb. contradiction.
        -- right. right. split; auto.
           destruct (Z.eq_dec k o) as [->|No].
           ++ rewrite upd_same. apply in_in_remove; auto. congruence.
           ++ now rewrite upd_other.
    + intros [Hb|[Hb|(Hr & Hb)]].
      * right. split; [now left|]. split.
        -- intro E. rewrite E in Hb.
           destruct (inv_cur _ _ _ _ Inv _ Hcur) as [N _]. now apply N.
        -- intro E. rewrite E in Hb.
           now apply (alloc_not_free _ _ _ _ Inv B o o Hb Ho).
      * destruct Hb as [<-|[]]. now left.
      * right.
        assert (Hold : In q (L k)) by now apply Hsub.
        split; [right; right; auto|]. split.
        -- intro E. inversion E; subst q k.
           destruct (inv_cur _ _ _ _ Inv _ Hcur) as [_ N]. now apply N.
        -- intro E. inversion E; subst k. rewrite upd_same in Hb.
           apply in_remove in Hb. tauto.
  - intros k x Hk Hx Hb. apply Hsub in Hx. apply Hsub in Hb.
    now apply (inv_nopair _ _ _ _ Inv k x).
Qed.

Lemma inv_coalesce_loop : forall n fuel s A L p o s1 pf od,
  coalesce_loop n fuel s p o = Some (s1, pf, od) ->
  n = Z.to_nat (MAX_ORDER - 1 - o) ->
  buddy_inv s A L [(p, o)] ->
  exists L1,
    buddy_inv s1 A L1 [(pf, od)] /\
    (MAX_ORDER - 1 <= od \/
     ~ (page_is_free (MEM_MAP s1 (buddy_of pf od)) /\
        order (MEM_MAP s1 (buddy_of pf od)) = od)).
Proof.
  induction n as [|n IH]; intros fuel s A L p o s1 pf od Hl Hn Inv.
  - cbn [coalesce_loop] in Hl. inversion Hl; subst.
    exists L. split; auto. left. lia.
  - cbn [coalesce_loop] in Hl.
    destruct (o <? MAX_ORDER - 1) eqn:Hlt.
    2:{ apply Z.ltb_ge in Hlt. lia. }
    apply Z.ltb_lt in Hlt. fold (buddy_of p o) in Hl.
    destruct ((Z.land (flags (MEM_MAP s (buddy_of p o))) PG_free =? 0)
              || negb (order (MEM_MAP s (buddy_of p o)) =? o)) eqn:Hc.
    + inversion Hl; subst. exists L. split; auto. right.
      intros (Hf & Hord). apply orb_true_iff in Hc. destruct Hc as [Hc|Hc].
      * apply Z.eqb_eq in Hc. now apply Hf.
      * apply negb_true_iff, Z.eqb_neq in Hc. auto.
    + apply orb_false_iff in Hc. destruct Hc as [Hf Hord].
      apply Z.eqb_neq in Hf. apply negb_false_iff, Z.eqb_eq in Hord.
      destruct (unlink fuel s (AreaHead o) (buddy_of p o)) as [s'|] eqn:Hu;
        [|discriminate].
      pose proof (inv_merge_step _ _ _ _ _ _ _ Inv Hlt Hf Hord Hu) as Inv'.
      apply (IH _ _ _ _ _ _ _ _ _ Hl ltac:(lia) Inv').
Qed.

Lemma inv_free_pages s A L fuel p o s' :
  buddy_inv s A L [] -> In (p, o) A ->
  __free_pages fuel s p o = Some s' ->
  exists L', buddy_inv s' (remove block_eq_dec (p, o) A) L' [].
Proof.
  intros Inv HA Hf. unfold __free_pages in Hf.
  destruct (coalesce_loop _ fuel s p o) as [[[s1 pf] od]|] eqn:Hl;
    [|discriminate].
  inversion Hf; subst s'. clear Hf.
  pose proof (inv_start_free _ _ _ _ _ Inv HA) as Inv0.
  destruct (inv_coalesce_loop _ _ _ _ _ _ _ _ _ _ Hl eq_refl Inv0)
    as (L1 & Inv1 & Hstop).
  eexists. apply (inv_free_insert _ _ _ _ _ Inv1 Hstop).
Qed.

(** Under the invariant every free list ends in NULL, so that enough fuel
    exists for the scans of [__free_pages]. *)
Lemma inv_lists_terminate s A L cur :
  buddy_inv s A L cur -> exists fuel, lists_terminate fuel s.
Proof.
  intros Inv.
  assert (H : forall n, exists fuel,
            forall k, 0 <= k < Z.of_nat n -> (length (L k) < fuel)%nat).
  { induction n as [|n [fuel IH]].
    - exists O. intros k Hk. lia.
    - exists (S (fuel + length (L (Z.of_nat n)))). intros k Hk.
      destruct (Z.eq_dec k (Z.of_nat n)) as [->|N]; [lia|].
      specialize (IH k ltac:(lia)). lia. }
  destruct (H 16%nat) as [fuel Hfuel]. exists fuel.
  intros k Hk. exists (L k). split.
  - apply (inv_chain _ _ _ _ Inv k Hk).
  - apply Hfuel. unfold MAX_ORDER in Hk. lia.
Qed.

Lemma inv_owner_step s A L s' :
  buddy_inv s A L [] -> owner_step A s s' -> buddy_inv s' A L [].
Proof.
  intros Inv (Harea & Hmap).
  assert (Hsame : forall k x, 0 <= k < MAX_ORDER -> In x (L k) ->
                  MEM_MAP s' x = MEM_MAP s x).
  { intros k x Hk Hx. destruct (Hmap x) as [E|((o & HA) & _)]; auto.
    exfalso. now apply (alloc_not_free _ _ _ _ Inv x o k HA Hk). }
  constructor.
  - intros k Hk. unfold free_list. rewrite Harea.
    eapply chain_ext; [|apply (inv_chain _ _ _ _ Inv k Hk)].
    intros x Hx. unfold nexts. now rewrite (Hsame k).
  - intros k x Hk Hx. rewrite (Hsame k) by auto.
    now apply (inv_free _ _ _ _ Inv).
  - intros b Hb. destruct (Hmap (fst b)) as [E|(_ & E)]; auto.
    rewrite E. now apply (inv_alloc _ _ _ _ Inv).
  - intros b [].
  - apply (inv_part _ _ _ _ Inv).
  - apply (inv_nopair _ _ _ _ Inv).
Qed.

Lemma inv_init base m0 :
  buddy_inv (kmalloc_init base m0) []
            (fun k => if k =? MAX_ORDER - 1 then [0] else []) [].
Proof.
  constructor.
  - intros o Ho. unfold free_list. rewrite init_area.
    destruct (o =? MAX_ORDER - 1); simpl; auto.
  - intros o p Ho Hp.
    destruct (Z.eqb_spec o (MAX_ORDER - 1)) as [->|N]; [|destruct Hp].
    destruct Hp as [<-|[]]. split; reflexivity.
  - intros b [].
  - intros b [].
  - assert (E : forall b, is_block [] (fun k => if k =? MAX_ORDER - 1
                                               then [0] else []) [] b
                          <-> b = (0, MAX_ORDER - 1)).
    { intros [q o]. unfold is_block. cbn [fst snd]. split.
      - intros [[]|[[]|(Hr & Hb)]].
        destruct (Z.eqb_spec o (MAX_ORDER - 1)) as [->|N]; [|destruct Hb].
        destruct Hb as [<-|[]]. reflexivity.
      - intro Eb. inversion Eb; subst. right. right.
        split; [unfold MAX_ORDER; lia|]. rewrite Z.eqb_refl. now left. }
    split; [|split].
    + intros b Hb. apply E in Hb. subst b. unfold aligned. cbn.
      repeat split; try lia; discriminate.
    + intros b1 b2 x H1 H2 _ _. apply E in H1, H2. congruence.
    + intros x Hx. exists (0, MAX_ORDER - 1). split; [now apply E|].
      unfold covers. cbn in *. lia.
  - intros o p Ho Hp.
    destruct (Z.eqb_spec o (MAX_ORDER - 1)) as [->|N]; [lia|destruct Hp].
Qed.

(** Every state met by valid use satisfies the invariant. *)
Lemma reachable_inv s A :
  reachable s A -> exists L, buddy_inv s A L [].
Proof.
  induction 1 as [base m0|s A o pg _ [L IH] Ho Hpg
                 |s A fuel pg o s' _ [L IH] HA Hf|s A s' _ [L IH] Hstep].
  - eexists. apply inv_init.
  - eapply inv_alloc_pages; eauto.
  - eapply inv_free_pages; eauto.
  - exists L. eapply inv_owner_step; eauto.
Qed.

(** X22. In every state met from initialisation by allocations and by frees
    of blocks that are allocated at that moment (between which the holder
    of a block may rewrite the descriptor of its first page without marking
    it Free), every page present in the free list of order [o] has
    [flags = PG_free] and records order [o]. *)
Theorem free_lists_hold_free_pages s A o p :
  reachable s A ->
  0 <= o < MAX_ORDER ->
  in_free_list s o p ->
  flags (MEM_MAP s p) = PG_free /\ order (MEM_MAP s p) = o.
Proof.
  intros Hr Ho Hin.
  destruct (reachable_inv s A Hr) as [L Inv].
  apply (inv_free _ _ _ _ Inv o p Ho).
  apply (reaches_chain (nexts s) (L o) (buddy_free_area s o) p); auto.
  apply (inv_chain _ _ _ _ Inv o Ho).
Qed.

Lemma free_lists_hold_free_pages_witness :
  flags (MEM_MAP one_page_state 1) = PG_free /\
  order (MEM_MAP one_page_state 1) = 0.
Proof.
  apply (free_lists_hold_free_pages one_page_state [(0, 0)] 0 1).
  - apply (reach_alloc fresh_state [] 0 0).
    + apply reach_init.
    + lia.
    + reflexivity.
  - unfold MAX_ORDER. lia.
  - unfold in_free_list.
    replace (buddy_free_area one_page_state 0) with (Some 1)
      by (vm_compute; reflexivity).
    constructor.
Defined.

(** ** No buddy pair is left on a free list *)

Lemma reachable_no_buddy_pair s A : reachable s A -> no_buddy_pair s.
Proof.
  intros Hr o p Ho (H1 & H2).
  destruct (reachable_inv s A Hr) as [L Inv].
  assert (Ho' : 0 <= o < MAX_ORDER) by lia.
  pose proof (inv_chain _ _ _ _ Inv o Ho') as Hc.
  apply (reaches_chain _ _ _ _ Hc) in H1.
  apply (reaches_chain _ _ _ _ Hc) in H2.
  now apply (inv_nopair _ _ _ _ Inv o p Ho).
Qed.

Lemma reachable_free_terminates s A pg o :
  reachable s A -> In (pg, o) A ->
  exists fuel s', __free_pages fuel s pg o = Some s'.
Proof.
  intros Hr HA.
  destruct (reachable_inv s A Hr) as [L Inv].
  destruct (inv_lists_terminate _ _ _ _ Inv) as [fuel HT].
  assert (Hal : aligned (pg, o)).
  { apply (block_aligned _ _ _ _ Inv). now left. }
  destruct Hal as (Ho & _). cbn [snd] in Ho.
  destruct (coalesce_loop_spec (Z.to_nat (MAX_ORDER - 1 - o)) fuel s pg o
              eq_refl ltac:(lia) HT) as (s1 & pf & od & Hl & _).
  exists fuel. unfold __free_pages. rewrite Hl. eauto.
Qed.

Lemma reachable_upd_page s A pg f :
  reachable s A -> (exists o, In (pg, o) A) ->
  Z.land (flags (f (MEM_MAP s pg))) PG_free = 0 ->
  reachable (upd_page s pg f) A.
Proof.
  intros Hr HA Hf. apply (reach_owner s A); auto. split.
  - intro k. reflexivity.
  - intro q. unfold upd_page. simpl. unfold upd.
    destruct (Z.eqb_spec q pg) as [->|N]; auto.
Qed.

Lemma reachable_set_arena s A m :
  reachable s A -> reachable (set_arena s m) A.
Proof.
  intros Hr. apply (reach_owner s A); auto. split; intros; auto.
Qed.

Lemma reachable_set_cache s A c k :
  reachable s A -> reachable (set_cache s c k) A.
Proof.
  intros Hr. apply (reach_owner s A); auto. split; intros; auto.
Qed.

Lemma reachable_slab_push s A pg obj :
  reachable s A -> (exists o, In (pg, o) A) ->
  flags (MEM_MAP s pg) = PG_slab ->
  reachable (slab_push s pg obj) A /\
  flags (MEM_MAP (slab_push s pg obj) pg) = PG_slab.
Proof.
  intros Hr HA Hf. unfold slab_push. split.
  - apply reachable_upd_page; auto.
    + apply reachable_upd_page; auto.
      * now apply reachable_set_arena.
      * simpl. now rewrite Hf.
    + cbn. rewrite upd_same. simpl. now rewrite Hf.
  - cbn. rewrite !upd_same. simpl. exact Hf.
Qed.

Lemma reachable_slab_reinsert s A c pg :
  reachable s A -> (exists o, In (pg, o) A) ->
  flags (MEM_MAP s pg) = PG_slab ->
  reachable (slab_reinsert s c pg) A /\
  flags (MEM_MAP (slab_reinsert s c pg) pg) = PG_slab.
Proof.
  intros Hr HA Hf. unfold slab_reinsert.
  destruct (active_objects (MEM_MAP s pg) =? _); auto.
  split.
  - apply reachable_set_cache. apply reachable_upd_page; auto.
    simpl. now rewrite Hf.
  - cbn. rewrite upd_same. simpl. exact Hf.
Qed.

Lemma reachable_unlink_partial s A c l fuel pg s3 :
  reachable s A ->
  partial_list s c l ->
  (forall q, In q l -> exists o, In (q, o) A) ->
  unlink fuel s (PartialHead c) pg = Some s3 ->
  reachable s3 A /\ flags (MEM_MAP s3 pg) = flags (MEM_MAP s pg).
Proof.
  intros Hr Hl Hown Hu.
  destruct (unlink_chain l (S (length l)) s (PartialHead c) pg)
    as (s3' & Hu' & _ & Hfr); auto.
  { intros q Eq. discriminate. }
  assert (s3 = s3') by (eapply unlink_det; eauto). subst s3'.
  destruct Hfr as (_ & _ & _ & F4 & F5 & F6 & _).
  destruct (reachable_inv s A Hr) as [L Inv].
  split.
  - apply (reach_owner s A); auto. split.
    + intro k. apply F6. discriminate.
    + intro q. destruct (in_dec Z.eq_dec q l) as [Hin|Hnot].
      * right. destruct (Hown q Hin) as [o HA]. split; [eauto|].
        destruct (frame_fields _ _ (F4 q)) as [-> _].
        apply (inv_alloc _ _ _ _ Inv _ HA).
      * left. apply F5; auto. discriminate.
  - destruct (frame_fields _ _ (F4 pg)) as [-> _]. reflexivity.
Qed.

(** X23. After a free completes no buddy pair is left on a free list, in
    the states met by valid use. (1) A block that is allocated can be
    freed: [__free_pages] returns with enough fuel; and in the state it
    returns, for every order [o < MAX_ORDER - 1], no page [p] is present
    in the free list of order [o] together with its buddy [p XOR (1 << o)].
    (2) The same holds after a [kmem_cache_free] that returns the emptied
    page of the object to the buddy system, when the pages of the partial
    list it unlinks the page from are allocated pages. *)
Theorem no_coalescing_left_after_free s A :
  reachable s A ->
  (forall pg o, In (pg, o) A ->
     (exists fuel s', __free_pages fuel s pg o = Some s') /\
     (forall fuel s', __free_pages fuel s pg o = Some s' ->
        no_buddy_pair s')) /\
  (forall obj pg c fuel s',
     virt_to_page s obj = Some pg ->
     flags (MEM_MAP s pg) = PG_slab ->
     slab_cache (MEM_MAP s pg) = Some c ->
     active_objects (MEM_MAP s pg) = 1 ->
     In (pg, 0) A ->
     (exists l,
        partial_list (slab_reinsert (slab_push s pg obj) c pg) c l /\
        forall q, In q l -> exists o, In (q, o) A) ->
     kmem_cache_free fuel s obj = Some s' ->
     no_buddy_pair s').
Proof.
  intros Hr. split.
  - intros pg o HA. split.
    + now apply (reachable_free_terminates s A).
    + intros fuel s' Hf.
      apply (reachable_no_buddy_pair s' (remove block_eq_dec (pg, o) A)).
      now apply (reach_free s A fuel pg o s').
  - intros obj pg c fuel s' Hv Hfl Hc Hact HA (l & Hl & Hown) Hk.
    rewrite (kmem_cache_free_unfold fuel s obj pg c Hv Hfl Hc) in Hk.
    rewrite Hact in Hk. cbn [Z.sub Z.eqb Z.add Z.opp Z.pos_sub] in Hk.
    destruct (reachable_slab_push s A pg obj Hr (ex_intro _ 0 HA) Hfl)
      as [Hr1 Hf1].
    destruct (reachable_slab_reinsert _ A c pg Hr1 (ex_intro _ 0 HA) Hf1)
      as [Hr2 Hf2].
    set (s2 := slab_reinsert (slab_push s pg obj) c pg) in *.
    unfold release_slab_page in Hk.
    assert (Hgo : forall s3, reachable s3 A ->
                  __free_pages fuel
                    (upd_page s3 pg (fun p => with_flags p PG_buddy)) pg 0
                    = Some s' -> no_buddy_pair s').
    { intros s3 Hr3 Hf.
      apply (reachable_no_buddy_pair s' (remove block_eq_dec (pg, 0) A)).
      apply (reach_free (upd_page s3 pg (fun p => with_flags p PG_buddy))
                        A fuel pg 0 s'); auto.
      apply reachable_upd_page; eauto. }
    destruct (ptr_eqb (partial (slab_caches s2 c)) (Some pg)).
    + apply (Hgo _ (reachable_set_cache s2 A c _ Hr2) Hk).
    + destruct (unlink fuel s2 (PartialHead c) pg) as [s3|] eqn:Hu;
        [|discriminate].
      destruct (reachable_unlink_partial s2 A c l fuel pg s3 Hr2 Hl Hown Hu)
        as [Hr3 _].
      apply (Hgo s3 Hr3 Hk).
Qed.

Lemma no_coalescing_left_after_free_witness :
  exists fuel s', __free_pages fuel one_page_state 0 0 = Some s' /\
                  no_buddy_pair s'.
Proof.
  assert (Hr : reachable one_page_state [(0, 0)]).
  { apply (reach_alloc fresh_state [] 0 0).
    - apply reach_init.
    - lia.
    - reflexivity. }
  destruct (no_coalescing_left_after_free one_page_state [(0, 0)] Hr)
    as [H _].
  destruct (H 0 0 (or_introl eq_refl)) as [(fuel & s' & E) Hn].
  exists fuel, s'. split; [exact E|]. exact (Hn fuel s' E).
Defined.

(** ** Any sequence of calls: a block freed twice *)

Lemma call_reachable_do_kmalloc s size :
  call_reachable s -> 0 <= size < WORD ->
  call_reachable (fst (do_kmalloc s size)).
Proof.
  intros Hr Hs. unfold do_kmalloc.
  destruct (kmalloc s size) as [[s' ptr]|] eqn:E; simpl; auto.
  eapply calls_kmalloc; eauto.
Qed.

Lemma call_reachable_do_kfree s ptr :
  call_reachable s -> call_reachable (do_kfree s ptr).
Proof.
  intros Hr. unfold do_kfree.
  destruct (kfree 64 s ptr) as [s'|] eqn:E; auto.
  eapply calls_kfree; eauto.
Qed.

Lemma double_free_run_reachable : call_reachable double_free_run.
Proof.
  unfold double_free_run.
  assert (R0 : call_reachable fresh_state) by apply calls_init.
  assert (W : forall x, 0 <= x <= 8192 -> 0 <= x < WORD)
    by (unfold WORD; lia).
  pose proof (call_reachable_do_kmalloc _ 4096 R0 (W 4096 ltac:(lia))) as R1.
  destruct (do_kmalloc fresh_state 4096) as [s1 p]. cbn [fst] in R1.
  pose proof (call_reachable_do_kmalloc _ 8192 R1 (W 8192 ltac:(lia))) as R2.
  destruct (do_kmalloc s1 8192) as [s2 q]. cbn [fst] in R2.
  pose proof (call_reachable_do_kfree _ p R2) as R3.
  pose proof (call_reachable_do_kfree _ q R3) as R4.
  pose proof (call_reachable_do_kfree _ q R4) as R5.
  pose proof (call_reachable_do_kmalloc _ 4096 R5 (W 4096 ltac:(lia))) as R6.
  destruct (do_kmalloc (do_kfree (do_kfree (do_kfree s2 p) q) q) 4096)
    as [s6 r]. cbn [fst] in R6.
  pose proof (call_reachable_do_kmalloc _ 4096 R6 (W 4096 ltac:(lia))) as R7.
  destruct (do_kmalloc s6 4096) as [s7 t]. cbn [fst] in R7.
  pose proof (call_reachable_do_kfree _ r R7) as R8.
  pose proof (call_reachable_do_kmalloc _ 8192 R8 (W 8192 ltac:(lia))) as R9.
  destruct (do_kmalloc (do_kfree s7 r) 8192) as [s9 u]. cbn [fst] in R9.
  exact R9.
Qed.

(** What the run with the double free leaves: page 2 heads the free list of
    order 0 and the free list of order 1 at once, marked Free with order 1,
    while page 3 next to it is allocated. *)
Lemma double_free_run_state :
  buddy_free_area double_free_run 0 = Some 2 /\
  buddy_free_area double_free_run 1 = Some 2 /\
  flags (MEM_MAP double_free_run 2) = PG_free /\
  order (MEM_MAP double_free_run 2) = 1 /\
  flags (MEM_MAP double_free_run 3) = PG_buddy.
Proof. vm_compute. repeat split. Qed.

(** C4. The invariant of the free lists, over any sequence of allocate and
    free calls, does not hold of the program: after the run
    [double_free_run], in which one block is freed twice and the second free
    passes the test of [kfree] because the page absorbed by its buddy still
    carries [PG_buddy], the free list of order 0 holds page 2, whose
    recorded order is 1. *)
Lemma free_list_invariant_fails_after_double_free :
  ~ (forall s o p,
       call_reachable s -> 0 <= o < MAX_ORDER -> in_free_list s o p ->
       flags (MEM_MAP s p) = PG_free /\ order (MEM_MAP s p) = o).
Proof.
  intro H.
  destruct double_free_run_state as (H0 & _ & _ & H1 & _).
  destruct (H double_free_run 0 2 double_free_run_reachable) as [_ E].
  - unfold MAX_ORDER. lia.
  - unfold in_free_list. rewrite H0. constructor.
  - rewrite H1 in E. discriminate.
Qed.




(** ** Any free, from any state *)

Lemma unlink_fields fuel s pp target s' :
  unlink fuel s pp target = Some s' ->
  forall q, flags (MEM_MAP s' q) = flags (MEM_MAP s q) /\
            order (MEM_MAP s' q) = order (MEM_MAP s q).
Proof.
  intros H q. apply unlink_shape in H.
  destruct H as [->|(pv & _ & ->)]; auto.
  destruct pv as [o|c|x]; simpl; auto.
  unfold upd. destruct (Z.eqb_spec q x) as [->|N]; auto.
Qed.

Lemma coalesce_loop_fields : forall n fuel s p o s1 pf od,
  coalesce_loop n fuel s p o = Some (s1, pf, od) ->
  n = Z.to_nat (MAX_ORDER - 1 - o) ->
  (forall q, flags (MEM_MAP s1 q) = flags (MEM_MAP s q) /\
             order (MEM_MAP s1 q) = order (MEM_MAP s q)) /\
  (MAX_ORDER - 1 <= od \/
   ~ (page_is_free (MEM_MAP s1 (buddy_of pf od)) /\
      order (MEM_MAP s1 (buddy_of pf od)) = od)).
Proof.
  induction n as [|n IH]; intros fuel s p o s1 pf od Hl Hn.
  - cbn [coalesce_loop] in Hl. inversion Hl; subst. split; auto. left. lia.
  - cbn [coalesce_loop] in Hl.
    destruct (o <? MAX_ORDER - 1) eqn:Hlt.
    2:{ apply Z.ltb_ge in Hlt. lia. }
    apply Z.ltb_lt in Hlt. fold (buddy_of p o) in Hl.
    destruct ((Z.land (flags (MEM_MAP s (buddy_of p o))) PG_free =? 0)
              || negb (order (MEM_MAP s (buddy_of p o)) =? o)) eqn:Hc.
    + inversion Hl; subst. split; auto. right.
      intros (Hf & Hord). apply orb_true_iff in Hc. destruct Hc as [Hc|Hc].
      * apply Z.eqb_eq in Hc. now apply Hf.
      * apply negb_true_iff, Z.eqb_neq in Hc. auto.
    + destruct (unlink fuel s (AreaHead o) (buddy_of p o)) as [s'|] eqn:Hu;
        [|discriminate].
      destruct (IH _ _ _ _ _ _ _ Hl ltac:(lia)) as [Hq Hstop].
      split; auto. intro q. destruct (Hq q) as [-> ->].
      apply (unlink_fields _ _ _ _ _ Hu).
Qed.

(** Whatever the state and the block, held or not, of an order of a free
    list, a call of [__free_pages] that returns does not leave two buddies
    marked Free at the same order unless there were two before it. *)
Lemma free_pages_keeps_no_free_buddies fuel s pg o s' :
  0 <= o < MAX_ORDER ->
  no_free_buddies s ->
  __free_pages fuel s pg o = Some s' ->
  no_free_buddies s'.
Proof.
  intros _ HK Hf. unfold __free_pages in Hf.
  destruct (coalesce_loop _ fuel s pg o) as [[[s1 pf] od]|] eqn:Hl;
    [|discriminate].
  inversion Hf; subst s'. clear Hf.
  destruct (coalesce_loop_fields _ _ _ _ _ _ _ _ Hl eq_refl) as [Hq Hstop].
  intros k p Hk (F1 & O1 & F2 & O2). simpl in F1, O1, F2, O2.
  assert (Hstop' : od < MAX_ORDER - 1 ->
            ~ (page_is_free (MEM_MAP s1 (buddy_of pf od)) /\
               order (MEM_MAP s1 (buddy_of pf od)) = od)).
  { intros Hlt. destruct Hstop as [Hs|Hs]; [lia|exact Hs]. }
  destruct (Z.eq_dec p pf) as [->|Np].
  - rewrite upd_same in O1. simpl in O1.
    rewrite upd_other in F2, O2 by (apply buddy_of_neq; lia).
    rewrite <- O1 in Hk, F2, O2.
    apply (Hstop' ltac:(lia)). auto.
  - destruct (Z.eq_dec (buddy_of p k) pf) as [Eb|Nb].
    + rewrite Eb, upd_same in O2. simpl in O2.
      rewrite upd_other in F1, O1 by auto.
      rewrite <- O2 in Hk, Eb, O1.
      apply (Hstop' ltac:(lia)).
      rewrite <- Eb, buddy_of_invol. auto.
    + rewrite upd_other in F1, O1, F2, O2 by auto.
      unfold page_is_free in *.
      destruct (Hq p) as [E1 E2]. destruct (Hq (buddy_of p k)) as [E3 E4].
      rewrite E1 in F1. rewrite E2 in O1. rewrite E3 in F2. rewrite E4 in O2.
      apply (HK k p Hk). unfold page_is_free. auto.
Qed.

(** ** The slab layer is a valid user of the buddy system *)

(** Growing a cache is one allocation of order 0 followed by writes of the
    holder to the page obtained. *)
Lemma reachable_cache_grow s A c pg :
  reachable s A ->
  snd (alloc_pages s 0) = Some pg ->
  reachable (fst (cache_grow s c)) ((pg, 0) :: A).
Proof.
  intros Hr Hpg.
  pose proof (reach_alloc s A 0 pg Hr ltac:(lia) Hpg) as Hr1.
  unfold cache_grow.
  destruct (alloc_pages s 0) as [s1 [pg'|]]; cbn [fst snd] in *;
    [|discriminate].
  inversion Hpg; subst pg'. cbv zeta.
  destruct (build_freelist _ _ _ _ _) as [m prev]. cbn [fst].
  assert (HA : exists o, In (pg, o) ((pg, 0) :: A))
    by (exists 0; now left).
  apply reachable_set_cache.
  apply reachable_upd_page; auto.
  2:{ cbn. rewrite !upd_same. reflexivity. }
  apply reachable_upd_page; auto.
  2:{ cbn. rewrite !upd_same. reflexivity. }
  apply reachable_set_arena.
  apply reachable_upd_page; auto.
  2:{ cbn. rewrite !upd_same. reflexivity. }
  apply reachable_upd_page; auto.
  2:{ cbn. rewrite !upd_same. reflexivity. }
  apply reachable_upd_page; auto.
Qed.

(** ** The scenario of [main] *)

(** The small objects come from pages 0 and 1, the large block is the one
    of order 12 at PFN 4096, and once everything is freed the page frames
    form one free block of order [MAX_ORDER - 1] again, with no message of
    error printed. *)
Example main_run_result :
  snd main_run = (65536, 65536 + 4096, 65536 + 4096 * 4096) /\
  map (buddy_free_area (fst main_run))
      [0; 1; 2; 3; 4; 5; 6; 7; 8; 9; 10; 11; 12; 13; 14; 15]
    = [None; None; None; None; None; None; None; None;
       None; None; None; None; None; None; None; Some 0] /\
  flags (MEM_MAP (fst main_run) 0) = PG_free /\
  order (MEM_MAP (fst main_run) 0) = MAX_ORDER - 1 /\
  console (fst main_run) = [BuddyInitMsg 32768; SlabInitMsg].
Proof. vm_compute. repeat split. Qed.

(** An allocation followed by the free of its block gives the free lists
    their heads back. *)
Example alloc_free_round_trip :
  match __free_pages 4 one_page_state 0 0 with
  | Some s =>
      map (buddy_free_area s)
          [0; 1; 2; 3; 4; 5; 6; 7; 8; 9; 10; 11; 12; 13; 14; 15]
      = map (buddy_free_area fresh_state)
            [0; 1; 2; 3; 4; 5; 6; 7; 8; 9; 10; 11; 12; 13; 14; 15]
  | None => False
  end.
Proof. vm_compute. reflexivity. Qed.

(** ** The calls of the wrapper as valid use *)

Lemma reachable_printf s A e : reachable s A -> reachable (printf s e) A.
Proof.
  intros Hr. apply (reach_owner s A); auto. split; intros; auto.
Qed.

Lemma reachable_upd_page_keep s A pg f :
  reachable s A -> (exists o, In (pg, o) A) ->
  flags (f (MEM_MAP s pg)) = flags (MEM_MAP s pg) ->
  reachable (upd_page s pg f) A.
Proof.
  intros Hr (o & HA) Hf. apply reachable_upd_page; eauto.
  rewrite Hf. destruct (reachable_inv s A Hr) as [L Inv].
  apply (inv_alloc _ _ _ _ Inv _ HA).
Qed.

(** A large request is one allocation of a block. *)
Lemma reachable_kmalloc_large s A size s' ptr :
  reachable s A ->
  size_class slab_sizes 0 size = None ->
  kmalloc s size = Some (s', ptr) ->
  (ptr = 0 /\ s' = s) \/
  (exists pg o, ptr = page_address s' pg /\ reachable s' ((pg, o) :: A)).
Proof.
  intros Hr Hc Hk. unfold kmalloc in Hk. rewrite Hc in Hk.
  destruct (order_search 64 0 size) as [o|] eqn:Eo; [|discriminate].
  assert (Ho : 0 <= o).
  { assert (G : forall n z, 0 <= z -> order_search n z size = Some o ->
                            0 <= o).
    { induction n as [|n IH]; intros z Hz0 Hz; simpl in Hz; [discriminate|].
      destruct (_ <? size).
      - apply (IH (z + 1)); auto; lia.
      - inversion Hz. lia. }
    apply (G 64%nat 0); auto; lia. }
  destruct (alloc_pages_frame s o) as (_ & _ & _ & _ & Ff).
  pose proof (reach_alloc s A o) as Ha.
  destruct (alloc_pages s o) as [s1 [pg|]] eqn:E; cbn [fst snd] in *;
    inversion Hk; subst.
  - right. exists pg, o. split; auto.
  - left. split; auto.
Qed.

(** [kfree] of the first page of an allocated block that is marked
    [PG_buddy] and records the order of the block is a valid free. *)
Lemma reachable_kfree_buddy s A fuel ptr pg s' :
  reachable s A ->
  ptr <> 0 ->
  virt_to_page s ptr = Some pg ->
  flags (MEM_MAP s pg) = PG_buddy ->
  In (pg, order (MEM_MAP s pg)) A ->
  kfree fuel s ptr = Some s' ->
  reachable s' (remove block_eq_dec (pg, order (MEM_MAP s pg)) A).
Proof.
  intros Hr Hn Hv Hf HA Hk. unfold kfree in Hk.
  apply Z.eqb_neq in Hn. rewrite Hn, Hv, Hf in Hk. cbn in Hk.
  now apply (reach_free s A fuel pg _ s').
Qed.

(** A [kfree] that ends in one of its two reports leaves a state of valid
    use. *)
Lemma reachable_kfree_report s A fuel ptr s' :
  reachable s A ->
  (virt_to_page s ptr = None \/
   exists pg, virt_to_page s ptr = Some pg /\
              Z.land (flags (MEM_MAP s pg)) PG_slab = 0 /\
              Z.land (flags (MEM_MAP s pg)) PG_buddy = 0) ->
  kfree fuel s ptr = Some s' ->
  reachable s' A.
Proof.
  intros Hr Hc Hk. unfold kfree in Hk.
  destruct (ptr =? 0); [inversion Hk; subst; auto|].
  destruct Hc as [Hv | (pg & Hv & H4 & H2)]; rewrite Hv in Hk.
  - inversion Hk. now apply reachable_printf.
  - rewrite H4, H2 in Hk. cbn in Hk. inversion Hk.
    now apply reachable_printf.
Qed.

(** Serving an object from the front page of a partial list that is an
    allocated page is a step of the holder of that page. *)
Lemma reachable_alloc_from_partial s A c :
  reachable s A ->
  (forall pg, partial (slab_caches s c) = Some pg -> exists o, In (pg, o) A) ->
  reachable (fst (alloc_from_partial s c)) A.
Proof.
  intros Hr Hown. unfold alloc_from_partial.
  destruct (partial (slab_caches s c)) as [pg|] eqn:Ep; auto.
  specialize (Hown pg eq_refl).
  destruct (freelist (MEM_MAP s pg) =? 0); cbn [fst].
  - now apply reachable_printf.
  - cbv zeta. apply reachable_set_arena.
    assert (R2 : reachable
              (upd_page
                 (upd_page s pg
                    (fun p => with_freelist p
                                (load_ptr (arena s) (freelist (MEM_MAP s pg)))))
                 pg (fun p => with_active_objects p (active_objects p + 1)))
              A).
    { apply reachable_upd_page_keep; auto.
      apply reachable_upd_page_keep; auto. }
    destruct (freelist (MEM_MAP _ pg) =? 0); auto.
    apply reachable_upd_page_keep; auto.
    now apply reachable_set_cache.
Qed.

Lemma reachable_kmem_cache_alloc s A c :
  reachable s A ->
  (forall pg, partial (slab_caches s c) = Some pg -> exists o, In (pg, o) A) ->
  exists A', reachable (fst (kmem_cache_alloc s c)) A'.
Proof.
  intros Hr Hown. unfold kmem_cache_alloc.
  destruct (partial (slab_caches s c)) as [pg0|] eqn:Ep.
  - exists A. apply reachable_alloc_from_partial; auto.
    intros pg E. apply Hown. congruence.
  - destruct (cache_grow_result s c) as [Gf Gs].
    destruct (snd (alloc_pages s 0)) as [pg|] eqn:Ea.
    + destruct (Gs pg eq_refl) as [G1 G2].
      pose proof (reachable_cache_grow s A c pg Hr Ea) as Hr1.
      destruct (cache_grow s c) as [t ok]. cbn [fst snd] in *. subst ok.
      cbn [Z.eqb]. exists ((pg, 0) :: A).
      apply reachable_alloc_from_partial; auto.
      intros pg' E. exists 0. left. congruence.
    + rewrite (Gf eq_refl). cbn [Z.eqb fst]. eauto.
Qed.

(** [kmem_cache_free] of an object of an allocated slab page whose partial
    list holds allocated pages: the holder's writes, then, when the page
    is empty, a valid free of the page at order 0. *)
Lemma reachable_kmem_cache_free s A fuel obj pg c s' :
  reachable s A ->
  virt_to_page s obj = Some pg ->
  flags (MEM_MAP s pg) = PG_slab ->
  slab_cache (MEM_MAP s pg) = Some c ->
  In (pg, 0) A ->
  (exists l,
     partial_list (slab_reinsert (slab_push s pg obj) c pg) c l /\
     forall q, In q l -> exists o, In (q, o) A) ->
  kmem_cache_free fuel s obj = Some s' ->
  exists A', reachable s' A'.
Proof.
  intros Hr Hv Hfl Hc HA (l & Hl & Hown) Hk.
  rewrite (kmem_cache_free_unfold fuel s obj pg c Hv Hfl Hc) in Hk.
  destruct (reachable_slab_push s A pg obj Hr (ex_intro _ 0 HA) Hfl)
    as [Hr1 Hf1].
  destruct (reachable_slab_reinsert _ A c pg Hr1 (ex_intro _ 0 HA) Hf1)
    as [Hr2 Hf2].
  set (s2 := slab_reinsert (slab_push s pg obj) c pg) in *.
  destruct (active_objects (MEM_MAP s pg) - 1 =? 0).
  2:{ inversion Hk; subst. eauto. }
  unfold release_slab_page in Hk.
  assert (Hgo : forall s3, reachable s3 A ->
                __free_pages fuel
                  (upd_page s3 pg (fun p => with_flags p PG_buddy)) pg 0
                  = Some s' -> exists A', reachable s' A').
  { intros s3 Hr3 Hf. eexists.
    apply (reach_free (upd_page s3 pg (fun p => with_flags p PG_buddy))
                      A fuel pg 0 s'); auto.
    apply reachable_upd_page; eauto. }
  destruct (ptr_eqb (partial (slab_caches s2 c)) (Some pg)).
  - apply (Hgo _ (reachable_set_cache s2 A c _ Hr2) Hk).
  - destruct (unlink fuel s2 (PartialHead c) pg) as [s3|] eqn:Hu;
      [|discriminate].
    destruct (reachable_unlink_partial s2 A c l fuel pg s3 Hr2 Hl Hown Hu)
      as [Hr3 _].
    apply (Hgo s3 Hr3 Hk).
Qed.

(** * Further properties of the code *)

(** ** Address translation *)

Lemma page_of_address s pg off :
  0 <= pg < total_pages -> 0 <= off < PAGE_SIZE ->
  virt_to_page s (page_address s pg + off) = Some pg.
Proof.
  intros Hpg Hoff.
  destruct (page_address_range s pg Hpg) as (H1 & H2 & H3).
  unfold virt_to_page.
  replace (page_address s pg + off <? PHYS_MEM_START s) with false
    by (symmetry; apply Z.ltb_ge; lia).
  replace (PHYS_MEM_START s + MEM_SIZE <=? page_address s pg + off) with false
    by (symmetry; apply Z.leb_gt; lia).
  cbn [orb]. f_equal.
  rewrite Z.shiftr_div_pow2 by (unfold PAGE_SHIFT; lia).
  rewrite H3. change (2 ^ PAGE_SHIFT) with 4096 in *.
  change PAGE_SIZE with 4096 in *.
  replace (PHYS_MEM_START s + pg * 4096 + off - PHYS_MEM_START s)
    with (off + pg * 4096) by lia.
  rewrite Z.div_add by lia. rewrite Z.div_small by lia. lia.
Qed.

(** X1. Every address of the page frame [pg] is translated back to [pg]:
    for a frame number [pg] of the table and an offset [off] below the page
    size, [virt_to_page (page_address pg + off)] is [&MEM_MAP[pg]]. *)
Theorem virt_to_page_page_address s pg off :
  0 <= pg < total_pages -> 0 <= off < PAGE_SIZE ->
  virt_to_page s (page_address s pg + off) = Some pg.
Proof. apply page_of_address. Qed.

Lemma virt_to_page_page_address_witness :
  virt_to_page fresh_state (page_address fresh_state 5 + 100) = Some 5.
Proof.
  apply (virt_to_page_page_address fresh_state 5 100).
  - unfold total_pages. change (MEM_SIZE / PAGE_SIZE) with 32768. lia.
  - change PAGE_SIZE with 4096. lia.
Defined.

(** X2. [virt_to_page] never yields a descriptor outside [MEM_MAP]: when it
    returns [&MEM_MAP[pg]] for an address, [pg] is below the number of page
    frames and the address lies in the page that [page_address pg] starts;
    it returns NULL exactly for the addresses outside the arena. *)
Theorem page_address_virt_to_page s addr :
  match virt_to_page s addr with
  | Some pg =>
      0 <= pg < total_pages /\
      page_address s pg <= addr < page_address s pg + PAGE_SIZE
  | None => addr < PHYS_MEM_START s \/ PHYS_MEM_START s + MEM_SIZE <= addr
  end.
Proof.
  destruct (virt_to_page_spec s addr) as [Hn Hs].
  destruct (virt_to_page s addr) as [pg|].
  - destruct (Hs pg eq_refl) as (Hr & Hpg & Hb). split; auto.
    destruct (page_address_range s pg Hb) as (_ & _ & ->).
    change PAGE_SIZE with 4096 in *.
    pose proof (Z.div_mod (addr - PHYS_MEM_START s) 4096 ltac:(lia)) as D.
    pose proof (Z.mod_pos_bound (addr - PHYS_MEM_START s) 4096 ltac:(lia)).
    lia.
  - now apply Hn.
Qed.

(** ** Initialisation *)

(** X3. [kmalloc_init], whatever the address and the contents of the arena
    it obtains: the arena is one free block, page 0 at order
    [MAX_ORDER - 1], alone on the free list of that order, and every other
    free list is empty; every other descriptor is zeroed; the seven caches
    have the configured object sizes, in order, and empty partial lists;
    the arena contents are untouched and the two start-up messages are
    printed. *)
Theorem kmalloc_init_state base m0 :
  let s := kmalloc_init base m0 in
  PHYS_MEM_START s = base /\ arena s = m0 /\
  (forall k, 0 <= k < MAX_ORDER ->
     free_list s k (if k =? MAX_ORDER - 1 then [0] else [])) /\
  MEM_MAP s 0 = with_order (with_flags zero_page PG_free) (MAX_ORDER - 1) /\
  2 ^ (MAX_ORDER - 1) = total_pages /\
  (forall q, q <> 0 -> MEM_MAP s q = zero_page) /\
  (forall i, 0 <= i < SLAB_INDEX_COUNT ->
     slab_caches s i = mkCache (nth (Z.to_nat i) slab_sizes 0) None) /\
  console s = [BuddyInitMsg total_pages; SlabInitMsg].
Proof.
  cbv zeta. split; [reflexivity|]. split; [reflexivity|].
  split; [|split; [reflexivity|split; [reflexivity|split; [|split]]]].
  - intros k Hk. unfold free_list. rewrite init_area.
    destruct (k =? MAX_ORDER - 1); simpl; auto.
  - intros q Hq. cbn. now rewrite upd_other.
  - intros i Hi. unfold SLAB_INDEX_COUNT in Hi.
    assert (E : i = 0 \/ i = 1 \/ i = 2 \/ i = 3 \/ i = 4 \/ i = 5 \/ i = 6)
      by lia.
    destruct E as [->|[->|[->|[->|[->|[->| ->]]]]]]; reflexivity.
  - reflexivity.
Qed.

(** ** Who owns a page frame *)

Lemma alloc_pages_found s o pg :
  0 <= o -> snd (alloc_pages s o) = Some pg ->
  exists k, o <= k < MAX_ORDER /\
    (forall j, o <= j < k -> buddy_free_area s j = None) /\
    buddy_free_area s k = Some pg /\
    fst (alloc_pages s o) =
      set_page (split (Z.to_nat (k - o))
                      (set_area s k (next (MEM_MAP s pg))) pg k)
        pg
        (with_next
           (with_order
              (with_flags
                 (MEM_MAP (split (Z.to_nat (k - o))
                                 (set_area s k (next (MEM_MAP s pg))) pg k)
                          pg)
                 PG_buddy) o) None).
Proof.
  intros Ho Hpg. unfold alloc_pages in *.
  destruct (first_nonempty (Z.to_nat (MAX_ORDER - o)) s o eq_refl)
    as [Hnone|(k & pg0 & Hk & He & Hp)].
  - rewrite alloc_scan_none in Hpg by auto. discriminate.
  - rewrite (alloc_scan_found _ s o o k pg0 (le_n _) Hk He Hp) in *.
    cbv zeta in *. cbn [fst snd] in *. inversion Hpg; subst pg0.
    exists k. auto.
Qed.

Lemma inv_in_free_list s A L cur o p :
  buddy_inv s A L cur -> 0 <= o < MAX_ORDER ->
  (in_free_list s o p <-> In p (L o)).
Proof.
  intros Inv Ho. apply reaches_chain. apply (inv_chain _ _ _ _ Inv o Ho).
Qed.

Lemma area_head_listed s A L cur k pg :
  buddy_inv s A L cur -> 0 <= k < MAX_ORDER ->
  buddy_free_area s k = Some pg -> In pg (L k).
Proof.
  intros Inv Hk Hp.
  apply (inv_in_free_list _ _ _ _ k pg Inv Hk).
  unfold in_free_list. rewrite Hp. constructor.
Qed.

(** X4. In the states of valid use every page frame has exactly one owner:
    it lies in an allocated block or in a block on a free list, never in
    both, and never in two blocks; the allocated blocks are aligned on their
    size and lie inside the page frame table. *)
Theorem every_page_has_one_owner s A :
  reachable s A ->
  (forall x, 0 <= x < total_pages ->
     (exists b, In b A /\ covers b x) \/
     (exists o p, 0 <= o < MAX_ORDER /\ in_free_list s o p /\
                  covers (p, o) x)) /\
  (forall b o p x, In b A -> 0 <= o < MAX_ORDER -> in_free_list s o p ->
     covers b x -> ~ covers (p, o) x) /\
  (forall b1 b2 x, In b1 A -> In b2 A -> covers b1 x -> covers b2 x ->
     b1 = b2) /\
  (forall o1 p1 o2 p2 x, 0 <= o1 < MAX_ORDER -> 0 <= o2 < MAX_ORDER ->
     in_free_list s o1 p1 -> in_free_list s o2 p2 ->
     covers (p1, o1) x -> covers (p2, o2) x -> p1 = p2 /\ o1 = o2) /\
  (forall b, In b A -> aligned b).
Proof.
  intros Hr. destruct (reachable_inv s A Hr) as [L Inv].
  destruct (inv_part _ _ _ _ Inv) as (Hal & Hdis & Hcov).
  split; [|split; [|split; [|split]]].
  - intros x Hx. destruct (Hcov x Hx) as ([p o] & [Hb|[[]|(Hr' & Hb)]] & Cb).
    + left. eauto.
    + right. exists o, p. cbn [fst snd] in *. split; auto. split; auto.
      now apply (inv_in_free_list _ _ _ _ o p Inv).
  - intros [q k] o p x HA Ho Hin C1 C2.
    apply (inv_in_free_list _ _ _ _ o p Inv Ho) in Hin.
    assert (E : (q, k) = (p, o)).
    { apply (Hdis _ _ x); auto; [now left|now apply (free_is_block A L [])]. }
    inversion E; subst q k.
    now apply (alloc_not_free _ _ _ _ Inv p o o HA Ho).
  - intros b1 b2 x H1 H2. apply Hdis; now left.
  - intros o1 p1 o2 p2 x H1 H2 I1 I2 C1 C2.
    apply (inv_in_free_list _ _ _ _ _ _ Inv H1) in I1.
    apply (inv_in_free_list _ _ _ _ _ _ Inv H2) in I2.
    assert (E : (p1, o1) = (p2, o2)).
    { apply (Hdis _ _ x); auto; now apply (free_is_block A L []). }
    inversion E. auto.
  - intros b Hb. apply Hal. now left.
Qed.

Lemma every_page_has_one_owner_witness :
  (forall x, 0 <= x < total_pages ->
     (exists b, In b [(0, 0)] /\ covers b x) \/
     (exists o p, 0 <= o < MAX_ORDER /\ in_free_list one_page_state o p /\
                  covers (p, o) x)) /\
  (forall b o p x, In b [(0, 0)] -> 0 <= o < MAX_ORDER ->
     in_free_list one_page_state o p ->
     covers b x -> ~ covers (p, o) x) /\
  (forall b1 b2 x, In b1 [(0, 0)] -> In b2 [(0, 0)] ->
     covers b1 x -> covers b2 x -> b1 = b2) /\
  (forall o1 p1 o2 p2 x, 0 <= o1 < MAX_ORDER -> 0 <= o2 < MAX_ORDER ->
     in_free_list one_page_state o1 p1 -> in_free_list one_page_state o2 p2 ->
     covers (p1, o1) x -> covers (p2, o2) x -> p1 = p2 /\ o1 = o2) /\
  (forall b, In b [(0, 0)] -> aligned b).
Proof.
  apply (every_page_has_one_owner one_page_state [(0, 0)]).
  apply (reach_alloc fresh_state [] 0 0).
  - apply reach_init.
  - lia.
  - reflexivity.
Defined.

(** X5. The block [alloc_pages] returns in a state of valid use is fresh:
    it is aligned on its size and lies inside the page frame table, it
    shares no page with a block that is allocated already, and after the
    call it shares no page with a block on a free list. *)
Theorem alloc_pages_block_is_fresh s A o pg :
  reachable s A -> 0 <= o ->
  snd (alloc_pages s o) = Some pg ->
  aligned (pg, o) /\
  (forall b x, In b A -> covers b x -> ~ covers (pg, o) x) /\
  (forall k p x, 0 <= k < MAX_ORDER ->
     in_free_list (fst (alloc_pages s o)) k p -> covers (p, k) x ->
     ~ covers (pg, o) x).
Proof.
  intros Hr Ho Hpg.
  destruct (reachable_inv s A Hr) as [L Inv].
  destruct (inv_alloc_pages s A L o pg Inv Ho Hpg) as [L' Inv'].
  destruct (inv_part _ _ _ _ Inv') as (Hal & Hdis & Hcov).
  assert (Hnew : is_block ((pg, o) :: A) L' [] (pg, o)) by (left; now left).
  split; [now apply Hal|]. split.
  - intros b x HA C1 C2.
    assert (E : b = (pg, o)).
    { apply (Hdis _ _ x); auto. left. now right. }
    subst b.
    destruct (alloc_pages_found s o pg Ho Hpg) as (k & Hk & _ & Hp & _).
    apply (alloc_not_free _ _ _ _ Inv pg o k HA ltac:(lia)).
    apply (area_head_listed s A L [] k pg Inv); [lia|exact Hp].
  - intros k p x Hk Hin C1 C2.
    apply (inv_in_free_list _ _ _ _ k p Inv' Hk) in Hin.
    assert (E : (p, k) = (pg, o)).
    { apply (Hdis _ _ x); auto. now apply (free_is_block ((pg, o) :: A) L' []). }
    inversion E; subst p k.
    apply (alloc_not_free _ _ _ _ Inv' pg o o (or_introl eq_refl) Hk Hin).
Qed.

Lemma alloc_pages_block_is_fresh_witness :
  aligned (8, 3) /\
  (forall b x, In b [(0, 0)] -> covers b x -> ~ covers (8, 3) x) /\
  (forall k p x, 0 <= k < MAX_ORDER ->
     in_free_list (fst (alloc_pages one_page_state 3)) k p ->
     covers (p, k) x -> ~ covers (8, 3) x).
Proof.
  apply (alloc_pages_block_is_fresh one_page_state [(0, 0)] 3 8).
  - apply (reach_alloc fresh_state [] 0 0).
    + apply reach_init.
    + lia.
    + reflexivity.
  - lia.
  - reflexivity.
Defined.

(** ** Allocating a block and freeing it at once *)

Lemma mod_pow2_le p a b :
  0 <= a <= b -> p mod 2 ^ b = 0 -> p mod 2 ^ a = 0.
Proof.
  intros Hab H.
  assert (E : 2 ^ b = 2 ^ a * 2 ^ (b - a)).
  { rewrite <- Z.pow_add_r by lia. f_equal. lia. }
  pose proof (pow2_pos a ltac:(lia)) as Pa.
  pose proof (pow2_pos b ltac:(lia)) as Pb.
  apply mod0_mul in H; auto. rewrite H, E, <- Z.mul_assoc.
  now apply mul_mod0.
Qed.

Lemma page_eta p :
  p = mkPage (flags p) (next p) (order p) (slab_cache p) (freelist p)
             (active_objects p).
Proof. now destruct p. Qed.

(** The loop of [__free_pages] undoes the halvings of [alloc_pages]: while
    the upper halves [pg + 2^i] head their free lists, the block at [pg]
    takes them back one order after the other. *)
Lemma coalesce_unsplit : forall n fuel t pg j,
  0 <= j -> 0 <= pg -> pg mod 2 ^ (j + Z.of_nat n) = 0 ->
  j + Z.of_nat n <= MAX_ORDER - 1 ->
  (forall i, j <= i < j + Z.of_nat n ->
     buddy_free_area t i = Some (pg + 2 ^ i) /\
     flags (MEM_MAP t (pg + 2 ^ i)) = PG_free /\
     order (MEM_MAP t (pg + 2 ^ i)) = i) ->
  exists t',
    coalesce_loop (Z.to_nat (MAX_ORDER - 1 - j)) (S fuel) t pg j
      = coalesce_loop (Z.to_nat (MAX_ORDER - 1 - (j + Z.of_nat n))) (S fuel)
                      t' pg (j + Z.of_nat n) /\
    MEM_MAP t' = MEM_MAP t /\ arena t' = arena t /\
    slab_caches t' = slab_caches t /\ console t' = console t /\
    PHYS_MEM_START t' = PHYS_MEM_START t /\
    (forall i, j <= i < j + Z.of_nat n ->
       buddy_free_area t' i = next (MEM_MAP t (pg + 2 ^ i))) /\
    (forall i, ~ (j <= i < j + Z.of_nat n) ->
       buddy_free_area t' i = buddy_free_area t i).
Proof.
  induction n as [|n IH]; intros fuel t pg j Hj Hpg Hmod Hle H.
  - exists t. rewrite Z.add_0_r. repeat split; auto. intros i Hi. lia.
  - assert (Hlt : j < MAX_ORDER - 1) by lia.
    assert (Hmod1 : pg mod 2 ^ (j + 1) = 0).
    { apply (mod_pow2_le pg (j + 1) (j + Z.of_nat (S n))); auto. lia. }
    destruct (buddy_of_split pg j Hj Hmod1) as [EB _].
    assert (EL : Z.land pg (pg + 2 ^ j) = pg).
    { rewrite <- EB, land_buddy_min, EB by auto.
      pose proof (pow2_pos j Hj). lia. }
    destruct (H j ltac:(lia)) as (Ha & Hf & Ho).
    set (t1 := set_area t j (next (MEM_MAP t (pg + 2 ^ j)))).
    destruct (IH fuel t1 pg (j + 1)) as (t' & El & E1 & E2 & E3 & E4 & E5 & E6 & E7);
      auto; try lia.
    { replace (j + 1 + Z.of_nat n) with (j + Z.of_nat (S n)) by lia. auto. }
    { intros i Hi. destruct (H i ltac:(lia)) as (Ha' & Hf' & Ho').
      unfold t1. simpl. rewrite upd_other by lia. auto. }
    exists t'. split; [|repeat split; auto].
    + replace (Z.to_nat (MAX_ORDER - 1 - j))
        with (S (Z.to_nat (MAX_ORDER - 1 - (j + 1)))) by lia.
      cbn [coalesce_loop]. cbv zeta.
      rewrite (proj2 (Z.ltb_lt _ _) Hlt).
      fold (buddy_of pg j). rewrite EB, Hf, Ho, Z.eqb_refl.
      change (Z.land PG_free PG_free =? 0) with false. cbn [orb negb].
      rewrite unlink_step. cbn [load_pp]. rewrite Ha, Z.eqb_refl.
      cbn [store_pp]. rewrite EL. fold t1. rewrite El.
      replace (j + 1 + Z.of_nat n) with (j + Z.of_nat (S n)) by lia.
      reflexivity.
    + intros i Hi. destruct (Z.eq_dec i j) as [->|N].
      * rewrite E7 by lia. unfold t1. simpl. now rewrite upd_same.
      * rewrite E6 by lia. reflexivity.
    + intros i Hi. rewrite E7 by lia. unfold t1. simpl.
      rewrite upd_other; auto. lia.
Qed.

Lemma inv_buddy_not_mergeable s A L k pg :
  buddy_inv s A L [] -> 0 <= k < MAX_ORDER - 1 -> In pg (L k) ->
  (Z.land (flags (MEM_MAP s (buddy_of pg k))) PG_free =? 0)
  || negb (order (MEM_MAP s (buddy_of pg k)) =? k) = true.
Proof.
  intros Inv Hk Hin.
  destruct (Z.land (flags (MEM_MAP s (buddy_of pg k))) PG_free =? 0) eqn:Ef;
    [reflexivity|].
  destruct (order (MEM_MAP s (buddy_of pg k)) =? k) eqn:Eo; [|reflexivity].
  exfalso. apply Z.eqb_neq in Ef. apply Z.eqb_eq in Eo.
  assert (Hb : is_block A L [] (pg, k)) by (apply free_is_block; auto; lia).
  destruct (buddy_is_head _ pg k (inv_part _ _ _ _ Inv) Hb ltac:(lia))
    as (m' & [HB|[[]|(Hr & HB)]] & Hm'); cbn [fst snd] in *.
  - apply Ef. apply (inv_alloc _ _ _ _ Inv _ HB).
  - destruct (inv_free _ _ _ _ Inv m' _ Hr HB) as [_ E].
    rewrite Eo in E. subst m'.
    now apply (inv_nopair _ _ _ _ Inv k pg ltac:(lia) Hin).
Qed.

Lemma inv_alloc_free_restores s A L o pg fuel :
  buddy_inv s A L [] -> 0 <= o ->
  snd (alloc_pages s o) = Some pg ->
  exists s2 k,
    __free_pages (S fuel) (fst (alloc_pages s o)) pg o = Some s2 /\
    o <= k < MAX_ORDER /\ In pg (L k) /\
    (forall j, buddy_free_area s2 j = buddy_free_area s j) /\
    MEM_MAP s2 pg = MEM_MAP s pg /\
    (forall q, (forall i, o <= i < k -> q <> pg + 2 ^ i) ->
       MEM_MAP s2 q = MEM_MAP s q) /\
    arena s2 = arena s /\ slab_caches s2 = slab_caches s /\
    console s2 = console s /\ PHYS_MEM_START s2 = PHYS_MEM_START s.
Proof.
  intros Inv Ho Hpg.
  destruct (alloc_pages_found s o pg Ho Hpg) as (k & Hk & He & Hp & Es).
  assert (Hk' : 0 <= k < MAX_ORDER) by lia.
  pose proof (area_head_listed s A L [] k pg Inv Hk' Hp) as Hin.
  destruct (inv_free _ _ _ _ Inv k pg Hk' Hin) as [Ffl Ford].
  assert (Hal : aligned (pg, k)).
  { apply (block_aligned _ _ _ _ Inv). now apply free_is_block. }
  destruct Hal as (_ & Hpg0 & Hmod & Hfit). cbn [fst snd] in *.
  set (s1 := set_area s k (next (MEM_MAP s pg))) in *.
  set (sp := split (Z.to_nat (k - o)) s1 pg k) in *.
  pose proof (split_spec (Z.to_nat (k - o)) s1 pg k) as Hs.
  rewrite Z2Nat.id in Hs by lia.
  replace (k - (k - o)) with o in Hs by lia.
  specialize (Hs Ho). cbv zeta in Hs. fold sp in Hs.
  destruct Hs as (S1 & S2 & S3 & S4 & S5 & S6 & S7).
  assert (Hne : forall i, 0 <= i -> pg <> pg + 2 ^ i).
  { intros i Hi. pose proof (pow2_pos i Hi). lia. }
  assert (Hpgsp : MEM_MAP sp pg = MEM_MAP s pg).
  { rewrite S2; [reflexivity|]. intros j Hj. apply Hne. lia. }
  set (s' := fst (alloc_pages s o)) in *.
  assert (Hmap' : forall q, q <> pg -> MEM_MAP s' q = MEM_MAP sp q).
  { intros q Hq. rewrite Es. simpl. now rewrite upd_other. }
  assert (Harea' : forall j, buddy_free_area s' j = buddy_free_area sp j).
  { intro j. rewrite Es. reflexivity. }
  destruct (coalesce_unsplit (Z.to_nat (k - o)) fuel s' pg o)
    as (t' & El & E1 & E2 & E3 & E4 & E5 & E6 & E7); auto.
  { rewrite Z2Nat.id by lia. replace (o + (k - o)) with k by lia. auto. }
  { rewrite Z2Nat.id by lia. lia. }
  { rewrite Z2Nat.id by lia. replace (o + (k - o)) with k by lia.
    intros i Hi. destruct (S1 i Hi) as [M1 M2].
    rewrite Harea', Hmap', M1 by (apply not_eq_sym, Hne; lia). auto. }
  rewrite Z2Nat.id in El, E6, E7 by lia.
  replace (o + (k - o)) with k in El, E6, E7 by lia.
  assert (Hend : coalesce_loop (Z.to_nat (MAX_ORDER - 1 - k)) (S fuel) t' pg k
                 = Some (t', pg, k)).
  { destruct (Z.to_nat (MAX_ORDER - 1 - k)) as [|m] eqn:Em; [reflexivity|].
    assert (Hlt : k < MAX_ORDER - 1) by lia.
    cbn [coalesce_loop]. cbv zeta.
    rewrite (proj2 (Z.ltb_lt _ _) Hlt). fold (buddy_of pg k).
    assert (EB : MEM_MAP t' (buddy_of pg k) = MEM_MAP s (buddy_of pg k)).
    { rewrite E1.
      assert (HB : buddy_of pg k = pg + 2 ^ k \/ buddy_of pg k = pg - 2 ^ k).
      { unfold buddy_of. rewrite shiftl_1 by lia.
        destruct (buddy_cases pg k ltac:(lia)) as [(_ & E & _)|(_ & E & _)];
          auto. }
      pose proof (pow2_pos k ltac:(lia)) as Pk.
      assert (Hlow : forall i, o <= i < k -> buddy_of pg k <> pg + 2 ^ i).
      { intros i Hi. pose proof (pow2_pos i ltac:(lia)).
        assert (2 ^ i < 2 ^ k) by (apply Z.pow_lt_mono_r; lia). lia. }
      rewrite Hmap' by lia. rewrite S2 by auto. reflexivity. }
    rewrite EB.
    rewrite (inv_buddy_not_mergeable s A L k pg Inv ltac:(lia) Hin).
    reflexivity. }
  exists (set_area
            (set_page t' pg
               (with_next (with_order (with_flags (MEM_MAP t' pg) PG_free) k)
                          (buddy_free_area t' k)))
            k (Some pg)), k.
  split.
  { unfold __free_pages. rewrite El, Hend. reflexivity. }
  split; [lia|]. split; [exact Hin|].
  assert (Ek : buddy_free_area t' k = next (MEM_MAP s pg)).
  { rewrite E7 by lia. rewrite Harea', S3 by lia. unfold s1. simpl.
    now rewrite upd_same. }
  split; [|split; [|split]].
  - intro j. simpl. destruct (Z.eq_dec j k) as [->|N].
    + now rewrite upd_same.
    + rewrite upd_other by auto.
      destruct (Z_le_gt_dec o j) as [Hoj|Hoj];
        [destruct (Z_lt_ge_dec j k) as [Hjk|Hjk]|].
      * rewrite E6 by lia. destruct (S1 j ltac:(lia)) as [M1 _].
        rewrite Hmap', M1 by (apply not_eq_sym, Hne; lia). simpl.
        unfold s1. simpl. rewrite upd_other by auto.
        rewrite He by lia. reflexivity.
      * rewrite E7 by lia. rewrite Harea', S3 by lia. unfold s1. simpl.
        now rewrite upd_other.
      * rewrite E7 by lia. rewrite Harea', S3 by lia. unfold s1. simpl.
        now rewrite upd_other.
  - simpl. rewrite upd_same, Ek, E1, Es. simpl.
    rewrite upd_same. fold sp. rewrite Hpgsp.
    etransitivity; [|symmetry; apply page_eta].
      unfold with_next, with_order, with_flags. simpl.
      rewrite Ffl, Ford. reflexivity.
  - intros q Hq. simpl.
    destruct (Z.eq_dec q pg) as [->|N].
    + rewrite upd_same, Ek, E1, Es. simpl.
      rewrite upd_same. fold sp. rewrite Hpgsp.
      etransitivity; [|symmetry; apply page_eta].
      unfold with_next, with_order, with_flags. simpl.
      rewrite Ffl, Ford. reflexivity.
    + rewrite upd_other by auto. rewrite E1, Hmap' by auto.
      rewrite S2 by auto. reflexivity.
  - simpl. rewrite E2, E3, E4, E5, Es. simpl.
    rewrite S4, S5, S6, S7. unfold s1. simpl. auto.
Qed.

(** X6. Allocation followed at once by the free of the block obtained is a
    round trip. In a state of valid use, after [pg = alloc_pages(o)] the
    call [__free_pages(pg, o)] returns (its scans stop at the first page
    they look at), and then every free list holds the pages it held before
    the allocation, in the same sequence; the descriptors of the pages on
    the free lists and of the first pages of the allocated blocks are what
    they were; arena, caches and console are untouched. *)
Theorem alloc_then_free_restores s A o pg fuel :
  reachable s A -> 0 <= o ->
  snd (alloc_pages s o) = Some pg ->
  exists s2,
    __free_pages (S fuel) (fst (alloc_pages s o)) pg o = Some s2 /\
    (forall j, buddy_free_area s2 j = buddy_free_area s j) /\
    (forall j l, 0 <= j < MAX_ORDER -> free_list s j l -> free_list s2 j l) /\
    (forall j p, 0 <= j < MAX_ORDER -> in_free_list s j p ->
       MEM_MAP s2 p = MEM_MAP s p) /\
    (forall b, In b A -> MEM_MAP s2 (fst b) = MEM_MAP s (fst b)) /\
    arena s2 = arena s /\ slab_caches s2 = slab_caches s /\
    console s2 = console s.
Proof.
  intros Hr Ho Hpg.
  destruct (reachable_inv s A Hr) as [L Inv].
  destruct (inv_alloc_free_restores s A L o pg fuel Inv Ho Hpg)
    as (s2 & k & Hf & Hk & Hin & Ha & Hm & Hq & Har & Hc & Hcon & _).
  assert (Hk' : 0 <= k < MAX_ORDER) by lia.
  assert (Hbk : is_block A L [] (pg, k)) by now apply free_is_block.
  assert (Hhead : forall b, is_block A L [] b ->
                  MEM_MAP s2 (fst b) = MEM_MAP s (fst b)).
  { intros [p j] Hb. cbn [fst].
    destruct (Z.eq_dec p pg) as [->|N]; [exact Hm|].
    apply Hq. intros i Hi E.
    assert (Eb : (pg, k) = (p, j)).
    { apply (block_head_unique _ _ _ _ Inv); auto.
      unfold covers. cbn [fst snd]. subst p.
      pose proof (pow2_pos i ltac:(lia)).
      assert (2 ^ i < 2 ^ k) by (apply Z.pow_lt_mono_r; lia). lia. }
    inversion Eb. congruence. }
  assert (Hlist : forall j p, 0 <= j < MAX_ORDER -> In p (L j) ->
                  MEM_MAP s2 p = MEM_MAP s p).
  { intros j p Hj Hp. apply (Hhead (p, j)). now apply free_is_block. }
  exists s2. split; [exact Hf|]. split; [exact Ha|].
  split; [|split; [|split; [|auto]]].
  - intros j l Hj Hl.
    assert (l = L j).
    { eapply chain_unique; [exact Hl|]. apply (inv_chain _ _ _ _ Inv j Hj). }
    subst l. unfold free_list. rewrite Ha.
    eapply chain_ext; [|exact Hl].
    intros x Hx. unfold nexts. now rewrite (Hlist j).
  - intros j p Hj Hp. apply (Hlist j); auto.
    now apply (inv_in_free_list _ _ _ _ j p Inv Hj).
  - intros b Hb. apply Hhead. now left.
Qed.

Lemma alloc_then_free_restores_witness :
  exists s2,
    __free_pages 1 (fst (alloc_pages fresh_state 2)) 0 2 = Some s2 /\
    (forall j, buddy_free_area s2 j = buddy_free_area fresh_state j) /\
    (forall j l, 0 <= j < MAX_ORDER -> free_list fresh_state j l ->
       free_list s2 j l) /\
    (forall j p, 0 <= j < MAX_ORDER -> in_free_list fresh_state j p ->
       MEM_MAP s2 p = MEM_MAP fresh_state p) /\
    (forall b : block, In b [] ->
       MEM_MAP s2 (fst b) = MEM_MAP fresh_state (fst b)) /\
    arena s2 = arena fresh_state /\
    slab_caches s2 = slab_caches fresh_state /\
    console s2 = console fresh_state.
Proof.
  apply (alloc_then_free_restores fresh_state [] 2 0 0).
  - apply reach_init.
  - lia.
  - reflexivity.
Defined.

(** ** A freed block can be allocated again *)

Lemma coalesce_loop_order : forall n fuel s p o s1 pf od,
  coalesce_loop n fuel s p o = Some (s1, pf, od) ->
  o <= od /\ (od = o \/ od <= MAX_ORDER - 1).
Proof.
  induction n as [|n IH]; intros fuel s p o s1 pf od Hl.
  - cbn [coalesce_loop] in Hl. inversion Hl; subst. lia.
  - cbn [coalesce_loop] in Hl.
    destruct (o <? MAX_ORDER - 1) eqn:Hlt; [|inversion Hl; subst; lia].
    apply Z.ltb_lt in Hlt. cbv zeta in Hl.
    destruct (_ || _); [inversion Hl; subst; lia|].
    destruct (unlink fuel s (AreaHead o) _) as [s'|]; [|discriminate].
    apply IH in Hl. lia.
Qed.

(** X7. Whatever the state, once [__free_pages] has returned from freeing a
    block at order [o] an allocation at order [o] succeeds: the block that
    was freed, or the larger block it merged into, is on a free list of
    order at least [o]. *)
Theorem free_then_alloc_succeeds fuel s pg o s' :
  0 <= o < MAX_ORDER ->
  __free_pages fuel s pg o = Some s' ->
  exists pg', snd (alloc_pages s' o) = Some pg'.
Proof.
  intros Ho Hf. unfold __free_pages in Hf.
  destruct (coalesce_loop _ fuel s pg o) as [[[s1 pf] od]|] eqn:Hl;
    [|discriminate].
  inversion Hf; subst s'. clear Hf.
  apply coalesce_loop_order in Hl.
  assert (Hod : o <= od < MAX_ORDER) by lia.
  unfold alloc_pages.
  match goal with |- context [alloc_scan ?n ?t o o] =>
    destruct (first_nonempty n t o eq_refl)
      as [Hnone|(k & pg0 & Hk & He & Hp)] end.
  - specialize (Hnone od Hod). simpl in Hnone. rewrite upd_same in Hnone.
    discriminate.
  - rewrite (alloc_scan_found _ _ o o k pg0 (le_n _) Hk He Hp).
    exists pg0. reflexivity.
Qed.

Lemma free_then_alloc_succeeds_witness :
  exists pg',
    snd (alloc_pages
           (set_area (set_page one_page_state 0
                        (with_next
                           (with_order
                              (with_flags (MEM_MAP one_page_state 0) PG_free)
                              15)
                           (buddy_free_area one_page_state 15)))
                     15 (Some 0)) 15) = Some pg'.
Proof.
  apply (free_then_alloc_succeeds 1 one_page_state 0 15).
  - unfold MAX_ORDER. lia.
  - reflexivity.
Defined.

(** ** Freeing a free block *)

(** X8. In a state of valid use, [kfree] of an address in the first page of
    a block that is on a free list is reported as a double free, and apart
    from the message the state is unchanged. *)
Theorem kfree_of_free_block_is_reported s A o p off fuel :
  reachable s A -> 0 <= o < MAX_ORDER -> in_free_list s o p ->
  0 <= off < PAGE_SIZE -> page_address s p + off <> 0 ->
  kfree fuel s (page_address s p + off)
  = Some (printf s (DoubleFreeMsg (page_address s p + off) PG_free)).
Proof.
  intros Hr Ho Hin Hoff Hnz.
  destruct (reachable_inv s A Hr) as [L Inv].
  apply (inv_in_free_list _ _ _ _ o p Inv Ho) in Hin.
  destruct (inv_free _ _ _ _ Inv o p Ho Hin) as [Hfl _].
  assert (Hal : aligned (p, o)).
  { apply (block_aligned _ _ _ _ Inv). now apply free_is_block. }
  destruct Hal as (_ & Hp0 & _ & Hfit). cbn [fst snd] in *.
  pose proof (pow2_pos o ltac:(lia)) as Po.
  unfold kfree. apply Z.eqb_neq in Hnz. rewrite Hnz.
  rewrite page_of_address by (auto; lia).
  rewrite Hfl. reflexivity.
Qed.

Lemma kfree_of_free_block_is_reported_witness :
  kfree 0 one_page_state (page_address one_page_state 1 + 8)
  = Some (printf one_page_state
            (DoubleFreeMsg (page_address one_page_state 1 + 8) PG_free)).
Proof.
  apply (kfree_of_free_block_is_reported one_page_state [(0, 0)] 0 1 8 0).
  - apply (reach_alloc fresh_state [] 0 0).
    + apply reach_init.
    + lia.
    + reflexivity.
  - unfold MAX_ORDER. lia.
  - unfold in_free_list.
    replace (buddy_free_area one_page_state 0) with (Some 1)
      by (vm_compute; reflexivity).
    constructor.
  - change PAGE_SIZE with 4096. lia.
  - vm_compute. discriminate.
Defined.

(** ** What the buddy system leaves alone *)

Lemma unlink_not_partial : forall fuel s pp target s',
  unlink fuel s pp target = Some s' ->
  (forall c, pp <> PartialHead c) ->
  arena s' = arena s /\ slab_caches s' = slab_caches s /\
  console s' = console s /\ PHYS_MEM_START s' = PHYS_MEM_START s.
Proof.
  induction fuel as [|fuel IH]; intros s pp target s' H Hpp.
  - discriminate.
  - rewrite unlink_step in H. destruct (load_pp s pp) as [q|] eqn:E.
    + destruct (q =? target).
      * inversion H; subst.
        destruct pp as [o|c|x]; simpl; auto. now destruct (Hpp c).
      * apply IH in H; auto. intros c Hc. discriminate.
    + inversion H. auto.
Qed.

Lemma coalesce_loop_frame : forall n fuel s p o s1 pf od,
  coalesce_loop n fuel s p o = Some (s1, pf, od) ->
  arena s1 = arena s /\ slab_caches s1 = slab_caches s /\
  console s1 = console s /\ PHYS_MEM_START s1 = PHYS_MEM_START s.
Proof.
  induction n as [|n IH]; intros fuel s p o s1 pf od Hl.
  - cbn [coalesce_loop] in Hl. inversion Hl; subst. auto.
  - cbn [coalesce_loop] in Hl.
    destruct (o <? MAX_ORDER - 1); [|inversion Hl; subst; auto].
    cbv zeta in Hl.
    destruct (_ || _); [inversion Hl; subst; auto|].
    destruct (unlink fuel s (AreaHead o) _) as [s'|] eqn:Hu; [|discriminate].
    apply IH in Hl.
    apply unlink_not_partial in Hu; [|intros c Hc; discriminate].
    destruct Hl as (-> & -> & -> & ->). exact Hu.
Qed.

Lemma free_pages_frame fuel s pg o s' :
  __free_pages fuel s pg o = Some s' ->
  arena s' = arena s /\ slab_caches s' = slab_caches s /\
  console s' = console s /\ PHYS_MEM_START s' = PHYS_MEM_START s.
Proof.
  intros Hf. unfold __free_pages in Hf.
  destruct (coalesce_loop _ fuel s pg o) as [[[s1 pf] od]|] eqn:Hl;
    [|discriminate].
  inversion Hf; subst s'. simpl. now apply coalesce_loop_frame in Hl.
Qed.

(** X9. The buddy system keeps its bookkeeping out of band: for an order
    of a free list and a page of the table, neither [alloc_pages] nor
    [__free_pages] writes to the arena, to a cache or to the console,
    whatever the state. *)
Theorem buddy_system_leaves_arena_alone s o fuel pg :
  0 <= o < MAX_ORDER -> 0 <= pg < total_pages ->
  (arena (fst (alloc_pages s o)) = arena s /\
   slab_caches (fst (alloc_pages s o)) = slab_caches s /\
   console (fst (alloc_pages s o)) = console s) /\
  match __free_pages fuel s pg o with
  | Some s' =>
      arena s' = arena s /\ slab_caches s' = slab_caches s /\
      console s' = console s
  | None => True
  end.
Proof.
  intros _ _. split.
  - destruct (alloc_pages_frame s o) as (H1 & H2 & H3 & _). auto.
  - destruct (__free_pages fuel s pg o) as [s'|] eqn:Hf; [|exact I].
    apply free_pages_frame in Hf. tauto.
Qed.

Lemma buddy_system_leaves_arena_alone_witness :
  (arena (fst (alloc_pages one_page_state 3)) = arena one_page_state /\
   slab_caches (fst (alloc_pages one_page_state 3))
     = slab_caches one_page_state /\
   console (fst (alloc_pages one_page_state 3)) = console one_page_state) /\
  match __free_pages 2 one_page_state 8 3 with
  | Some s' =>
      arena s' = arena one_page_state /\
      slab_caches s' = slab_caches one_page_state /\
      console s' = console one_page_state
  | None => True
  end.
Proof.
  apply (buddy_system_leaves_arena_alone one_page_state 3 2 8).
  - unfold MAX_ORDER. lia.
  - change total_pages with 32768. lia.
Defined.

(** ** Requests that cannot be served *)

(** X10. A request for more bytes than the arena has, up to [2^63], is
    refused: [kmalloc] returns NULL and the state is unchanged. *)
Theorem kmalloc_beyond_arena s size :
  MEM_SIZE < size <= 2 ^ 63 ->
  kmalloc s size = Some (s, 0).
Proof.
  intros Hsz. unfold MEM_SIZE in Hsz.
  destruct (kmalloc_routes s size ltac:(lia)) as (_ & Hbig & Hsmall).
  destruct (size_class slab_sizes 0 size) as [i|] eqn:E.
  - apply size_class_spec in E. destruct E as (Hi & Hle & _).
    simpl length in Hi. rewrite Z.sub_0_r in Hle.
    assert (Ei : i = 0 \/ i = 1 \/ i = 2 \/ i = 3 \/ i = 4 \/ i = 5 \/ i = 6)
      by lia.
    destruct Ei as [->|[->|[->|[->|[->|[->| ->]]]]]]; simpl in Hle; lia.
  - destruct (Hbig eq_refl) as (_ & o & (Ho & Hfit & _) & _ & Hmax).
    apply Hmax. change PAGE_SIZE with 4096 in Hfit.
    destruct (Z_lt_ge_dec o MAX_ORDER) as [Hlt|Hge]; [|lia].
    exfalso. unfold MAX_ORDER in Hlt.
    assert (2 ^ o <= 2 ^ 15) by (apply Z.pow_le_mono_r; lia).
    change (2 ^ 15) with 32768 in *. lia.
Qed.

Lemma kmalloc_beyond_arena_witness :
  kmalloc fresh_state (MEM_SIZE + 1) = Some (fresh_state, 0).
Proof.
  apply (kmalloc_beyond_arena fresh_state (MEM_SIZE + 1)).
  unfold MEM_SIZE. change (2 ^ 63) with 9223372036854775808. lia.
Defined.

(** ** A large request and its release *)

Lemma alloc_pages_marks s o pg :
  0 <= o -> snd (alloc_pages s o) = Some pg ->
  flags (MEM_MAP (fst (alloc_pages s o)) pg) = PG_buddy /\
  order (MEM_MAP (fst (alloc_pages s o)) pg) = o /\
  next (MEM_MAP (fst (alloc_pages s o)) pg) = None.
Proof.
  intros Ho Hpg.
  destruct (alloc_pages_found s o pg Ho Hpg) as (k & _ & _ & _ & Es).
  rewrite Es. simpl. rewrite upd_same. simpl. auto.
Qed.

Lemma order_search_nonneg size : forall n z o,
  0 <= z -> order_search n z size = Some o -> z <= o.
Proof.
  induction n as [|n IH]; intros z o Hz H; simpl in H; [discriminate|].
  destruct (_ <? size).
  - apply IH in H; lia.
  - inversion H. lia.
Qed.

Lemma size_class_large size :
  2048 < size -> size_class slab_sizes 0 size = None.
Proof.
  intros H. destruct (size_class slab_sizes 0 size) as [i|] eqn:E; auto.
  apply size_class_spec in E. destruct E as (Hi & Hle & _).
  simpl length in Hi. rewrite Z.sub_0_r in Hle.
  assert (Ei : i = 0 \/ i = 1 \/ i = 2 \/ i = 3 \/ i = 4 \/ i = 5 \/ i = 6)
    by lia.
  destruct Ei as [->|[->|[->|[->|[->|[->| ->]]]]]]; simpl in Hle; lia.
Qed.

(** X11. A large request released at once is a round trip. In a state of
    valid use, when [kmalloc] of a size above the largest size class returns
    an address other than NULL, [kfree] of that address returns, prints
    nothing, and leaves every free list with the pages it held before the
    request, in the same sequence; arena and caches are untouched. *)
Theorem kmalloc_kfree_large_round_trip s A size s1 ptr fuel :
  reachable s A ->
  2048 < size ->
  kmalloc s size = Some (s1, ptr) -> ptr <> 0 ->
  exists s2,
    kfree (S fuel) s1 ptr = Some s2 /\
    (forall j, buddy_free_area s2 j = buddy_free_area s j) /\
    (forall j l, 0 <= j < MAX_ORDER -> free_list s j l -> free_list s2 j l) /\
    arena s2 = arena s /\ slab_caches s2 = slab_caches s /\
    console s2 = console s.
Proof.
  intros Hr Hc Hk Hnz. apply size_class_large in Hc.
  unfold kmalloc in Hk. rewrite Hc in Hk.
  destruct (order_search 64 0 size) as [o|] eqn:Eo; [|discriminate].
  assert (Ho : 0 <= o) by (apply (order_search_nonneg size 64 0 o); auto; lia).
  destruct (reachable_inv s A Hr) as [L Inv].
  destruct (snd (alloc_pages s o)) as [pg|] eqn:Hpg.
  2:{ destruct (alloc_pages s o) as [t [q|]]; cbn [snd] in Hpg;
        [discriminate|]. inversion Hk. congruence. }
  destruct (alloc_pages_marks s o pg Ho Hpg) as (Mf & Mo & _).
  destruct (inv_alloc_free_restores s A L o pg fuel Inv Ho Hpg)
    as (s2 & k & Hf & Hk' & Hin & Ha & Hm & Hq & Har & Hca & Hcon & _).
  destruct (inv_alloc_pages s A L o pg Inv Ho Hpg) as [L' Inv'].
  assert (Hal : aligned (pg, o)).
  { apply (block_aligned _ _ _ _ Inv'). left. now left. }
  destruct Hal as (Ho' & Hp0 & _ & Hfit). cbn [fst snd] in *.
  pose proof (pow2_pos o Ho) as Po.
  assert (E1 : s1 = fst (alloc_pages s o) /\ ptr = page_address s1 pg).
  { destruct (alloc_pages s o) as [t [q|]]; cbn [fst snd] in *;
      [|discriminate]. inversion Hpg; subst q. inversion Hk. auto. }
  destruct E1 as [-> ->].
  exists s2. split.
  - unfold kfree. apply Z.eqb_neq in Hnz. rewrite Hnz.
    replace (page_address (fst (alloc_pages s o)) pg)
      with (page_address (fst (alloc_pages s o)) pg + 0) by lia.
    rewrite page_of_address by (change PAGE_SIZE with 4096; lia).
    rewrite Mf, Mo. exact Hf.
  - split; [exact Ha|]. split; [|auto].
    intros j l Hj Hl.
    assert (l = L j).
    { eapply chain_unique; [exact Hl|]. apply (inv_chain _ _ _ _ Inv j Hj). }
    subst l. unfold free_list. rewrite Ha.
    eapply chain_ext; [|exact Hl].
    intros x Hx. unfold nexts.
    destruct (Z.eq_dec x pg) as [->|N]; [now rewrite Hm|].
    rewrite Hq; auto. intros i Hi E.
    assert (Eb : (pg, k) = (x, j)).
    { apply (block_head_unique _ _ _ _ Inv);
        [apply free_is_block; auto; lia|now apply free_is_block|].
      unfold covers. cbn [fst snd]. subst x.
      pose proof (pow2_pos i ltac:(lia)).
      assert (2 ^ i < 2 ^ k) by (apply Z.pow_lt_mono_r; lia). lia. }
    inversion Eb. congruence.
Qed.

Lemma kmalloc_kfree_large_round_trip_witness :
  exists s2,
    kfree 1 (fst (alloc_pages fresh_state 1))
          (page_address (fst (alloc_pages fresh_state 1)) 0) = Some s2 /\
    (forall j, buddy_free_area s2 j = buddy_free_area fresh_state j) /\
    (forall j l, 0 <= j < MAX_ORDER -> free_list fresh_state j l ->
       free_list s2 j l) /\
    arena s2 = arena fresh_state /\
    slab_caches s2 = slab_caches fresh_state /\
    console s2 = console fresh_state.
Proof.
  apply (kmalloc_kfree_large_round_trip fresh_state [] 8192
           (fst (alloc_pages fresh_state 1))
           (page_address (fst (alloc_pages fresh_state 1)) 0) 0).
  - apply reach_init.
  - lia.
  - reflexivity.
  - vm_compute. discriminate.
Defined.

(** * The two layers together *)

(** ** Slots of a slab page *)

Lemma csize_facts c :
  0 <= c < SLAB_INDEX_COUNT ->
  32 <= csize c <= 2048 /\ 2 <= cap c <= 128 /\ cap c * csize c = PAGE_SIZE.
Proof.
  unfold SLAB_INDEX_COUNT. intros Hc.
  assert (E : c = 0 \/ c = 1 \/ c = 2 \/ c = 3 \/ c = 4 \/ c = 5 \/ c = 6)
    by lia.
  destruct E as [->|[->|[->|[->|[->|[->| ->]]]]]]; vm_compute;
    repeat split; congruence.
Qed.

Lemma page_address_eq s pg :
  page_address s pg = PHYS_MEM_START s + pg * PAGE_SIZE.
Proof.
  unfold page_address. rewrite Z.shiftl_mul_pow2 by (unfold PAGE_SHIFT; lia).
  reflexivity.
Qed.

Lemma slot_range s pg c i :
  0 <= c < SLAB_INDEX_COUNT -> 0 <= i < cap c ->
  page_address s pg <= slot s pg c i /\
  slot s pg c i + csize c <= page_address s pg + PAGE_SIZE.
Proof.
  intros Hc Hi. destruct (csize_facts c Hc) as (H1 & H2 & H3).
  unfold slot. rewrite <- H3. nia.
Qed.

Lemma slot_inj s pg c i j :
  0 <= c < SLAB_INDEX_COUNT -> slot s pg c i = slot s pg c j -> i = j.
Proof.
  intros Hc E. destruct (csize_facts c Hc) as (H1 & _). unfold slot in E. nia.
Qed.

Lemma slot_apart s pg c i j :
  0 <= c < SLAB_INDEX_COUNT -> i <> j ->
  slot s pg c i + csize c <= slot s pg c j \/
  slot s pg c j + csize c <= slot s pg c i.
Proof.
  intros Hc N. destruct (csize_facts c Hc) as (H1 & _). unfold slot. nia.
Qed.

Lemma slot_page s pg c i :
  0 <= pg < total_pages -> 0 <= c < SLAB_INDEX_COUNT -> 0 <= i < cap c ->
  virt_to_page s (slot s pg c i) = Some pg.
Proof.
  intros Hpg Hc Hi. unfold slot. apply page_of_address; auto.
  destruct (csize_facts c Hc) as (H1 & H2 & H3). rewrite <- H3. nia.
Qed.

(** ** In-band free lists *)

Lemma fl_chain_ext m m' : forall l h,
  (forall a x, In a l -> a <= x < a + 8 -> m' x = m x) ->
  fl_chain m h l -> fl_chain m' h l.
Proof.
  induction l as [|a l IH]; intros h H Hc; simpl in *; auto.
  destruct Hc as (Hh & Ha & Hc). split; auto. split; auto.
  rewrite (load_ptr_ext m m' a) by (intros x Hx; apply (H a); auto).
  apply IH; auto. intros b x Hb Hx. apply (H b); auto.
Qed.

Lemma fl_chain_null m h l : fl_chain m h l -> (h = 0 <-> l = []).
Proof.
  destruct l as [|a l]; simpl.
  - intros ->. tauto.
  - intros (-> & Ha & _). split; [contradiction|discriminate].
Qed.

(** ** Blocks as byte ranges *)

Lemma aligned_bytes s p o :
  aligned (p, o) ->
  0 <= p < total_pages /\
  PHYS_MEM_START s <= page_address s p /\
  page_address s p + PAGE_SIZE * 2 ^ o <= PHYS_MEM_START s + MEM_SIZE.
Proof.
  intros (Ho & Hp & _ & Hfit). cbn [fst snd] in *.
  pose proof (pow2_pos o ltac:(lia)) as Po.
  rewrite page_address_eq. unfold total_pages in *.
  change (MEM_SIZE / PAGE_SIZE) with 32768 in *.
  change PAGE_SIZE with 4096. unfold MEM_SIZE. lia.
Qed.

Lemma partition_apart Bs p1 o1 p2 o2 :
  partition Bs -> Bs (p1, o1) -> Bs (p2, o2) -> (p1, o1) <> (p2, o2) ->
  p1 + 2 ^ o1 <= p2 \/ p2 + 2 ^ o2 <= p1.
Proof.
  intros (Hal & Hdis & _) H1 H2 N.
  destruct (Hal _ H1) as (Ho1 & _). destruct (Hal _ H2) as (Ho2 & _).
  cbn [fst snd] in *.
  pose proof (pow2_pos o1 ltac:(lia)). pose proof (pow2_pos o2 ltac:(lia)).
  destruct (Z_le_gt_dec (p1 + 2 ^ o1) p2) as [|G1]; auto.
  destruct (Z_le_gt_dec (p2 + 2 ^ o2) p1) as [|G2]; auto.
  exfalso. apply N.
  apply (Hdis _ _ (Z.max p1 p2)); auto; unfold covers; cbn [fst snd]; lia.
Qed.

Lemma allocated_apart s A p1 o1 p2 o2 :
  reachable s A -> In (p1, o1) A -> In (p2, o2) A -> (p1, o1) <> (p2, o2) ->
  page_address s p1 + PAGE_SIZE * 2 ^ o1 <= page_address s p2 \/
  page_address s p2 + PAGE_SIZE * 2 ^ o2 <= page_address s p1.
Proof.
  intros Hr H1 H2 N. destruct (reachable_inv s A Hr) as [L Inv].
  destruct (partition_apart _ p1 o1 p2 o2 (inv_part _ _ _ _ Inv)) as [H|H];
    auto; try (now left).
  - left. rewrite !page_address_eq. change PAGE_SIZE with 4096. lia.
  - right. rewrite !page_address_eq. change PAGE_SIZE with 4096. lia.
Qed.

Lemma allocated_aligned s A b : reachable s A -> In b A -> aligned b.
Proof.
  intros Hr Hb. destruct (reachable_inv s A Hr) as [L Inv].
  apply (block_aligned _ _ _ _ Inv). now left.
Qed.

Lemma allocated_same_head s A p o1 o2 :
  reachable s A -> In (p, o1) A -> In (p, o2) A -> o1 = o2.
Proof.
  intros Hr H1 H2. destruct (reachable_inv s A Hr) as [L Inv].
  assert (E : (p, o1) = (p, o2)).
  { apply (block_head_unique _ _ _ _ Inv); [now left|now left|].
    apply (covers_head (p, o1)). apply (block_aligned _ _ _ _ Inv). now left. }
  now inversion E.
Qed.

(** ** What the buddy operations do to the descriptors of allocated blocks *)

Lemma alloc_pages_heads s A L o pg :
  buddy_inv s A L [] -> 0 <= o ->
  snd (alloc_pages s o) = Some pg ->
  forall b, In b A ->
    MEM_MAP (fst (alloc_pages s o)) (fst b) = MEM_MAP s (fst b).
Proof.
  intros Inv Ho Hpg [q j] Hb. cbn [fst].
  destruct (alloc_pages_found s o pg Ho Hpg) as (k & Hk & He & Hp & Es).
  assert (Hk' : 0 <= k < MAX_ORDER) by lia.
  pose proof (area_head_listed s A L [] k pg Inv Hk' Hp) as Hin.
  assert (Hcov : ~ covers (pg, k) q).
  { intros C.
    assert (E : (pg, k) = (q, j)).
    { apply (block_head_unique _ _ _ _ Inv); auto;
        [now apply free_is_block|now left]. }
    inversion E; subst q j.
    now apply (alloc_not_free _ _ _ _ Inv pg k k Hb Hk'). }
  unfold covers in Hcov. cbn [fst snd] in Hcov.
  pose proof (pow2_pos k ltac:(lia)) as Pk.
  rewrite Es. simpl. rewrite upd_other by lia.
  pose proof (split_spec (Z.to_nat (k - o))
                (set_area s k (next (MEM_MAP s pg))) pg k) as Hs.
  rewrite Z2Nat.id in Hs by lia.
  replace (k - (k - o)) with o in Hs by lia.
  specialize (Hs Ho). cbv zeta in Hs.
  destruct Hs as (_ & S2 & _).
  rewrite S2; [reflexivity|].
  intros i Hi E. pose proof (pow2_pos i ltac:(lia)).
  assert (2 ^ i < 2 ^ k) by (apply Z.pow_lt_mono_r; lia). lia.
Qed.

Lemma coalesce_loop_heads : forall n fuel s A L p o s1 pf od,
  coalesce_loop n fuel s p o = Some (s1, pf, od) ->
  n = Z.to_nat (MAX_ORDER - 1 - o) ->
  buddy_inv s A L [(p, o)] ->
  forall b, In b A -> MEM_MAP s1 (fst b) = MEM_MAP s (fst b).
Proof.
  induction n as [|n IH]; intros fuel s A L p o s1 pf od Hl Hn Inv b Hb.
  - cbn [coalesce_loop] in Hl. inversion Hl; subst. reflexivity.
  - cbn [coalesce_loop] in Hl.
    destruct (o <? MAX_ORDER - 1) eqn:Hlt.
    2:{ apply Z.ltb_ge in Hlt. lia. }
    apply Z.ltb_lt in Hlt. fold (buddy_of p o) in Hl.
    destruct ((Z.land (flags (MEM_MAP s (buddy_of p o))) PG_free =? 0)
              || negb (order (MEM_MAP s (buddy_of p o)) =? o)) eqn:Hc.
    + inversion Hl; subst. reflexivity.
    + apply orb_false_iff in Hc. destruct Hc as [Hf Hord].
      apply Z.eqb_neq in Hf. apply negb_false_iff, Z.eqb_eq in Hord.
      destruct (unlink fuel s (AreaHead o) (buddy_of p o)) as [s'|] eqn:Hu;
        [|discriminate].
      pose proof (inv_merge_step _ _ _ _ _ _ _ Inv Hlt Hf Hord Hu) as Inv'.
      rewrite (IH _ _ _ _ _ _ _ _ _ Hl ltac:(lia) Inv' b Hb).
      assert (Ho : 0 <= o < MAX_ORDER).
      { assert (Hal : aligned (p, o)).
        { apply (block_aligned _ _ _ _ Inv). right. left. now left. }
        destruct Hal as (Ho & _). exact Ho. }
      destruct (unlink_chain (L o) (S (length (L o))) s (AreaHead o)
                  (buddy_of p o))
        as (s1' & Hu' & _ & Hfr); [apply (inv_chain _ _ _ _ Inv o Ho)| |lia|].
      { intros q Eq. discriminate. }
      assert (s' = s1') by (eapply unlink_det; eauto). subst s1'.
      destruct Hfr as (_ & _ & _ & _ & F5 & _).
      apply F5; [|discriminate].
      destruct b as [q j]. cbn [fst].
      now apply (alloc_not_free _ _ _ _ Inv q j o Hb Ho).
Qed.

Lemma free_pages_heads s A L fuel p o s' :
  buddy_inv s A L [] -> In (p, o) A ->
  __free_pages fuel s p o = Some s' ->
  forall b, In b A -> b <> (p, o) ->
    MEM_MAP s' (fst b) = MEM_MAP s (fst b).
Proof.
  intros Inv HA Hf b Hb Nb. unfold __free_pages in Hf.
  destruct (coalesce_loop _ fuel s p o) as [[[s1 pf] od]|] eqn:Hl;
    [|discriminate].
  inversion Hf; subst s'. clear Hf.
  pose proof (inv_start_free _ _ _ _ _ Inv HA) as Inv0.
  assert (Hb' : In b (remove block_eq_dec (p, o) A))
    by (apply in_in_remove; auto).
  destruct (inv_coalesce_loop _ _ _ _ _ _ _ _ _ _ Hl eq_refl Inv0)
    as (L1 & Inv1 & _).
  simpl. rewrite upd_other.
  - apply (coalesce_loop_heads _ _ _ _ _ _ _ _ _ _ Hl eq_refl Inv0 b Hb').
  - intro E. destruct b as [q j]. cbn [fst] in E. subst q.
    apply (cur_not_alloc _ _ _ _ Inv1 (pf, od) pf j (or_introl eq_refl));
      auto.
    apply (covers_head (pf, od)).
    apply (block_aligned _ _ _ _ Inv1). right. left. now left.
Qed.

(** ** Objects handed out lie in allocated blocks, apart from each other *)

Lemma slot_live_ok s A pg c j :
  In (pg, 0) A -> flags (MEM_MAP s pg) = PG_slab ->
  slab_cache (MEM_MAP s pg) = Some c -> 0 <= c < SLAB_INDEX_COUNT ->
  0 <= j < cap c -> live_ok s A (slot s pg c j) (csize c).
Proof.
  intros HA Hf Hc Hc' Hj. right. exists pg, c, j.
  destruct (csize_facts c Hc') as (H1 & _). repeat split; auto; lia.
Qed.

Lemma live_in_block s A ptr size :
  reachable s A -> live_ok s A ptr size ->
  exists pg o, In (pg, o) A /\ 0 <= size /\
    page_address s pg <= ptr < page_address s pg + PAGE_SIZE * 2 ^ o /\
    ptr + size <= page_address s pg + PAGE_SIZE * 2 ^ o.
Proof.
  intros Hr [(pg & o & HA & _ & _ & -> & Hs)
            |(pg & c & i & HA & _ & _ & Hc & Hi & -> & Hs)].
  - exists pg, o. split; auto.
    pose proof (allocated_aligned s A _ Hr HA) as (Ho & _). cbn [snd] in Ho.
    pose proof (pow2_pos o ltac:(lia)). change PAGE_SIZE with 4096 in *. lia.
  - exists pg, 0. split; auto.
    destruct (slot_range s pg c i Hc Hi) as [R1 R2].
    destruct (csize_facts c Hc) as (H1 & _).
    change (2 ^ 0) with 1. change PAGE_SIZE with 4096 in *. lia.
Qed.

Lemma live_apart s A p1 z1 p2 z2 :
  reachable s A -> live_ok s A p1 z1 -> live_ok s A p2 z2 -> p1 <> p2 ->
  p1 + z1 <= p2 \/ p2 + z2 <= p1.
Proof.
  intros Hr H1 H2 N.
  destruct H1 as [(g1 & o1 & A1 & F1 & _ & E1 & S1)
                 |(g1 & c1 & i1 & A1 & F1 & C1 & Hc1 & Hi1 & E1 & S1)];
  destruct H2 as [(g2 & o2 & A2 & F2 & _ & E2 & S2)
                 |(g2 & c2 & i2 & A2 & F2 & C2 & Hc2 & Hi2 & E2 & S2)].
  - assert (Nb : (g1, o1) <> (g2, o2)) by (intro E; inversion E; congruence).
    destruct (allocated_apart s A _ _ _ _ Hr A1 A2 Nb); subst; lia.
  - assert (Nb : (g1, o1) <> (g2, 0)).
    { intro E; inversion E; subst. rewrite F1 in F2. discriminate. }
    destruct (slot_range s g2 c2 i2 Hc2 Hi2) as [R1 R2].
    destruct (allocated_apart s A _ _ _ _ Hr A1 A2 Nb) as [H|H];
      change (2 ^ 0) with 1 in H; subst; lia.
  - assert (Nb : (g1, 0) <> (g2, o2)).
    { intro E; inversion E; subst. rewrite F1 in F2. discriminate. }
    destruct (slot_range s g1 c1 i1 Hc1 Hi1) as [R1 R2].
    destruct (allocated_apart s A _ _ _ _ Hr A1 A2 Nb) as [H|H];
      change (2 ^ 0) with 1 in H; subst; lia.
  - destruct (slot_range s g1 c1 i1 Hc1 Hi1) as [R1 R2].
    destruct (slot_range s g2 c2 i2 Hc2 Hi2) as [R3 R4].
    destruct (Z.eq_dec g1 g2) as [->|Ng].
    + assert (c1 = c2) by congruence. subst c2.
      assert (Ni : i1 <> i2) by (intro; subst; congruence).
      destruct (slot_apart s g2 c1 i1 i2 Hc1 Ni); subst; lia.
    + rewrite !page_address_eq in *. change PAGE_SIZE with 4096 in *.
      subst. lia.
Qed.

(** ** Carrying the invariant of a page, an object, a partial list over a
    step *)

Lemma frame_all a b :
  with_next a None = with_next b None ->
  flags a = flags b /\ order a = order b /\ slab_cache a = slab_cache b /\
  freelist a = freelist b /\ active_objects a = active_objects b.
Proof. intro H. inversion H. auto. Qed.

Lemma slot_frame s s' pg c i :
  PHYS_MEM_START s' = PHYS_MEM_START s -> slot s' pg c i = slot s pg c i.
Proof. intro E. unfold slot, page_address. now rewrite E. Qed.

Lemma slab_page_ok_frame s s' Lv Lv' pg :
  PHYS_MEM_START s' = PHYS_MEM_START s ->
  with_next (MEM_MAP s' pg) None = with_next (MEM_MAP s pg) None ->
  (forall c i x, slab_cache (MEM_MAP s pg) = Some c -> 0 <= i < cap c ->
     (forall z, ~ In (slot s pg c i, z) Lv) ->
     slot s pg c i <= x < slot s pg c i + 8 ->
     arena s' x = arena s x) ->
  (forall p z, page_address s pg <= p < page_address s pg + PAGE_SIZE ->
     (In (p, z) Lv' <-> In (p, z) Lv)) ->
  slab_page_ok s Lv pg -> slab_page_ok s' Lv' pg.
Proof.
  intros EP EM EA EL
    (c & fl & Hc & Hsc & Hnd & Hb & Hch & Hact & Hfree & Hlive).
  destruct (frame_all _ _ EM) as (_ & _ & E3 & E4 & E5).
  assert (Hin : forall i, 0 <= i < cap c ->
            page_address s pg <= slot s pg c i /\
            slot s pg c i + 8 <= page_address s pg + PAGE_SIZE).
  { intros i Hi. destruct (slot_range s pg c i Hc Hi).
    destruct (csize_facts c Hc) as (H1 & _). lia. }
  exists c, fl. rewrite E3, E4, E5.
  split; [exact Hc|]. split; [exact Hsc|]. split; [exact Hnd|].
  split; [exact Hb|]. split; [|split; [exact Hact|split]].
  - replace (map (slot s' pg c) fl) with (map (slot s pg c) fl).
    + eapply fl_chain_ext; [|exact Hch].
      intros a x Ha Hx. apply in_map_iff in Ha. destruct Ha as (i & <- & Hi).
      apply (EA c i); auto.
    + apply map_ext. intro i. symmetry. now apply slot_frame.
  - intros i size Hi HL. rewrite (slot_frame s s') in HL by auto.
    apply (Hfree i size Hi). apply EL; auto.
    destruct (Hin i (Hb i Hi)). lia.
  - intros i Hi Hni. destruct (Hlive i Hi Hni) as [z Hz].
    exists z. rewrite (slot_frame s s') by auto. apply EL; auto.
    destruct (Hin i Hi). lia.
Qed.

Lemma slab_page_ok_frame_page s s' Lv Lv' pg :
  PHYS_MEM_START s' = PHYS_MEM_START s ->
  with_next (MEM_MAP s' pg) None = with_next (MEM_MAP s pg) None ->
  (forall x, page_address s pg <= x < page_address s pg + PAGE_SIZE ->
     arena s' x = arena s x) ->
  (forall p z, page_address s pg <= p < page_address s pg + PAGE_SIZE ->
     (In (p, z) Lv' <-> In (p, z) Lv)) ->
  slab_page_ok s Lv pg -> slab_page_ok s' Lv' pg.
Proof.
  intros EP EM EA EL H.
  pose proof H as (c0 & _ & Hc0 & Hsc0 & _).
  apply (slab_page_ok_frame s s' Lv Lv' pg); auto.
  intros c i x Hsc Hi _ Hx. apply EA.
  assert (c = c0) by congruence. subst c0.
  destruct (slot_range s pg c i Hc0 Hi) as [R1 R2].
  destruct (csize_facts c Hc0) as (F1 & _). lia.
Qed.

Lemma live_ok_frame s s' A A' ptr size :
  PHYS_MEM_START s' = PHYS_MEM_START s ->
  (forall b, In b A -> live_ok s [b] ptr size ->
     In b A' /\
     flags (MEM_MAP s' (fst b)) = flags (MEM_MAP s (fst b)) /\
     order (MEM_MAP s' (fst b)) = order (MEM_MAP s (fst b)) /\
     slab_cache (MEM_MAP s' (fst b)) = slab_cache (MEM_MAP s (fst b))) ->
  live_ok s A ptr size -> live_ok s' A' ptr size.
Proof.
  intros EP EM H.
  destruct H as [(pg & o & HA & Hf & Ho & E & Hs)
                |(pg & c & i & HA & Hf & Hc & Hc' & Hi & E & Hs)].
  - destruct (EM _ HA) as (HA' & E1 & E2 & _); cbn [fst] in *.
    { left. exists pg, o. repeat split; auto; try lia. now left. }
    left. exists pg, o. rewrite E1, E2.
    repeat split; auto; try lia. unfold page_address. now rewrite EP.
  - destruct (EM _ HA) as (HA' & E1 & _ & E3); cbn [fst] in *.
    { right. exists pg, c, i. repeat split; auto; try lia. now left. }
    right. exists pg, c, i. rewrite E1, E3.
    repeat split; auto; try lia. rewrite (slot_frame s s'); auto.
Qed.

Lemma live_ok_frame_all s s' A A' ptr size :
  PHYS_MEM_START s' = PHYS_MEM_START s ->
  (forall b, In b A ->
     flags (MEM_MAP s' (fst b)) = flags (MEM_MAP s (fst b)) /\
     order (MEM_MAP s' (fst b)) = order (MEM_MAP s (fst b)) /\
     slab_cache (MEM_MAP s' (fst b)) = slab_cache (MEM_MAP s (fst b))) ->
  (forall b, In b A -> In b A') ->
  live_ok s A ptr size -> live_ok s' A' ptr size.
Proof.
  intros EP EM EA. apply live_ok_frame; auto.
Qed.

Lemma live_ok_one s b ptr size :
  live_ok s [b] ptr size ->
  0 <= snd b ->
  page_address s (fst b) <= ptr
  < page_address s (fst b) + PAGE_SIZE * 2 ^ snd b.
Proof.
  intros [(pg & o & [E|[]] & _ & _ & -> & Hs)
         |(pg & c & i & [E|[]] & _ & _ & Hc & Hi & -> & Hs)] Ho;
    subst b; cbn [fst snd] in *.
  - pose proof (pow2_pos o Ho). change PAGE_SIZE with 4096. lia.
  - destruct (slot_range s pg c i Hc Hi) as [R1 R2].
    destruct (csize_facts c Hc) as (H1 & _).
    change (2 ^ 0) with 1. change PAGE_SIZE with 4096 in *. lia.
Qed.

Lemma partial_inv_frame s s' A A' c :
  (exists pl, partial_list s c pl /\
              forall q, In q pl <-> servable s A c q) ->
  partial (slab_caches s' c) = partial (slab_caches s c) ->
  (forall q, servable s A c q ->
     next (MEM_MAP s' q) = next (MEM_MAP s q)) ->
  (forall q, servable s' A' c q <-> servable s A c q) ->
  exists pl, partial_list s' c pl /\
             forall q, In q pl <-> servable s' A' c q.
Proof.
  intros (pl & Hpl & Hiff) EP EN ES. exists pl. split.
  - unfold partial_list in *. rewrite EP.
    eapply chain_ext; [|exact Hpl].
    intros x Hx. unfold nexts. apply EN. now apply Hiff.
  - intro q. rewrite ES. apply Hiff.
Qed.

(** ** The invariant at the start and under the caller's writes *)

Lemma slab_inv_init base m0 :
  0 < base -> base + MEM_SIZE <= WORD ->
  slab_inv (kmalloc_init base m0) [] [].
Proof.
  intros Hb Hw. constructor.
  - split; assumption.
  - intros c Hc. unfold SLAB_INDEX_COUNT in Hc.
    assert (E : c = 0 \/ c = 1 \/ c = 2 \/ c = 3 \/ c = 4 \/ c = 5 \/ c = 6)
      by lia.
    destruct E as [->|[->|[->|[->|[->|[->| ->]]]]]]; reflexivity.
  - apply reach_init.
  - intros pg o [].
  - intros ptr size [].
  - constructor.
  - intros c Hc. exists []. split.
    + unfold partial_list, SLAB_INDEX_COUNT in *.
      assert (E : c = 0 \/ c = 1 \/ c = 2 \/ c = 3 \/ c = 4 \/ c = 5 \/ c = 6)
        by lia.
      destruct E as [->|[->|[->|[->|[->|[->| ->]]]]]]; reflexivity.
    + intro pg. split; [intros []|intros ([] & _)].
  - reflexivity.
Qed.

Lemma slab_inv_write s A Lv ptr size x v :
  slab_inv s A Lv -> In (ptr, size) Lv -> ptr <= x < ptr + size ->
  slab_inv (set_arena s (upd (arena s) x v)) A Lv.
Proof.
  intros Inv HL Hx.
  pose proof (si_reach _ _ _ Inv) as Hr.
  pose proof (si_live _ _ _ Inv _ _ HL) as Hlive.
  constructor.
  - apply (si_base _ _ _ Inv).
  - apply (si_sizes _ _ _ Inv).
  - now apply reachable_set_arena.
  - intros pg o HA Hf. destruct (si_slab _ _ _ Inv pg o HA Hf) as [-> Hok].
    split; auto.
    apply (slab_page_ok_frame s _ Lv Lv pg); auto; [|intros; reflexivity].
    intros c i y Hsc Hi Hnl Hy. simpl. apply upd_other.
    pose proof Hok as (c0 & _ & Hc0 & Hsc0 & _).
    assert (c0 = c) by congruence. subst c0.
    assert (Np : ptr <> slot s pg c i).
    { intro E. subst ptr. now apply (Hnl size). }
    pose proof (slot_live_ok s A pg c i HA Hf Hsc Hc0 Hi) as Hslot.
    destruct (csize_facts c Hc0) as (H1 & _).
    destruct (live_apart s A _ _ _ _ Hr Hlive Hslot Np); lia.
  - intros p z Hp. apply (live_ok_frame_all s _ A A p z); auto.
    apply (si_live _ _ _ Inv _ _ Hp).
  - apply (si_nodup _ _ _ Inv).
  - intros c Hc. apply (partial_inv_frame s _ A A c); auto.
    + apply (si_partial _ _ _ Inv c Hc).
    + intro q. reflexivity.
  - apply (si_console _ _ _ Inv).
Qed.

(** ** Serving an object from the front page of a partial list *)

Lemma alloc_from_partial_shape s c pg :
  partial (slab_caches s c) = Some pg ->
  freelist (MEM_MAP s pg) <> 0 ->
  let obj := freelist (MEM_MAP s pg) in
  let nxt := load_ptr (arena s) obj in
  let s' := fst (alloc_from_partial s c) in
  snd (alloc_from_partial s c) = obj /\
  PHYS_MEM_START s' = PHYS_MEM_START s /\
  arena s' = memset (arena s) obj 0 8 /\
  buddy_free_area s' = buddy_free_area s /\
  console s' = console s /\
  (forall q, q <> pg -> MEM_MAP s' q = MEM_MAP s q) /\
  with_next (MEM_MAP s' pg) None
    = with_next
        (with_active_objects (with_freelist (MEM_MAP s pg) nxt)
                             (active_objects (MEM_MAP s pg) + 1)) None /\
  next (MEM_MAP s' pg)
    = (if nxt =? 0 then None else next (MEM_MAP s pg)) /\
  (forall c', c' <> c -> slab_caches s' c' = slab_caches s c') /\
  slab_caches s' c
    = with_partial (slab_caches s c)
        (if nxt =? 0 then next (MEM_MAP s pg) else Some pg).
Proof.
  intros Hp Hf. cbv zeta. unfold alloc_from_partial. rewrite Hp.
  apply Z.eqb_neq in Hf. rewrite Hf. cbv zeta.
  set (nxt := load_ptr (arena s) (freelist (MEM_MAP s pg))).
  set (s2 := upd_page (upd_page s pg (fun p => with_freelist p nxt)) pg
               (fun p => with_active_objects p (active_objects p + 1))).
  assert (E : freelist (MEM_MAP s2 pg) = nxt).
  { unfold s2. cbn. now rewrite !upd_same. }
  rewrite E. cbn [fst snd].
  destruct (nxt =? 0) eqn:En.
  - unfold s2. cbn. rewrite !upd_same. cbn.
    repeat split; auto.
    + intros q Hq. now rewrite !upd_other.
    + intros c' Hc'. now rewrite upd_other.
  - unfold s2. cbn. rewrite !upd_same. cbn.
    repeat split; auto.
    + intros q Hq. now rewrite !upd_other.
    + rewrite <- Hp. now destruct (slab_caches s c).
Qed.

Lemma pages_apart s p q :
  p <> q ->
  page_address s p + PAGE_SIZE <= page_address s q \/
  page_address s q + PAGE_SIZE <= page_address s p.
Proof.
  intro N. rewrite !page_address_eq. change PAGE_SIZE with 4096. lia.
Qed.

Lemma slab_inv_alloc_from_partial s A Lv c pg size :
  slab_inv s A Lv -> 0 <= c < SLAB_INDEX_COUNT ->
  partial (slab_caches s c) = Some pg ->
  0 <= size <= csize c ->
  let obj := snd (alloc_from_partial s c) in
  let s' := fst (alloc_from_partial s c) in
  obj <> 0 /\
  slab_inv s' A ((obj, size) :: Lv) /\
  (exists i, 0 <= i < cap c /\ obj = slot s pg c i) /\
  servable s A c pg /\
  arena s' = memset (arena s) obj 0 8.
Proof.
  intros Inv Hc Hp Hsz.
  pose proof (si_reach _ _ _ Inv) as Hr.
  destruct (si_partial _ _ _ Inv c Hc) as (pl & Hpl & Hiff).
  pose proof (chain_NoDup _ _ _ Hpl) as Hndpl.
  unfold partial_list in Hpl. rewrite Hp in Hpl.
  destruct pl as [|q pl']; simpl in Hpl; [discriminate|].
  destruct Hpl as [Eq Hpl']. inversion Eq; subst q. clear Eq.
  inversion Hndpl as [|? ? Hnotin Hndpl']; subst.
  assert (Hserv : servable s A c pg) by (apply Hiff; now left).
  pose proof Hserv as (HA & Hfl & Hsc & Hfn).
  destruct (si_slab _ _ _ Inv pg 0 HA Hfl)
    as [_ (c0 & fl & Hc0 & Hsc0 & Hnd & Hb & Hch & Hact & Hfree & Hlive)].
  assert (c0 = c) by congruence. subst c0.
  destruct fl as [|i0 fl']; simpl in Hch; [contradiction|].
  destruct Hch as (Hh & Hnz & Hch').
  inversion Hnd as [|? ? Hi0 Hnd']; subst.
  assert (Hi0r : 0 <= i0 < cap c) by (apply Hb; now left).
  destruct (alloc_from_partial_shape s c pg Hp Hfn)
    as (E1 & E2 & E3 & E4 & E5 & E6 & E7 & E8 & E9 & E10).
  cbv zeta in *.
  set (s' := fst (alloc_from_partial s c)) in *.
  rewrite E1. rewrite Hh in *.
  set (obj := slot s pg c i0) in *.
  set (nxt := load_ptr (arena s) obj) in *.
  destruct (frame_all _ _ E7) as (F1 & F2 & F3 & F4 & F5).
  cbn in F1, F2, F3, F4, F5.
  destruct (slot_range s pg c i0 Hc Hi0r) as [R1 R2].
  destruct (csize_facts c Hc) as (Z1 & Z2 & Z3).
  assert (Hkind : forall b, In b A ->
     flags (MEM_MAP s' (fst b)) = flags (MEM_MAP s (fst b)) /\
     order (MEM_MAP s' (fst b)) = order (MEM_MAP s (fst b)) /\
     slab_cache (MEM_MAP s' (fst b)) = slab_cache (MEM_MAP s (fst b))).
  { intros [q j] _. cbn [fst]. destruct (Z.eq_dec q pg) as [->|N]; auto.
    rewrite E6 by auto. auto. }
  assert (Hnew : forall z, ~ In (obj, z) Lv).
  { intros z. apply Hfree. now left. }
  split; [exact Hnz|]. split; [|split; [eauto|split; auto]].
  constructor.
  - rewrite E2. apply (si_base _ _ _ Inv).
  - intros c' Hc'. destruct (Z.eq_dec c' c) as [->|N].
    + rewrite E10. simpl. apply (si_sizes _ _ _ Inv c Hc).
    + rewrite E9 by auto. apply (si_sizes _ _ _ Inv c' Hc').
  - apply reachable_alloc_from_partial; auto.
    intros pg0 E. exists 0. congruence.
  - intros q o Hq Hfq. destruct (Z.eq_dec q pg) as [->|N].
    + assert (o = 0) by (apply (allocated_same_head s A pg o 0 Hr); auto).
      split; auto.
      exists c, fl'. rewrite F3, F4, F5.
      split; [exact Hc|]. split; [exact Hsc|]. split; [exact Hnd'|].
      split; [intros i Hi; apply Hb; now right|].
      split; [|split; [|split]].
      * rewrite E3.
        replace (map (slot s' pg c) fl') with (map (slot s pg c) fl')
          by (apply map_ext; intro; symmetry; now apply slot_frame).
        eapply fl_chain_ext; [|exact Hch'].
        intros a x Ha Hx. apply in_map_iff in Ha.
        destruct Ha as (i & <- & Hi). apply memset_out.
        assert (Ni : i <> i0) by (intro; subst; contradiction).
        destruct (slot_apart s pg c i i0 Hc Ni); unfold obj; lia.
      * rewrite Hact. simpl length. lia.
      * intros i z Hi [E|HL].
        -- injection E as E' _. unfold obj in E'.
           rewrite (slot_frame s s') in E' by auto. symmetry in E'.
           apply slot_inj in E'; auto. subst i. contradiction.
        -- rewrite (slot_frame s s') in HL by auto.
           apply (Hfree i z); auto. now right.
      * intros i Hi Hni. rewrite (slot_frame s s') by auto.
        destruct (Z.eq_dec i i0) as [->|Ni].
        -- exists size. now left.
        -- destruct (Hlive i Hi) as [z Hz].
           { intros [E|Hin]; [congruence|contradiction]. }
           exists z. now right.
    + rewrite E6 in Hfq by auto.
      destruct (si_slab _ _ _ Inv q o Hq Hfq) as [-> Hok]. split; auto.
      apply (slab_page_ok_frame_page s s' Lv _ q); auto.
      * now rewrite E6.
      * intros x Hx. rewrite E3. apply memset_out.
        destruct (pages_apart s q pg N); lia.
      * intros p z Hpz. split; [|now right].
        intros [E|HL]; auto. inversion E; subst p z.
        destruct (pages_apart s q pg N); lia.
  - intros p z [E|HL].
    + inversion E; subst p z. right. exists pg, c, i0.
      rewrite F1, F3. repeat split; auto; try lia.
      symmetry. now apply slot_frame.
    + apply (live_ok_frame_all s s' A A p z); auto.
      apply (si_live _ _ _ Inv _ _ HL).
  - simpl. constructor; [|apply (si_nodup _ _ _ Inv)].
    intro Hin. apply in_map_iff in Hin. destruct Hin as ([p z] & Ep & Hin).
    simpl in Ep. subst p. now apply (Hnew z).
  - intros c' Hc'. destruct (Z.eq_dec c' c) as [->|N].
    + destruct (nxt =? 0) eqn:En.
      * apply Z.eqb_eq in En. exists pl'. split.
        -- unfold partial_list. rewrite E10. simpl.
           eapply chain_ext; [|exact Hpl'].
           intros x Hx. unfold nexts. rewrite E6; auto.
           intro; subst; contradiction.
        -- intro q. destruct (Z.eq_dec q pg) as [->|Nq].
           ++ split; [intro; contradiction|].
              intros (_ & _ & _ & Hf'). rewrite F4 in Hf'. contradiction.
           ++ unfold servable. rewrite E6 by auto.
              rewrite <- (Hiff q). simpl. split; [auto|].
              intros [E|H]; [congruence|exact H].
      * apply Z.eqb_neq in En.
        apply (partial_inv_frame s s' A A c).
        -- exists (pg :: pl'). split; auto.
           unfold partial_list. rewrite Hp. simpl. auto.
        -- rewrite E10. simpl. auto.
        -- intros q _. destruct (Z.eq_dec q pg) as [->|Nq]; auto.
           rewrite E6; auto.
        -- intro q. unfold servable.
           destruct (Z.eq_dec q pg) as [->|Nq].
           ++ rewrite F1, F3, F4, Hh. fold obj. tauto.
           ++ rewrite E6 by auto. tauto.
    + apply (partial_inv_frame s s' A A c').
      * apply (si_partial _ _ _ Inv c' Hc').
      * now rewrite E9.
      * intros q (_ & _ & Hq & _). rewrite E6; auto.
        intro; subst. congruence.
      * intro q. unfold servable.
        destruct (Z.eq_dec q pg) as [->|Nq].
        -- rewrite F3, Hsc. split; intros (_ & _ & Hq & _); congruence.
        -- rewrite E6 by auto. tauto.
  - rewrite E5. apply (si_console _ _ _ Inv).
Qed.

(** ** Growing a cache *)

Lemma upto_spec n i : In i (upto n) <-> 0 <= i < Z.of_nat n.
Proof.
  unfold upto. rewrite in_map_iff. split.
  - intros (j & <- & Hj). apply in_seq in Hj. lia.
  - intros Hi. exists (Z.to_nat i). split; [lia|]. apply in_seq. lia.
Qed.

Lemma upto_NoDup n : NoDup (upto n).
Proof.
  unfold upto. generalize 0%nat.
  induction n as [|n IH]; intro a; simpl; constructor; auto.
  rewrite in_map_iff. intros (j & E & Hj). apply in_seq in Hj. lia.
Qed.

Lemma upto_length n : length (upto n) = n.
Proof. unfold upto. now rewrite length_map, length_seq. Qed.

Lemma fl_chain_seq m addr size n :
  (forall i, 0 <= i < Z.of_nat n ->
     load_ptr m (addr + i * size) =
       if i =? Z.of_nat n - 1 then 0 else addr + (i + 1) * size) ->
  (forall i, 0 <= i < Z.of_nat n -> addr + i * size <> 0) ->
  forall len a, (a + len = n)%nat ->
    fl_chain m (match len with
                | O => 0
                | _ => addr + Z.of_nat a * size
                end)
             (map (fun i => addr + i * size) (map Z.of_nat (seq a len))).
Proof.
  intros Hl Hnz. induction len as [|len IH]; intros a Ha; simpl; auto.
  split; auto. split; [apply Hnz; lia|].
  rewrite Hl by lia.
  specialize (IH (S a) ltac:(lia)).
  destruct len as [|len'].
  - replace (Z.of_nat a =? Z.of_nat n - 1) with true
      by (symmetry; apply Z.eqb_eq; lia).
    exact IH.
  - replace (Z.of_nat a =? Z.of_nat n - 1) with false
      by (symmetry; apply Z.eqb_neq; lia).
    replace (Z.of_nat a + 1) with (Z.of_nat (S a)) by lia. exact IH.
Qed.

Lemma cache_grow_shape s c pg :
  snd (alloc_pages s 0) = Some pg ->
  let s1 := fst (alloc_pages s 0) in
  let s' := fst (cache_grow s c) in
  let r := build_freelist (Z.to_nat (PAGE_SIZE / obj_size (slab_caches s c)))
             (arena s) (page_address s pg) (obj_size (slab_caches s c)) 0 in
  PHYS_MEM_START s' = PHYS_MEM_START s /\
  arena s' = fst r /\
  buddy_free_area s' = buddy_free_area s1 /\
  console s' = console s /\
  (forall q, q <> pg -> MEM_MAP s' q = MEM_MAP s1 q) /\
  MEM_MAP s' pg = mkPage PG_slab (partial (slab_caches s c))
                         (order (MEM_MAP s1 pg)) (Some c) (snd r) 0 /\
  (forall c', c' <> c -> slab_caches s' c' = slab_caches s c') /\
  slab_caches s' c = with_partial (slab_caches s c) (Some pg).
Proof.
  intros Hpg. cbv zeta.
  destruct (alloc_pages_frame s 0) as (Fa & Fc & Fo & Fp & _).
  unfold cache_grow.
  destruct (alloc_pages s 0) as [s1 [pg'|]]; cbn [fst snd] in *;
    [|discriminate].
  inversion Hpg; subst pg'. cbv zeta.
  replace (page_address _ pg) with (page_address s pg)
    by (unfold page_address; cbn; now rewrite Fp).
  replace (obj_size (slab_caches _ c)) with (obj_size (slab_caches s c))
    by (cbn; now rewrite Fc).
  replace (arena (upd_page _ pg _)) with (arena s)
    by (cbn; now rewrite Fa).
  destruct (build_freelist _ _ _ _ _) as [m prev]. cbn.
  rewrite !upd_same. cbn. rewrite Fc.
  repeat split; auto.
  - intros q Hq. now rewrite !upd_other.
  - intros c' Hc'. now rewrite upd_other.
Qed.

Lemma alloc_pages_not_allocated s A L o pg :
  buddy_inv s A L [] -> 0 <= o ->
  snd (alloc_pages s o) = Some pg ->
  forall o', ~ In (pg, o') A.
Proof.
  intros Inv Ho Hpg o' HA.
  destruct (alloc_pages_found s o pg Ho Hpg) as (k & Hk & _ & Hp & _).
  apply (alloc_not_free _ _ _ _ Inv pg o' k HA ltac:(lia)).
  apply (area_head_listed s A L [] k pg Inv); [lia|exact Hp].
Qed.

Lemma slab_inv_cache_grow s A Lv c pg :
  slab_inv s A Lv -> 0 <= c < SLAB_INDEX_COUNT ->
  partial (slab_caches s c) = None ->
  snd (alloc_pages s 0) = Some pg ->
  let s' := fst (cache_grow s c) in
  slab_inv s' ((pg, 0) :: A) Lv /\
  partial (slab_caches s' c) = Some pg /\
  PHYS_MEM_START s' = PHYS_MEM_START s /\
  (forall x, x < page_address s pg \/ page_address s pg + PAGE_SIZE <= x ->
     arena s' x = arena s x) /\
  (forall p z, In (p, z) Lv ->
     p + z <= page_address s pg \/ page_address s pg + PAGE_SIZE <= p).
Proof.
  intros Inv Hc Hp Hpg.
  pose proof (si_reach _ _ _ Inv) as Hr.
  destruct (reachable_inv s A Hr) as [L Binv].
  destruct (si_base _ _ _ Inv) as [Hb0 Hb1].
  pose proof (reachable_cache_grow s A c pg Hr Hpg) as Hr'.
  pose proof (alloc_pages_heads s A L 0 pg Binv ltac:(lia) Hpg) as Hheads.
  pose proof (alloc_pages_not_allocated s A L 0 pg Binv ltac:(lia) Hpg)
    as Hfresh.
  destruct (cache_grow_shape s c pg Hpg)
    as (E1 & E2 & E3 & E4 & E5 & E6 & E7 & E8).
  cbv zeta in *.
  set (s' := fst (cache_grow s c)) in *.
  rewrite (si_sizes _ _ _ Inv c Hc) in E2, E6. fold (cap c) in E2, E6.
  destruct (csize_facts c Hc) as (Z1 & Z2 & Z3).
  assert (Hal : aligned (pg, 0)).
  { apply (allocated_aligned s' ((pg, 0) :: A)); auto. now left. }
  destruct (aligned_bytes s pg 0 Hal) as (Hpgr & Hlo & Hhi).
  change (2 ^ 0) with 1 in Hhi. rewrite Z.mul_1_r in Hhi.
  assert (Hn : Z.of_nat (Z.to_nat (cap c)) = cap c) by lia.
  destruct (build_freelist_spec (Z.to_nat (cap c)) (arena s)
              (page_address s pg) (csize c) 0)
    as (B1 & B2 & B3); try lia.
  rewrite Hn in B2, B3. rewrite Z3 in B3.
  replace (Nat.eqb (Z.to_nat (cap c)) 0) with false in B1
    by (symmetry; apply Nat.eqb_neq; lia).
  set (r := build_freelist (Z.to_nat (cap c)) (arena s) (page_address s pg)
              (csize c) 0) in *.
  assert (Hsame : forall q j, In (q, j) A -> MEM_MAP s' q = MEM_MAP s q).
  { intros q j Hq. rewrite E5; [apply (Hheads (q, j) Hq)|].
    intro; subst q. now apply (Hfresh j). }
  assert (Harena : forall x,
            x < page_address s pg \/ page_address s pg + PAGE_SIZE <= x ->
            arena s' x = arena s x).
  { intros x Hx. rewrite E2. now apply B3. }
  assert (Hout2 : forall p z, In (p, z) Lv ->
     p + z <= page_address s pg \/ page_address s pg + PAGE_SIZE <= p).
  { intros p z HL.
    destruct (live_in_block s A p z Hr (si_live _ _ _ Inv _ _ HL))
      as (g & o & Hg & Hz & Hrange & Hend).
    assert (Nb : (pg, 0) <> (g, o)).
    { intro E. inversion E; subst. now apply (Hfresh 0). }
    destruct (allocated_apart s' ((pg, 0) :: A) pg 0 g o Hr') as [H|H];
      auto; [now left|now right| |];
      unfold page_address in *; rewrite E1 in H;
      change (2 ^ 0) with 1 in H; lia. }
  assert (Hout : forall p z, In (p, z) Lv ->
            ~ (page_address s pg <= p < page_address s pg + PAGE_SIZE)).
  { intros p z HL Hin.
    destruct (live_in_block s A p z Hr (si_live _ _ _ Inv _ _ HL))
      as (g & o & Hg & _ & Hrange & _).
    assert (Nb : (pg, 0) <> (g, o)).
    { intro E. inversion E; subst. now apply (Hfresh 0). }
    destruct (allocated_apart s' ((pg, 0) :: A) pg 0 g o Hr') as [H|H];
      auto; [now left|now right| |];
      unfold page_address in *; rewrite E1 in H;
      change (2 ^ 0) with 1 in H; lia. }
  split; [|split; [|split; [|split]]]; auto.
  2:{ rewrite E8. reflexivity. }
  constructor.
  - rewrite E1. split; assumption.
  - intros c' Hc'. destruct (Z.eq_dec c' c) as [->|N].
    + rewrite E8. simpl. apply (si_sizes _ _ _ Inv c Hc).
    + rewrite E7 by auto. apply (si_sizes _ _ _ Inv c' Hc').
  - exact Hr'.
  - intros q o [E|Hq] Hfq.
    + inversion E; subst q o. split; auto.
      exists c, (upto (Z.to_nat (cap c))). rewrite E6. cbn.
      split; [exact Hc|]. split; [reflexivity|].
      split; [apply upto_NoDup|].
      split; [intros i Hi; apply upto_spec in Hi; lia|].
      split; [|split; [|split]].
      * rewrite E2, B1.
        replace (map (slot s' pg c) (upto (Z.to_nat (cap c))))
          with (map (fun i => page_address s pg + i * csize c)
                    (map Z.of_nat (seq 0 (Z.to_nat (cap c))))).
        2:{ unfold upto. apply map_ext. intro i. unfold slot, page_address.
            now rewrite E1. }
        pose proof (fl_chain_seq (fst r) (page_address s pg) (csize c)
                      (Z.to_nat (cap c))) as Hseq.
        rewrite Hn in Hseq.
        specialize (Hseq B2 ltac:(intros; nia) (Z.to_nat (cap c)) 0%nat
                         eq_refl).
        destruct (Z.to_nat (cap c)) eqn:En; [lia|].
        rewrite Z.mul_0_l, Z.add_0_r in Hseq. exact Hseq.
      * rewrite upto_length. lia.
      * intros i z Hi HL. apply upto_spec in Hi.
        rewrite (slot_frame s s') in HL by auto.
        apply (Hout _ _ HL).
        destruct (slot_range s pg c i Hc ltac:(lia)). lia.
      * intros i Hi Hni. exfalso. apply Hni. apply upto_spec. lia.
    + rewrite (Hsame q o Hq) in Hfq.
      destruct (si_slab _ _ _ Inv q o Hq Hfq) as [-> Hok]. split; auto.
      assert (N : q <> pg) by (intro; subst; now apply (Hfresh 0)).
      apply (slab_page_ok_frame_page s s' Lv Lv q); auto.
      * now rewrite (Hsame q 0 Hq).
      * intros x Hx. apply Harena. destruct (pages_apart s q pg N); lia.
      * intros; reflexivity.
  - intros p z HL. apply (live_ok_frame_all s s' A ((pg, 0) :: A) p z); auto.
    + intros [q j] Hq. cbn [fst]. now rewrite (Hsame q j Hq).
    + intros b Hb. now right.
    + apply (si_live _ _ _ Inv _ _ HL).
  - apply (si_nodup _ _ _ Inv).
  - intros c' Hc'.
    assert (Hserv : forall q, q <> pg ->
              (servable s' ((pg, 0) :: A) c' q <-> servable s A c' q)).
    { intros q N. unfold servable. split.
      - intros ([E|Hq] & H2). { inversion E; congruence. }
        rewrite (Hsame q 0 Hq) in H2. tauto.
      - intros (Hq & H2). rewrite (Hsame q 0 Hq). split; auto. now right. }
    destruct (Z.eq_dec c' c) as [->|N].
    + destruct (si_partial _ _ _ Inv c Hc) as (pl & Hpl & Hiff).
      unfold partial_list in Hpl. rewrite Hp in Hpl.
      destruct pl as [|? ?]; simpl in Hpl; [|destruct Hpl; discriminate].
      exists [pg]. split.
      * unfold partial_list. rewrite E8. simpl. split; auto.
        unfold nexts. rewrite E6. simpl. exact Hp.
      * intro q. destruct (Z.eq_dec q pg) as [->|Nq].
        -- split; [intros _|intros _; now left].
           unfold servable. rewrite E6. cbn.
           repeat split; auto. rewrite B1. lia.
        -- rewrite (Hserv q Nq), <- (Hiff q). simpl. intuition congruence.
    + apply (partial_inv_frame s s' A ((pg, 0) :: A) c').
      * apply (si_partial _ _ _ Inv c' Hc').
      * now rewrite E7.
      * intros q (Hq & _). now rewrite (Hsame q 0 Hq).
      * intro q. destruct (Z.eq_dec q pg) as [->|Nq]; [|now apply Hserv].
        unfold servable. rewrite E6. cbn. split.
        -- intros (_ & _ & Hq & _). congruence.
        -- intros (Hq & _). exfalso. now apply (Hfresh 0).
  - rewrite E4. apply (si_console _ _ _ Inv).
Qed.

(** ** Allocated blocks are in use *)

Lemma used_frame s s' Lv Lv' b :
  PHYS_MEM_START s' = PHYS_MEM_START s ->
  (flags (MEM_MAP s' (fst b)) = flags (MEM_MAP s (fst b)) /\
   order (MEM_MAP s' (fst b)) = order (MEM_MAP s (fst b)) /\
   active_objects (MEM_MAP s' (fst b)) = active_objects (MEM_MAP s (fst b))) ->
  (forall z, In (page_address s (fst b), z) Lv ->
             In (page_address s (fst b), z) Lv') ->
  used s Lv b -> used s' Lv' b.
Proof.
  intros EP (E1 & E2 & E3) EL [(Hf & Ha)|(Hf & Ho & z & Hz)].
  - left. rewrite E1, E3. auto.
  - right. rewrite E1, E2. split; auto. split; auto. exists z.
    unfold page_address in *. rewrite EP. auto.
Qed.

Lemma slab_active_nonneg s Lv pg :
  slab_page_ok s Lv pg -> 0 <= active_objects (MEM_MAP s pg).
Proof.
  intros (c & fl & Hc & _ & Hnd & Hb & _ & Hact & _).
  destruct (csize_facts c Hc) as (Z1 & Z2 & Z3).
  assert (Hle : (length fl <= Z.to_nat (cap c))%nat).
  { rewrite <- (upto_length (Z.to_nat (cap c))).
    apply NoDup_incl_length; auto.
    intros i Hi. apply upto_spec. specialize (Hb i Hi). lia. }
  lia.
Qed.

Lemma some_not_in (fl l : list Z) :
  (forall i, In i l -> In i fl) \/ (exists i, In i l /\ ~ In i fl).
Proof.
  induction l as [|a l [IH|(i & Hi & Ni)]].
  - left. intros i [].
  - destruct (in_dec Z.eq_dec a fl) as [Ha|Na].
    + left. intros i [<-|Hi]; auto.
    + right. exists a. split; auto. now left.
  - right. exists i. split; auto. now right.
Qed.

(** A page of a cache with an active object holds an object of the table. *)
Lemma slab_active_held s Lv pg :
  slab_page_ok s Lv pg -> active_objects (MEM_MAP s pg) <> 0 ->
  exists c i z, slab_cache (MEM_MAP s pg) = Some c /\
    0 <= c < SLAB_INDEX_COUNT /\ 0 <= i < cap c /\
    In (slot s pg c i, z) Lv.
Proof.
  intros (c & fl & Hc & Hsc & Hnd & Hb & _ & Hact & _ & Hheld) Hnz.
  destruct (csize_facts c Hc) as (Z1 & Z2 & Z3).
  destruct (some_not_in fl (upto (Z.to_nat (cap c)))) as [Hall|(i & Hi & Ni)].
  - exfalso. apply Hnz. rewrite Hact.
    assert (Hle : (length (upto (Z.to_nat (cap c))) <= length fl)%nat).
    { apply NoDup_incl_length; [apply upto_NoDup|exact Hall]. }
    rewrite upto_length in Hle.
    assert (Hge : (length fl <= length (upto (Z.to_nat (cap c))))%nat).
    { apply NoDup_incl_length; auto.
      intros j Hj. apply upto_spec. specialize (Hb j Hj). lia. }
    rewrite upto_length in Hge. lia.
  - apply upto_spec in Hi.
    assert (Hi' : 0 <= i < cap c) by lia.
    destruct (Hheld i Hi' Ni) as [z Hz]. exists c, i, z. auto.
Qed.

Lemma in_use_alloc_from_partial s A Lv c pg size :
  slab_inv s A Lv -> 0 <= c < SLAB_INDEX_COUNT ->
  partial (slab_caches s c) = Some pg ->
  0 <= size <= csize c ->
  (forall b, In b A -> fst b <> pg -> used s Lv b) ->
  in_use (fst (alloc_from_partial s c)) A
         ((snd (alloc_from_partial s c), size) :: Lv).
Proof.
  intros Inv Hc Hp Hsz Hused.
  destruct (slab_inv_alloc_from_partial s A Lv c pg size Inv Hc Hp Hsz)
    as (_ & _ & _ & (HA & Hfl & Hsc & Hfn) & _).
  destruct (alloc_from_partial_shape s c pg Hp Hfn)
    as (_ & EP & _ & _ & _ & Eoth & Epg & _). cbv zeta in *.
  destruct (si_slab _ _ _ Inv pg 0 HA Hfl) as [_ Hok].
  pose proof (slab_active_nonneg s Lv pg Hok) as Hge.
  intros [q j] Hb. destruct (Z.eq_dec q pg) as [->|N].
  - left. cbn [fst]. destruct (frame_all _ _ Epg) as (-> & _ & _ & _ & ->).
    cbn. split; auto. lia.
  - apply (used_frame s _ Lv _ (q, j)); auto.
    + cbn [fst]. rewrite (Eoth q N). auto.
    + intros z Hz. now right.
Qed.

Lemma in_use_cache_grow s A Lv c pg :
  slab_inv s A Lv -> in_use s A Lv ->
  snd (alloc_pages s 0) = Some pg ->
  forall b, In b ((pg, 0) :: A) -> fst b <> pg ->
    used (fst (cache_grow s c)) Lv b.
Proof.
  intros Inv Huse Hpg [q j] [E|Hb] N; cbn [fst] in N.
  { injection E as E1 E2. congruence. }
  destruct (reachable_inv s A (si_reach _ _ _ Inv)) as [L Binv].
  pose proof (alloc_pages_heads s A L 0 pg Binv ltac:(lia) Hpg (q, j) Hb)
    as Eh. cbn [fst] in Eh.
  destruct (cache_grow_shape s c pg Hpg) as (EP & _ & _ & _ & Eoth & _).
  cbv zeta in *.
  apply (used_frame s _ Lv Lv (q, j)); auto.
  cbn [fst]. rewrite (Eoth q N), Eh. auto.
Qed.

Lemma in_use_alloc_large s A Lv o pg size :
  slab_inv s A Lv -> in_use s A Lv -> 0 <= o ->
  snd (alloc_pages s o) = Some pg ->
  let s' := fst (alloc_pages s o) in
  in_use s' ((pg, o) :: A) ((page_address s' pg, size) :: Lv).
Proof.
  intros Inv Huse Ho Hpg. cbv zeta.
  destruct (reachable_inv s A (si_reach _ _ _ Inv)) as [L Binv].
  destruct (alloc_pages_marks s o pg Ho Hpg) as (Mf & Mo & _).
  destruct (alloc_pages_frame s o) as (_ & _ & _ & Fp & _).
  intros b [<-|Hb].
  - right. cbn [fst snd]. split; auto. split; auto. exists size. now left.
  - pose proof (alloc_pages_heads s A L o pg Binv Ho Hpg b Hb) as Eh.
    apply (used_frame s _ Lv _ b); auto.
    + rewrite Eh. auto.
    + intros z Hz. now right.
Qed.

(** ** [kmem_cache_alloc] and a large allocation keep the invariant *)

Lemma slab_inv_kmem_cache_alloc s A Lv c size :
  slab_inv s A Lv -> 0 <= c < SLAB_INDEX_COUNT ->
  0 <= size <= csize c ->
  let obj := snd (kmem_cache_alloc s c) in
  let s' := fst (kmem_cache_alloc s c) in
  (obj = 0 /\ s' = s /\ partial (slab_caches s c) = None /\
   snd (alloc_pages s 0) = None) \/
  (obj <> 0 /\
   (exists A', slab_inv s' A' ((obj, size) :: Lv) /\
               slab_inv s' A' ((obj, csize c) :: Lv) /\
               (in_use s A Lv -> in_use s' A' ((obj, size) :: Lv))) /\
   (forall p z x, In (p, z) Lv -> p <= x < p + z ->
      arena s' x = arena s x)).
Proof.
  intros Inv Hc Hsz. cbv zeta. unfold kmem_cache_alloc.
  destruct (csize_facts c Hc) as (Z1 & Z2 & Z3).
  assert (Hstep : forall t B pg,
            slab_inv t B Lv -> partial (slab_caches t c) = Some pg ->
            snd (alloc_from_partial t c) <> 0 /\
            (slab_inv (fst (alloc_from_partial t c)) B
               ((snd (alloc_from_partial t c), size) :: Lv) /\
             slab_inv (fst (alloc_from_partial t c)) B
               ((snd (alloc_from_partial t c), csize c) :: Lv) /\
             ((forall b, In b B -> fst b <> pg -> used t Lv b) ->
              in_use (fst (alloc_from_partial t c)) B
                ((snd (alloc_from_partial t c), size) :: Lv))) /\
            (forall p z x, In (p, z) Lv -> p <= x < p + z ->
               arena (fst (alloc_from_partial t c)) x = arena t x)).
  { intros t B pg It Hp.
    destruct (slab_inv_alloc_from_partial t B Lv c pg size It Hc Hp Hsz)
      as (Hnz & I1 & _ & _ & Ear).
    destruct (slab_inv_alloc_from_partial t B Lv c pg (csize c) It Hc Hp
                ltac:(lia)) as (_ & I2 & _ & _ & _).
    cbv zeta in *. split; auto. split.
    { split; auto. split; auto.
      apply (in_use_alloc_from_partial t B Lv c pg size It Hc Hp Hsz). }
    intros p z x HL Hx. rewrite Ear. apply memset_out.
    set (obj := snd (alloc_from_partial t c)) in *.
    set (t' := fst (alloc_from_partial t c)) in *.
    assert (Np : p <> obj).
    { intro E. subst p. pose proof (si_nodup _ _ _ I2) as Hnd.
      simpl in Hnd. inversion Hnd as [|? ? Hnot _]. apply Hnot.
      apply in_map_iff. exists (obj, z). auto. }
    destruct (live_apart t' B p z obj (csize c) (si_reach _ _ _ I2))
      as [H|H]; auto; try lia.
    - apply (si_live _ _ _ I2). now right.
    - apply (si_live _ _ _ I2). now left. }
  destruct (partial (slab_caches s c)) as [pg0|] eqn:Ep.
  - right. destruct (Hstep s A pg0 Inv Ep) as (Hnz & (I1 & I2 & HU) & Har).
    split; auto. split; auto. exists A. split; auto.
  - destruct (cache_grow_result s c) as [Gf Gs].
    destruct (snd (alloc_pages s 0)) as [pg|] eqn:Ea.
    + destruct (Gs pg eq_refl) as [G1 G2].
      destruct (slab_inv_cache_grow s A Lv c pg Inv Hc Ep Ea)
        as (I1 & _ & EP & Ear & Hout). cbv zeta in *.
      pose proof (fun H => in_use_cache_grow s A Lv c pg Inv H Ea) as HG.
      destruct (cache_grow s c) as [t ok]. cbn [fst snd] in *. subst ok.
      cbn [Z.eqb]. right.
      destruct (Hstep t ((pg, 0) :: A) pg I1 G2)
        as (Hnz & (J1 & J2 & HU) & Harena).
      split; auto. split.
      { exists ((pg, 0) :: A). split; auto. }
      intros p z x HL Hx. rewrite (Harena p z x HL Hx). apply Ear.
      destruct (Hout p z HL); lia.
    + rewrite (Gf eq_refl). cbn [Z.eqb fst snd]. left. auto.
Qed.

Lemma NoDup_fst_fresh (Lv : live_table) ptr :
  (forall z, ~ In (ptr, z) Lv) -> ~ In ptr (map fst Lv).
Proof.
  intros H Hin. apply in_map_iff in Hin. destruct Hin as ([p z] & E & Hin).
  simpl in E. subst p. now apply (H z).
Qed.

Lemma slab_inv_alloc_large s A Lv o pg size :
  slab_inv s A Lv -> 0 <= o ->
  snd (alloc_pages s o) = Some pg ->
  0 <= size <= PAGE_SIZE * 2 ^ o ->
  let s' := fst (alloc_pages s o) in
  slab_inv s' ((pg, o) :: A) ((page_address s' pg, size) :: Lv) /\
  arena s' = arena s.
Proof.
  intros Inv Ho Hpg Hsz. cbv zeta.
  pose proof (si_reach _ _ _ Inv) as Hr.
  destruct (reachable_inv s A Hr) as [L Binv].
  pose proof (reach_alloc s A o pg Hr Ho Hpg) as Hr'.
  pose proof (alloc_pages_heads s A L o pg Binv Ho Hpg) as Hheads.
  pose proof (alloc_pages_not_allocated s A L o pg Binv Ho Hpg) as Hfresh.
  destruct (alloc_pages_marks s o pg Ho Hpg) as (Mf & Mo & _).
  destruct (alloc_pages_frame s o) as (Fa & Fc & Fo & Fp & _).
  set (s' := fst (alloc_pages s o)) in *.
  assert (Hsame : forall q j, In (q, j) A -> MEM_MAP s' q = MEM_MAP s q).
  { intros q j Hq. apply (Hheads (q, j) Hq). }
  assert (Haddr : forall q, page_address s' q = page_address s q).
  { intro q. unfold page_address. now rewrite Fp. }
  assert (Hal : aligned (pg, o)).
  { apply (allocated_aligned s' ((pg, o) :: A)); auto. now left. }
  assert (Hout : forall p z, In (p, z) Lv ->
            ~ (page_address s pg <= p
               < page_address s pg + PAGE_SIZE * 2 ^ o)).
  { intros p z HL Hin.
    destruct (live_in_block s A p z Hr (si_live _ _ _ Inv _ _ HL))
      as (g & j & Hg & _ & Hrange & _).
    assert (Nb : (pg, o) <> (g, j)).
    { intro E. injection E as <- <-. now apply (Hfresh o). }
    destruct (allocated_apart s' ((pg, o) :: A) pg o g j Hr') as [H|H];
      auto; [now left|now right| |]; rewrite !Haddr in H; lia. }
  destruct Hal as (Hoo & _). cbn [snd] in Hoo.
  pose proof (pow2_pos o Ho) as Po.
  split; [|exact Fa]. constructor.
  - rewrite Fp. apply (si_base _ _ _ Inv).
  - intros c Hc. rewrite Fc. apply (si_sizes _ _ _ Inv c Hc).
  - exact Hr'.
  - intros q j [E|Hq] Hfq.
    + injection E as <- <-. rewrite Mf in Hfq. discriminate.
    + rewrite (Hsame q j Hq) in Hfq.
      destruct (si_slab _ _ _ Inv q j Hq Hfq) as [-> Hok]. split; auto.
      apply (slab_page_ok_frame_page s s' Lv _ q); auto.
      * now rewrite (Hsame q 0 Hq).
      * intros x _. now rewrite Fa.
      * intros p z Hp. split; [|now right].
        intros [E|HL]; auto. injection E as <- <-.
        rewrite Haddr in Hp.
        assert (Nb : (pg, o) <> (q, 0)).
        { intro E'. injection E' as E1 E2. rewrite <- E1 in Hq.
          now apply (Hfresh 0). }
        destruct (allocated_apart s' ((pg, o) :: A) pg o q 0 Hr') as [H|H];
          auto; [now left|now right| |]; rewrite !Haddr in H;
          change PAGE_SIZE with 4096 in *; change (2 ^ 0) with 1 in H; lia.
  - intros p z [E|HL].
    + injection E as <- <-. left. exists pg, o.
      repeat split; auto; try lia. now left.
    + apply (live_ok_frame_all s s' A ((pg, o) :: A) p z); auto.
      * intros [q j] Hq. cbn [fst]. now rewrite (Hsame q j Hq).
      * intros b Hb. now right.
      * apply (si_live _ _ _ Inv _ _ HL).
  - simpl. constructor; [|apply (si_nodup _ _ _ Inv)].
    apply NoDup_fst_fresh. intros z HL. apply (Hout _ _ HL).
    rewrite Haddr. change PAGE_SIZE with 4096. lia.
  - intros c Hc. apply (partial_inv_frame s s' A ((pg, o) :: A) c).
    + apply (si_partial _ _ _ Inv c Hc).
    + now rewrite Fc.
    + intros q (Hq & _). now rewrite (Hsame q 0 Hq).
    + intro q. unfold servable. split.
      * intros ([E|Hq] & H2).
        { injection E as E1 E2. rewrite <- E1 in H2.
          destruct H2 as (H2 & _). rewrite Mf in H2. discriminate. }
        rewrite (Hsame q 0 Hq) in H2. tauto.
      * intros (Hq & H2). rewrite (Hsame q 0 Hq). split; auto. now right.
  - rewrite Fo. apply (si_console _ _ _ Inv).
Qed.

(** ** Giving a block back to the buddy system *)

Lemma drop_ptr_In ptr (Lv : live_table) p z :
  In (p, z) (drop_ptr ptr Lv) <-> In (p, z) Lv /\ p <> ptr.
Proof.
  unfold drop_ptr. rewrite filter_In. simpl.
  rewrite negb_true_iff, Z.eqb_neq. tauto.
Qed.

Lemma drop_ptr_NoDup ptr (Lv : live_table) :
  NoDup (map fst Lv) -> NoDup (map fst (drop_ptr ptr Lv)).
Proof.
  induction Lv as [|[p z] Lv IH]; simpl; intro H; auto.
  inversion H as [|? ? Hn Hd]; subst.
  destruct (negb (p =? ptr)); simpl; auto.
  constructor; auto.
  intro Hin. apply Hn. apply in_map_iff in Hin.
  destruct Hin as ([q w] & E & Hin). simpl in E. subst q.
  apply drop_ptr_In in Hin. apply in_map_iff. exists (p, w). tauto.
Qed.

Lemma slab_inv_free_block s A Lv Lv' fuel pg o s' :
  slab_inv s A Lv -> In (pg, o) A ->
  flags (MEM_MAP s pg) <> PG_slab ->
  __free_pages fuel s pg o = Some s' ->
  (forall p z, In (p, z) Lv' -> In (p, z) Lv) ->
  (forall p z, In (p, z) Lv ->
     ~ (page_address s pg <= p < page_address s pg + PAGE_SIZE * 2 ^ o) ->
     In (p, z) Lv') ->
  NoDup (map fst Lv') ->
  (forall p z, In (p, z) Lv' ->
     ~ (page_address s pg <= p < page_address s pg + PAGE_SIZE * 2 ^ o)) ->
  slab_inv s' (remove block_eq_dec (pg, o) A) Lv' /\
  arena s' = arena s.
Proof.
  intros Inv HA Hnf Hf Hsub Hsup Hnd Hout.
  pose proof (si_reach _ _ _ Inv) as Hr.
  destruct (reachable_inv s A Hr) as [L Binv].
  pose proof (free_pages_heads s A L fuel pg o s' Binv HA Hf) as Hheads.
  destruct (free_pages_frame fuel s pg o s' Hf) as (Fa & Fc & Fo & Fp).
  assert (Hrem : forall b, In b (remove block_eq_dec (pg, o) A) <->
                           In b A /\ b <> (pg, o)).
  { intro b. split.
    - apply in_remove.
    - intros [H1 H2]. now apply in_in_remove. }
  assert (Hslabne : forall q, In (q, 0) A ->
            flags (MEM_MAP s q) = PG_slab -> (q, 0) <> (pg, o)).
  { intros q Hq Hfq E. injection E as E1 E2. subst q. contradiction. }
  split; [|exact Fa]. constructor.
  - rewrite Fp. apply (si_base _ _ _ Inv).
  - intros c Hc. rewrite Fc. apply (si_sizes _ _ _ Inv c Hc).
  - now apply (reach_free s A fuel pg o s').
  - intros q j Hq Hfq. apply Hrem in Hq. destruct Hq as [Hq Nq].
    pose proof (Hheads (q, j) Hq Nq) as Eq. cbn [fst] in Eq.
    rewrite Eq in Hfq.
    destruct (si_slab _ _ _ Inv q j Hq Hfq) as [-> Hok]. split; auto.
    apply (slab_page_ok_frame_page s s' Lv Lv' q); auto.
    + now rewrite Eq.
    + intros x _. now rewrite Fa.
    + intros p z Hp. split; [apply Hsub|]. intro HLp. apply Hsup; auto.
      intro Hin.
      pose proof (allocated_aligned s A _ Hr HA) as (Hoo & _).
      cbn [snd] in Hoo. pose proof (pow2_pos o ltac:(lia)) as Po.
      destruct (allocated_apart s A q 0 pg o Hr Hq HA Nq) as [H|H];
        change (2 ^ 0) with 1 in H; change PAGE_SIZE with 4096 in *; lia.
  - intros p z HL.
    apply (live_ok_frame s s' A _ p z); auto.
    + intros b Hb Hone.
      assert (Nb : b <> (pg, o)).
      { intro E. subst b. apply (Hout p z HL).
        apply (live_ok_one s (pg, o) p z Hone).
        pose proof (allocated_aligned s A _ Hr HA) as (Hoo & _).
        cbn [snd] in *. lia. }
      split; [now apply Hrem|]. now rewrite (Hheads b Hb Nb).
    + apply (si_live _ _ _ Inv). auto.
  - exact Hnd.
  - intros c Hc. apply (partial_inv_frame s s' A _ c).
    + apply (si_partial _ _ _ Inv c Hc).
    + now rewrite Fc.
    + intros q (Hq & Hfq & _).
      pose proof (Hheads (q, 0) Hq (Hslabne q Hq Hfq)) as Eq.
      cbn [fst] in Eq. now rewrite Eq.
    + intro q. unfold servable. rewrite Hrem. split.
      * intros ((Hq & Nq) & H2).
        pose proof (Hheads (q, 0) Hq Nq) as Eq. cbn [fst] in Eq.
        rewrite Eq in H2. tauto.
      * intros (Hq & Hfq & H2).
        pose proof (Hslabne q Hq Hfq) as Nq.
        pose proof (Hheads (q, 0) Hq Nq) as Eq. cbn [fst] in Eq.
        rewrite Eq. tauto.
  - rewrite Fo. apply (si_console _ _ _ Inv).
Qed.

Lemma in_use_free_block s A Lv fuel pg o s' :
  reachable s A -> In (pg, o) A ->
  __free_pages fuel s pg o = Some s' ->
  (forall b, In b A -> b <> (pg, o) -> used s Lv b) ->
  in_use s' (remove block_eq_dec (pg, o) A) Lv.
Proof.
  intros Hr HA Hf Hused b Hb. apply in_remove in Hb. destruct Hb as [Hb Nb].
  destruct (reachable_inv s A Hr) as [L Binv].
  pose proof (free_pages_heads s A L fuel pg o s' Binv HA Hf b Hb Nb) as Eq.
  destruct (free_pages_frame fuel s pg o s' Hf) as (_ & _ & _ & Fp).
  apply (used_frame s s' Lv Lv b); auto. now rewrite Eq.
Qed.

(** ** Taking an object back into its page *)

Lemma slab_free_shape s pg c obj :
  let sr := slab_reinsert (slab_push s pg obj) c pg in
  let full := active_objects (MEM_MAP s pg) - 1
              =? PAGE_SIZE / obj_size (slab_caches s c) - 1 in
  PHYS_MEM_START sr = PHYS_MEM_START s /\
  arena sr = store_ptr (arena s) obj (freelist (MEM_MAP s pg)) /\
  buddy_free_area sr = buddy_free_area s /\
  console sr = console s /\
  (forall q, q <> pg -> MEM_MAP sr q = MEM_MAP s q) /\
  with_next (MEM_MAP sr pg) None
    = with_next
        (with_active_objects (with_freelist (MEM_MAP s pg) obj)
                             (active_objects (MEM_MAP s pg) - 1)) None /\
  next (MEM_MAP sr pg)
    = (if full then partial (slab_caches s c) else next (MEM_MAP s pg)) /\
  (forall c', c' <> c -> slab_caches sr c' = slab_caches s c') /\
  slab_caches sr c
    = with_partial (slab_caches s c)
        (if full then Some pg else partial (slab_caches s c)).
Proof.
  cbv zeta. unfold slab_reinsert.
  set (sp := slab_push s pg obj).
  assert (Ea : active_objects (MEM_MAP sp pg)
               = active_objects (MEM_MAP s pg) - 1).
  { unfold sp, slab_push. cbn. now rewrite !upd_same. }
  assert (Ec : slab_caches sp = slab_caches s) by reflexivity.
  rewrite Ea, Ec.
  destruct (active_objects (MEM_MAP s pg) - 1
            =? PAGE_SIZE / obj_size (slab_caches s c) - 1).
  - unfold sp, slab_push. cbn. rewrite !upd_same. cbn.
    repeat split; auto.
    + intros q Hq. now rewrite !upd_other.
    + intros c' Hc'. now rewrite upd_other.
  - unfold sp, slab_push. cbn. rewrite !upd_same. cbn.
    repeat split; auto.
    + intros q Hq. now rewrite !upd_other.
    + now destruct (slab_caches s c).
Qed.

Lemma slab_inv_slab_free s A Lv pg c i size :
  slab_inv s A Lv -> In (slot s pg c i, size) Lv ->
  In (pg, 0) A -> flags (MEM_MAP s pg) = PG_slab ->
  slab_cache (MEM_MAP s pg) = Some c ->
  0 <= c < SLAB_INDEX_COUNT -> 0 <= i < cap c ->
  let obj := slot s pg c i in
  let sr := slab_reinsert (slab_push s pg obj) c pg in
  slab_inv sr A (drop_ptr obj Lv) /\
  arena sr = store_ptr (arena s) obj (freelist (MEM_MAP s pg)) /\
  active_objects (MEM_MAP sr pg) = active_objects (MEM_MAP s pg) - 1 /\
  flags (MEM_MAP sr pg) = PG_slab /\
  slab_cache (MEM_MAP sr pg) = Some c.
Proof.
  intros Inv HL HA Hfl Hsc Hc Hi.
  pose proof (si_reach _ _ _ Inv) as Hr.
  destruct (si_base _ _ _ Inv) as [Hb0 Hb1].
  destruct (si_slab _ _ _ Inv pg 0 HA Hfl)
    as [_ (c0 & fl & Hc0 & Hsc0 & Hnd & Hb & Hch & Hact & Hfree & Hlive)].
  assert (c0 = c) by congruence. subst c0.
  assert (Hifl : ~ In i fl).
  { intro Hin. apply (Hfree i size Hin). exact HL. }
  destruct (slab_free_shape s pg c (slot s pg c i))
    as (E2 & E3 & E4 & E5 & E6 & E7 & E8 & E9 & E10).
  cbv zeta in *.
  set (obj := slot s pg c i) in *.
  set (sr := slab_reinsert (slab_push s pg obj) c pg) in *.
  set (h := freelist (MEM_MAP s pg)) in *.
  rewrite (si_sizes _ _ _ Inv c Hc) in E8, E10. fold (cap c) in E8, E10.
  destruct (frame_all _ _ E7) as (F1 & F2 & F3 & F4 & F5).
  cbn in F1, F2, F3, F4, F5.
  destruct (slot_range s pg c i Hc Hi) as [R1 R2].
  destruct (csize_facts c Hc) as (Z1 & Z2 & Z3).
  pose proof (allocated_aligned s A _ Hr HA) as Hal.
  destruct (aligned_bytes s pg 0 Hal) as (Hpgr & Hlo & Hhi).
  change (2 ^ 0) with 1 in Hhi. rewrite Z.mul_1_r in Hhi.
  assert (Hobjnz : obj <> 0) by (unfold obj; lia).
  assert (Hh : 0 <= h < WORD).
  { destruct fl as [|j fl0]; simpl in Hch.
    - rewrite Hch. unfold WORD. lia.
    - destruct Hch as (-> & _ & _).
      destruct (slot_range s pg c j Hc (Hb j (or_introl eq_refl))). lia. }
  assert (Hfull : (active_objects (MEM_MAP s pg) - 1 =? cap c - 1) = true
                  <-> fl = []).
  { rewrite Z.eqb_eq, Hact. destruct fl; simpl length; split; intro;
      try reflexivity; try discriminate; lia. }
  assert (Hhnull : h = 0 <-> fl = []).
  { pose proof (fl_chain_null _ _ _ Hch) as Hn. rewrite Hn.
    destruct fl; simpl; split; intro; try reflexivity; discriminate. }
  assert (Hkind : forall b, In b A ->
     flags (MEM_MAP sr (fst b)) = flags (MEM_MAP s (fst b)) /\
     order (MEM_MAP sr (fst b)) = order (MEM_MAP s (fst b)) /\
     slab_cache (MEM_MAP sr (fst b)) = slab_cache (MEM_MAP s (fst b))).
  { intros [q j] _. cbn [fst]. destruct (Z.eq_dec q pg) as [->|N]; auto.
    rewrite E6 by auto. auto. }
  split; [|split; [exact E3|split; [exact F5|split; congruence]]].
  constructor.
  - rewrite E2. split; assumption.
  - intros c' Hc'. destruct (Z.eq_dec c' c) as [->|N].
    + rewrite E10. simpl. apply (si_sizes _ _ _ Inv c Hc).
    + rewrite E9 by auto. apply (si_sizes _ _ _ Inv c' Hc').
  - unfold sr.
    destruct (reachable_slab_push s A pg obj Hr (ex_intro _ 0 HA) Hfl)
      as [Hr1 Hf1].
    apply (reachable_slab_reinsert _ A c pg Hr1 (ex_intro _ 0 HA) Hf1).
  - intros q o Hq Hfq. destruct (Z.eq_dec q pg) as [->|N].
    + assert (o = 0) by (apply (allocated_same_head s A pg o 0 Hr); auto).
      split; auto.
      exists c, (i :: fl). rewrite F3, F4, F5.
      split; [exact Hc|]. split; [exact Hsc|].
      split; [now constructor|].
      split; [intros j [<-|Hj]; auto|].
      split; [|split; [|split]].
      * rewrite E3. simpl. rewrite (slot_frame s sr) by auto.
        split; [reflexivity|]. split; [exact Hobjnz|].
        rewrite load_store_same by exact Hh.
        replace (map (slot sr pg c) fl) with (map (slot s pg c) fl)
          by (apply map_ext; intro; symmetry; now apply slot_frame).
        eapply fl_chain_ext; [|exact Hch].
        intros a x Ha Hx. apply in_map_iff in Ha.
        destruct Ha as (j & <- & Hj). apply store_ptr_out.
        assert (Nj : j <> i) by (intro; subst; contradiction).
        destruct (slot_apart s pg c j i Hc Nj); unfold obj; lia.
      * rewrite Hact. simpl length. lia.
      * intros j z [<-|Hj] HLj.
        -- apply drop_ptr_In in HLj. destruct HLj as [_ HLj].
           apply HLj. now apply slot_frame.
        -- apply drop_ptr_In in HLj. destruct HLj as [HLj _].
           rewrite (slot_frame s sr) in HLj by auto.
           now apply (Hfree j z).
      * intros j Hj Hnj. rewrite (slot_frame s sr) by auto.
        destruct (Hlive j Hj) as [z Hz].
        { intro Hin. apply Hnj. now right. }
        exists z. apply drop_ptr_In. split; auto.
        intro E. apply slot_inj in E; auto. subst j. apply Hnj. now left.
    + rewrite E6 in Hfq by auto.
      destruct (si_slab _ _ _ Inv q o Hq Hfq) as [-> Hok]. split; auto.
      apply (slab_page_ok_frame_page s sr Lv _ q); auto.
      * now rewrite E6.
      * intros x Hx. rewrite E3. apply store_ptr_out.
        destruct (pages_apart s q pg N); unfold obj; lia.
      * intros p z Hp. rewrite drop_ptr_In. split; [tauto|].
        intro HLp. split; auto.
        destruct (pages_apart s q pg N); unfold obj; lia.
  - intros p z HLp. apply drop_ptr_In in HLp. destruct HLp as [HLp _].
    apply (live_ok_frame_all s sr A A p z); auto.
    apply (si_live _ _ _ Inv _ _ HLp).
  - apply drop_ptr_NoDup. apply (si_nodup _ _ _ Inv).
  - intros c' Hc'. destruct (Z.eq_dec c' c) as [->|N].
    + destruct (si_partial _ _ _ Inv c Hc) as (pl & Hpl & Hiff).
      destruct (active_objects (MEM_MAP s pg) - 1 =? cap c - 1) eqn:Ef.
      * assert (Hfl0 : fl = []) by now apply Hfull.
        assert (Hh0 : h = 0) by now apply Hhnull.
        assert (Hnotin : ~ In pg pl).
        { intro Hin. apply Hiff in Hin. destruct Hin as (_ & _ & _ & Hn).
          now apply Hn. }
        exists (pg :: pl). split.
        -- unfold partial_list. rewrite E10. simpl. split; auto.
           unfold nexts at 2. rewrite E8.
           eapply chain_ext; [|exact Hpl].
           intros x Hx. unfold nexts. rewrite E6; auto.
           intro; subst; contradiction.
        -- intro q. destruct (Z.eq_dec q pg) as [->|Nq].
           ++ split; [intros _|intros _; now left].
              unfold servable. rewrite F1, F3, F4. auto.
           ++ unfold servable. rewrite E6 by auto.
              rewrite <- (Hiff q). simpl. split; [|auto].
              intros [E|H]; [congruence|exact H].
      * assert (Hfl0 : fl <> []).
        { intro E. apply Hfull in E. congruence. }
        assert (Hh0 : h <> 0) by (intro E; now apply Hhnull in E).
        apply (partial_inv_frame s sr A A c).
        -- eauto.
        -- rewrite E10. simpl. auto.
        -- intros q _. destruct (Z.eq_dec q pg) as [->|Nq]; auto.
           rewrite E6; auto.
        -- intro q. unfold servable.
           destruct (Z.eq_dec q pg) as [->|Nq].
           ++ rewrite F1, F3, F4. fold h. tauto.
           ++ rewrite E6 by auto. tauto.
    + apply (partial_inv_frame s sr A A c').
      * apply (si_partial _ _ _ Inv c' Hc').
      * now rewrite E9.
      * intros q (_ & _ & Hq & _). rewrite E6; auto.
        intro; subst. congruence.
      * intro q. unfold servable.
        destruct (Z.eq_dec q pg) as [->|Nq].
        -- rewrite F3, Hsc. split; intros (_ & _ & Hq & _); congruence.
        -- rewrite E6 by auto. tauto.
  - rewrite E5. apply (si_console _ _ _ Inv).
Qed.

(** ** Returning an empty page *)

Lemma release_slab_page_run fuel s c pg l s' :
  partial_list s c l ->
  release_slab_page fuel s c pg = Some s' ->
  exists s3,
    partial_list s3 c (remove Z.eq_dec pg l) /\
    unlink_frame s s3 (PartialHead c) l /\
    __free_pages fuel (upd_page s3 pg (fun p => with_flags p PG_buddy)) pg 0
      = Some s'.
Proof.
  intros Hl Hrel. unfold release_slab_page, partial_list in *.
  destruct (ptr_eqb (partial (slab_caches s c)) (Some pg)) eqn:E.
  - destruct (partial (slab_caches s c)) as [q|] eqn:Ep; [|discriminate].
    simpl in E. apply Z.eqb_eq in E. subst q.
    pose proof (chain_NoDup _ _ _ Hl) as Hnd.
    destruct l as [|q l']; simpl in Hl; [discriminate|].
    destruct Hl as [Hq Hl]. inversion Hq; subst q.
    inversion Hnd; subst.
    eexists. split; [|split; [|exact Hrel]].
    + simpl. destruct (Z.eq_dec pg pg) as [_|N]; [|congruence].
      rewrite remove_notin by auto. rewrite upd_same. simpl. exact Hl.
    + apply (store_pp_frame s (PartialHead c)).
  - destruct (unlink fuel s (PartialHead c) pg) as [s3|] eqn:Hu;
      [|discriminate].
    destruct (unlink_chain l (S (length l)) s (PartialHead c) pg)
      as (s3' & Hu' & Hc & Hfr); auto.
    { intros q Eq. discriminate. }
    assert (s3 = s3') by (eapply unlink_det; eauto). subst s3'.
    exists s3. auto.
Qed.

Lemma full_list_all (fl : list Z) n :
  NoDup fl -> (forall i, In i fl -> 0 <= i < Z.of_nat n) ->
  length fl = n -> forall i, 0 <= i < Z.of_nat n -> In i fl.
Proof.
  intros Hnd Hb Hlen i Hi.
  assert (Hincl : incl (upto n) fl).
  { apply NoDup_length_incl; auto.
    - rewrite upto_length. lia.
    - intros j Hj. apply upto_spec. auto. }
  apply Hincl. now apply upto_spec.
Qed.

Lemma slab_inv_release s A Lv c pg fuel s' :
  slab_inv s A Lv -> In (pg, 0) A ->
  flags (MEM_MAP s pg) = PG_slab ->
  slab_cache (MEM_MAP s pg) = Some c ->
  0 <= c < SLAB_INDEX_COUNT ->
  active_objects (MEM_MAP s pg) = 0 ->
  release_slab_page fuel s c pg = Some s' ->
  slab_inv s' (remove block_eq_dec (pg, 0) A) Lv /\
  arena s' = arena s /\
  ((forall b, In b A -> fst b <> pg -> used s Lv b) ->
   in_use s' (remove block_eq_dec (pg, 0) A) Lv).
Proof.
  intros Inv HA Hfl Hsc Hc Hact0 Hrel.
  pose proof (si_reach _ _ _ Inv) as Hr.
  destruct (reachable_inv s A Hr) as [L Binv].
  destruct (si_partial _ _ _ Inv c Hc) as (pl & Hpl & Hiff).
  destruct (release_slab_page_run fuel s c pg pl s' Hpl Hrel)
    as (s3 & Hpl3 & Hfr & Hfree).
  destruct Hfr as (G1 & G2 & G3 & G4 & G5 & G6 & G7 & G8).
  destruct (csize_facts c Hc) as (Z1 & Z2 & Z3).
  destruct (si_slab _ _ _ Inv pg 0 HA Hfl)
    as [_ (c0 & fl & Hc0 & Hsc0 & Hnd & Hb & Hch & Hact & Hfreeslots & _)].
  assert (c0 = c) by congruence. subst c0.
  assert (Hall : forall i, 0 <= i < cap c -> In i fl).
  { intros i Hi. apply (full_list_all fl (Z.to_nat (cap c))); auto; try lia.
    intros j Hj. specialize (Hb j Hj). lia. }
  assert (Hnolive : forall p z, In (p, z) Lv ->
            ~ (page_address s pg <= p
               < page_address s pg + PAGE_SIZE * 2 ^ 0)).
  { intros p z HL Hin. change (2 ^ 0) with 1 in Hin.
    rewrite Z.mul_1_r in Hin.
    destruct (si_live _ _ _ Inv _ _ HL)
      as [(g & o & Hg & Fg & _ & Eg & Hs)
         |(g & c' & i & Hg & Fg & Cg & Hc' & Hi & Eg & Hs)].
    - assert (Nb : (g, o) <> (pg, 0)).
      { intro E. injection E as E1 E2. subst g. rewrite Hfl in Fg.
        discriminate. }
      pose proof (allocated_aligned s A _ Hr Hg) as (Hoo & _).
      cbn [snd] in Hoo. pose proof (pow2_pos o ltac:(lia)) as Po.
      destruct (allocated_apart s A _ _ _ _ Hr Hg HA Nb) as [H|H];
        change (2 ^ 0) with 1 in H; change PAGE_SIZE with 4096 in *; lia.
    - destruct (Z.eq_dec g pg) as [->|N].
      + assert (c' = c) by congruence. subst c'.
        apply (Hfreeslots i z (Hall i Hi)). now rewrite <- Eg.
      + destruct (slot_range s g c' i Hc' Hi) as [R1 R2].
        destruct (csize_facts c' Hc') as (Y1 & _).
        destruct (pages_apart s g pg N); lia. }
  set (s4 := upd_page s3 pg (fun p => with_flags p PG_buddy)) in *.
  assert (Hmap4 : forall q, q <> pg ->
            with_next (MEM_MAP s4 q) None = with_next (MEM_MAP s q) None).
  { intros q N. unfold s4. simpl. rewrite upd_other by auto. apply G4. }
  assert (Hnext4 : forall q, ~ In q pl -> q <> pg ->
            MEM_MAP s4 q = MEM_MAP s q).
  { intros q Hq N. unfold s4. simpl. rewrite upd_other by auto.
    apply G5; auto. discriminate. }
  assert (Hflag4 : flags (MEM_MAP s4 pg) = PG_buddy).
  { unfold s4. simpl. now rewrite upd_same. }
  assert (Hserv4 : forall c' q, q <> pg ->
            (servable s4 A c' q <-> servable s A c' q)).
  { intros c' q N. unfold servable.
    destruct (frame_all _ _ (Hmap4 q N)) as (-> & _ & -> & -> & _).
    tauto. }
  assert (Hnot4 : forall c', ~ servable s4 A c' pg).
  { intros c' (_ & Hf & _). rewrite Hflag4 in Hf. discriminate. }
  assert (Inv4 : slab_inv s4 A Lv).
  { constructor.
    - unfold s4. simpl. rewrite G1. apply (si_base _ _ _ Inv).
    - intros c' Hc'. unfold s4. simpl. rewrite G8.
      apply (si_sizes _ _ _ Inv c' Hc').
    - apply (reach_owner s A); auto. split.
      + intro k. unfold s4. simpl. apply G6. discriminate.
      + intro q. destruct (Z.eq_dec q pg) as [->|N].
        * right. split; [eauto|]. now rewrite Hflag4.
        * destruct (in_dec Z.eq_dec q pl) as [Hin|Hnin].
          -- right. apply Hiff in Hin. destruct Hin as (Hq & Hfq & _).
             split; [eauto|].
             destruct (frame_all _ _ (Hmap4 q N)) as (-> & _).
             now rewrite Hfq.
          -- left. now apply Hnext4.
    - intros q o Hq Hfq. destruct (Z.eq_dec q pg) as [->|N].
      { rewrite Hflag4 in Hfq. discriminate. }
      destruct (frame_all _ _ (Hmap4 q N)) as (Ef & _).
      rewrite Ef in Hfq.
      destruct (si_slab _ _ _ Inv q o Hq Hfq) as [-> Hok]. split; auto.
      apply (slab_page_ok_frame_page s s4 Lv Lv q); auto;
        [|intros; reflexivity].
      intros x _. unfold s4. simpl. now rewrite G2.
    - intros p z HL. apply (live_ok_frame s s4 A A p z); auto.
      + intros [q o] Hq Hone. split; auto. cbn [fst].
        assert (N : q <> pg).
        { intro E. subst q.
          assert (o = 0) by (apply (allocated_same_head s A pg o 0 Hr); auto).
          subst o. apply (Hnolive p z HL).
          apply (live_ok_one s (pg, 0) p z Hone). simpl. lia. }
        destruct (frame_all _ _ (Hmap4 q N)) as (-> & -> & -> & _). auto.
      + apply (si_live _ _ _ Inv _ _ HL).
    - apply (si_nodup _ _ _ Inv).
    - intros c' Hc'. destruct (Z.eq_dec c' c) as [->|N].
      + exists (remove Z.eq_dec pg pl). split.
        * unfold partial_list in *. unfold s4. simpl.
          eapply chain_ext; [|exact Hpl3].
          intros x _. unfold nexts. simpl. unfold upd.
          destruct (x =? pg) eqn:Ex; [|reflexivity].
          apply Z.eqb_eq in Ex. subst x. reflexivity.
        * intro q. destruct (Z.eq_dec q pg) as [->|Nq].
          -- split; [intro Hin; apply in_remove in Hin; tauto|].
             intro Hs. now apply Hnot4 in Hs.
          -- rewrite (Hserv4 c q Nq), <- (Hiff q). split.
             ++ intro Hin. apply in_remove in Hin. tauto.
             ++ intro Hin. now apply in_in_remove.
      + apply (partial_inv_frame s s4 A A c').
        * apply (si_partial _ _ _ Inv c' Hc').
        * unfold s4. simpl. rewrite G7; auto. congruence.
        * intros q (Hq & Hfq & Hcq & _).
          assert (Nq : q <> pg) by (intro; subst; congruence).
          rewrite Hnext4; auto.
          intro Hin. apply Hiff in Hin. destruct Hin as (_ & _ & Hcq' & _).
          congruence.
        * intro q. destruct (Z.eq_dec q pg) as [->|Nq]; [|now apply Hserv4].
          split; [intro Hs; now apply Hnot4 in Hs|].
          intros (_ & _ & Hcq & _). congruence.
    - unfold s4. simpl. rewrite G3. apply (si_console _ _ _ Inv). }
  destruct (slab_inv_free_block s4 A Lv Lv fuel pg 0 s' Inv4 HA) as [I5 Ea];
    auto.
  - rewrite Hflag4. discriminate.
  - apply (si_nodup _ _ _ Inv).
  - intros p z HL. unfold page_address, s4. simpl. rewrite G1.
    apply (Hnolive p z HL).
  - split; auto. split.
    + rewrite Ea. unfold s4. simpl. exact G2.
    + intros Hused.
      apply (in_use_free_block s4 A Lv fuel pg 0 s' (si_reach _ _ _ Inv4) HA
               Hfree).
      intros [q o] Hq Nq.
      assert (N : q <> pg).
      { intro E. subst q. apply Nq. f_equal.
        apply (allocated_same_head s A pg o 0 Hr); auto. }
      apply (used_frame s s4 Lv Lv (q, o));
        [unfold s4; simpl; exact G1| |auto|apply (Hused _ Hq N)].
      cbn [fst].
      destruct (frame_all _ _ (Hmap4 q N)) as (-> & -> & _ & _ & ->). auto.
Qed.

(** ** [kfree] and [kmalloc] keep the invariant *)

Lemma live_block_unique s A b p z :
  reachable s A -> live_ok s A p z -> In b A ->
  page_address s (fst b) <= p < page_address s (fst b) + PAGE_SIZE * 2 ^ snd b ->
  live_ok s [b] p z.
Proof.
  intros Hr Hl Hb Hin. destruct b as [g j]. cbn [fst snd] in *.
  destruct Hl as [(pg & o & HA & Hf & Ho & E & Hs)
                 |(pg & c & i & HA & Hf & Hc & Hc' & Hi & E & Hs)].
  - destruct (block_eq_dec (pg, o) (g, j)) as [Eb|Nb].
    + left. exists pg, o. rewrite Eb. repeat split; auto; try lia. now left.
    + exfalso.
      pose proof (allocated_aligned s A _ Hr HA) as (Hoo & _).
      cbn [snd] in Hoo. pose proof (pow2_pos o ltac:(lia)) as Po.
      destruct (allocated_apart s A _ _ _ _ Hr HA Hb Nb) as [H|H];
        change PAGE_SIZE with 4096 in *; lia.
  - destruct (block_eq_dec (pg, 0) (g, j)) as [Eb|Nb].
    + right. exists pg, c, i. rewrite Eb. repeat split; auto; try lia.
      now left.
    + exfalso.
      destruct (slot_range s pg c i Hc' Hi) as [R1 R2].
      destruct (csize_facts c Hc') as (Y1 & _).
      destruct (allocated_apart s A _ _ _ _ Hr HA Hb Nb) as [H|H];
        change (2 ^ 0) with 1 in H; change PAGE_SIZE with 4096 in *; lia.
Qed.

Lemma used_drop s Lv b ptr :
  used s Lv b ->
  (flags (MEM_MAP s (fst b)) = PG_buddy -> page_address s (fst b) <> ptr) ->
  used s (drop_ptr ptr Lv) b.
Proof.
  intros [H|(Hf & Ho & z & Hz)] Hn; [now left|right].
  split; auto. split; auto. exists z. apply drop_ptr_In. auto.
Qed.

Lemma slab_inv_kfree s A Lv fuel ptr size s' :
  slab_inv s A Lv -> In (ptr, size) Lv ->
  kfree fuel s ptr = Some s' ->
  (exists A', slab_inv s' A' (drop_ptr ptr Lv) /\
              (in_use s A Lv -> in_use s' A' (drop_ptr ptr Lv))) /\
  (forall x, x < ptr \/ ptr + 8 <= x -> arena s' x = arena s x).
Proof.
  intros Inv HL Hk.
  pose proof (si_reach _ _ _ Inv) as Hr.
  destruct (si_base _ _ _ Inv) as [Hb0 Hb1].
  destruct (si_live _ _ _ Inv _ _ HL)
    as [(pg & o & HA & Hf & Ho & E & Hs)
       |(pg & c & i & HA & Hf & Hsc & Hc & Hi & E & Hs)].
  - pose proof (allocated_aligned s A _ Hr HA) as Hal.
    destruct (aligned_bytes s pg o Hal) as (Hpgr & Hlo & Hhi).
    destruct Hal as (Hoo & _). cbn [snd] in Hoo.
    unfold kfree in Hk.
    replace (ptr =? 0) with false in Hk by (symmetry; apply Z.eqb_neq; lia).
    assert (Ev : virt_to_page s ptr = Some pg).
    { rewrite E. replace (page_address s pg) with (page_address s pg + 0)
        by lia. apply page_of_address; auto. change PAGE_SIZE with 4096. lia. }
    rewrite Ev, Hf, Ho in Hk. cbn in Hk.
    destruct (slab_inv_free_block s A Lv (drop_ptr ptr Lv) fuel pg o s' Inv HA)
      as [I' Ea]; auto.
    + rewrite Hf. discriminate.
    + intros p z Hp. apply drop_ptr_In in Hp. tauto.
    + intros p z Hp Hnin. apply drop_ptr_In. split; auto.
      intro Ep. apply Hnin. rewrite Ep, E.
      pose proof (pow2_pos o ltac:(lia)) as Po.
      change PAGE_SIZE with 4096. lia.
    + apply drop_ptr_NoDup. apply (si_nodup _ _ _ Inv).
    + intros p z Hp Hin. apply drop_ptr_In in Hp. destruct Hp as [Hp Np].
      pose proof (live_block_unique s A (pg, o) p z Hr
                    (si_live _ _ _ Inv _ _ Hp) HA Hin) as Hone.
      destruct Hone as [(g & j & [Eg|[]] & _ & _ & Ep & _)
                       |(g & c & i & [Eg|[]] & Fg & _)].
      * injection Eg as <- <-. congruence.
      * injection Eg as <- _. rewrite Hf in Fg. discriminate.
    + split; [|intros x _; now rewrite Ea].
      exists (remove block_eq_dec (pg, o) A). split; [exact I'|].
      intro Huse.
      apply (in_use_free_block s A _ fuel pg o s' Hr HA Hk).
      intros [g j] Hb Nb. apply used_drop; [now apply Huse|].
      cbn [fst]. intros Fg Eaddr.
      destruct (Huse _ Hb) as [(F & _)|(_ & Og & _)]; cbn [fst snd] in *.
      { rewrite F in Fg. discriminate. }
      apply Nb.
      assert (g = pg).
      { rewrite E in Eaddr. rewrite !page_address_eq in Eaddr.
        change PAGE_SIZE with 4096 in Eaddr. lia. }
      subst g. f_equal. congruence.
  - pose proof (allocated_aligned s A _ Hr HA) as Hal.
    destruct (aligned_bytes s pg 0 Hal) as (Hpgr & Hlo & Hhi).
    destruct (slot_range s pg c i Hc Hi) as [R1 R2].
    unfold kfree in Hk.
    replace (ptr =? 0) with false in Hk by (symmetry; apply Z.eqb_neq; lia).
    assert (Ev : virt_to_page s ptr = Some pg).
    { rewrite E. now apply slot_page. }
    rewrite Ev, Hf in Hk. cbn [Z.land PG_slab Pos.land Z.eqb negb] in Hk.
    rewrite (kmem_cache_free_unfold fuel s ptr pg c Ev Hf Hsc) in Hk.
    rewrite E in HL.
    destruct (slab_inv_slab_free s A Lv pg c i size Inv HL HA Hf Hsc Hc Hi)
      as (I1 & Ea & Eact & Ef1 & Ec1). cbv zeta in *.
    rewrite <- E in *.
    set (sr := slab_reinsert (slab_push s pg ptr) c pg) in *.
    assert (Hoth : in_use s A Lv ->
              forall b, In b A -> fst b <> pg -> used sr (drop_ptr ptr Lv) b).
    { intros Huse [g j] Hb N. cbn [fst] in N.
      destruct (slab_free_shape s pg c ptr) as (S1 & _ & _ & _ & S5 & _).
      cbv zeta in S1, S5.
      apply (used_frame s sr (drop_ptr ptr Lv) (drop_ptr ptr Lv) (g, j));
        auto.
      - cbn [fst]. unfold sr. rewrite (S5 g N). auto.
      - apply used_drop; [now apply Huse|]. cbn [fst]. intros _.
        rewrite page_address_eq in *. change PAGE_SIZE with 4096 in *.
        destruct (csize_facts c Hc) as (Y1 & _). lia. }
    destruct (active_objects (MEM_MAP s pg) - 1 =? 0) eqn:E0.
    + apply Z.eqb_eq in E0.
      destruct (slab_inv_release sr A (drop_ptr ptr Lv) c pg fuel s' I1 HA)
        as (I2 & Ea2 & HU); auto; try congruence.
      split; [eauto|]. intros x Hx. rewrite Ea2, Ea.
      now apply store_ptr_out.
    + apply Z.eqb_neq in E0. inversion Hk; subst s'.
      split; [|intros x Hx; rewrite Ea; now apply store_ptr_out].
      exists A. split; auto. intros Huse [g j] Hb.
      destruct (Z.eq_dec g pg) as [->|N]; [|now apply Hoth].
      left. cbn [fst]. split; auto. rewrite Eact. exact E0.
Qed.

Lemma order_search_bound size : forall n z o,
  0 <= z -> order_search n z size = Some o ->
  z <= o /\ size <= PAGE_SIZE * 2 ^ o.
Proof.
  induction n as [|n IH]; intros z o Hz H; simpl in H; [discriminate|].
  destruct (Z.shiftl PAGE_SIZE z mod WORD <? size) eqn:E.
  - apply IH in H; lia.
  - inversion H; subst z. split; [lia|].
    apply Z.ltb_ge in E. rewrite Z.shiftl_mul_pow2 in E by auto.
    pose proof (pow2_pos o Hz).
    assert (PAGE_SIZE * 2 ^ o mod WORD <= PAGE_SIZE * 2 ^ o).
    { apply Z.mod_le; [change PAGE_SIZE with 4096; lia|unfold WORD; lia]. }
    lia.
Qed.

Lemma slab_inv_kmalloc s A Lv size s' ptr :
  slab_inv s A Lv -> 0 <= size < WORD ->
  kmalloc s size = Some (s', ptr) ->
  (exists A', slab_inv s' A' (if ptr =? 0 then Lv else (ptr, size) :: Lv) /\
     (in_use s A Lv ->
      in_use s' A' (if ptr =? 0 then Lv else (ptr, size) :: Lv))) /\
  (forall p z x, In (p, z) Lv -> p <= x < p + z -> arena s' x = arena s x).
Proof.
  intros Inv Hsz Hk. unfold kmalloc in Hk.
  destruct (size_class slab_sizes 0 size) as [c|] eqn:Ec.
  - apply size_class_spec in Ec. destruct Ec as (Hc & Hle & _).
    simpl length in Hc. rewrite Z.sub_0_r in Hle. fold (csize c) in Hle.
    assert (Hc' : 0 <= c < SLAB_INDEX_COUNT) by (unfold SLAB_INDEX_COUNT; lia).
    destruct (slab_inv_kmem_cache_alloc s A Lv c size Inv Hc' ltac:(lia))
      as [(E1 & E2 & _)|(Hnz & (A' & I1 & _ & HU) & Har)]; cbv zeta in *;
      inversion Hk as [Hk']; rewrite Hk' in *; cbn [fst snd] in *.
    + subst. simpl. split; eauto.
    + apply Z.eqb_neq in Hnz. rewrite Hnz. split; eauto.
  - destruct (order_search 64 0 size) as [o|] eqn:Eo; [|discriminate].
    destruct (order_search_bound size 64 0 o ltac:(lia) Eo) as [Ho Hfit].
    destruct (alloc_pages_frame s o) as (_ & _ & _ & _ & Ff).
    pose proof (slab_inv_alloc_large s A Lv o) as Hlarge.
    pose proof (in_use_alloc_large s A Lv o) as Hlu.
    pose proof (si_reach _ _ _ Inv) as Hr.
    pose proof (reach_alloc s A o) as Hra.
    destruct (alloc_pages s o) as [t [pg|]] eqn:Ea; cbn [fst snd] in *;
      inversion Hk; subst s' ptr.
    + destruct (Hlarge pg size Inv Ho eq_refl ltac:(lia)) as [I1 Ear].
      cbv zeta in *.
      pose proof (allocated_aligned t _ (pg, o) (Hra pg Hr Ho eq_refl)
                    (or_introl eq_refl)) as Hal.
      destruct (aligned_bytes t pg o Hal) as (_ & Hlo & _).
      destruct (si_base _ _ _ I1) as [Hb0 _].
      replace (page_address t pg =? 0) with false
        by (symmetry; apply Z.eqb_neq; lia).
      split; [|intros p z x _ _; now rewrite Ear].
      exists ((pg, o) :: A). split; auto.
    + rewrite (Ff eq_refl). simpl. split; eauto.
Qed.

(** Valid use of the wrapper keeps the invariant of the two layers. *)
Lemma valid_run_inv s Lv :
  valid_run s Lv -> exists A, slab_inv s A Lv /\ in_use s A Lv.
Proof.
  induction 1 as [base m0 Hb Hw|s Lv size s' ptr _ (A & IH & IU) Hsz Hk
                 |s Lv fuel ptr size s' _ (A & IH & IU) HL Hk
                 |s Lv fuel s' _ (A & IH & IU) Hk
                 |s Lv ptr size x v _ (A & IH & IU) HL Hx].
  - exists []. split; [now apply slab_inv_init|]. intros b [].
  - destruct (slab_inv_kmalloc s A Lv size s' ptr IH Hsz Hk)
      as [(A' & I' & U') _]. eauto.
  - destruct (slab_inv_kfree s A Lv fuel ptr size s' IH HL Hk)
      as [(A' & I' & U') _]. eauto.
  - unfold kfree in Hk. simpl in Hk. inversion Hk; subst. eauto.
  - exists A. split; [now apply (slab_inv_write s A Lv ptr size x v)|].
    intros b Hb. apply (used_frame s _ Lv Lv b); auto.
Qed.

(** ** Termination of [kfree] on an object handed out *)

Lemma lists_terminate_mono fuel fuel' s :
  (fuel <= fuel')%nat -> lists_terminate fuel s -> lists_terminate fuel' s.
Proof.
  intros Hle HT k Hk. destruct (HT k Hk) as (l & Hl & Hlen).
  exists l. split; auto. lia.
Qed.

Lemma free_pages_returns fuel s pg o :
  0 <= o -> lists_terminate fuel s ->
  exists s', __free_pages fuel s pg o = Some s'.
Proof.
  intros Ho HT.
  destruct (coalesce_loop_spec (Z.to_nat (MAX_ORDER - 1 - o)) fuel s pg o
              eq_refl Ho HT) as (s1 & pf & od & Hl & _).
  unfold __free_pages. rewrite Hl. eauto.
Qed.

Lemma kfree_returns s A Lv ptr size :
  slab_inv s A Lv -> In (ptr, size) Lv ->
  exists fuel s', kfree fuel s ptr = Some s'.
Proof.
  intros Inv HL.
  pose proof (si_reach _ _ _ Inv) as Hr.
  destruct (si_base _ _ _ Inv) as [Hb0 Hb1].
  destruct (si_live _ _ _ Inv _ _ HL)
    as [(pg & o & HA & Hf & Ho & E & Hs)
       |(pg & c & i & HA & Hf & Hsc & Hc & Hi & E & Hs)].
  - pose proof (allocated_aligned s A _ Hr HA) as Hal.
    destruct (aligned_bytes s pg o Hal) as (Hpgr & Hlo & Hhi).
    destruct Hal as (Hoo & _). cbn [snd] in Hoo.
    destruct (reachable_free_terminates s A pg o Hr HA) as (fuel & s' & Hfree).
    exists fuel, s'. unfold kfree.
    replace (ptr =? 0) with false by (symmetry; apply Z.eqb_neq; lia).
    assert (Ev : virt_to_page s ptr = Some pg).
    { rewrite E. replace (page_address s pg) with (page_address s pg + 0)
        by lia. apply page_of_address; auto. change PAGE_SIZE with 4096. lia. }
    rewrite Ev, Hf, Ho. exact Hfree.
  - pose proof (allocated_aligned s A _ Hr HA) as Hal.
    destruct (aligned_bytes s pg 0 Hal) as (Hpgr & Hlo & Hhi).
    destruct (slot_range s pg c i Hc Hi) as [R1 R2].
    assert (Ev : virt_to_page s ptr = Some pg).
    { rewrite E. now apply slot_page. }
    assert (Hunf : forall fuel, kfree fuel s ptr = kmem_cache_free fuel s ptr).
    { intro fuel. unfold kfree.
      replace (ptr =? 0) with false by (symmetry; apply Z.eqb_neq; lia).
      rewrite Ev, Hf. reflexivity. }
    rewrite E in HL.
    destruct (slab_inv_slab_free s A Lv pg c i size Inv HL HA Hf Hsc Hc Hi)
      as (I1 & _). cbv zeta in *. rewrite <- E in *.
    set (sr := slab_reinsert (slab_push s pg ptr) c pg) in *.
    destruct (active_objects (MEM_MAP s pg) - 1 =? 0) eqn:E0.
    2:{ exists O, sr. rewrite Hunf.
        rewrite (kmem_cache_free_unfold O s ptr pg c Ev Hf Hsc), E0.
        reflexivity. }
    pose proof (si_reach _ _ _ I1) as Hr1.
    destruct (reachable_inv sr A Hr1) as [L Binv].
    destruct (inv_lists_terminate _ _ _ _ Binv) as [fuel0 HT0].
    destruct (si_partial _ _ _ I1 c Hc) as (pl & Hpl & Hiff).
    set (fuel := Nat.max fuel0 (S (length pl))).
    destruct (release_slab_page_spec fuel sr c pg pl Hpl ltac:(lia))
      as (s3 & Hpl3 & Hfr & Hrel).
    destruct Hfr as (G1 & G2 & G3 & G4 & G5 & G6 & G7 & G8).
    set (s4 := upd_page s3 pg (fun p => with_flags p PG_buddy)) in *.
    assert (HT4 : lists_terminate fuel s4).
    { intros k Hk. exists (L k). split.
      - unfold free_list. unfold s4. simpl. rewrite G6 by discriminate.
        eapply chain_ext; [|apply (inv_chain _ _ _ _ Binv k Hk)].
        intros x Hx. unfold nexts. simpl.
        assert (Nx : forall j, ~ In (x, j) A).
        { intros j Hj. now apply (alloc_not_free _ _ _ _ Binv x j k Hj Hk). }
        rewrite upd_other by (intro; subst; now apply (Nx 0)).
        rewrite G5; auto; [|discriminate].
        intro Hin. apply Hiff in Hin. destruct Hin as (Hx' & _).
        now apply (Nx 0).
      - destruct (HT0 k Hk) as (l & Hl & Hlen).
        assert (l = L k).
        { eapply chain_unique; [exact Hl|].
          apply (inv_chain _ _ _ _ Binv k Hk). }
        subst l. lia. }
    destruct (free_pages_returns fuel s4 pg 0 ltac:(lia) HT4) as [s' Hs'].
    exists fuel, s'. rewrite Hunf.
    rewrite (kmem_cache_free_unfold fuel s ptr pg c Ev Hf Hsc), E0.
    fold sr. rewrite Hrel. exact Hs'.
Qed.

(** ** [kmalloc] and [kfree] leave the base address alone *)

Lemma kmem_cache_alloc_base s c :
  PHYS_MEM_START (fst (kmem_cache_alloc s c)) = PHYS_MEM_START s.
Proof.
  assert (H : forall t, PHYS_MEM_START (fst (alloc_from_partial t c))
                        = PHYS_MEM_START t).
  { intro t. unfold alloc_from_partial.
    destruct (partial (slab_caches t c)) as [pg|]; [|reflexivity].
    destruct (freelist (MEM_MAP t pg) =? 0); [reflexivity|].
    cbv zeta. cbn [fst].
    destruct (freelist (MEM_MAP _ pg) =? 0); reflexivity. }
  unfold kmem_cache_alloc.
  destruct (partial (slab_caches s c)); [apply H|].
  destruct (cache_grow_result s c) as [Gf Gs].
  destruct (snd (alloc_pages s 0)) as [pg|] eqn:Ea.
  - destruct (Gs pg eq_refl) as [G1 _].
    destruct (cache_grow_shape s c pg Ea) as (E1 & _). cbv zeta in E1.
    destruct (cache_grow s c) as [t ok]. cbn [fst snd] in *. subst ok.
    cbn [Z.eqb]. now rewrite H.
  - rewrite (Gf eq_refl). reflexivity.
Qed.

Lemma kmalloc_base s size s' ptr :
  kmalloc s size = Some (s', ptr) -> PHYS_MEM_START s' = PHYS_MEM_START s.
Proof.
  unfold kmalloc. intro H.
  destruct (size_class slab_sizes 0 size) as [c|].
  - inversion H as [E]. pose proof (kmem_cache_alloc_base s c) as B.
    rewrite E in B. exact B.
  - destruct (order_search 64 0 size) as [o|]; [|discriminate].
    destruct (alloc_pages_frame s o) as (_ & _ & _ & Fp & _).
    destruct (alloc_pages s o) as [t [pg|]]; inversion H; subst; exact Fp.
Qed.

(** ** A run to try the properties on *)

Lemma kmalloc_defined s size :
  0 < size <= 2 ^ 63 -> kmalloc s size = Some (do_kmalloc s size).
Proof.
  intros Hsz. unfold do_kmalloc.
  destruct (kmalloc_routes s size Hsz) as (H1 & H2 & _).
  destruct (size_class slab_sizes 0 size) as [i|] eqn:E.
  - destruct (H1 i eq_refl) as [_ ->]. reflexivity.
  - destruct (H2 eq_refl) as (_ & o & _ & -> & _). reflexivity.
Qed.

Lemma run_do_kmalloc s Lv size :
  valid_run s Lv -> 0 < size <= 2 ^ 63 ->
  valid_run (fst (do_kmalloc s size))
    (if snd (do_kmalloc s size) =? 0 then Lv
     else (snd (do_kmalloc s size), size) :: Lv).
Proof.
  intros Hv Hsz. pose proof (kmalloc_defined s size Hsz) as E.
  destruct (do_kmalloc s size) as [s' ptr]. cbn [fst snd].
  apply (run_kmalloc s Lv size s' ptr Hv); auto.
  change (2 ^ 63) with 9223372036854775808 in Hsz. unfold WORD.
  change (2 ^ 64) with 18446744073709551616. lia.
Qed.

Lemma busy_state_run : valid_run busy_state busy_table.
Proof.
  assert (H0 : valid_run fresh_state []).
  { apply run_init; [lia|unfold MEM_SIZE, WORD; lia]. }
  pose proof (run_do_kmalloc fresh_state [] 100 H0 ltac:(lia)) as H1.
  replace (snd (do_kmalloc fresh_state 100)) with 65536 in H1
    by (vm_compute; reflexivity).
  cbn [Z.eqb] in H1.
  pose proof (run_do_kmalloc _ _ 8192 H1 ltac:(lia)) as H2.
  replace (snd (do_kmalloc (fst (do_kmalloc fresh_state 100)) 8192))
    with 73728 in H2 by (vm_compute; reflexivity).
  exact H2.
Qed.

(** ** Valid use of [kmalloc] and [kfree] *)

Lemma live_ok_full s A ptr size :
  reachable s A -> live_ok s A ptr size ->
  exists full, 8 <= full /\ live_ok s A ptr full.
Proof.
  intros Hr [(pg & o & HA & Hf & Ho & E & Hs)
            |(pg & c & i & HA & Hf & Hc & Hc' & Hi & E & Hs)].
  - exists (PAGE_SIZE * 2 ^ o).
    pose proof (allocated_aligned s A _ Hr HA) as (Hoo & _).
    cbn [snd] in Hoo.
    pose proof (pow2_pos o ltac:(lia)). change PAGE_SIZE with 4096 in *.
    split; [lia|]. left. exists pg, o.
    repeat split; auto; change PAGE_SIZE with 4096; lia.
  - exists (csize c). destruct (csize_facts c Hc') as (H1 & _).
    split; [lia|]. right. exists pg, c, i. repeat split; auto; lia.
Qed.

(** X12. What [kmalloc] returns under valid use is fresh memory: a
    non-NULL result is the start of [size] bytes that lie inside the arena
    and share no byte with an object the caller still holds, and it is not
    the address of such an object. *)
Theorem kmalloc_returns_fresh_memory s Lv size s' ptr :
  valid_run s Lv -> 0 <= size < WORD ->
  kmalloc s size = Some (s', ptr) -> ptr <> 0 ->
  PHYS_MEM_START s <= ptr /\ ptr + size <= PHYS_MEM_START s + MEM_SIZE /\
  forall q z, In (q, z) Lv -> q <> ptr /\ (ptr + size <= q \/ q + z <= ptr).
Proof.
  intros Hv Hsz Hk Hnz.
  destruct (valid_run_inv s Lv Hv) as (A & Inv & Huse).
  destruct (slab_inv_kmalloc s A Lv size s' ptr Inv Hsz Hk)
    as [(A' & I' & _) _].
  apply Z.eqb_neq in Hnz. rewrite Hnz in I'.
  pose proof (si_reach _ _ _ I') as Hr'.
  pose proof (si_live _ _ _ I' ptr size (or_introl eq_refl)) as Hlive.
  rewrite <- (kmalloc_base s size s' ptr Hk).
  destruct (live_in_block s' A' ptr size Hr' Hlive)
    as (pg & o & HA & _ & Hrange & Hend).
  destruct (aligned_bytes s' pg o (allocated_aligned s' A' _ Hr' HA))
    as (_ & Hlo & Hhi).
  split; [lia|]. split; [lia|].
  intros q z HL.
  assert (Nq : q <> ptr).
  { pose proof (si_nodup _ _ _ I') as Hnd. simpl in Hnd.
    inversion Hnd as [|? ? Hnot _]. intro E. subst q. apply Hnot.
    apply in_map_iff. exists (ptr, z). auto. }
  split; auto.
  apply (live_apart s' A' ptr size q z Hr'); auto.
  apply (si_live _ _ _ I'). now right.
Qed.

Lemma kmalloc_returns_fresh_memory_witness :
  PHYS_MEM_START busy_state <= 69632 /\
  69632 + 300 <= PHYS_MEM_START busy_state + MEM_SIZE /\
  forall q z, In (q, z) busy_table ->
    q <> 69632 /\ (69632 + 300 <= q \/ q + z <= 69632).
Proof.
  pose proof (kmalloc_returns_fresh_memory busy_state busy_table 300
                (fst (do_kmalloc busy_state 300))
                (snd (do_kmalloc busy_state 300))) as H.
  replace (snd (do_kmalloc busy_state 300)) with 69632 in H
    by (vm_compute; reflexivity).
  apply H.
  - exact busy_state_run.
  - unfold WORD. lia.
  - replace 69632 with (snd (do_kmalloc busy_state 300))
      by (vm_compute; reflexivity).
    rewrite <- surjective_pairing. apply kmalloc_defined. lia.
  - lia.
Defined.

(** X13. Valid use of the wrapper keeps the free lists of the buddy system
    sound: in every state it reaches, each page on the free list of order
    [o] is marked [PG_free] with order [o], and no page is on a free list
    together with its buddy. *)
Theorem valid_use_keeps_free_lists_sound s Lv :
  valid_run s Lv ->
  (forall o p, 0 <= o < MAX_ORDER -> in_free_list s o p ->
     flags (MEM_MAP s p) = PG_free /\ order (MEM_MAP s p) = o) /\
  no_buddy_pair s.
Proof.
  intros Hv. destruct (valid_run_inv s Lv Hv) as (A & Inv & Huse).
  pose proof (si_reach _ _ _ Inv) as Hr.
  destruct (reachable_inv s A Hr) as [L Binv].
  split.
  - intros o p Ho Hin. apply (inv_free _ _ _ _ Binv o p Ho).
    now apply (inv_in_free_list s A L [] o p Binv Ho).
  - apply (reachable_no_buddy_pair s A Hr).
Qed.

Lemma valid_use_keeps_free_lists_sound_witness :
  (forall o p, 0 <= o < MAX_ORDER -> in_free_list busy_state o p ->
     flags (MEM_MAP busy_state p) = PG_free /\
     order (MEM_MAP busy_state p) = o) /\
  no_buddy_pair busy_state.
Proof.
  apply (valid_use_keeps_free_lists_sound busy_state busy_table).
  exact busy_state_run.
Defined.

(** X14. Under valid use [kfree] of an object the caller holds returns:
    its scans end, it prints nothing, and the state it leaves is again one
    of valid use, with the object taken out of the caller's table. *)
Theorem kfree_of_held_object_returns s Lv ptr size :
  valid_run s Lv -> In (ptr, size) Lv ->
  exists fuel s',
    kfree fuel s ptr = Some s' /\ console s' = console s /\
    valid_run s' (drop_ptr ptr Lv).
Proof.
  intros Hv HL. destruct (valid_run_inv s Lv Hv) as (A & Inv & Huse).
  destruct (kfree_returns s A Lv ptr size Inv HL) as (fuel & s' & Hk).
  exists fuel, s'. split; auto.
  destruct (slab_inv_kfree s A Lv fuel ptr size s' Inv HL Hk)
    as [(A' & I' & _) _].
  split.
  - rewrite (si_console _ _ _ I'), (si_console _ _ _ Inv). reflexivity.
  - now apply (run_kfree s Lv fuel ptr size s').
Qed.

Lemma kfree_of_held_object_returns_witness :
  exists fuel s',
    kfree fuel busy_state 65536 = Some s' /\
    console s' = console busy_state /\
    valid_run s' (drop_ptr 65536 busy_table).
Proof.
  apply (kfree_of_held_object_returns busy_state busy_table 65536 100).
  - exact busy_state_run.
  - right. now left.
Defined.

(** X15. Valid use never makes the allocator report an error: in every
    state it reaches the console holds the two start-up messages and
    nothing else, so that no invalid address, no double free and no
    partial page without a free slot was met. *)
Theorem valid_use_prints_no_error s Lv :
  valid_run s Lv ->
  console s = [BuddyInitMsg total_pages; SlabInitMsg].
Proof.
  intros Hv. destruct (valid_run_inv s Lv Hv) as (A & Inv & Huse).
  apply (si_console _ _ _ Inv).
Qed.

Lemma valid_use_prints_no_error_witness :
  console busy_state = [BuddyInitMsg total_pages; SlabInitMsg].
Proof.
  apply (valid_use_prints_no_error busy_state busy_table).
  exact busy_state_run.
Defined.

(** X16. The allocator never writes into an object the caller holds: under
    valid use a byte of such an object keeps its value over any [kmalloc]
    and over the [kfree] of any other object the caller holds. *)
Theorem held_data_is_preserved s Lv q z x :
  valid_run s Lv -> In (q, z) Lv -> q <= x < q + z ->
  (forall size s' ptr, 0 <= size < WORD ->
     kmalloc s size = Some (s', ptr) -> arena s' x = arena s x) /\
  (forall fuel ptr size s', In (ptr, size) Lv -> ptr <> q ->
     kfree fuel s ptr = Some s' -> arena s' x = arena s x).
Proof.
  intros Hv HL Hx. destruct (valid_run_inv s Lv Hv) as (A & Inv & Huse).
  split.
  - intros size s' ptr Hsz Hk.
    destruct (slab_inv_kmalloc s A Lv size s' ptr Inv Hsz Hk) as [_ Har].
    now apply (Har q z x).
  - intros fuel ptr size s' HLp Np Hk.
    destruct (slab_inv_kfree s A Lv fuel ptr size s' Inv HLp Hk) as [_ Har].
    apply Har.
    destruct (live_ok_full s A ptr size (si_reach _ _ _ Inv)
                (si_live _ _ _ Inv _ _ HLp))
      as (full & Hfull & Hlive).
    destruct (live_apart s A ptr full q z (si_reach _ _ _ Inv) Hlive
                (si_live _ _ _ Inv _ _ HL) Np); lia.
Qed.

Lemma held_data_is_preserved_witness :
  (forall size s' ptr, 0 <= size < WORD ->
     kmalloc busy_state size = Some (s', ptr) ->
     arena s' 65540 = arena busy_state 65540) /\
  (forall fuel ptr size s', In (ptr, size) busy_table -> ptr <> 65536 ->
     kfree fuel busy_state ptr = Some s' ->
     arena s' 65540 = arena busy_state 65540).
Proof.
  apply (held_data_is_preserved busy_state busy_table 65536 100 65540).
  - exact busy_state_run.
  - right. now left.
  - lia.
Defined.

(** ** No page is lost *)

(** With nothing handed out the free lists hold one block, the whole
    arena: any other free block would have a free buddy of its order. *)
Lemma all_free_one_block s L :
  buddy_inv s [] L [] ->
  (forall k, 0 <= k < MAX_ORDER - 1 -> L k = []) /\ L (MAX_ORDER - 1) = [0].
Proof.
  intros Inv. pose proof (inv_part _ _ _ _ Inv) as Hpart.
  assert (Hlow : forall n k, 0 <= k < Z.of_nat n -> k < MAX_ORDER - 1 ->
            L k = []).
  { induction n as [|n IH]; intros k Hk Hk'; [lia|].
    destruct (Z.eq_dec k (Z.of_nat n)) as [E|N]; [|apply IH; lia].
    destruct (L k) as [|p l] eqn:El; auto. exfalso.
    assert (Hin : In p (L k)) by (rewrite El; now left).
    assert (Hb : is_block [] L [] (p, k)).
    { right. right. cbn [fst snd]. split; auto. unfold MAX_ORDER in *. lia. }
    destruct (buddy_is_head _ p k Hpart Hb Hk')
      as (m' & [[]|[[]|(_ & Hm)]] & Hm').
    cbn [fst snd] in Hm.
    destruct (Z.eq_dec m' k) as [->|Nm].
    - apply (inv_nopair _ _ _ _ Inv k p); auto. lia.
    - rewrite (IH m') in Hm by lia. destruct Hm. }
  assert (Hlow' : forall k, 0 <= k < MAX_ORDER - 1 -> L k = []).
  { intros k Hk. apply (Hlow (Z.to_nat (k + 1))); lia. }
  split; auto.
  destruct Hpart as (Hal & _ & Hcov).
  assert (Htop : forall q, In q (L (MAX_ORDER - 1)) -> q = 0).
  { intros q Hq.
    assert (Hb : is_block [] L [] (q, MAX_ORDER - 1)).
    { right. right. cbn [fst snd]. split; auto. unfold MAX_ORDER. lia. }
    destruct (Hal _ Hb) as (_ & H0 & _ & Hfit). cbn [fst snd] in *.
    change total_pages with 32768 in Hfit.
    change (2 ^ (MAX_ORDER - 1)) with 32768 in Hfit. lia. }
  assert (H0 : In 0 (L (MAX_ORDER - 1))).
  { destruct (Hcov 0) as ([p o] & [[]|[[]|(Ho & Hp)]] & _).
    { change total_pages with 32768. lia. }
    cbn [fst snd] in *.
    destruct (Z.eq_dec o (MAX_ORDER - 1)) as [->|No].
    - now rewrite <- (Htop p Hp).
    - rewrite (Hlow' o) in Hp by lia. destruct Hp. }
  pose proof (chain_NoDup _ _ _
                (inv_chain _ _ _ _ Inv (MAX_ORDER - 1)
                   ltac:(unfold MAX_ORDER; lia))) as Hnd.
  destruct (L (MAX_ORDER - 1)) as [|a [|b l]].
  - destruct H0.
  - f_equal. apply Htop. now left.
  - exfalso. assert (a = 0) by (apply Htop; now left).
    assert (b = 0) by (apply Htop; right; now left). subst.
    inversion Hnd as [|? ? Hn _]. apply Hn. now left.
Qed.

(** When the caller holds nothing, nothing is allocated. *)
Lemma idle_nothing_allocated s A :
  slab_inv s A [] -> in_use s A [] -> A = [].
Proof.
  intros Inv Huse. destruct A as [|[pg o] A]; auto. exfalso.
  destruct (Huse (pg, o) (or_introl eq_refl))
    as [(Hf & Ha)|(_ & _ & z & [])]. cbn [fst] in *.
  destruct (si_slab _ _ _ Inv pg o (or_introl eq_refl) Hf) as [_ Hok].
  destruct (slab_active_held s [] pg Hok Ha) as (c & i & z & _ & _ & _ & []).
Qed.

Lemma run_do_kfree s Lv ptr size :
  valid_run s Lv -> In (ptr, size) Lv ->
  match kfree 64 s ptr with Some _ => true | None => false end = true ->
  valid_run (do_kfree s ptr) (drop_ptr ptr Lv).
Proof.
  intros Hv HL Hk. unfold do_kfree.
  destruct (kfree 64 s ptr) as [s'|] eqn:E; [|discriminate].
  now apply (run_kfree s Lv 64 ptr size s').
Qed.

Lemma idle_state_run : valid_run idle_state [].
Proof.
  pose proof (run_do_kfree busy_state busy_table 65536 100 busy_state_run
                ltac:(right; now left) ltac:(vm_compute; reflexivity)) as H1.
  change (drop_ptr 65536 busy_table) with [(73728, 8192)] in H1.
  apply (run_do_kfree _ _ 73728 8192 H1); [now left|].
  vm_compute. reflexivity.
Qed.

Lemma alloc_pages_none_empty s o :
  snd (alloc_pages s o) = None ->
  forall k, o <= k < MAX_ORDER -> buddy_free_area s k = None.
Proof.
  intros Hn. unfold alloc_pages in Hn.
  destruct (first_nonempty (Z.to_nat (MAX_ORDER - o)) s o eq_refl)
    as [Hnone|(k & pg & Hk & He & Hp)]; auto.
  rewrite (alloc_scan_found _ s o o k pg (le_n _) Hk He Hp) in Hn.
  discriminate.
Qed.

Lemma full_state_run : valid_run full_state full_table.
Proof.
  assert (H0 : valid_run fresh_state []).
  { apply run_init; [lia|unfold MEM_SIZE, WORD; lia]. }
  pose proof (run_do_kmalloc fresh_state [] MEM_SIZE H0
                ltac:(unfold MEM_SIZE; lia)) as H1.
  replace (snd (do_kmalloc fresh_state MEM_SIZE)) with 65536 in H1
    by (vm_compute; reflexivity).
  exact H1.
Qed.

(** X17. Valid use loses no page: every page frame lies in a block of a
    free list, or is a page of a cache with an object the caller holds on
    it, or lies in the block of a large object the caller holds. *)
Theorem no_page_is_lost s Lv :
  valid_run s Lv ->
  forall x, 0 <= x < total_pages ->
    (exists o p, 0 <= o < MAX_ORDER /\ in_free_list s o p /\
                 covers (p, o) x) \/
    (exists q z, In (q, z) Lv /\ virt_to_page s q = Some x /\
                 flags (MEM_MAP s x) = PG_slab) \/
    (exists z pg, In (page_address s pg, z) Lv /\
                  flags (MEM_MAP s pg) = PG_buddy /\
                  covers (pg, order (MEM_MAP s pg)) x).
Proof.
  intros Hv x Hx. destruct (valid_run_inv s Lv Hv) as (A & Inv & Huse).
  pose proof (si_reach _ _ _ Inv) as Hr.
  destruct (reachable_inv s A Hr) as [L Binv].
  destruct (inv_part _ _ _ _ Binv) as (Hal & _ & Hcov).
  destruct (Hcov x Hx) as ([p o] & [Hb|[[]|(Ho & Hb)]] & Cb).
  - right. destruct (Huse _ Hb) as [(Hf & Ha)|(Hf & Hord & z & Hz)];
      cbn [fst snd] in *.
    + left. destruct (si_slab _ _ _ Inv p o Hb Hf) as [-> Hok].
      destruct (slab_active_held s Lv p Hok Ha)
        as (c & i & z & _ & Hc & Hi & Hz).
      assert (x = p).
      { unfold covers in Cb. cbn [fst snd] in Cb.
        change (2 ^ 0) with 1 in Cb. lia. }
      subst x. exists (slot s p c i), z. split; auto. split; auto.
      now apply slot_page.
    + right. exists z, p. rewrite Hord. auto.
  - left. exists o, p. cbn [fst snd] in *. split; auto. split; auto.
    now apply (inv_in_free_list _ _ _ _ o p Binv).
Qed.

Lemma no_page_is_lost_witness :
  valid_run busy_state busy_table /\
  forall x, 0 <= x < total_pages ->
    (exists o p, 0 <= o < MAX_ORDER /\ in_free_list busy_state o p /\
                 covers (p, o) x) \/
    (exists q z, In (q, z) busy_table /\
                 virt_to_page busy_state q = Some x /\
                 flags (MEM_MAP busy_state x) = PG_slab) \/
    (exists z pg, In (page_address busy_state pg, z) busy_table /\
                  flags (MEM_MAP busy_state pg) = PG_buddy /\
                  covers (pg, order (MEM_MAP busy_state pg)) x).
Proof.
  split; [exact busy_state_run|].
  apply (no_page_is_lost busy_state busy_table). exact busy_state_run.
Defined.

(** X18. Once the caller has given back everything it held, the allocator
    is as after initialisation: the free list of the top order holds the
    one block at page 0, which is marked Free with that order, every other
    free list is empty and no cache has a page. *)
Theorem all_returned_restores_arena s :
  valid_run s [] ->
  (forall k, 0 <= k < MAX_ORDER ->
     buddy_free_area s k = if k =? MAX_ORDER - 1 then Some 0 else None) /\
  next (MEM_MAP s 0) = None /\
  flags (MEM_MAP s 0) = PG_free /\
  order (MEM_MAP s 0) = MAX_ORDER - 1 /\
  (forall c, 0 <= c < SLAB_INDEX_COUNT -> partial (slab_caches s c) = None).
Proof.
  intros Hv. destruct (valid_run_inv s [] Hv) as (A & Inv & Huse).
  pose proof (idle_nothing_allocated s A Inv Huse) as ->.
  destruct (reachable_inv s [] (si_reach _ _ _ Inv)) as [L Binv].
  destruct (all_free_one_block s L Binv) as [Hlow Htop].
  assert (Ht : 0 <= MAX_ORDER - 1 < MAX_ORDER) by (unfold MAX_ORDER; lia).
  pose proof (inv_chain _ _ _ _ Binv _ Ht) as Hc.
  unfold free_list in Hc. rewrite Htop in Hc. simpl in Hc.
  destruct Hc as [Hc1 Hc2].
  split; [|split; [|split; [|split]]].
  - intros k Hk. destruct (k =? MAX_ORDER - 1) eqn:E.
    + apply Z.eqb_eq in E. now subst k.
    + apply Z.eqb_neq in E.
      pose proof (inv_chain _ _ _ _ Binv k Hk) as Hck.
      unfold free_list in Hck. rewrite Hlow in Hck by lia. exact Hck.
  - exact Hc2.
  - apply (inv_free _ _ _ _ Binv (MAX_ORDER - 1) 0 Ht).
    rewrite Htop. now left.
  - apply (inv_free _ _ _ _ Binv (MAX_ORDER - 1) 0 Ht).
    rewrite Htop. now left.
  - intros c Hc. destruct (si_partial _ _ _ Inv c Hc) as (pl & Hpl & Hiff).
    destruct pl as [|pg pl]; [exact Hpl|]. exfalso.
    destruct (proj1 (Hiff pg) (or_introl eq_refl)) as ([] & _).
Qed.

Lemma all_returned_restores_arena_witness :
  valid_run idle_state [] /\
  (forall k, 0 <= k < MAX_ORDER ->
     buddy_free_area idle_state k
       = if k =? MAX_ORDER - 1 then Some 0 else None) /\
  next (MEM_MAP idle_state 0) = None /\
  flags (MEM_MAP idle_state 0) = PG_free /\
  order (MEM_MAP idle_state 0) = MAX_ORDER - 1 /\
  (forall c, 0 <= c < SLAB_INDEX_COUNT ->
     partial (slab_caches idle_state c) = None).
Proof.
  split; [exact idle_state_run|].
  apply (all_returned_restores_arena idle_state). exact idle_state_run.
Defined.

(** X19. Under valid use [kmalloc] returns NULL only when memory is
    exhausted, and then it changes nothing: for a size of a class, every
    free list is empty and the class has no page with a free slot; for a
    larger size, every free list from the order of the request upward is
    empty. *)
Theorem kmalloc_fails_only_when_exhausted s Lv size s' :
  valid_run s Lv -> 0 < size <= 2 ^ 63 ->
  kmalloc s size = Some (s', 0) ->
  s' = s /\
  (size <= 2048 ->
     (forall k, 0 <= k < MAX_ORDER -> buddy_free_area s k = None) /\
     exists c, smallest_class size c /\ partial (slab_caches s c) = None) /\
  (2048 < size ->
     exists o, ceil_log2_pages size o /\
       forall k, o <= k < MAX_ORDER -> buddy_free_area s k = None).
Proof.
  intros Hv Hsz Hk. destruct (valid_run_inv s Lv Hv) as (A & Inv & Huse).
  destruct (kmalloc_routes s size Hsz) as (H1 & H2 & _).
  destruct (size_class slab_sizes 0 size) as [c|] eqn:Ec.
  - destruct (H1 c eq_refl) as [Hsm Ek]. rewrite Ek in Hk.
    pose proof Hsm as (Hc & Hle & _). fold (csize c) in Hle.
    destruct (csize_facts c Hc) as (Y1 & _).
    destruct (slab_inv_kmem_cache_alloc s A Lv c size Inv Hc ltac:(lia))
      as [(_ & E2 & Ep & Ea)|(Hnz & _)]; cbv zeta in *;
      inversion Hk as [Hk']; rewrite Hk' in *; cbn [fst snd] in *.
    + split; auto. split; [|intro; lia]. intros _. split; [|eauto].
      now apply alloc_pages_none_empty.
    + now destruct Hnz.
  - destruct (H2 eq_refl) as (Hbig & o & Hceil & Ek & _). rewrite Ek in Hk.
    pose proof Hceil as (Ho & _).
    destruct (alloc_pages_frame s o) as (_ & _ & _ & Fp & Ff).
    pose proof (reach_alloc s A o) as Hra.
    destruct (snd (alloc_pages s o)) as [pg|] eqn:Ea.
    + exfalso.
      pose proof (allocated_aligned _ _ (pg, o)
                    (Hra pg (si_reach _ _ _ Inv) Ho eq_refl)
                    (or_introl eq_refl)) as Hal.
      destruct (aligned_bytes (fst (alloc_pages s o)) pg o Hal)
        as (_ & Hlo & _).
      destruct (si_base _ _ _ Inv) as [Hb0 _]. rewrite Fp in Hlo.
      inversion Hk as [[Hs Hp]]. lia.
    + inversion Hk as [Hs]. rewrite (Ff eq_refl) in *.
      split; auto. split; [intro; lia|]. intros _. exists o. split; auto.
      now apply alloc_pages_none_empty.
Qed.

Lemma kmalloc_fails_only_when_exhausted_witness :
  let s' := fst (do_kmalloc full_state 100) in
  valid_run full_state full_table /\
  kmalloc full_state 100 = Some (s', 0) /\
  s' = full_state /\
  (100 <= 2048 ->
     (forall k, 0 <= k < MAX_ORDER -> buddy_free_area full_state k = None) /\
     exists c, smallest_class 100 c /\
               partial (slab_caches full_state c) = None) /\
  (2048 < 100 ->
     exists o, ceil_log2_pages 100 o /\
       forall k, o <= k < MAX_ORDER -> buddy_free_area full_state k = None).
Proof.
  intro s'.
  assert (Hk : kmalloc full_state 100 = Some (s', 0)).
  { rewrite (kmalloc_defined full_state 100 ltac:(lia)).
    rewrite (surjective_pairing (do_kmalloc full_state 100)). fold s'.
    replace (snd (do_kmalloc full_state 100)) with 0
      by (vm_compute; reflexivity).
    reflexivity. }
  split; [exact full_state_run|]. split; [exact Hk|].
  apply (kmalloc_fails_only_when_exhausted full_state full_table 100 s');
    [exact full_state_run|lia|exact Hk].
Defined.

(** ** Alignment of what [kmalloc] returns *)

Lemma csize_pow c : 0 <= c < SLAB_INDEX_COUNT -> csize c = 32 * 2 ^ c.
Proof.
  unfold SLAB_INDEX_COUNT. intros Hc.
  assert (E : c = 0 \/ c = 1 \/ c = 2 \/ c = 3 \/ c = 4 \/ c = 5 \/ c = 6)
    by lia.
  destruct E as [->|[->|[->|[->|[->|[->| ->]]]]]]; reflexivity.
Qed.

Lemma csize_divides c c' :
  0 <= c <= c' -> c' < SLAB_INDEX_COUNT ->
  csize c' = csize c * 2 ^ (c' - c).
Proof.
  intros H H'. rewrite !csize_pow by lia.
  replace c' with (c + (c' - c)) at 1 by lia.
  rewrite Z.pow_add_r by lia. lia.
Qed.

(** X20. What [kmalloc] returns under valid use is aligned: counted from
    the start of the arena, a non-NULL result is a multiple of the size of
    the class that serves the request, and a multiple of the page size when
    the request is above the largest class. *)
Theorem kmalloc_result_is_aligned s Lv size s' ptr :
  valid_run s Lv -> 0 <= size < WORD ->
  kmalloc s size = Some (s', ptr) -> ptr <> 0 ->
  (forall c, smallest_class size c ->
     (ptr - PHYS_MEM_START s) mod csize c = 0) /\
  (2048 < size -> (ptr - PHYS_MEM_START s) mod PAGE_SIZE = 0).
Proof.
  intros Hv Hsz Hk Hnz.
  destruct (valid_run_inv s Lv Hv) as (A & Inv & Huse).
  destruct (slab_inv_kmalloc s A Lv size s' ptr Inv Hsz Hk)
    as [(A' & I' & _) _].
  apply Z.eqb_neq in Hnz. rewrite Hnz in I'.
  pose proof (si_live _ _ _ I' ptr size (or_introl eq_refl)) as Hlive.
  rewrite <- (kmalloc_base s size s' ptr Hk).
  destruct Hlive as [(pg & o & HA & Hf & Ho & E & Hs)
                    |(pg & c' & i & HA & Hf & Hsc & Hc' & Hi & E & Hs)].
  - rewrite E, page_address_eq.
    replace (PHYS_MEM_START s' + pg * PAGE_SIZE - PHYS_MEM_START s')
      with (pg * PAGE_SIZE) by lia.
    split; [|intros _; apply Z_mod_mult].
    intros c (Hc & _). destruct (csize_facts c Hc) as (_ & _ & <-).
    rewrite Z.mul_assoc. apply Z_mod_mult.
  - destruct (csize_facts c' Hc') as (Y1 & _ & Y3).
    split; [|intro; lia].
    intros c (Hc & Hle & Hlow). fold (csize c) in Hle.
    assert (Hcc : c <= c').
    { destruct (Z_le_gt_dec c c') as [|Hgt]; auto.
      specialize (Hlow c' ltac:(lia)). fold (csize c') in Hlow. lia. }
    unfold slot in E. rewrite E, page_address_eq.
    destruct (csize_facts c Hc) as (_ & _ & <-).
    rewrite (csize_divides c c') by lia.
    replace (PHYS_MEM_START s' + pg * (cap c * csize c)
             + i * (csize c * 2 ^ (c' - c)) - PHYS_MEM_START s')
      with ((pg * cap c + i * 2 ^ (c' - c)) * csize c) by lia.
    apply Z_mod_mult.
Qed.

Lemma kmalloc_result_is_aligned_witness :
  let r := do_kmalloc busy_state 100 in
  valid_run busy_state busy_table /\
  kmalloc busy_state 100 = Some (fst r, snd r) /\ snd r <> 0 /\
  (forall c, smallest_class 100 c ->
     (snd r - PHYS_MEM_START busy_state) mod csize c = 0) /\
  (2048 < 100 -> (snd r - PHYS_MEM_START busy_state) mod PAGE_SIZE = 0).
Proof.
  intro r.
  assert (Hk : kmalloc busy_state 100 = Some (fst r, snd r)).
  { rewrite (kmalloc_defined busy_state 100 ltac:(lia)).
    now rewrite <- surjective_pairing. }
  assert (Hnz : snd r <> 0).
  { unfold r.
    replace (snd (do_kmalloc busy_state 100)) with 65664
      by (vm_compute; reflexivity).
    lia. }
  split; [exact busy_state_run|]. split; [exact Hk|]. split; [exact Hnz|].
  apply (kmalloc_result_is_aligned busy_state busy_table 100 (fst r) (snd r));
    [exact busy_state_run|unfold WORD; lia|exact Hk|exact Hnz].
Defined.

(** ** An object freed twice *)

Lemma virt_to_page_base s s' a :
  PHYS_MEM_START s' = PHYS_MEM_START s -> virt_to_page s' a = virt_to_page s a.
Proof. intro E. unfold virt_to_page. now rewrite E. Qed.

(** One [kfree] of an object of a slab page that keeps other objects and
    was not full. *)
Lemma kfree_slab_step fuel s ptr pg c :
  ptr <> 0 -> virt_to_page s ptr = Some pg ->
  flags (MEM_MAP s pg) = PG_slab ->
  slab_cache (MEM_MAP s pg) = Some c ->
  active_objects (MEM_MAP s pg) - 1 <> 0 ->
  active_objects (MEM_MAP s pg) - 1
    <> PAGE_SIZE / obj_size (slab_caches s c) - 1 ->
  exists s1,
    kfree fuel s ptr = Some s1 /\
    PHYS_MEM_START s1 = PHYS_MEM_START s /\
    arena s1 = store_ptr (arena s) ptr (freelist (MEM_MAP s pg)) /\
    console s1 = console s /\
    flags (MEM_MAP s1 pg) = PG_slab /\
    slab_cache (MEM_MAP s1 pg) = Some c /\
    freelist (MEM_MAP s1 pg) = ptr /\
    active_objects (MEM_MAP s1 pg) = active_objects (MEM_MAP s pg) - 1 /\
    partial (slab_caches s1 c) = partial (slab_caches s c) /\
    obj_size (slab_caches s1 c) = obj_size (slab_caches s c).
Proof.
  intros Hnz Ev Hf Hsc Ha Hfull.
  exists (slab_reinsert (slab_push s pg ptr) c pg). split.
  - unfold kfree. apply Z.eqb_neq in Hnz. rewrite Hnz, Ev, Hf.
    cbn [Z.land PG_slab Pos.land Z.eqb negb].
    rewrite (kmem_cache_free_unfold fuel s ptr pg c Ev Hf Hsc).
    apply Z.eqb_neq in Ha. now rewrite Ha.
  - destruct (slab_free_shape s pg c ptr)
      as (S1 & S2 & _ & S4 & _ & S6 & _ & _ & S9).
    cbv zeta in *. apply Z.eqb_neq in Hfull. rewrite Hfull in S9.
    destruct (frame_all _ _ S6) as (F1 & _ & F3 & F4 & F5). cbn in F1, F3, F4, F5.
    rewrite S9. repeat split; auto; congruence.
Qed.

Lemma crowded_state_run : valid_run crowded_state crowded_table.
Proof.
  pose proof (run_do_kmalloc _ _ 100 busy_state_run ltac:(lia)) as H1.
  replace (snd (do_kmalloc busy_state 100)) with 65664 in H1
    by (vm_compute; reflexivity).
  cbn [Z.eqb] in H1.
  pose proof (run_do_kmalloc _ _ 100 H1 ltac:(lia)) as H2.
  replace (snd (do_kmalloc (fst (do_kmalloc busy_state 100)) 100))
    with 65792 in H2 by (vm_compute; reflexivity).
  exact H2.
Qed.

(** X21. A second [kfree] of a small object goes unnoticed. Let the caller
    hold an object of a slab page that heads the partial list of its cache
    and has more than two active objects. Two [kfree]s of the object both
    return and print nothing, and after them the next two allocations from
    the cache return the address of that object, both of them. *)
Theorem second_kfree_of_object_goes_unnoticed s Lv ptr size pg c fuel :
  valid_run s Lv -> In (ptr, size) Lv ->
  virt_to_page s ptr = Some pg ->
  flags (MEM_MAP s pg) = PG_slab ->
  slab_cache (MEM_MAP s pg) = Some c ->
  partial (slab_caches s c) = Some pg ->
  2 < active_objects (MEM_MAP s pg) ->
  exists s1 s2,
    kfree fuel s ptr = Some s1 /\ kfree fuel s1 ptr = Some s2 /\
    console s2 = console s /\
    snd (kmem_cache_alloc s2 c) = ptr /\
    snd (kmem_cache_alloc (fst (kmem_cache_alloc s2 c)) c) = ptr.
Proof.
  intros Hv HL Ev Hf Hsc Hp Hact.
  destruct (valid_run_inv s Lv Hv) as (A & Inv & _).
  pose proof (si_reach _ _ _ Inv) as Hr.
  destruct (si_base _ _ _ Inv) as [Hb0 Hb1].
  (* the object is a slot of the page *)
  assert (Hslot : In (pg, 0) A /\ 0 <= c < SLAB_INDEX_COUNT /\
                  exists i, 0 <= i < cap c /\ ptr = slot s pg c i).
  { destruct (si_live _ _ _ Inv _ _ HL)
      as [(g & o & HA & Hfg & _ & E & _)
         |(g & c' & i & HA & Hfg & Hsc' & Hc' & Hi & E & _)].
    - exfalso.
      destruct (aligned_bytes s g o (allocated_aligned s A _ Hr HA))
        as (Hg & _).
      assert (Eg : virt_to_page s ptr = Some g).
      { rewrite E. replace (page_address s g) with (page_address s g + 0)
          by lia. apply page_of_address; auto.
        change PAGE_SIZE with 4096. lia. }
      rewrite Ev in Eg. injection Eg as <-. rewrite Hf in Hfg. discriminate.
    - destruct (aligned_bytes s g 0 (allocated_aligned s A _ Hr HA))
        as (Hg & _).
      assert (Eg : virt_to_page s ptr = Some g).
      { rewrite E. now apply slot_page. }
      rewrite Ev in Eg. injection Eg as <-.
      assert (c' = c) by congruence. subst c'. eauto. }
  destruct Hslot as (HA & Hc & i & Hi & E).
  destruct (aligned_bytes s pg 0 (allocated_aligned s A _ Hr HA))
    as (Hpg & Hlo & Hhi).
  destruct (slot_range s pg c i Hc Hi) as [R1 R2].
  destruct (csize_facts c Hc) as (Y1 & Y2 & Y3).
  change (2 ^ 0) with 1 in Hhi. rewrite <- E in R1, R2.
  assert (Hptr : 0 < ptr < WORD) by lia.
  (* the page has a free slot, so it is not full *)
  assert (Hroom : active_objects (MEM_MAP s pg) <= cap c - 1).
  { destruct (si_partial _ _ _ Inv c Hc) as (pl & Hpl & Hiff).
    unfold partial_list in Hpl. rewrite Hp in Hpl.
    destruct pl as [|q pl]; simpl in Hpl; [discriminate|].
    destruct Hpl as [Eq _]. injection Eq as <-.
    destruct (proj1 (Hiff pg) (or_introl eq_refl)) as (_ & _ & _ & Hfn).
    destruct (si_slab _ _ _ Inv pg 0 HA Hf)
      as [_ (c0 & fl & _ & Hsc0 & _ & _ & Hch & Ha & _)].
    assert (c0 = c) by congruence. subst c0.
    destruct fl as [|j fl]; simpl in Hch; [contradiction|].
    rewrite Ha. simpl length. lia. }
  pose proof (si_sizes _ _ _ Inv c Hc) as Hsize.
  (* the two frees *)
  destruct (kfree_slab_step fuel s ptr pg c)
    as (s1 & K1 & P1 & A1 & C1 & F1 & SC1 & FL1 & AC1 & PT1 & OS1);
    auto; try lia.
  { rewrite Hsize. fold (cap c). lia. }
  destruct (kfree_slab_step fuel s1 ptr pg c)
    as (s2 & K2 & P2 & A2 & C2 & F2 & SC2 & FL2 & AC2 & PT2 & OS2);
    auto; try lia.
  { now rewrite (virt_to_page_base s s1). }
  { rewrite OS1, Hsize. fold (cap c). lia. }
  exists s1, s2. split; auto. split; auto. split; [congruence|].
  (* the free list of the page now loops on the object *)
  assert (Hloop : load_ptr (arena s2) ptr = ptr).
  { rewrite A2, FL1. apply load_store_same. lia. }
  assert (Hp2 : partial (slab_caches s2 c) = Some pg) by congruence.
  assert (Hfn2 : freelist (MEM_MAP s2 pg) <> 0) by (rewrite FL2; lia).
  destruct (alloc_from_partial_shape s2 c pg Hp2 Hfn2)
    as (T1 & _ & _ & _ & _ & _ & T7 & _ & _ & T10).
  cbv zeta in *. rewrite FL2, Hloop in *.
  replace (ptr =? 0) with false in T10 by (symmetry; apply Z.eqb_neq; lia).
  assert (Ek2 : kmem_cache_alloc s2 c = alloc_from_partial s2 c).
  { unfold kmem_cache_alloc. now rewrite Hp2. }
  rewrite Ek2. split; [exact T1|].
  set (s3 := fst (alloc_from_partial s2 c)) in *.
  assert (Hp3 : partial (slab_caches s3 c) = Some pg).
  { rewrite T10. reflexivity. }
  destruct (frame_all _ _ T7) as (_ & _ & _ & FL3 & _). cbn in FL3.
  assert (Hfn3 : freelist (MEM_MAP s3 pg) <> 0) by (rewrite FL3; lia).
  destruct (alloc_from_partial_shape s3 c pg Hp3 Hfn3) as (U1 & _).
  cbv zeta in U1. unfold kmem_cache_alloc. rewrite Hp3, U1. exact FL3.
Qed.

Lemma second_kfree_of_object_goes_unnoticed_witness :
  exists s1 s2,
    kfree 64 crowded_state 65536 = Some s1 /\
    kfree 64 s1 65536 = Some s2 /\
    console s2 = console crowded_state /\
    snd (kmem_cache_alloc s2 2) = 65536 /\
    snd (kmem_cache_alloc (fst (kmem_cache_alloc s2 2)) 2) = 65536.
Proof.
  apply (second_kfree_of_object_goes_unnoticed
           crowded_state crowded_table 65536 100 0 2 64).
  - exact crowded_state_run.
  - right. right. right. now left.
  - vm_compute. reflexivity.
  - vm_compute. reflexivity.
  - vm_compute. reflexivity.
  - vm_compute. reflexivity.
  - vm_compute. reflexivity.
Defined.
